(* ===== verification/_CoqProject ===== *)
-Q . S2P
Prelude.v
Bytes.v
Guard.v
Blob.v
Fragment.v
Buffer.v
Alloc.v
FragString.v
Reader.v
Input.v
Http2.v
Http.v
Optional.v
Ring.v
Channel.v
Future.v
Queues.v
Worker.v
Dispatch.v
Signals.v
Bus.v
Shard.v
PageList.v
PageAlloc.v
Malloc.v
AllocSpec.v
CrossFree.v
Isolation.v
Pipes.v
Socket.v
Reactor.v
Connection.v
Listener.v
Datagram.v
Startup.v
Runtime.v
Ports.v
Endpoint.v
Posix.v
Bootstrap.v
Kernel.v
Server.v
Util.v
Epoll.v
Ends.v
Netpoll.v
HttpCodec.v
Libevent.v
Casts.v
Polling.v
