(* ===== verification/Prelude.v ===== *)
(** * xi: a verification development

    xi is a C++14 framework for network servers: buffers of shared memory
    fragments, protocol decoders that consume them, pipes of filters over
    sockets, and the run time that schedules the code (futures, channels, shards,
    two schedulers of coroutines) with its own memory allocator.
    Paths below are relative to the repository.

    ** Files

    - Prelude (this file): outcomes of a C++ call, machine integers, lists
      indexed by [Z], filters, invariants of step relations, tactics ([zbool],
      [case_if], [inv_ret], [unwrap64], [permute]).
    - Bytes: memory as a map from addresses to bytes, [byte_range]
      (xi/io/byte_range.h).
    - Guard, Blob: reference-counted guards in a heap, with the log of what they
      released (xi/io/detail/guard.h, xi/ext/tagged_ptr.h), and the byte ranges
      they keep alive (xi/io/byte_blob.h).
    - Fragment, Buffer: a window with head and tail room into a blob, and a list
      of fragments (xi/io/fragment.h, xi/io/buffer.h, src/io/fragment.cpp,
      src/io/buffer.cpp).
    - Alloc: allocators, and the iovec adapter (xi/io/basic_buffer_allocator.h,
      xi/io/buffer_iovec_adapter.h); the C heap is the interface [c_heap].
    - FragString, Reader: strings and marks over fragments
      (xi/io/fragment_string.h, src/io/fragment_string.cpp, xi/io/buffer_reader.h).
    - Input: what decoders need of a buffer, as a class [input] with its laws
      [input_spec]; buffers and byte lists are its instances.
    - Http2, Http: the decoders (xi/io/proto/http2/, xi/io/proto/http/).
    - Optional: [opt], [result], [expected] (xi/util/optional.h,
      xi/util/result.h, xi/ext/expected.h).
    - Ring: the polymorphic ring buffer (xi/util/polymorphic_sp_sc_ring_buffer.h).
    - Channel: spin locks and channels as step relations (xi/util/spin_lock.h,
      xi/core/channel.h).  Ends: the ends of channels, which share their buses by
      the pointers of xi/util/ownership.h.
    - Future: futures, promises and latches over a store of shared states
      (xi/core/future/, xi/core/latch.h).
    - Queues: the queues of the v2 scheduler and its execution budgets
      (xi/core/worker_queue.h, sleep_queue.h, shared_queue.h,
      execution_budget.h); the sorted container is the class [timed_set].
    - Worker: the worker's loop, its netpoller and generic resumables
      (src/core/worker.cpp, src/core/netpoller.cpp, xi/core/generic_resumable.h).
    - Dispatch: the scheduler shared by workers and producers
      (xi/core/scheduler.h), one step per access to shared memory.
    - Signals, Bus, Shard: the signal poller, the message bus and the event
      loop of a shard with its shutdown (src/core/signals.cpp,
      src/core/message_bus.cpp, src/core/shard.cpp, src/core/bootstrap.cpp).
    - PageList, PageAlloc, Malloc: the memory allocator of one cpu
      (src/core/memory/memory.cpp): lists of pages and size classes, spans of
      pages with their tiling invariant, then small pools, reclaimers, growing, and
      [malloc], [free] and the like.  AllocSpec: the allocator against runs of
      pages.  CrossFree: the lock-free list of objects other cpus freed, one step
      per access to shared memory.
    - Isolation: the older scheduler (xi/core/worker.h, xi/core/coordinator.h,
      xi/core/policy/worker_isolation.h, src/core/resumable.cpp,
      src/core/reactor/epoll.cpp), its workers and resumables as one [world]; Epoll:
      setting up its poller: signals, timers and descriptors.
    - Pipes: filters, their contexts and the links between them
      (xi/io/pipes/); a message type is a number, a filter what it forwards.
    - Socket: stream sockets over the system calls (src/io/net/socket2.cpp), an
      interface [socket_api] with the laws [socket_spec].
    - Reactor: events, handlers and the epoll loop (src/core/epoll/,
      src/core/event_handler.cpp, xi/core/reactor.h) over [epoll_api].
    - Connection: the client pipe (xi/io/net/async_channel.h) over Socket,
      Reactor, Buffer and an allocator with the laws [connection_allocator].
    - Listener, Datagram: the acceptor and connector pipes, over the reactors of
      all shards, with a turn per kind and address family, and the datagram pipe of
      the same file.
    - Startup: the threads that [scheduler::start] and [coordinator::start]
      create (xi/core/scheduler.h, xi/core/coordinator.h), one line of one thread
      per step.  Runtime: the two run times (src/core/runtime.cpp, xi/core/spawn.h,
      yield.h, sleep.h), over Dispatch and Isolation.
    - Ports: sockets and listeners that wait in a coroutine
      (src/io/net/socket.cpp, src/io/net/listener.cpp, src/io/pollable_fd.cpp),
      over the interface [port_api].
    - Endpoint, Server, Posix: addresses and options (xi/io/net/endpoint.h,
      channel_options.h), server sockets (src/io/net/socket2.cpp) and the socket of
      xi/io/net/socket/posix.hpp with the descriptors it leaves open.
    - Bootstrap: setting up the shards and their buses, the loops of the shards
      and their shutdown (xi/core/bootstrap.h, src/core/bootstrap.cpp, run of
      src/core/shard.cpp), one line of one thread per step.  Kernel: the
      kernel over the shards of Shard (src/core/kernel.cpp), and the vector of
      pollers of a shard (src/core/shard.cpp); whether its past-the-end iterator
      survives an insertion without reallocation is the parameter [end_stays].
    - Util: numbers of distinct types, the stacks of coroutines
      (xi/ext/number.h, xi/core/generic_resumable.h).  Casts: casts within a group
      of classes and of pointers that own (xi/ext/fast_cast.h, xi/ext/pointer.h).
    - Netpoll: the poller of the newer scheduler (src/core/netpoller.cpp) over
      [epoll_api] and [epoll_wait_api].  Polling: a worker of Worker on that poller,
      which gives it the inputs Worker leaves open.  Libevent: the events and the loop of
      src/core/libevent/ over [libevent_api].
    - HttpCodec: the [read] of the HTTP/1 codec, over any buffer that can be
      appended to; no program constructs the codec as it stands.

    ** Conventions

    A Module bears the name of the class whose operations it holds and a
    definition the name of the function; state is a Record passed along and
    returned.  A call ends in an [outcome]: a value, a failed assertion, an
    exception, undefined behaviour, or [Diverge] when a loop ran out of fuel.
    Integers are [Z] with their wrap-around written out ([u8] to [u64]).
    Concurrency is a step relation over the shared state, with [rtc] of steps
    from the initial state as reachability.

    ** Theorems

    Data path: guards are released once; splitting, skipping, reading, writing
    and cloning buffers is described by the list of bytes of the buffer
    (Guard, Fragment, Buffer, Alloc, FragString, Reader).  Decoders: HTTP/2
    headers and SETTINGS frames round-trip, the preface is decided, the inputs on
    which decoding does not return are characterised, and a request that comes in
    pieces is read as in one (Http2, Http, HttpCodec).
    Run time: chains of continuations do not depend on when they are attached
    (Future), the ring buffer refines a queue (Ring), channels deliver once
    and live as long as one of their ends (Channel, Ends), sleepers wake in order
    (Queues), a worker owns each resumable in one place and serves its queue in
    turns (Worker), its poller loses none (Netpoll), on its poller it resumes none
    that is gone (Polling), the scheduler dispatches each
    job once (Dispatch), a shard runs what was posted in order and stops when a task throws (Shard), the older
    scheduler keeps each resumable in one queue and serves it in order (Isolation).
    Starting: the threads of a scheduler and of a bootstrap meet at their barrier
    with everything set up, and starting ends (Startup, Bootstrap); a shutdown
    that begins while all shards are in their loops ends the program (Bootstrap);
    every spawn goes to a parked worker or to the next in turn, in every
    interleaving with the workers (Runtime); a turn polls every poller (Kernel), and
    shutting a kernel down ends the loop of each core.
    Memory: allocating pages refines an allocator of runs of pages, fails exactly
    when no run is long enough, and freeing undoes it (AllocSpec); size classes
    fit and waste a bounded share (PageList); objects freed by other cpus are
    freed once, and can always be (CrossFree).
    Input and output: pipes deliver in order and to filters of the right type
    (Pipes), sockets send prefixes and append what they receive (Socket), epoll
    only reports live handlers (Reactor), and a connection transfers bytes in
    order in both directions, whatever its filters do and however events, tasks
    and cancellations interleave (Connection); new connections are spread over
    the shards in turn and announced once (Listener); a datagram pipe keeps the
    boundaries of the non-empty datagrams it sends and receives (Datagram); a coroutine sends all of
    its bytes however often it has to wait (Ports); endpoints and options are read
    back as they were made, and an accepted socket has all its options (Endpoint,
    Server).  Where
    the code does something else than what it is for, a theorem states what it
    does: lost wakeups, dropped sleepers, the reply path of the message bus,
    the second pending signal, the carried-over budget, exceptions in tasks
    and shutdown hooks, buffered channels, continuations that return futures,
    pipes that grow at the front, short writes of a connection, writes of a
    coroutine, buses of shards that are not there yet, shards deleted while others
    post to them, shutdowns lost on a shard that starts late, posix sockets that are
    closed by their moves and whose numbers are reused, ring buffers of sizes that
    are no multiple of eight, empty datagrams, paths without a terminator.

    ** Fuel and bounds

    Fuel is never a hypothesis of a result that returns unless the bound is
    given: releasing a guard takes at most the number of live implementations
    plus one, setting a shared state at most the number of states
    ([set_fuel]), a decoder one more than the bytes of its input
    ([input_fuel]), the signal loop 64 turns, reclaiming at most the pages in use
    and [reclaim_fuel] more, sending a buffer one more than its size, a message
    one step per context; a connection reads three times at most for an event,
    and without bound when it reads on its own.  A coroutine that waits takes as
    many rounds as the kernel refuses ([patience]); starting [n] threads takes at
    most [6 n + 2] steps, shutting [n] shards down [4 n + 3] besides the turns of
    shards that were not told to stop yet.  A claim that code does not return says that every
    fuel gives [Diverge].  Sizes are below 2^63 where the code subtracts them;
    the scheduler has at most 64 workers, the width of its mask.

    ** Not modelled

    Of the memory allocator the layout in huge pages, NUMA, mmap and the
    statistics.  The coroutine pipe [coro_socket], whose data sink is made with one
    argument where its constructor takes two, [sharded_service] and kernel_utils.h,
    which are written against an executor pool that is commented out and templates
    that cannot be instantiated, and the poller of the message buses, which is never
    registered.  Calls of hwloc, the options of the command line (Boost), aliases of
    library names, examples and tests.  Addresses of peers are left out where the code only passes them on.  The
    allocators are assumed not to hand out an address again that was freed (an
    address stands for an allocation). *)
From Stdlib Require Export ZArith Lia.
From Stdlib Require Import Permutation.
From stdpp Require Export base list gmap numbers.
From stdpp Require Import options.

#[global] Open Scope Z_scope.

(** ** Outcomes of a C++ call

    [Ret] is a normal return; [Abort] an [assert] that fails (the build never
    defines NDEBUG); [Throw] an exception that leaves the call; [Undef] a step
    the language leaves undefined (dereferencing an end iterator, a null
    pointer or a destroyed object); [Diverge] is only used by loops that are
    run with fuel, when the fuel is used up. *)

Inductive exn : Type :=
  | optional_panic
  | system_error (code : Z)
  | bad_alloc
  | invalid_argument
  | out_of_range
  | broken_promise_exception
  | invalid_promise_exception
  | logic_error
  | runtime_error
  | bad_get
  | user_exception (tag : Z).

Inductive outcome (A : Type) : Type :=
  | Ret (a : A)
  | Abort
  | Throw (e : exn)
  | Undef
  | Diverge.
Arguments Ret {A} _.
Arguments Abort {A}.
Arguments Throw {A} _.
Arguments Undef {A}.
Arguments Diverge {A}.

#[export] Instance exn_eq_dec : EqDecision exn.
Proof. solve_decision. Defined.

Definition bindO {A B : Type} (m : outcome A) (k : A -> outcome B) : outcome B :=
  match m with
  | Ret a => k a
  | Abort => Abort
  | Throw e => Throw e
  | Undef => Undef
  | Diverge => Diverge
  end.

Declare Scope xi_scope.
Delimit Scope xi_scope with xi.
Notation "'do' x <- m ;; k" := (bindO m (fun x => k))
  (at level 10, x name, m at level 99, k at level 200) : xi_scope.
Notation "'do' ' x <- m ;; k" := (bindO m (fun x => k))
  (at level 10, x strict pattern, m at level 99, k at level 200) : xi_scope.
#[global] Open Scope xi_scope.

(** [assert(c)] followed by the rest of the body. *)
Definition assertO {A : Type} (c : bool) (k : outcome A) : outcome A :=
  if c then k else Abort.

(** Dereferencing a pointer or iterator that may be null or past the end. *)
Definition derefO {A : Type} (o : option A) : outcome A :=
  match o with Some a => Ret a | None => Undef end.

Definition is_ret {A : Type} (m : outcome A) : bool :=
  match m with Ret _ => true | _ => false end.

Lemma bindO_ret {A B : Type} (m : outcome A) (k : A -> outcome B) (b : B) :
  bindO m k = Ret b <-> exists a, m = Ret a /\ k a = Ret b.
Proof.
  split.
  - destruct m; simpl; intros H; try discriminate. eauto.
  - intros (a & -> & H). exact H.
Qed.

Lemma assertO_ret {A : Type} (c : bool) (k : outcome A) (a : A) :
  assertO c k = Ret a <-> c = true /\ k = Ret a.
Proof. destruct c; simpl; intuition discriminate. Qed.

(** ** Machine integers *)

Definition wrap (w x : Z) : Z := x mod 2 ^ w.
Definition u8 (x : Z) : Z := wrap 8 x.
Definition u16 (x : Z) : Z := wrap 16 x.
Definition u32 (x : Z) : Z := wrap 32 x.
Definition u64 (x : Z) : Z := wrap 64 x.

(** Largest [usize], the value of the default arguments [usize = -1]. *)
Definition usize_max : Z := 2 ^ 64 - 1.

(** [make_signed_t< usize >(x) >= 0]. *)
Definition signed_nonneg (x : Z) : bool := u64 x <? 2 ^ 63.

(** Reading a 32-bit pattern as [i32]. *)
Definition i32 (x : Z) : Z :=
  let y := u32 x in if y <? 2 ^ 31 then y else y - 2 ^ 32.

Lemma pow2_64 : 2 ^ 64 = 18446744073709551616.
Proof. reflexivity. Qed.
Lemma pow2_63 : 2 ^ 63 = 9223372036854775808.
Proof. reflexivity. Qed.
Lemma pow2_32 : 2 ^ 32 = 4294967296.
Proof. reflexivity. Qed.
Lemma pow2_31 : 2 ^ 31 = 2147483648.
Proof. reflexivity. Qed.

Ltac unfold_pow2 := rewrite ?pow2_64, ?pow2_63, ?pow2_32, ?pow2_31 in *.

Lemma wrap_id (w x : Z) : 0 <= x < 2 ^ w -> wrap w x = x.
Proof. intros. unfold wrap. apply Z.mod_small; auto. Qed.

Lemma wrap_range (w x : Z) : 0 <= w -> 0 <= wrap w x < 2 ^ w.
Proof. intros. unfold wrap. apply Z.mod_pos_bound, Z.pow_pos_nonneg; lia. Qed.

Lemma u64_id (x : Z) : 0 <= x < 2 ^ 64 -> u64 x = x.
Proof. apply wrap_id. Qed.
Lemma u32_id (x : Z) : 0 <= x < 2 ^ 32 -> u32 x = x.
Proof. apply wrap_id. Qed.
Lemma u16_id (x : Z) : 0 <= x < 2 ^ 16 -> u16 x = x.
Proof. apply wrap_id. Qed.
Lemma u8_id (x : Z) : 0 <= x < 2 ^ 8 -> u8 x = x.
Proof. apply wrap_id. Qed.

Lemma u64_range (x : Z) : 0 <= u64 x < 2 ^ 64.
Proof. apply wrap_range. lia. Qed.
Lemma u32_range (x : Z) : 0 <= u32 x < 2 ^ 32.
Proof. apply wrap_range. lia. Qed.
Lemma u8_range (x : Z) : 0 <= u8 x < 2 ^ 8.
Proof. apply wrap_range. lia. Qed.

Lemma signed_nonneg_true (x : Z) : 0 <= x < 2 ^ 63 -> signed_nonneg x = true.
Proof.
  intros. unfold signed_nonneg. rewrite u64_id by (unfold_pow2; lia).
  apply Z.ltb_lt. lia.
Qed.

(** Removes the wrap-arounds whose argument the context keeps in range. *)
Ltac unwrap64 :=
  repeat match goal with
  | |- context [u64 ?x] => rewrite (u64_id x) by (unfold_pow2; lia)
  | H : context [u64 ?x] |- _ => rewrite (u64_id x) in H by (unfold_pow2; lia)
  end.

(** Turns boolean comparisons into propositions and splits on them. *)
Ltac zbool :=
  repeat match goal with
  | H : (_ && _)%bool = true |- _ => apply andb_true_iff in H; destruct H
  | H : (_ || _)%bool = false |- _ => apply orb_false_iff in H; destruct H
  | H : (_ <? _) = true |- _ => apply Z.ltb_lt in H
  | H : (_ <? _) = false |- _ => apply Z.ltb_ge in H
  | H : (_ <=? _) = true |- _ => apply Z.leb_le in H
  | H : (_ <=? _) = false |- _ => apply Z.leb_gt in H
  | H : (_ =? _) = true |- _ => apply Z.eqb_eq in H
  | H : (_ =? _) = false |- _ => apply Z.eqb_neq in H
  | H : negb _ = true |- _ => apply negb_true_iff in H
  | H : negb _ = false |- _ => apply negb_false_iff in H
  end.

Ltac case_bool b := let E := fresh "E" in destruct b eqn:E; zbool.

(** Case analysis on the next boolean test of the goal. *)
Ltac case_if :=
  match goal with
  | |- context [if ?b then _ else _] => case_bool b
  end.

(** Inverts a monadic equation [m = Ret _] of the context, step by step. *)
Ltac inv_ret :=
  repeat match goal with
  | H : bindO _ _ = Ret _ |- _ =>
      apply bindO_ret in H; destruct H as (? & ? & H); simpl in H
  | H : assertO _ _ = Ret _ |- _ => apply assertO_ret in H; destruct H
  | H : Ret _ = Ret _ |- _ => inversion H; clear H; subst
  | H : (_, _) = (_, _) |- _ => inversion H; clear H; subst
  | H : Throw _ = Ret _ |- _ => discriminate H
  | H : Undef = Ret _ |- _ => discriminate H
  | H : Abort = Ret _ |- _ => discriminate H
  end.

(** [count_trailing_zeroes] of xi/ext/number.h on 64 bits; [ctz_from n i] looks
    at [n] bits from bit [i] on. *)
Fixpoint ctz_from (n i : nat) (m : Z) : nat :=
  match n with
  | O => i
  | S n => if Z.testbit m (Z.of_nat i) then i else ctz_from n (S i) m
  end.
Definition count_trailing_zeroes (m : Z) : nat := ctz_from 64 0 m.

Lemma ctz_from_ok n i m j : (i <= j < i + n)%nat -> Z.testbit m (Z.of_nat j) = true ->
  Z.testbit m (Z.of_nat (ctz_from n i m)) = true.
Proof.
  revert i. induction n as [|n IH]; intros i Hj Hm; [lia|]. cbn [ctz_from].
  destruct (Z.testbit m (Z.of_nat i)) eqn:E; [done|]. apply IH; [|done].
  destruct (decide (i = j)) as [->|]; [congruence|lia].
Qed.

(** The first bit set, when the ones before it are clear. *)
Lemma ctz_from_first n i m j : (i <= j < i + n)%nat -> Z.testbit m (Z.of_nat j) = true ->
  (forall k, (i <= k < j)%nat -> Z.testbit m (Z.of_nat k) = false) -> ctz_from n i m = j.
Proof.
  revert i. induction n as [|n IH]; intros i Hj Hm Hk; [lia|]. cbn [ctz_from].
  destruct (decide (i = j)) as [->|Hne]; [by rewrite Hm|]. rewrite Hk by lia. apply IH; [lia|done|].
  intros k ?. apply Hk. lia.
Qed.

(** xi/ext/align.h at [usize] and at [unsigned]; alignments are powers of two. *)
Definition align_up (v align : Z) : Z := Z.land (u64 (u64 (v + align) - 1)) (Z.lnot (align - 1)).
Definition align_down (v align : Z) : Z := Z.land v (Z.lnot (align - 1)).
Definition align_up32 (v align : Z) : Z := Z.land (u32 (u32 (v + align) - 1)) (Z.lnot (align - 1)).

(** Clearing the low bits rounds down to a multiple. *)
Lemma land_lnot_ones x k : 0 <= k -> Z.land x (Z.lnot (2 ^ k - 1)) = x / 2 ^ k * 2 ^ k.
Proof.
  intros Hk. rewrite Z.sub_1_r, <- Z.ones_equiv, <- Z.ldiff_land, Z.ldiff_ones_r by done.
  rewrite Z.shiftl_mul_pow2, Z.shiftr_div_pow2 by done. done.
Qed.

(** ** Lists indexed by [Z] *)

Definition zlen {A : Type} (l : list A) : Z := Z.of_nat (length l).
Definition ztake {A : Type} (n : Z) (l : list A) : list A := take (Z.to_nat n) l.
Definition zdrop {A : Type} (n : Z) (l : list A) : list A := drop (Z.to_nat n) l.
Definition znth {A : Type} (l : list A) (n : Z) : option A :=
  if n <? 0 then None else l !! Z.to_nat n.

Create HintDb xi discriminated.
Create HintDb zlist.

Section lists.
Context {A : Type}.
Implicit Types (l k : list A) (n i : Z).

Lemma zlen_nonneg l : 0 <= zlen l.
Proof. unfold zlen. lia. Qed.

Lemma zlen_nil : zlen (@nil A) = 0.
Proof. reflexivity. Qed.

Lemma zlen_cons x l : zlen (x :: l) = 1 + zlen l.
Proof. unfold zlen. simpl length. lia. Qed.

Lemma zlen_app l k : zlen (l ++ k) = zlen l + zlen k.
Proof. unfold zlen. rewrite length_app. lia. Qed.

Lemma zlen_zero l : zlen l = 0 -> l = [].
Proof. destruct l; [done|]. rewrite zlen_cons. pose proof (zlen_nonneg l). lia. Qed.

Lemma zlen_take n l : 0 <= n -> zlen (ztake n l) = Z.min n (zlen l).
Proof. intros. unfold zlen, ztake. rewrite length_take. lia. Qed.

Lemma zlen_drop n l : 0 <= n -> zlen (zdrop n l) = Z.max 0 (zlen l - n).
Proof. intros. unfold zlen, zdrop. rewrite length_drop. lia. Qed.

Lemma ztake_zdrop n l : ztake n l ++ zdrop n l = l.
Proof. apply take_drop. Qed.

Lemma ztake_0 l : ztake 0 l = [].
Proof. apply take_0. Qed.

Lemma zdrop_0 l : zdrop 0 l = l.
Proof. apply drop_0. Qed.

Lemma ztake_neg n l : n <= 0 -> ztake n l = [].
Proof. intros. unfold ztake. replace (Z.to_nat n) with 0%nat by lia. apply take_0. Qed.

Lemma ztake_ge n l : zlen l <= n -> ztake n l = l.
Proof. unfold zlen, ztake. intros. apply take_ge. lia. Qed.

Lemma zdrop_ge n l : zlen l <= n -> zdrop n l = [].
Proof. unfold zlen, zdrop. intros. apply drop_ge. lia. Qed.

Lemma ztake_app_le n l k : n <= zlen l -> ztake n (l ++ k) = ztake n l.
Proof. unfold zlen, ztake. intros. apply take_app_le. lia. Qed.

Lemma ztake_app_ge n l k :
  zlen l <= n -> ztake n (l ++ k) = l ++ ztake (n - zlen l) k.
Proof.
  unfold zlen, ztake. intros. rewrite take_app_ge by lia. do 2 f_equal. lia.
Qed.

Lemma zdrop_app_le n l k : n <= zlen l -> zdrop n (l ++ k) = zdrop n l ++ k.
Proof. unfold zlen, zdrop. intros. apply drop_app_le. lia. Qed.

Lemma zdrop_app_ge n l k : zlen l <= n -> zdrop n (l ++ k) = zdrop (n - zlen l) k.
Proof.
  unfold zlen, zdrop. intros. rewrite drop_app_ge by lia. f_equal. lia.
Qed.

Lemma zdrop_zdrop n i l : 0 <= n -> 0 <= i -> zdrop n (zdrop i l) = zdrop (n + i) l.
Proof. intros. unfold zdrop. rewrite drop_drop. f_equal. lia. Qed.

Lemma ztake_ztake n i l : ztake n (ztake i l) = ztake (Z.min n i) l.
Proof. unfold ztake. rewrite take_take. f_equal. lia. Qed.

Lemma ztake_zdrop_comm n i l :
  0 <= n -> 0 <= i -> ztake n (zdrop i l) = zdrop i (ztake (i + n) l).
Proof.
  intros. unfold ztake, zdrop. rewrite take_drop_commute. do 2 f_equal. lia.
Qed.

Lemma znth_cons x l n : 0 <= n -> znth (x :: l) (n + 1) = znth l n.
Proof.
  intros. unfold znth. rewrite !(proj2 (Z.ltb_ge _ _)) by lia.
  by replace (Z.to_nat (n + 1)) with (S (Z.to_nat n)) by lia.
Qed.

Lemma ztake_cons x l n : 0 <= n -> ztake (n + 1) (x :: l) = x :: ztake n l.
Proof. intros. unfold ztake. by replace (Z.to_nat (n + 1)) with (S (Z.to_nat n)) by lia. Qed.

Lemma ztake_app_exact l k n : n = zlen l -> ztake n (l ++ k) = l.
Proof. intros ->. rewrite ztake_app_le by lia. apply ztake_ge. lia. Qed.

Lemma zdrop_app_exact l k n : n = zlen l -> zdrop n (l ++ k) = k.
Proof. intros ->. rewrite zdrop_app_ge by lia. rewrite Z.sub_diag. apply zdrop_0. Qed.
End lists.

#[export] Hint Rewrite @zlen_nil @zlen_cons @zlen_app @zdrop_0 @ztake_0 : zlist.
#[export] Hint Resolve zlen_nonneg : xi.

(** Sum of a measure over a list. *)
Fixpoint zsum {A : Type} (f : A -> Z) (l : list A) : Z :=
  match l with
  | [] => 0
  | x :: l => f x + zsum f l
  end.

Lemma zsum_app {A : Type} (f : A -> Z) (l k : list A) :
  zsum f (l ++ k) = zsum f l + zsum f k.
Proof. induction l as [|x l IH]; simpl; [lia|]. rewrite IH. lia. Qed.

Lemma zsum_nonneg {A : Type} (f : A -> Z) (l : list A) :
  Forall (fun x => 0 <= f x) l -> 0 <= zsum f l.
Proof. induction 1; simpl; lia. Qed.

Lemma zsum_rev {A : Type} (f : A -> Z) (l : list A) : zsum f (rev l) = zsum f l.
Proof. induction l; simpl; [done|]. rewrite zsum_app. simpl. lia. Qed.

Lemma zsum_perm {A : Type} (f : A -> Z) (l k : list A) : l ≡ₚ k -> zsum f l = zsum f k.
Proof. induction 1; simpl; lia. Qed.

Lemma zsum_cat {A B : Type} (f : B -> Z) (g : A -> list B) (l : list A) :
  zsum f (l ≫= g) = zsum (fun x => zsum f (g x)) l.
Proof. induction l as [|x l IH]; [done|]. rewrite bind_cons, zsum_app, IH. done. Qed.

(** Taking an element out of the middle of a list without duplicates. *)
Lemma elem_of_middle {A : Type} (l1 l2 : list A) (x y : A) :
  y ∈ l1 ++ x :: l2 <-> y = x \/ y ∈ l1 ++ l2.
Proof. rewrite !elem_of_app, elem_of_cons. tauto. Qed.

Lemma NoDup_middle {A : Type} (l1 l2 : list A) (x y : A) :
  NoDup (l1 ++ x :: l2) -> y ∈ l1 ++ l2 <-> y <> x /\ y ∈ l1 ++ x :: l2.
Proof.
  intros Hnd. rewrite elem_of_middle. split; [|tauto]. intros Hy. split; [|tauto]. intros ->.
  rewrite <- Permutation_middle in Hnd. by apply list.NoDup_cons in Hnd as [? _].
Qed.

(** Filters. *)
Section filters.
Context {A : Type} (P Q : A -> Prop) `{!forall x, Decision (P x), !forall x, Decision (Q x)}.

Lemma filter_all (l : list A) : (forall x, x ∈ l -> P x) -> filter P l = l.
Proof.
  induction l as [|x l IH]; intros Hl; [done|]. rewrite filter_cons_True by (apply Hl; constructor).
  f_equal. apply IH. intros y Hy. apply Hl. by constructor.
Qed.

Lemma filter_none (l : list A) : (forall x, x ∈ l -> ~ P x) -> filter P l = [].
Proof.
  induction l as [|x l IH]; intros Hl; [done|]. rewrite filter_cons_False by (apply Hl; constructor).
  apply IH. intros y Hy. apply Hl. by constructor.
Qed.

Lemma filter_ext_in (l : list A) : (forall x, x ∈ l -> P x <-> Q x) -> filter P l = filter Q l.
Proof.
  induction l as [|x l IH]; intros Hl; [done|]. rewrite !filter_cons.
  rewrite (decide_ext _ _ _ _ (Hl x (list_elem_of_here x l))).
  rewrite IH; [done|]. intros y Hy. apply Hl. by constructor.
Qed.

Lemma filter_split (l : list A) : l ≡ₚ filter P l ++ filter (fun x => ~ P x) l.
Proof.
  induction l as [|x l IH]; [done|]. rewrite !filter_cons. destruct (decide (P x)).
  - rewrite decide_False by tauto. simpl. by constructor.
  - rewrite decide_True by done. rewrite <- Permutation_middle. by constructor.
Qed.
End filters.

(** Replacing one element of a list. *)
Lemma filter_insert_length {A : Type} (P : A -> bool) (l : list A) i x y : l !! i = Some x ->
  (length (filter (fun t => P t = true) (<[i := y]> l)) + (if P x then 1 else 0) =
   length (filter (fun t => P t = true) l) + (if P y then 1 else 0))%nat.
Proof.
  revert i. induction l as [|z l IH]; intros [|i] Hi; [done..| |].
  - injection Hi as ->. change (<[0%nat := y]> (x :: l)) with (y :: l). rewrite !filter_cons.
    repeat case_decide; destruct (P x), (P y); try congruence; cbn; lia.
  - change (<[S i := y]> (z :: l)) with (z :: <[i := y]> l). rewrite !filter_cons. specialize (IH i Hi). case_decide; cbn; lia.
Qed.

(** An element that fails the test makes the filtered list shorter. *)
Lemma filter_lt {A : Type} (P : A -> bool) (l : list A) i x : l !! i = Some x -> P x = false ->
  (length (filter (fun t => P t = true) l) < length l)%nat.
Proof.
  revert i. induction l as [|z l IH]; intros [|i] Hi Hx; [done..| |].
  - injection Hi as ->. rewrite filter_cons, decide_False by congruence. pose proof (length_filter (fun t => P t = true) l). cbn. lia.
  - specialize (IH i Hi Hx). rewrite filter_cons. case_decide; cbn; lia.
Qed.

(** Permutations of lists of integers, by counting occurrences. *)
Ltac permute :=
  apply (Permutation_count_occ Z.eq_dec); intros ?;
  repeat (rewrite count_occ_app || cbn [count_occ]);
  repeat destruct (Z.eq_dec _ _); lia.

(** ** Invariants of step relations *)
Lemma rtc_invariant {A : Type} (R : relation A) (P : A -> Prop) (x z : A) :
  (forall y y', R y y' -> P y -> P y') -> P x -> rtc R x z -> P z.
Proof. intros Hs Hx Hr. revert Hx. induction Hr as [|x y z Hxy _ IH]; intros Hx; eauto. Qed.

Lemma rtc_done {A : Type} (R : relation A) (x y : A) : x = y -> rtc R x y.
Proof. intros ->. apply rtc_refl. Qed.
