(* ===== verification/Bytes.v ===== *)
(** * Bytes: the shared byte store and [byte_range] (xi/io/byte_range.h)

    All fragments, blobs and ranges of the I/O layer point into one store of
    bytes; a clone and its original, and the two halves of a split, alias the
    same bytes.  The store maps an address to a byte (a [Z] in [0,255]);
    [load]/[store] read and write a run of bytes, [copy_bytes] is
    [std::copy] on [u8*], [memmove] the C function. *)
From S2P Require Import Prelude.

Abbreviation mem := (gmap Z Z).

Definition load1 (m : mem) (a : Z) : Z := default 0 (m !! a).

Fixpoint load_n (m : mem) (a : Z) (n : nat) : list Z :=
  match n with
  | O => []
  | S n => load1 m a :: load_n m (a + 1) n
  end.

Definition load (m : mem) (a n : Z) : list Z := load_n m a (Z.to_nat n).

Fixpoint store (m : mem) (a : Z) (bs : list Z) : mem :=
  match bs with
  | [] => m
  | b :: bs => store (<[a := b]> m) (a + 1) bs
  end.

(** [std::copy(src, src + n, dst)]: front to back, one element at a time. *)
Fixpoint copy_n (m : mem) (src dst : Z) (n : nat) : mem :=
  match n with
  | O => m
  | S n => copy_n (<[dst := load1 m src]> m) (src + 1) (dst + 1) n
  end.

Definition copy_bytes (m : mem) (src dst n : Z) : mem := copy_n m src dst (Z.to_nat n).

(** [memmove(dst, src, n)]: as if through a temporary array. *)
Definition memmove (m : mem) (dst src n : Z) : mem := store m dst (load m src n).

(** The runs [a, a+n) and [b, b+k) share no byte. *)
Definition disjoint (a n b k : Z) : Prop := n <= 0 \/ k <= 0 \/ a + n <= b \/ b + k <= a.

(** Decides [disjoint] on literals. *)
Ltac eval_disjoint :=
  unfold disjoint;
  first [ vm_compute; discriminate | left; vm_compute; discriminate | right; eval_disjoint ].

Section load_store.
Implicit Types (m : mem) (a b n k : Z) (bs : list Z).

Lemma load1_insert m a b v :
  load1 (<[a := v]> m) b = if decide (a = b) then v else load1 m b.
Proof. unfold load1. rewrite lookup_insert. by case_decide. Qed.

Lemma length_load_n m a (n : nat) : length (load_n m a n) = n.
Proof. revert a. induction n; intros; simpl; auto. Qed.

Lemma zlen_load m a n : 0 <= n -> zlen (load m a n) = n.
Proof. intros. unfold zlen, load. rewrite length_load_n. lia. Qed.

Lemma load_nonpos m a n : n <= 0 -> load m a n = [].
Proof. intros. unfold load. by replace (Z.to_nat n) with 0%nat by lia. Qed.

Lemma load_n_app m a (i j : nat) : load_n m a (i + j) = load_n m a i ++ load_n m (a + Z.of_nat i) j.
Proof.
  revert a. induction i as [|i IH]; intros a; simpl.
  - f_equal. lia.
  - rewrite IH. do 3 f_equal. lia.
Qed.

Lemma load_app m a n k :
  0 <= n -> 0 <= k -> load m a (n + k) = load m a n ++ load m (a + n) k.
Proof.
  intros. unfold load. rewrite Z2Nat.inj_add by lia. rewrite load_n_app. do 2 f_equal. lia.
Qed.

Lemma ztake_load m a n i : 0 <= i <= n -> ztake i (load m a n) = load m a i.
Proof.
  intros. replace n with (i + (n - i)) by lia. rewrite load_app by lia.
  apply ztake_app_exact. rewrite zlen_load; lia.
Qed.

Lemma ztake_load_min m a n i :
  0 <= i -> 0 <= n -> ztake i (load m a n) = load m a (Z.min i n).
Proof.
  intros. destruct (Z.le_gt_cases i n).
  - rewrite Z.min_l by lia. apply ztake_load. lia.
  - rewrite Z.min_r by lia. apply ztake_ge. rewrite zlen_load; lia.
Qed.

Lemma zdrop_load m a n i :
  0 <= i <= n -> zdrop i (load m a n) = load m (a + i) (n - i).
Proof.
  intros. replace n with (i + (n - i)) at 1 by lia. rewrite load_app by lia.
  apply zdrop_app_exact. rewrite zlen_load; lia.
Qed.

Lemma load_ext m m' a n :
  (forall x, a <= x < a + n -> load1 m x = load1 m' x) -> load m a n = load m' a n.
Proof.
  intros H. unfold load.
  assert (forall x, a <= x < a + Z.of_nat (Z.to_nat n) -> load1 m x = load1 m' x) as H'.
  { intros x Hx. apply H. lia. }
  clear H. revert a H'. induction (Z.to_nat n) as [|i IH]; intros a H; simpl; [done|].
  rewrite H by lia. f_equal. apply IH. intros. apply H. lia.
Qed.

Lemma load1_store m a bs x :
  load1 (store m a bs) x =
    if decide (a <= x < a + zlen bs) then nth (Z.to_nat (x - a)) bs 0 else load1 m x.
Proof.
  revert m a. induction bs as [|b bs IH]; intros m a; simpl.
  - rewrite zlen_nil. case_decide; [lia|done].
  - rewrite IH, load1_insert, zlen_cons. pose proof (zlen_nonneg bs).
    repeat case_decide; try lia; try done.
    + by replace (Z.to_nat (x - a)) with (S (Z.to_nat (x - (a + 1)))) by lia.
    + subst. by rewrite Z.sub_diag.
Qed.

Lemma load1_store_out m a bs x :
  ~ (a <= x < a + zlen bs) -> load1 (store m a bs) x = load1 m x.
Proof. intros. rewrite load1_store. by case_decide. Qed.

Lemma load_store_out m a bs b n :
  disjoint a (zlen bs) b n -> load (store m a bs) b n = load m b n.
Proof.
  intros H. apply load_ext. intros x Hx. apply load1_store_out. unfold disjoint in H. lia.
Qed.

Lemma load_store_eq m a bs : load (store m a bs) a (zlen bs) = bs.
Proof.
  revert m a. induction bs as [|b bs IH]; intros m a; [done|].
  rewrite zlen_cons, load_app by (pose proof (zlen_nonneg bs); lia). simpl.
  rewrite IH. f_equal. rewrite load1_store_out by lia.
  rewrite load1_insert. by case_decide.
Qed.

Lemma load_store_len m a bs n : n = zlen bs -> load (store m a bs) a n = bs.
Proof. intros ->. apply load_store_eq. Qed.

(** [std::copy] agrees with a block move whenever the destination does not
    start inside the source. *)
Lemma load1_copy_n m src dst (n : nat) x :
  ~ (src < dst < src + Z.of_nat n) ->
  load1 (copy_n m src dst n) x =
    if decide (dst <= x < dst + Z.of_nat n) then load1 m (src + (x - dst)) else load1 m x.
Proof.
  revert m src dst. induction n as [|n IH]; intros m src dst H; simpl.
  - case_decide; [lia|done].
  - rewrite IH by lia. rewrite !load1_insert.
    repeat case_decide; try lia; subst; try done; f_equal; lia.
Qed.

Lemma load1_copy m src dst n x :
  ~ (src < dst < src + n) ->
  load1 (copy_bytes m src dst n) x =
    if decide (dst <= x < dst + n) then load1 m (src + (x - dst)) else load1 m x.
Proof.
  intros. unfold copy_bytes. rewrite load1_copy_n by lia.
  destruct (Z.le_gt_cases 0 n).
  - rewrite Z2Nat.id by lia. done.
  - repeat case_decide; try lia; done.
Qed.

Lemma nth_load_n m a (n i : nat) : (i < n)%nat -> nth i (load_n m a n) 0 = load1 m (a + Z.of_nat i).
Proof.
  revert a i. induction n as [|n IH]; intros a i H; [lia|].
  destruct i as [|i]; simpl; [f_equal; lia|]. rewrite IH by lia. f_equal. lia.
Qed.

Lemma nth_load m a n i : 0 <= i < n -> nth (Z.to_nat i) (load m a n) 0 = load1 m (a + i).
Proof. intros. unfold load. rewrite nth_load_n by lia. f_equal. lia. Qed.

Lemma load1_memmove m dst src n x :
  0 <= n ->
  load1 (memmove m dst src n) x =
    if decide (dst <= x < dst + n) then load1 m (src + (x - dst)) else load1 m x.
Proof.
  intros. unfold memmove. rewrite load1_store, zlen_load by lia.
  case_decide; [|done]. apply nth_load. lia.
Qed.

Lemma load_memmove m dst src n : 0 <= n -> load (memmove m dst src n) dst n = load m src n.
Proof. intros. unfold memmove. apply load_store_len. by rewrite zlen_load. Qed.

Lemma load_memmove_out m dst src n b k :
  0 <= n -> disjoint dst n b k -> load (memmove m dst src n) b k = load m b k.
Proof. intros. unfold memmove. apply load_store_out. by rewrite zlen_load. Qed.

Lemma load_copy m src dst n :
  ~ (src < dst < src + n) -> load (copy_bytes m src dst n) dst n = load m src n.
Proof.
  intros H. destruct (Z.le_gt_cases n 0); [by rewrite !load_nonpos|].
  rewrite <- (load_memmove m dst src n) by lia.
  apply load_ext. intros x Hx. rewrite load1_copy, load1_memmove by lia. done.
Qed.

Lemma load_copy_out m src dst n b k :
  ~ (src < dst < src + n) -> disjoint dst n b k ->
  load (copy_bytes m src dst n) b k = load m b k.
Proof.
  intros H Hd. apply load_ext. intros x Hx. rewrite load1_copy by done.
  unfold disjoint in Hd. case_decide; [lia|done].
Qed.
End load_store.

#[export] Hint Rewrite zlen_load using lia : zlist.

(** ** [class byte_range]: a pointer and a length, no ownership *)

Record byte_range := mk_range { r_data : Z; r_size : Z }.

Module Range.
Definition null : byte_range := mk_range 0 0.
Definition empty (r : byte_range) : bool := r_size r =? 0.
Definition begin (r : byte_range) : Z := r_data r.
Definition end_ (r : byte_range) : Z := r_data r + r_size r.

(** [byte_range(string_ref / vector< u8 > arr, sz)] and
    [byte_range(const char (&arr)[N], sz)], [n] the number of elements of
    [arr] (for a literal, without the terminating zero). *)
Definition of_array (data n sz elt : Z) : byte_range := mk_range data (u64 (Z.min sz n * elt)).

(** [operator==]: same address and length, not same contents. *)
Definition eq (a b : byte_range) : bool :=
  (r_data b =? r_data a) && (r_size b =? r_size a).

Definition subrange (r : byte_range) (offset length : Z) : outcome byte_range :=
  if r_size r <=? offset then Ret null
  else
    let length :=
      if (length =? usize_max) || (r_size r <? u64 (length + offset))
      then u64 (r_size r - offset) else length in
    assertO (u64 (offset + length) <=? r_size r)
      (assertO (signed_nonneg offset)
        (assertO (signed_nonneg length && negb (length =? 0))
          (assertO (signed_nonneg (offset + length) && negb (u64 (offset + length) =? 0))
            (Ret (mk_range (r_data r + offset) length))))).

Definition bytes (m : mem) (r : byte_range) : list Z := load m (r_data r) (r_size r).

(** A range whose length is that of a real object. *)
Definition wf (r : byte_range) : Prop := 0 <= r_size r < 2 ^ 63.

Lemma zlen_bytes m r : wf r -> zlen (bytes m r) = r_size r.
Proof. intros []. apply zlen_load. lia. Qed.

(** [subrange(offset)] with the default length. *)
Lemma subrange_tail r offset :
  wf r -> 0 <= offset < r_size r ->
  subrange r offset usize_max = Ret (mk_range (r_data r + offset) (r_size r - offset)).
Proof.
  intros [Hs1 Hs2] H. unfold subrange. rewrite (proj2 (Z.leb_gt _ _)) by lia. rewrite Z.eqb_refl.
  cbn [orb]. unwrap64.
  rewrite (proj2 (Z.leb_le _ _)), !signed_nonneg_true by lia.
  simpl. by rewrite !(proj2 (Z.eqb_neq _ _)) by lia.
Qed.

Lemma subrange_past r offset length : r_size r <= offset -> subrange r offset length = Ret null.
Proof. intros. unfold subrange. by rewrite (proj2 (Z.leb_le _ _)) by lia. Qed.
End Range.
