(* ===== verification/Guard.v ===== *)
(** * Guard: reference-counted deleters (xi/io/detail/guard.h) and the tagged
      pointer they are stored in (xi/ext/tagged_ptr.h)

    A guard is either null, a "simple" guard (bit 0 of the pointer set: the
    object is handed to [::free] directly) or a pointer to a reference-counted
    [impl].  The impls live in a store [gheap]; what [::free] and the function
    guards did is recorded in its [log]. *)
From S2P Require Import Prelude.

(** ** [class tagged_ptr< T, E, align >] *)
Module TaggedPtr.
(** [bit_counter< align >::mask] for the three alignments that have one. *)
Definition mask (align : Z) : option Z :=
  if align =? 1 then Some (Z.lnot 1)
  else if align =? 4 then Some (Z.lnot 3)
  else if align =? 8 then Some (Z.lnot 7)
  else None.

Definition set_tag (tag p : Z) : Z := Z.lor p tag.
Definition reset_tag (tag p : Z) : Z := Z.land p (Z.lnot tag).
Definition get_tag (tag p : Z) : Z := Z.land p tag.
Definition get (m p : Z) : Z := Z.land p m.
Definition bool_ (m p : Z) : bool := negb (get m p =? 0).
End TaggedPtr.

(** ** [class guard] *)

Inductive guard : Type :=
  | GNull
  | GSimple (object : Z)
  | GImpl (i : positive).

Inductive impl_kind : Type :=
  | free_guard_impl (obj : Z)
  | object_guard_impl (obj : guard)
  | func_guard_impl (func : Z).

Record impl : Type := mk_impl { refs : Z; next : guard; kind : impl_kind }.

Inductive action : Type :=
  | freed (p : Z)
  | called (func : Z).

#[export] Instance guard_eq_dec : EqDecision guard.
Proof. solve_decision. Defined.
#[export] Instance action_eq_dec : EqDecision action.
Proof. solve_decision. Defined.

Record gheap : Type := mk_gheap {
  impls : gmap positive impl;
  fresh_id : positive;     (** next identity [new] hands out *)
  log : list action        (** what the deleters did, latest first *)
}.

Module Guard.
Definition set_impls (h : gheap) (x : gmap positive impl) : gheap :=
  mk_gheap x (fresh_id h) (log h).

Definition log_act (h : gheap) (a : action) : gheap :=
  mk_gheap (impls h) (fresh_id h) (a :: log h).

(** [new X{...}]: a fresh object with one reference. *)
Definition alloc (h : gheap) (im : impl) : gheap * positive :=
  (mk_gheap (<[fresh_id h := im]> (impls h)) (fresh_id h + 1)%positive (log h), fresh_id h).

Definition make_simple_guard (obj : Z) : guard := if obj =? 0 then GNull else GSimple obj.

Definition make_object_guard_impl (h : gheap) (nxt obj : guard) : gheap * positive :=
  alloc h (mk_impl 1 nxt (object_guard_impl obj)).

Definition make_object_guard (h : gheap) (obj : guard) : gheap * guard :=
  let '(h, i) := make_object_guard_impl h GNull obj in (h, GImpl i).

Definition empty (g : guard) : bool := match g with GNull => true | _ => false end.

(** [guard::share() const]: the first share turns a simple guard into a
    counted one, so the guard itself changes too.  Returns the store, the
    guard afterwards and the new guard. *)
Definition share (h : gheap) (g : guard) : outcome (gheap * guard * guard) :=
  match g with
  | GNull => Ret (h, GNull, GNull)
  | _ =>
      let '(h, i) :=
        match g with
        | GSimple p => alloc h (mk_impl 1 GNull (free_guard_impl p))
        | GImpl i => (h, i)
        | GNull => (h, 1%positive)
        end in
      do im <- derefO (impls h !! i);;
      Ret (set_impls h (<[i := mk_impl (u64 (refs im + 1)) (next im) (kind im)]> (impls h)),
           GImpl i, GImpl i)
  end.

(** [~guard()]: the destructors of an impl run its action, then release
    what it owns ([obj], then [next]).  Fuel bounds the depth of nested
    destructors. *)
Fixpoint release_fuel (fuel : nat) (h : gheap) (g : guard) : outcome gheap :=
  match fuel with
  | O => Diverge
  | S fuel =>
      match g with
      | GNull => Ret h
      | GSimple p => Ret (log_act h (freed p))
      | GImpl i =>
          do im <- derefO (impls h !! i);;
          let r := u64 (refs im - 1) in
          if r =? 0 then
            let h := set_impls h (delete i (impls h)) in
            do h <- match kind im with
                    | free_guard_impl p => Ret (log_act h (freed p))
                    | object_guard_impl o => release_fuel fuel h o
                    | func_guard_impl f => Ret (log_act h (called f))
                    end;;
            release_fuel fuel h (next im)
          else Ret (set_impls h (<[i := mk_impl r (next im) (kind im)]> (impls h)))
      end
  end.

Definition release (h : gheap) (g : guard) : outcome gheap :=
  release_fuel (S (size (impls h))) h g.

(** [guard& operator=(guard&&)] from another guard; returns what is left in
    the source, too. *)
Definition assign (h : gheap) (g x : guard) : outcome (gheap * guard * guard) :=
  do h <- release h g;; Ret (h, x, GNull).

(** [guard::append(guard g)]: walks the chain of [next] guards, converting
    simple guards and unsharing shared impls on the way, and hangs [g] at its
    end.  [here] says where the local [next] points: [None] is [this],
    [Some j] the [next] field of impl [j].  Note that the conversion of a
    simple guard uses [this->_impl.get()]. *)
Definition put_at (h : gheap) (self : guard) (here : option positive) (g : guard) : gheap * guard :=
  match here with
  | None => (h, g)
  | Some j =>
      (set_impls h (alter (fun im => mk_impl (refs im) g (kind im)) j (impls h)), self)
  end.

Definition read_at (h : gheap) (self : guard) (here : option positive) : outcome guard :=
  match here with
  | None => Ret self
  | Some j => do im <- derefO (impls h !! j);; Ret (next im)
  end.

(** The address [new] gave an impl; [malloc] hands out positive addresses. *)
Definition impl_addr (i : positive) : Z := Z.neg i.

(** [_impl.get()] cast to a plain pointer, the argument of [free_guard_impl]: the object of a
    simple guard, the address of the impl of a counted one. *)
Definition self_object (self : guard) : Z :=
  match self with GSimple p => p | GNull => 0 | GImpl i => impl_addr i end.

Fixpoint append_fuel (fuel : nat) (h : gheap) (self : guard) (here : option positive)
    (g : guard) : outcome (gheap * guard) :=
  match fuel with
  | O => Diverge
  | S fuel =>
      do cur <- read_at h self here;;
      match cur with
      | GNull => Ret (put_at h self here g)
      | _ =>
          assertO (negb (bool_decide (cur = g)))
          (do '(h, self, i) <-
            match cur with
            | GSimple _ =>
                let '(h, i) := alloc h (mk_impl 1 GNull (free_guard_impl (self_object self))) in
                let '(h, self) := put_at h self here (GImpl i) in
                Ret (h, self, i)
            | GImpl i => Ret (h, self, i)
            | GNull => Undef
            end;;
          do im <- derefO (impls h !! i);;
          if refs im =? 1 then append_fuel fuel h self (Some i) g
          else
            (** [make_object_guard_impl(move(i->next), guard(i))] *)
            let h := set_impls h (<[i := mk_impl (refs im) GNull (kind im)]> (impls h)) in
            let '(h, j) := make_object_guard_impl h (next im) (GImpl i) in
            let '(h, self) := put_at h self here (GImpl j) in
            append_fuel fuel h self (Some j) g)
      end
  end.

Definition append (h : gheap) (self g : guard) : outcome (gheap * guard) :=
  if empty g then Ret (h, self) else append_fuel (2 + size (impls h)) h self None g.
End Guard.

(** ** Ownership invariant

    [live] is the list of all guards the program holds.  Together with the
    guards stored inside impls they own every counted impl exactly as often as
    its [refs] says, and every object is owned at most once and not yet
    freed. *)
Section ownership.
Implicit Types (h : gheap) (m : gmap positive impl) (g : guard) (live own : list guard).

Definition inner (im : impl) : list guard :=
  next im :: match kind im with object_guard_impl o => [o] | _ => [] end.

Definition inner_guards m : list guard := map_to_list m ≫= (fun p => inner p.2).

Definition refs_to (i : positive) (own : list guard) : Z :=
  zsum (fun g => if decide (g = GImpl i) then 1 else 0) own.

Definition refs_of m (i : positive) : Z := from_option refs 0 (m !! i).

Definition guard_objs g : list Z := match g with GSimple p => [p] | _ => [] end.
Definition impl_objs (im : impl) : list Z :=
  match kind im with free_guard_impl p => [p] | _ => [] end.

(** The objects some guard or impl will still free. *)
Definition objs m own : list Z :=
  (own ≫= guard_objs) ++ (map_to_list m ≫= (fun p => impl_objs p.2)).

Definition frees h : list Z :=
  omap (fun a => match a with freed p => Some p | _ => None end) (log h).

Definition owned h live : list guard := live ++ inner_guards (impls h).
Definition pending h live : list Z := objs (impls h) (owned h live).

Record guards_ok h live : Prop := {
  ok_refs : forall i, refs_to i (owned h live) = refs_of (impls h) i;
  ok_pos : forall i im, impls h !! i = Some im -> 0 < refs im < 2 ^ 64;
  ok_fresh : forall i im, impls h !! i = Some im -> (i < fresh_id h)%positive;
  ok_once : NoDup (pending h live ++ frees h)
}.

Lemma refs_to_app i own own' : refs_to i (own ++ own') = refs_to i own + refs_to i own'.
Proof. apply zsum_app. Qed.

Lemma refs_to_cons i g own :
  refs_to i (g :: own) = (if decide (g = GImpl i) then 1 else 0) + refs_to i own.
Proof. done. Qed.

Lemma refs_to_nonneg i own : 0 <= refs_to i own.
Proof. apply zsum_nonneg, Forall_forall. intros. case_decide; lia. Qed.

#[global] Instance refs_to_perm i : Proper ((≡ₚ) ==> eq) (refs_to i).
Proof. intros ?? H. unfold refs_to. by apply zsum_perm. Qed.

#[global] Instance objs_perm m : Proper ((≡ₚ) ==> (≡ₚ)) (objs m).
Proof. intros ?? H. unfold objs. by rewrite H. Qed.

Lemma inner_guards_delete m i im :
  m !! i = Some im -> inner_guards m ≡ₚ inner im ++ inner_guards (delete i m).
Proof. intros H. unfold inner_guards. by rewrite <- (map_to_list_delete m i im H). Qed.

Lemma inner_guards_insert m i im :
  m !! i = None -> inner_guards (<[i := im]> m) ≡ₚ inner im ++ inner_guards m.
Proof. intros H. unfold inner_guards. by rewrite (map_to_list_insert m i im H). Qed.

Lemma inner_guards_update m i im im' :
  m !! i = Some im -> inner im' = inner im ->
  inner_guards (<[i := im']> m) ≡ₚ inner_guards m.
Proof.
  intros H Hi. rewrite <- insert_delete_eq.
  rewrite inner_guards_insert by apply lookup_delete_eq.
  rewrite (inner_guards_delete m i im H). by rewrite Hi.
Qed.

Lemma objs_delete m i im own :
  m !! i = Some im -> objs m own ≡ₚ impl_objs im ++ objs (delete i m) own.
Proof.
  intros H. unfold objs. rewrite <- (map_to_list_delete m i im H). simpl. solve_Permutation.
Qed.

Lemma objs_insert m i im own :
  m !! i = None -> objs (<[i := im]> m) own ≡ₚ impl_objs im ++ objs m own.
Proof.
  intros H. unfold objs. rewrite (map_to_list_insert m i im H). simpl. solve_Permutation.
Qed.

Lemma objs_update m i im im' own :
  m !! i = Some im -> impl_objs im' = impl_objs im -> objs (<[i := im']> m) own ≡ₚ objs m own.
Proof.
  intros H Hi. rewrite <- insert_delete_eq.
  rewrite objs_insert by apply lookup_delete_eq. rewrite (objs_delete m i im own H). by rewrite Hi.
Qed.

Lemma objs_cons m g own : objs m (g :: own) = guard_objs g ++ objs m own.
Proof. unfold objs. simpl. by rewrite <- app_assoc. Qed.

(** Whatever keeps the objects accounted for keeps them owned once. *)
Lemma ok_once_perm h h' live live' :
  pending h live ++ frees h ≡ₚ pending h' live' ++ frees h' ->
  NoDup (pending h live ++ frees h) -> NoDup (pending h' live' ++ frees h').
Proof. intros H. by rewrite H. Qed.
End ownership.

#[local] Arguments inner : simpl never.
#[local] Arguments refs_to : simpl never.

Section ownership_proofs.
Implicit Types (h : gheap) (g : guard) (live : list guard).

Lemma guards_ok_perm h live live' : live ≡ₚ live' -> guards_ok h live -> guards_ok h live'.
Proof.
  intros H [Hr Hp Hf Ho]. split; auto.
  - intros i. rewrite <- Hr. unfold owned. by rewrite H.
  - revert Ho. apply ok_once_perm. unfold pending, owned. by rewrite H.
Qed.

Lemma guards_ok_null h live : guards_ok h (GNull :: live) <-> guards_ok h live.
Proof. split; intros [Hr Hp Hf Ho]; split; auto. Qed.

Lemma pending_cons h g live : pending h (g :: live) = guard_objs g ++ pending h live.
Proof. unfold pending, owned. simpl. apply objs_cons. Qed.

(** A live counted guard points to an impl. *)
Lemma guards_ok_lookup h i live :
  guards_ok h (GImpl i :: live) ->
  exists im, impls h !! i = Some im /\ refs im = 1 + refs_to i (owned h live).
Proof.
  intros [Hr _ _ _]. specialize (Hr i). unfold owned in Hr. simpl in Hr.
  rewrite refs_to_cons in Hr. rewrite decide_True in Hr by done.
  unfold refs_of in Hr. pose proof (refs_to_nonneg i (live ++ inner_guards (impls h))).
  destruct (impls h !! i) as [im|] eqn:E; simpl in Hr; [|lia].
  exists im. unfold owned. split; [done|lia].
Qed.

(** An action performed on an object that nobody owns any more. *)
Lemma guards_ok_log_free h p live :
  NoDup (p :: pending h live ++ frees h) ->
  (forall i, refs_to i (owned h live) = refs_of (impls h) i) ->
  (forall i im, impls h !! i = Some im -> 0 < refs im < 2 ^ 64) ->
  (forall i im, impls h !! i = Some im -> (i < fresh_id h)%positive) ->
  guards_ok (Guard.log_act h (freed p)) live.
Proof.
  intros Hn Hr Hp Hf. split; auto. revert Hn.
  change (pending (Guard.log_act h (freed p)) live) with (pending h live).
  change (frees (Guard.log_act h (freed p))) with (p :: frees h).
  by rewrite Permutation_middle.
Qed.

(** Removing an impl whose last reference goes away. *)
Lemma refs_delete h i im live :
  guards_ok h (GImpl i :: live) -> impls h !! i = Some im -> refs im = 1 ->
  forall j, refs_to j (inner im ++ live ++ inner_guards (delete i (impls h)))
            = refs_of (delete i (impls h)) j.
Proof.
  intros Hok Him H1 j. pose proof (ok_refs _ _ Hok j) as Hr.
  unfold owned in Hr. rewrite (inner_guards_delete _ _ _ Him) in Hr.
  rewrite <- app_comm_cons, refs_to_cons, !refs_to_app in Hr. rewrite !refs_to_app.
  unfold refs_of in *. destruct (decide (i = j)) as [->|Hne].
  - rewrite lookup_delete_eq. rewrite Him, decide_True in Hr by done. cbn [from_option] in *. lia.
  - rewrite lookup_delete_ne by done. rewrite decide_False in Hr by congruence. lia.
Qed.

(** Dropping one of several references. *)
Lemma guards_ok_decr h i im live :
  guards_ok h (GImpl i :: live) -> impls h !! i = Some im -> refs im <> 1 ->
  let h' := Guard.set_impls h (<[i := mk_impl (refs im - 1) (next im) (kind im)]> (impls h)) in
  guards_ok h' live /\ pending h' live ++ frees h' ≡ₚ pending h (GImpl i :: live) ++ frees h.
Proof.
  intros Hok Him Hne h'. pose proof (ok_pos _ _ Hok i im Him) as Hpos.
  assert (inner_guards (impls h') ≡ₚ inner_guards (impls h)) as HI
    by (apply (inner_guards_update _ _ im); done).
  assert (pending h' live ++ frees h' ≡ₚ pending h (GImpl i :: live) ++ frees h) as HP.
  { rewrite pending_cons. change (frees h') with (frees h). f_equiv. unfold pending, owned.
    rewrite HI. by apply (objs_update _ _ im). }
  split; [split|done].
  - intros j. unfold owned. rewrite HI. pose proof (ok_refs _ _ Hok j) as Hr.
    unfold owned in Hr. simpl in Hr. rewrite refs_to_cons in Hr. unfold refs_of in *. simpl.
    rewrite lookup_insert. destruct (decide (i = j)) as [->|Hij].
    + rewrite Him in Hr. rewrite decide_True in Hr by done. simpl in *. lia.
    + rewrite decide_False in Hr by congruence. lia.
  - intros j im' Hj. simpl in Hj. rewrite lookup_insert in Hj. case_decide.
    + injection Hj as <-. simpl. lia.
    + by apply (ok_pos _ _ Hok j).
  - intros j im' Hj. simpl in Hj. rewrite lookup_insert in Hj. case_decide; subst.
    + by apply (ok_fresh _ _ Hok j im).
    + by apply (ok_fresh _ _ Hok j im').
  - rewrite HP. apply Hok.
Qed.

(** What deleting an impl leaves: everything it held is owned by the
    destructor that is about to release it. *)
Definition orphans (im : impl) : list guard :=
  match kind im with object_guard_impl o => [o; next im] | _ => [next im] end.

Lemma orphans_inner im : orphans im ≡ₚ inner im.
Proof. unfold orphans, inner. destruct (kind im); [done| |done]. apply Permutation_swap. Qed.

Lemma guards_ok_delete h i im live (freed_now : list Z) :
  guards_ok h (GImpl i :: live) -> impls h !! i = Some im -> refs im = 1 ->
  freed_now = impl_objs im ->
  let h1 := Guard.set_impls h (delete i (impls h)) in
  let h2 := match kind im with
            | free_guard_impl p => Guard.log_act h1 (freed p)
            | func_guard_impl f => Guard.log_act h1 (called f)
            | object_guard_impl _ => h1
            end in
  guards_ok h2 (orphans im ++ live) /\
  pending h2 (orphans im ++ live) ++ frees h2 ≡ₚ pending h (GImpl i :: live) ++ frees h /\
  size (impls h2) = Nat.pred (size (impls h)).
Proof.
  intros Hok Him H1 -> h1 h2.
  assert (impls h2 = delete i (impls h)) as Hd by (subst h2; by destruct (kind im)).
  assert (fresh_id h2 = fresh_id h) as Hfi by (subst h2; by destruct (kind im)).
  assert (frees h2 = impl_objs im ++ frees h) as Hfr by (subst h2; unfold impl_objs; by destruct (kind im)).
  assert (pending h2 (orphans im ++ live) ++ frees h2 ≡ₚ pending h (GImpl i :: live) ++ frees h) as HP.
  { rewrite pending_cons, Hfr. unfold pending, owned. rewrite Hd, orphans_inner.
    cbn [guard_objs]. rewrite app_nil_l.
    rewrite (objs_delete _ _ _ _ Him).
    rewrite (inner_guards_delete _ _ _ Him). unfold objs. rewrite !bind_app. solve_Permutation. }
  split; [split|split; [done|]].
  - intros j. unfold owned. rewrite Hd, orphans_inner, <- app_assoc. by apply (refs_delete h).
  - intros j im'. rewrite Hd. intros Hj. apply lookup_delete_Some in Hj. by apply (ok_pos _ _ Hok j), Hj.
  - intros j im'. rewrite Hd, Hfi. intros Hj. apply lookup_delete_Some in Hj.
    by apply (ok_fresh _ _ Hok j im'), Hj.
  - rewrite HP. apply Hok.
  - rewrite Hd. by apply map_size_delete_Some.
Qed.

(** Running the destructors keeps the invariant, frees nothing twice and
    loses no object; it always finishes. *)
Lemma release_fuel_ok n h g live :
  guards_ok h (g :: live) -> (size (impls h) < n)%nat ->
  exists h', Guard.release_fuel n h g = Ret h' /\ guards_ok h' live /\
    pending h' live ++ frees h' ≡ₚ pending h (g :: live) ++ frees h /\
    (size (impls h') <= size (impls h))%nat.
Proof.
  revert h g live. induction n as [|n IH]; intros h g live Hok Hsz; [lia|].
  destruct g as [|p|i]; cbn [Guard.release_fuel].
  - exists h. split; [done|]. split; [by apply guards_ok_null|]. done.
  - eexists. split; [done|]. pose proof (ok_once _ _ Hok) as Ho. rewrite pending_cons in Ho. simpl in Ho.
    split; [|split].
    + destruct Hok as [Hr Hp Hf _]. apply guards_ok_log_free; auto.
    + rewrite pending_cons. cbn [guard_objs app].
      change (pending h live ++ p :: frees h ≡ₚ p :: pending h live ++ frees h).
      by rewrite <- Permutation_middle.
    + done.
  - destruct (guards_ok_lookup _ _ _ Hok) as (im & Him & _). rewrite Him. cbn [derefO bindO].
    pose proof (ok_pos _ _ Hok i im Him). rewrite u64_id by lia.
    destruct (refs im - 1 =? 0) eqn:E; zbool.
    + destruct (guards_ok_delete h i im live _ Hok Him ltac:(lia) eq_refl) as (Hok2 & HP & Hs).
      assert (size (impls h) <> 0%nat) as Hne.
      { intros Hz. apply map_size_empty_inv in Hz. by rewrite Hz in Him. }
      unfold orphans in *. destruct (kind im) as [p|o|f]; cbn [bindO app] in *.
      * destruct (IH _ _ _ Hok2) as (h' & -> & ? & HP' & ?); [lia|].
        exists h'. split; [done|]. split; [done|]. split; [by rewrite HP', <- HP|lia].
      * destruct (IH _ _ _ Hok2) as (h3 & -> & Hok3 & HP3 & ?); [lia|]. cbn [bindO].
        destruct (IH _ _ _ Hok3) as (h' & -> & ? & HP' & ?); [lia|].
        exists h'. split; [done|]. split; [done|]. split; [by rewrite HP', HP3, <- HP|lia].
      * destruct (IH _ _ _ Hok2) as (h' & -> & ? & HP' & ?); [lia|].
        exists h'. split; [done|]. split; [done|]. split; [by rewrite HP', <- HP|lia].
    + eexists. split; [done|].
      destruct (guards_ok_decr _ _ _ _ Hok Him ltac:(lia)) as [Hok' HP].
      split; [done|]. split; [done|]. simpl. by rewrite map_size_insert, Him.
Qed.

Lemma release_ok h g live :
  guards_ok h (g :: live) ->
  exists h', Guard.release h g = Ret h' /\ guards_ok h' live /\
    pending h' live ++ frees h' ≡ₚ pending h (g :: live) ++ frees h.
Proof.
  intros Hok. destruct (release_fuel_ok (S (size (impls h))) h g live Hok) as (h' & ? & ? & ? & ?); [lia|].
  eauto.
Qed.
End ownership_proofs.

(** [share] and the creation of guards. *)
Section sharing.
Implicit Types (h : gheap) (g : guard) (live : list guard).

(** Another reference to an impl that some live guard already points to. *)
Lemma guards_ok_incr h i im live :
  guards_ok h (GImpl i :: live) -> impls h !! i = Some im -> refs im < usize_max ->
  let h' := Guard.set_impls h (<[i := mk_impl (refs im + 1) (next im) (kind im)]> (impls h)) in
  guards_ok h' (GImpl i :: GImpl i :: live) /\
  pending h' (GImpl i :: GImpl i :: live) ≡ₚ pending h (GImpl i :: live) /\ frees h' = frees h.
Proof.
  intros Hok Him Hlt h'. pose proof (ok_pos _ _ Hok i im Him) as Hpos.
  assert (inner_guards (impls h') ≡ₚ inner_guards (impls h)) as HI
    by (apply (inner_guards_update _ _ im); done).
  assert (pending h' (GImpl i :: GImpl i :: live) ≡ₚ pending h (GImpl i :: live)) as HP.
  { rewrite !pending_cons. cbn [guard_objs app]. unfold pending, owned.
    rewrite HI. by apply (objs_update _ _ im). }
  split; [split|done].
  - intros j. pose proof (ok_refs _ _ Hok j) as Hr. unfold owned in *. rewrite HI.
    rewrite <- !app_comm_cons, !refs_to_cons in *. unfold refs_of in *. simpl.
    rewrite lookup_insert. destruct (decide (i = j)) as [->|Hij].
    + rewrite Him in Hr. rewrite decide_True in * by done. cbn [from_option refs] in *. lia.
    + rewrite decide_False in * by congruence. lia.
  - intros j im' Hj. simpl in Hj. rewrite lookup_insert in Hj. case_decide.
    + injection Hj as <-. cbn [refs]. unfold usize_max in *. lia.
    + by apply (ok_pos _ _ Hok j).
  - intros j im' Hj. simpl in Hj. rewrite lookup_insert in Hj. case_decide; subst.
    + by apply (ok_fresh _ _ Hok j im).
    + by apply (ok_fresh _ _ Hok j im').
  - change (frees h') with (frees h). rewrite HP. apply Hok.
Qed.

(** Allocating an impl around guards the caller owned. *)
Lemma guards_ok_alloc h im live :
  guards_ok h (inner im ++ live) -> refs im = 1 ->
  NoDup (impl_objs im ++ pending h (inner im ++ live) ++ frees h) ->
  let '(h', i) := Guard.alloc h im in
  guards_ok h' (GImpl i :: live) /\ frees h' = frees h /\
  pending h' (GImpl i :: live) ≡ₚ impl_objs im ++ pending h (inner im ++ live) /\
  impls h' !! i = Some im.
Proof.
  intros Hok H1 Hnd. unfold Guard.alloc. set (i := fresh_id h).
  assert (impls h !! i = None) as Hn.
  { destruct (impls h !! i) eqn:E; [|done]. pose proof (ok_fresh _ _ Hok _ _ E). lia. }
  set (h' := mk_gheap _ _ _).
  assert (pending h' (GImpl i :: live) ≡ₚ impl_objs im ++ pending h (inner im ++ live)) as HP.
  { rewrite pending_cons. cbn [guard_objs app]. unfold pending, owned. simpl.
    rewrite inner_guards_insert, objs_insert by done. f_equiv.
    rewrite <- app_assoc. apply objs_perm. solve_Permutation. }
  split; [split|split; [done|split; [done|]]].
  - intros j. pose proof (ok_refs _ _ Hok j) as Hr. unfold owned in *.
    rewrite <- app_comm_cons, refs_to_cons, !refs_to_app in *.
    change (impls h') with (<[i := im]> (impls h)). rewrite inner_guards_insert by done.
    rewrite !refs_to_app in *. unfold refs_of in *. rewrite lookup_insert.
    destruct (decide (i = j)) as [<-|Hij].
    + rewrite Hn in Hr. rewrite decide_True by done. cbn [from_option] in *.
      rewrite ?refs_to_app in Hr. lia.
    + rewrite decide_False by congruence. rewrite ?refs_to_app in Hr. lia.
  - intros j im' Hj. simpl in Hj. rewrite lookup_insert in Hj. case_decide.
    + injection Hj as <-. lia.
    + by apply (ok_pos _ _ Hok j).
  - intros j im' Hj. simpl in *. rewrite lookup_insert in Hj. case_decide; subst.
    + lia.
    + pose proof (ok_fresh _ _ Hok j im' Hj). lia.
  - change (frees h') with (frees h). rewrite HP, <- app_assoc. done.
  - simpl. by rewrite lookup_insert_eq.
Qed.

(** Turning a simple guard into a counted one. *)
Lemma guards_ok_promote h p live :
  guards_ok h (GSimple p :: live) ->
  let '(h', i) := Guard.alloc h (mk_impl 1 GNull (free_guard_impl p)) in
  guards_ok h' (GImpl i :: live) /\ frees h' = frees h /\
  pending h' (GImpl i :: live) ≡ₚ pending h (GSimple p :: live) /\
  impls h' !! i = Some (mk_impl 1 GNull (free_guard_impl p)).
Proof.
  intros Hok. pose proof (ok_once _ _ Hok) as Ho. rewrite pending_cons in Ho. simpl in Ho.
  pose proof (guards_ok_alloc h (mk_impl 1 GNull (free_guard_impl p)) live) as Ha.
  destruct (Guard.alloc _ _) as [h' i]. destruct Ha as (Hok' & Hf & HP & Hl).
  - apply guards_ok_null. destruct Hok as [Hr Hp Hf _]. split; auto.
    revert Ho. apply NoDup_cons_1_2.
  - done.
  - done.
  - split; [done|]. split; [done|]. split; [|done]. by rewrite HP, pending_cons.
Qed.

Definition refs_room h : Prop := forall i im, impls h !! i = Some im -> refs im < usize_max.

(** Room for [k] more shares of any guard. *)
Definition refs_under (k : Z) h : Prop :=
  forall i im, impls h !! i = Some im -> refs im + k <= usize_max.

Lemma refs_under_room k h : 1 <= k -> refs_under k h -> refs_room h.
Proof. intros Hk H i im Hi. specialize (H i im Hi). lia. Qed.

Lemma share_refs_under k h g live h' g' n :
  guards_ok h live -> 0 <= k -> k + 2 <= usize_max -> refs_under (k + 1) h ->
  Guard.share h g = Ret (h', g', n) -> refs_under k h'.
Proof.
  intros Hok Hk0 Hk Hu E. unfold Guard.share in E.
  assert (forall h1 i im, impls h1 !! i = Some im -> 1 <= refs im -> refs im + (k + 1) <= usize_max ->
    (forall j im, impls h1 !! j = Some im -> j <> i -> refs im + (k + 1) <= usize_max) ->
    refs_under k (Guard.set_impls h1 (<[i := mk_impl (u64 (refs im + 1)) (next im) (kind im)]> (impls h1)))) as Hup.
  { intros h1 i im Hi H1 H2 H3 j im' Hj. cbn [impls Guard.set_impls] in Hj.
    rewrite lookup_insert in Hj. case_decide as Hd.
    - injection Hj as <-. cbn [refs]. unfold usize_max in *. rewrite u64_id by lia. lia.
    - specialize (H3 j im' Hj ltac:(congruence)). lia. }
  destruct g as [|p|i].
  - inv_ret. intros i im Hi. specialize (Hu i im Hi). lia.
  - cbn [Guard.alloc impls] in E. rewrite lookup_insert_eq in E. cbn [derefO bindO] in E. injection E as <- <- <-.
    refine (Hup (mk_gheap _ _ _) (fresh_id h) (mk_impl 1 GNull (free_guard_impl p)) _ _ _ _); cbn [impls refs].
    + apply lookup_insert_eq.
    + lia.
    + lia.
    + intros j im' Hj Hne. rewrite lookup_insert_ne in Hj by congruence. exact (Hu j im' Hj).
  - destruct (impls h !! i) as [im|] eqn:Hi; cbn [derefO bindO] in E; [|discriminate]. injection E as <- <- <-.
    apply Hup; [done| |by apply (Hu i)|intros j im' Hj _; by apply (Hu j)].
    pose proof (ok_pos _ _ Hok i im Hi). lia.
Qed.

Lemma share_ok h g live :
  guards_ok h (g :: live) -> refs_room h ->
  exists h' g' n, Guard.share h g = Ret (h', g', n) /\ guards_ok h' (g' :: n :: live) /\
    pending h' (g' :: n :: live) ≡ₚ pending h (g :: live) /\ frees h' = frees h.
Proof.
  intros Hok Hroom. destruct g as [|p|i]; cbn [Guard.share].
  - exists h, GNull, GNull. split; [done|]. split; [by apply guards_ok_null|]. done.
  - pose proof (guards_ok_promote h p live Hok) as Hpr.
    destruct (Guard.alloc _ _) as [h1 i]. destruct Hpr as (Hok1 & Hf & HP & Hl).
    rewrite Hl. cbn [derefO bindO]. do 3 eexists. split; [done|].
    destruct (guards_ok_incr h1 i _ live Hok1 Hl) as (Hok' & HP' & Hf'); [done|].
    split; [exact Hok'|]. split; [by rewrite HP', HP|]. by rewrite <- Hf, <- Hf'.
  - destruct (guards_ok_lookup _ _ _ Hok) as (im & Him & _). rewrite Him. cbn [derefO bindO].
    pose proof (ok_pos _ _ Hok i im Him). pose proof (Hroom i im Him). unfold usize_max in *.
    rewrite u64_id by lia. do 3 eexists. split; [done|].
    apply (guards_ok_incr h i im live); unfold usize_max; auto with lia.
Qed.

Lemma guards_ok_start : guards_ok (mk_gheap ∅ 1 []) [].
Proof.
  split.
  - intros i. done.
  - intros i im Hi. cbn [impls] in Hi. by rewrite lookup_empty in Hi.
  - intros i im Hi. cbn [impls] in Hi. by rewrite lookup_empty in Hi.
  - apply NoDup_nil_2.
Qed.

(** [malloc] hands out an object nobody owns. *)
Lemma make_simple_guard_ok h p live :
  guards_ok h live -> p ∉ pending h live ++ frees h ->
  guards_ok h (Guard.make_simple_guard p :: live).
Proof.
  intros [Hr Hp Hf Ho] Hn. unfold Guard.make_simple_guard. case_if; [by apply guards_ok_null|].
  split; auto. rewrite pending_cons. simpl. by apply NoDup_cons_2.
Qed.
End sharing.

(** ** Properties *)

(** C2: destroying a guard terminates (nested and chained guards included)
    without touching a destroyed object; afterwards the remaining guards are
    still well formed, and the objects freed are, without repetition, exactly
    those the destroyed guard was the last to own. *)
Theorem guard_release_frees_once (h : gheap) (g : guard) (live : list guard) :
  guards_ok h (g :: live) ->
  exists h', Guard.release h g = Ret h' /\ guards_ok h' live /\
    pending h' live ++ frees h' ≡ₚ pending h (g :: live) ++ frees h /\
    NoDup (frees h').
Proof.
  intros Hok. destruct (release_ok h g live Hok) as (h' & E & Hok' & HP). exists h'.
  do 3 (split; [done|]). destruct Hok' as [_ _ _ Hnd]. by apply list.NoDup_app in Hnd as (_ & _ & ?).
Qed.

(** Sharing a guard and then destroying both copies, in either order, does
    what destroying the original does: the same objects end up freed or still
    owned, none twice. *)
Theorem guard_share_then_release (h : gheap) (g : guard) (live : list guard) :
  guards_ok h (g :: live) -> refs_room h ->
  exists h1 g1 g2, Guard.share h g = Ret (h1, g1, g2) /\ frees h1 = frees h /\
    forall ga gb, (ga, gb) = (g1, g2) \/ (ga, gb) = (g2, g1) ->
    exists h2 h3, Guard.release h1 ga = Ret h2 /\ Guard.release h2 gb = Ret h3 /\
      guards_ok h3 live /\ pending h3 live ++ frees h3 ≡ₚ pending h (g :: live) ++ frees h.
Proof.
  intros Hok Hroom. destruct (share_ok h g live Hok Hroom) as (h1 & g1 & g2 & E & Hok1 & HP1 & Hf).
  exists h1, g1, g2. do 2 (split; [done|]). intros ga gb Hab.
  assert (ga :: gb :: live ≡ₚ g1 :: g2 :: live) as HPm
    by (destruct Hab as [[= -> ->]|[= -> ->]]; [done|apply perm_swap]).
  assert (guards_ok h1 (ga :: gb :: live)) as Hok1' by (revert Hok1; by apply guards_ok_perm).
  destruct (release_ok h1 ga (gb :: live) Hok1') as (h2 & E2 & Hok2 & HP2).
  destruct (release_ok h2 gb live Hok2) as (h3 & E3 & Hok3 & HP3).
  exists h2, h3. do 3 (split; [done|]). rewrite HP3, HP2. rewrite <- Hf, <- HP1.
  unfold pending, owned. by rewrite HPm.
Qed.

(** Appending a second simple guard to a guard loses the first one:
    [guard::append] converts the guard it finds at the end of the chain with
    [this->_impl] instead of [next->_impl], so destroying the chain never frees
    the object [q] of the first appended guard and hands the address of an impl
    to [::free] instead. *)
Theorem guard_append_twice_loses (h : gheap) (p q r : Z) :
  p <> q -> q <> r ->
  exists h1 i h2 h3,
    Guard.append h (GSimple p) (GSimple q) = Ret (h1, GImpl i) /\
    Guard.append h1 (GImpl i) (GSimple r) = Ret (h2, GImpl i) /\
    Guard.release h2 (GImpl i) = Ret h3 /\
    log h3 = freed r :: freed (Guard.impl_addr i) :: freed p :: log h.
Proof.
  intros Hpq Hqr. set (i := fresh_id h). set (j := (i + 1)%positive).
  set (i0 := mk_impl 1 GNull (free_guard_impl p)).
  set (h1 := mk_gheap (alter (fun im => mk_impl (refs im) (GSimple q) (kind im)) i (<[i := i0]> (impls h))) j (log h)).
  assert (impls h1 !! i = Some (mk_impl 1 (GSimple q) (free_guard_impl p))) as L1
    by (cbn; by rewrite lookup_alter_eq, lookup_insert_eq).
  assert (Guard.append h (GSimple p) (GSimple q) = Ret (h1, GImpl i)) as E1.
  { unfold Guard.append. cbn [Guard.empty plus Guard.append_fuel Guard.read_at bindO].
    rewrite bool_decide_false by congruence. cbn [negb assertO Guard.put_at Guard.alloc bindO impls].
    fold i. rewrite lookup_insert_eq. cbn [derefO bindO refs Z.eqb Pos.eqb].
    reflexivity. }
  set (i1 := mk_impl 1 (GImpl j) (free_guard_impl p)).
  set (j1 := mk_impl 1 (GSimple r) (free_guard_impl (Guard.impl_addr i))).
  assert (exists h2, Guard.append h1 (GImpl i) (GSimple r) = Ret (h2, GImpl i) /\ log h2 = log h /\
    impls h2 !! i = Some i1 /\ impls h2 !! j = Some j1) as (h2 & E2 & El & Li & Lj).
  { eexists. split.
    - unfold Guard.append. cbn [Guard.empty plus Guard.append_fuel Guard.read_at bindO].
      rewrite bool_decide_false by congruence. cbn [negb assertO bindO].
      rewrite L1. cbn [derefO bindO refs Z.eqb Pos.eqb].
      assert (exists n, size (impls h1) = S n) as [n ->].
      { destruct (size (impls h1)) eqn:Es; [|eauto]. apply map_size_empty_inv in Es. by rewrite Es in L1. }
      cbn [Guard.append_fuel Guard.read_at bindO]. cbn [derefO bindO next].
      rewrite bool_decide_false by congruence. cbn [negb assertO Guard.put_at Guard.alloc bindO impls].
      change (fresh_id h1) with j. unfold Guard.set_impls. cbn [impls].
      rewrite lookup_alter_ne, lookup_insert_eq by (subst j; lia). cbn [derefO bindO refs Z.eqb Pos.eqb].
      reflexivity.
    - cbn [log impls Guard.set_impls]. split; [done|].
      assert (i <> j) by (subst j; lia). split.
      + rewrite lookup_alter_ne, lookup_alter_eq, lookup_insert_ne, L1 by done. done.
      + by rewrite lookup_alter_eq, lookup_alter_ne, lookup_insert_eq by done. }
  exists h1, i, h2. eexists. split; [done|]. split; [done|]. 
  assert (exists n, size (impls h2) = S (S n)) as [n Hn].
  { rewrite <- (insert_delete_id _ _ _ Li), map_size_insert_None by apply lookup_delete_eq.
    assert (delete i (impls h2) !! j = Some j1) as Lj' by (rewrite lookup_delete_ne; [done|subst j; lia]).
    destruct (size (delete i (impls h2))) eqn:Es; [|eauto]. apply map_size_empty_inv in Es. by rewrite Es in Lj'. }
  unfold Guard.release. rewrite Hn. cbn [Guard.release_fuel]. rewrite Li.
  cbn [derefO bindO refs i1 kind next]. change (u64 (1 - 1) =? 0) with true. cbn [Guard.set_impls Guard.log_act impls].
  rewrite lookup_delete_ne, Lj by (subst j; lia).
  cbn [derefO bindO refs j1 kind next]. change (u64 (1 - 1) =? 0) with true. cbn [bindO Guard.log_act].
  split; [reflexivity|]. simpl. by rewrite El.
Qed.

(** ** The properties at concrete inputs *)

(** A counted guard with two references and a chained simple one. *)
Definition ex_gheap : gheap := mk_gheap {[ 1%positive := mk_impl 2 (GSimple 20) (free_guard_impl 10) ]} 2 [].

Lemma ex_gheap_ok : guards_ok ex_gheap [GImpl 1; GImpl 1].
Proof.
  split.
  - intros i. unfold ex_gheap, owned, inner_guards, refs_of. cbn [impls]. rewrite map_to_list_singleton. cbn.
    destruct (decide (i = 1%positive)) as [->|Hne]; [by rewrite lookup_singleton_eq|].
    rewrite lookup_singleton_ne by done. unfold refs_to. cbn. by repeat case_decide; simplify_eq.
  - intros i im Hi. unfold ex_gheap in Hi. cbn [impls] in Hi. apply lookup_singleton_Some in Hi as [<- <-]. done.
  - intros i im Hi. unfold ex_gheap in Hi. cbn [impls] in Hi. apply lookup_singleton_Some in Hi as [<- <-]. done.
  - vm_compute. repeat constructor; intros Hi; repeat (inversion Hi as [|? ? ? Hi']; subst; clear Hi; rename Hi' into Hi).
Qed.

Lemma guard_release_frees_once_witness :
  exists h', Guard.release ex_gheap (GImpl 1) = Ret h' /\ guards_ok h' [GImpl 1].
Proof.
  destruct (guard_release_frees_once ex_gheap (GImpl 1) [GImpl 1]) as (h' & E & Hok & _).
  - apply ex_gheap_ok.
  - exists h'. split; assumption.
Defined.

Lemma guard_share_then_release_witness :
  exists h1 g1 g2, Guard.share ex_gheap (GImpl 1) = Ret (h1, g1, g2) /\
    exists h2 h3, Guard.release h1 g2 = Ret h2 /\ Guard.release h2 g1 = Ret h3 /\ guards_ok h3 [GImpl 1].
Proof.
  destruct (guard_share_then_release ex_gheap (GImpl 1) [GImpl 1]) as (h1 & g1 & g2 & E & _ & H).
  - apply ex_gheap_ok.
  - intros i im Hi. unfold ex_gheap in Hi. cbn [impls] in Hi. apply lookup_singleton_Some in Hi as [<- <-]. vm_compute. reflexivity.
  - exists h1, g1, g2. split; [exact E|].
    destruct (H g2 g1) as (h2 & h3 & E2 & E3 & Hok & _); [by right|]. exists h2, h3. split; [exact E2|]. split; [exact E3|exact Hok].
Defined.

Lemma guard_append_twice_loses_witness :
  exists h1 i h2 h3, Guard.append (mk_gheap ∅ 1 []) (GSimple 10) (GSimple 20) = Ret (h1, GImpl i) /\
    Guard.append h1 (GImpl i) (GSimple 30) = Ret (h2, GImpl i) /\
    Guard.release h2 (GImpl i) = Ret h3 /\ log h3 = [freed 30; freed (Guard.impl_addr i); freed 10].
Proof. apply (guard_append_twice_loses (mk_gheap ∅ 1 []) 10 20 30); lia. Defined.
