(* ===== verification/Blob.v ===== *)
(** * Blob: [class byte_blob] (xi/io/byte_blob.h)

    A blob is an extent of the byte store and a guard that keeps the extent
    alive.  Copies, clones and splits alias the same bytes and share the
    guard.  The default move constructor and move assignment move the guard
    and copy pointer and size. *)
From S2P Require Import Prelude Bytes Guard.

Record byte_blob := mk_blob { bb_bytes : Z; bb_size : Z; bb_guard : guard }.

Module Blob.
(** [byte_blob{}]. *)
Definition null : byte_blob := mk_blob 0 0 GNull.

Definition data (b : byte_blob) : Z := bb_bytes b.
Definition begin (b : byte_blob) : Z := bb_bytes b.
Definition end_ (b : byte_blob) : Z := bb_bytes b + bb_size b.
Definition rbegin (b : byte_blob) : Z := end_ b - 1.
Definition rend (b : byte_blob) : Z := begin b - 1.
Definition size (b : byte_blob) : Z := bb_size b.
Definition empty (b : byte_blob) : bool := bb_size b =? 0.

(** [byte_blob(byte_blob&&)]: what is left behind, and the new blob. *)
Definition move (b : byte_blob) : byte_blob * byte_blob :=
  (mk_blob (bb_bytes b) (bb_size b) GNull, b).

(** [~byte_blob()]. *)
Definition destroy (h : gheap) (b : byte_blob) : outcome gheap := Guard.release h (bb_guard b).

(** [byte_blob& operator=(byte_blob&&)] from a temporary. *)
Definition move_assign (h : gheap) (self x : byte_blob) : outcome (gheap * byte_blob) :=
  do '(h, g, _) <- Guard.assign h (bb_guard self) (bb_guard x);;
  Ret (h, mk_blob (bb_bytes x) (bb_size x) g).

(** [byte_blob(ref< byte_blob > other)]: the copy, and [other], whose guard
    may have become a counted one. *)
Definition copy (h : gheap) (other : byte_blob) : outcome (gheap * byte_blob * byte_blob) :=
  do '(h, g, n) <- Guard.share h (bb_guard other);;
  Ret (h, mk_blob (bb_bytes other) (bb_size other) g, mk_blob (bb_bytes other) (bb_size other) n).

(** [operator=(ref< byte_blob > other)], [same] says [&other == this]. *)
Definition assign (h : gheap) (self other : byte_blob) (same : bool)
    : outcome (gheap * byte_blob * byte_blob) :=
  if same then Ret (h, self, other)
  else
    do h <- destroy h self;;
    do '(h, other, n) <- copy h other;;
    Ret (h, n, other).

Definition clone (h : gheap) (b : byte_blob) : outcome (gheap * byte_blob * byte_blob) :=
  do '(h, g, n) <- Guard.share h (bb_guard b);;
  Ret (h, mk_blob (bb_bytes b) (bb_size b) g, mk_blob (bb_bytes b) (bb_size b) n).

(** [byte_blob split(usize offset)]: this blob afterwards, and the tail. *)
Definition split (h : gheap) (b : byte_blob) (offset : Z) : outcome (gheap * byte_blob * byte_blob) :=
  assertO (signed_nonneg offset)
    (if bb_size b <=? offset then Ret (h, b, null)
     else if offset =? 0 then Ret (h, null, b)
     else
       do '(h, g, n) <- Guard.share h (bb_guard b);;
       Ret (h, mk_blob (bb_bytes b) offset g,
            mk_blob (bb_bytes b + offset) (u64 (bb_size b - offset)) n)).

Definition share (h : gheap) (b : byte_blob) (offset length : Z)
    : outcome (gheap * byte_blob * byte_blob) :=
  if (bb_size b <=? offset) || (length =? 0) then Ret (h, b, null)
  else
    do '(h, g, n) <- Guard.share h (bb_guard b);;
    Ret (h, mk_blob (bb_bytes b) (bb_size b) g,
         mk_blob (bb_bytes b + offset) (Z.min length (u64 (bb_size b - offset))) n).

(** The bytes a blob covers. *)
Definition view (m : mem) (b : byte_blob) : list Z := load m (bb_bytes b) (bb_size b).

(** An extent inside one allocation. *)
Definition wf (b : byte_blob) : Prop := 0 <= bb_bytes b /\ 0 <= bb_size b < 2 ^ 63.

(** [r] lies within [b]. *)
Definition within (r b : byte_blob) : Prop :=
  bb_bytes b <= bb_bytes r /\ end_ r <= end_ b.
End Blob.

Section blob_lemmas.
Implicit Types (h : gheap) (b : byte_blob) (live : list guard).

Lemma blob_clone_ok h b live :
  guards_ok h (bb_guard b :: live) -> refs_room h ->
  exists h' b' c, Blob.clone h b = Ret (h', b', c) /\
    bb_bytes b' = bb_bytes b /\ bb_size b' = bb_size b /\
    bb_bytes c = bb_bytes b /\ bb_size c = bb_size b /\
    guards_ok h' (bb_guard b' :: bb_guard c :: live) /\
    pending h' (bb_guard b' :: bb_guard c :: live) ≡ₚ pending h (bb_guard b :: live) /\
    frees h' = frees h.
Proof.
  intros Hok Hroom. destruct (share_ok _ _ _ Hok Hroom) as (h' & g' & n & E & Hok' & HP & Hf).
  unfold Blob.clone. rewrite E. simpl. do 3 eexists. by repeat (split; [done|]).
Qed.

(** An interior split cuts the extent in two; nothing is copied. *)
Lemma blob_split_inner h b offset live :
  Blob.wf b -> guards_ok h (bb_guard b :: live) -> refs_room h -> 0 < offset < bb_size b ->
  exists h' b' r, Blob.split h b offset = Ret (h', b', r) /\
    b' = mk_blob (bb_bytes b) offset (bb_guard b') /\
    r = mk_blob (bb_bytes b + offset) (bb_size b - offset) (bb_guard r) /\
    guards_ok h' (bb_guard b' :: bb_guard r :: live) /\
    pending h' (bb_guard b' :: bb_guard r :: live) ≡ₚ pending h (bb_guard b :: live) /\
    frees h' = frees h.
Proof.
  intros [Hb Hs] Hok Hroom Ho. unfold Blob.split. rewrite signed_nonneg_true by lia.
  cbn [assertO]. rewrite (proj2 (Z.leb_gt _ _)), (proj2 (Z.eqb_neq _ _)) by lia.
  destruct (share_ok _ _ _ Hok Hroom) as (h' & g' & n & E & Hok' & HP & Hf).
  rewrite E. simpl. unwrap64. do 3 eexists. by repeat (split; [done|]).
Qed.

Lemma blob_view_split m b b' r offset :
  0 <= offset <= bb_size b -> bb_bytes b' = bb_bytes b -> bb_size b' = offset ->
  bb_bytes r = bb_bytes b + offset -> bb_size r = bb_size b - offset ->
  Blob.view m b = Blob.view m b' ++ Blob.view m r.
Proof.
  intros Ho E1 E2 E3 E4. unfold Blob.view. rewrite E1, E2, E3, E4.
  rewrite <- load_app by lia. f_equal. lia.
Qed.
End blob_lemmas.
