(* ===== verification/Fragment.v ===== *)
(** * Fragment: [class fragment] (xi/io/fragment.h, src/io/fragment.cpp)

    A fragment is a window [head, head + size) into the extent of a blob: the
    bytes before it are the headroom, the bytes after it the tailroom.
    Operations that touch bytes take and return the store [mem]; operations
    that create or drop references take and return the guard store [gheap]. *)
From S2P Require Import Prelude Bytes Guard Blob.

Record fragment := mk_fragment { fr_bytes : byte_blob; fr_head : Z; fr_size : Z }.

Module Fragment.
(** [maybe_release()]: an empty extent is dropped at once. *)
Definition maybe_release (h : gheap) (f : fragment) : outcome (gheap * fragment) :=
  if Blob.empty (fr_bytes f) then
    do '(h, b) <- Blob.move_assign h (fr_bytes f) Blob.null;;
    Ret (h, mk_fragment b 0 0)
  else Ret (h, f).

(** [fragment(byte_blob)]. *)
Definition make (h : gheap) (bytes : byte_blob) : outcome (gheap * fragment) :=
  maybe_release h (mk_fragment bytes (Blob.begin bytes) 0).

(** [~fragment()]. *)
Definition destroy (h : gheap) (f : fragment) : outcome gheap := Blob.destroy h (fr_bytes f).

Definition data (f : fragment) : Z := fr_head f.
Definition size (f : fragment) : Z := fr_size f.
Definition empty (f : fragment) : bool := 0 =? size f.
Definition tail (f : fragment) : Z := fr_head f + fr_size f.
Definition headroom (f : fragment) : Z := u64 (fr_head f - Blob.begin (fr_bytes f)).
Definition tailroom (f : fragment) : Z := u64 (Blob.end_ (fr_bytes f) - tail f).

Definition head_range (f : fragment) : byte_range := mk_range (fr_head f) (headroom f).
Definition data_range (f : fragment) : byte_range := mk_range (fr_head f) (size f).
Definition tail_range (f : fragment) : byte_range := mk_range (tail f) (tailroom f).

(** [record_bytes(sz)]: bytes written behind the fragment's back. *)
Definition record_bytes (f : fragment) (sz : Z) : outcome (fragment * Z) :=
  assertO (signed_nonneg (sz + size f))
    (let increment := Z.min sz (tailroom f) in
     Ret (mk_fragment (fr_bytes f) (fr_head f) (u64 (fr_size f + increment)), increment)).

Definition advance (m : mem) (f : fragment) (sz : Z) : outcome (mem * fragment) :=
  assertO (u64 (sz + size f) <=? tailroom f)
    (let m := if 0 <? size f then memmove m (fr_head f + sz) (fr_head f) (size f) else m in
     Ret (m, mk_fragment (fr_bytes f) (fr_head f + sz) (fr_size f))).

(** The source moves [size()] bytes from [_head + sz] to [_head] and then
    lowers [_head] by [sz]. *)
Definition retreat (m : mem) (f : fragment) (sz : Z) : outcome (mem * fragment) :=
  assertO (sz <=? headroom f)
    (let m := if 0 <? size f then memmove m (fr_head f) (fr_head f + sz) (size f) else m in
     Ret (m, mk_fragment (fr_bytes f) (fr_head f - sz) (fr_size f))).

Definition write (m : mem) (f : fragment) (r : byte_range) : mem * fragment * Z :=
  let cap := Z.min (r_size r) (tailroom f) in
  (copy_bytes m (Range.begin r) (tail f) cap,
   mk_fragment (fr_bytes f) (fr_head f) (u64 (fr_size f + cap)), cap).

Definition read (m : mem) (f : fragment) (r : byte_range) (offset : Z) : mem * Z :=
  if size f <=? offset then (m, 0)
  else
    let cap := Z.min (r_size r) (u64 (size f - offset)) in
    (copy_bytes m (fr_head f + offset) (Range.begin r) cap, cap).

Definition skip_bytes (h : gheap) (f : fragment) (len : Z) : outcome (gheap * fragment * Z) :=
  let cap := Z.min (size f) len in
  do '(h, f) <- maybe_release h (mk_fragment (fr_bytes f) (fr_head f + cap) (u64 (fr_size f - cap)));;
  Ret (h, f, cap).

Definition ignore_bytes_at_end (f : fragment) (len : Z) : fragment * Z :=
  let cap := Z.min len (size f) in
  (mk_fragment (fr_bytes f) (fr_head f) (u64 (fr_size f - cap)), cap).

(** [clone()]: this fragment (its guard may now be counted) and the clone. *)
Definition clone (h : gheap) (f : fragment) : outcome (gheap * fragment * fragment) :=
  do '(h, b, c) <- Blob.clone h (fr_bytes f);;
  do '(h, c) <- make h c;;
  Ret (h, mk_fragment b (fr_head f) (fr_size f), mk_fragment (fr_bytes c) (fr_head f) (fr_size f)).

(** [split(sz)]: this fragment afterwards, and the tail ([None]: nullptr). *)
Definition split (h : gheap) (f : fragment) (sz : Z)
    : outcome (gheap * fragment * option fragment) :=
  if size f <=? sz then Ret (h, f, None)
  else if (sz =? 0) && (headroom f =? 0) then
    let '(b, moved) := Blob.move (fr_bytes f) in
    do '(h, ret) <- make h moved;;
    do '(h, b) <- Blob.move_assign h b Blob.null;;
    Ret (h, mk_fragment b 0 0, Some ret)
  else
    let split_point := u64 (sz + headroom f) in
    do '(h, b, tl) <- Blob.split h (fr_bytes f) split_point;;
    do '(h, ret) <- make h tl;;
    let ret := mk_fragment (fr_bytes ret) (fr_head ret) (u64 (fr_size f - sz)) in
    let hr := headroom (mk_fragment b (fr_head f) (fr_size f)) in
    let head := Blob.begin b + hr in
    let hr' := headroom (mk_fragment b head (fr_size f)) in
    Ret (h, mk_fragment b head (u64 (Blob.size b - hr')), Some ret).

(** What the fragment holds. *)
Definition bytes (m : mem) (f : fragment) : list Z := load m (fr_head f) (fr_size f).

(** The window lies inside the extent. *)
Record wf (f : fragment) : Prop := {
  wf_blob : Blob.wf (fr_bytes f);
  wf_head : bb_bytes (fr_bytes f) <= fr_head f;
  wf_size : 0 <= fr_size f;
  wf_tail : fr_head f + fr_size f <= bb_bytes (fr_bytes f) + bb_size (fr_bytes f);
  wf_null : bb_size (fr_bytes f) = 0 -> fr_bytes f = Blob.null
}.

Definition guard (f : fragment) : guard := bb_guard (fr_bytes f).
End Fragment.

(** Closes [Fragment.wf] of a literal fragment from arithmetic facts. *)
Ltac wf_frag := split; simpl; first [assumption | lia | split; simpl; lia | intros; lia].

Section fragment_lemmas.
Implicit Types (m : mem) (h : gheap) (f : fragment) (r : byte_range) (live : list guard).

Ltac open_wf :=
  repeat match goal with
  | H : Fragment.wf _ |- _ => destruct H as [[? ?] ? ? ? ?]
  | H : Range.wf _ |- _ => unfold Range.wf in H
  end.

Lemma fr_headroom f : Fragment.wf f ->
  Fragment.headroom f = fr_head f - bb_bytes (fr_bytes f).
Proof. intros. open_wf. unfold Fragment.headroom, Blob.begin. apply u64_id. unfold_pow2. lia. Qed.

Lemma fr_tailroom f : Fragment.wf f ->
  Fragment.tailroom f = bb_bytes (fr_bytes f) + bb_size (fr_bytes f) - fr_head f - fr_size f.
Proof.
  intros. open_wf. unfold Fragment.tailroom, Blob.end_, Fragment.tail.
  rewrite u64_id; unfold_pow2; lia.
Qed.

Lemma fr_rooms f : Fragment.wf f ->
  0 <= Fragment.headroom f /\ 0 <= Fragment.tailroom f /\
  Fragment.headroom f + fr_size f + Fragment.tailroom f = bb_size (fr_bytes f).
Proof. intros H. rewrite fr_headroom, fr_tailroom by done. open_wf. lia. Qed.

Lemma fr_size_range f : Fragment.wf f -> 0 <= fr_size f < 2 ^ 63.
Proof. intros H. open_wf. lia. Qed.

Lemma zlen_fr_bytes m f : Fragment.wf f -> zlen (Fragment.bytes m f) = fr_size f.
Proof. intros H. open_wf. apply zlen_load. done. Qed.

(** [advance] slides the data up by [sz]. *)
Lemma fr_advance_ok m f sz :
  Fragment.wf f -> 0 <= sz -> sz + fr_size f <= Fragment.tailroom f ->
  exists m' f', Fragment.advance m f sz = Ret (m', f') /\ Fragment.wf f' /\
    Fragment.bytes m' f' = Fragment.bytes m f /\
    fr_bytes f' = fr_bytes f /\ fr_size f' = fr_size f /\ fr_head f' = fr_head f + sz.
Proof.
  intros H Hsz Hroom. pose proof (fr_rooms f H). rewrite fr_tailroom in Hroom by done.
  unfold Fragment.advance, Fragment.size. rewrite fr_tailroom by done. open_wf.
  unwrap64. rewrite (proj2 (Z.leb_le _ _)) by lia. cbn [assertO].
  do 2 eexists. split; [done|]. split; [wf_frag|].
  split; [|done]. unfold Fragment.bytes. simpl. case_if; [by apply load_memmove|].
  by rewrite !load_nonpos by lia.
Qed.

(** [retreat] is meant to undo it. *)
Lemma fr_retreat_head m f sz :
  Fragment.wf f -> 0 <= sz <= Fragment.headroom f ->
  exists m' f', Fragment.retreat m f sz = Ret (m', f') /\ Fragment.wf f' /\
    fr_bytes f' = fr_bytes f /\ fr_size f' = fr_size f /\ fr_head f' = fr_head f - sz /\
    m' = (if 0 <? fr_size f then memmove m (fr_head f) (fr_head f + sz) (fr_size f) else m).
Proof.
  intros H Hsz. unfold Fragment.retreat, Fragment.size. rewrite (proj2 (Z.leb_le _ _)) by lia.
  rewrite fr_headroom in Hsz by done. open_wf. cbn [assertO].
  do 2 eexists. split; [done|]. split; [wf_frag|]. done.
Qed.

(** [write] appends as much as fits; source and tailroom do not overlap. *)
Lemma fr_write_ok m f r :
  Fragment.wf f -> Range.wf r ->
  disjoint (r_data r) (r_size r) (Fragment.tail f) (Fragment.tailroom f) ->
  let n := Z.min (r_size r) (Fragment.tailroom f) in
  exists m' f', Fragment.write m f r = (m', f', n) /\ Fragment.wf f' /\
    Fragment.bytes m' f' = Fragment.bytes m f ++ ztake n (Range.bytes m r) /\
    fr_bytes f' = fr_bytes f /\ fr_head f' = fr_head f /\ fr_size f' = fr_size f + n /\
    (forall a k, disjoint (Fragment.tail f) (Fragment.tailroom f) a k -> load m' a k = load m a k).
Proof.
  intros H Hr Hd n. pose proof (fr_rooms f H) as Hrooms. pose proof (fr_size_range f H).
  assert (0 <= n /\ n <= r_size r /\ n <= Fragment.tailroom f) as Hn
    by (subst n; open_wf; lia).
  unfold Fragment.write. fold n. unfold Range.begin.
  assert (~ (r_data r < Fragment.tail f < r_data r + n)) as Hov.
  { unfold disjoint, Fragment.tail in *. lia. }
  do 2 eexists. split; [done|]. simpl.
  assert (fr_size f + n <= bb_size (fr_bytes f)) by lia.
  assert (bb_size (fr_bytes f) < 2 ^ 63) by (open_wf; lia).
  unwrap64. split; [|split; [|split; [done|split; [done|split; [done|]]]]].
  - rewrite fr_headroom, fr_tailroom in * by done. open_wf. wf_frag.
  - unfold Fragment.bytes, Range.bytes. simpl. rewrite load_app by lia. f_equal.
    + apply load_copy_out; [done|]. unfold disjoint, Fragment.tail. lia.
    + change (fr_head f + fr_size f) with (Fragment.tail f).
      rewrite load_copy by done. rewrite ztake_load by lia. done.
  - intros a k Ha. apply load_copy_out; [done|]. unfold disjoint, Fragment.tail in *. lia.
Qed.

(** [read] copies out of the window. *)
Lemma fr_read_ok m f r offset :
  Fragment.wf f -> Range.wf r -> 0 <= offset ->
  disjoint (r_data r) (r_size r) (fr_head f) (fr_size f) ->
  let n := Z.max 0 (Z.min (r_size r) (fr_size f - offset)) in
  exists m', Fragment.read m f r offset = (m', n) /\
    load m' (r_data r) n = ztake n (zdrop offset (Fragment.bytes m f)) /\
    (forall a k, disjoint (r_data r) n a k -> load m' a k = load m a k).
Proof.
  intros H Hr Ho Hd n. pose proof (fr_size_range f H). unfold Range.wf in Hr.
  unfold Fragment.read, Fragment.size. case_if.
  - replace n with 0 by lia. exists m. split; [done|]. split; [|done].
    by rewrite load_nonpos, ztake_0 by lia.
  - unwrap64. replace (Z.min _ _) with n by lia. eexists. split; [done|].
    unfold Range.begin, disjoint in *. split.
    + rewrite load_copy by lia. unfold Fragment.bytes. rewrite zdrop_load, ztake_load by lia. done.
    + intros a k Ha. apply load_copy_out; [lia|]. done.
Qed.

Lemma fr_release_nonempty h f :
  bb_size (fr_bytes f) <> 0 -> Fragment.maybe_release h f = Ret (h, f).
Proof. intros. unfold Fragment.maybe_release, Blob.empty. by rewrite (proj2 (Z.eqb_neq _ _)). Qed.

Lemma fr_release_keeps h f : Fragment.wf f -> Fragment.maybe_release h f = Ret (h, f).
Proof.
  intros H. destruct (decide (bb_size (fr_bytes f) = 0)) as [E|E]; [|by apply fr_release_nonempty].
  destruct f as [b hd sz]. destruct H as [_ Hh Hs Ht Hn]. simpl in *. rewrite (Hn E) in *. simpl in *.
  by replace hd with 0 by lia; replace sz with 0 by lia.
Qed.

(** [skip_bytes] drops a prefix of the window. *)
Lemma fr_skip_ok m h f len :
  Fragment.wf f -> 0 <= len ->
  let n := Z.min (fr_size f) len in
  exists f', Fragment.skip_bytes h f len = Ret (h, f', n) /\ Fragment.wf f' /\
    Fragment.bytes m f' = zdrop n (Fragment.bytes m f) /\
    fr_bytes f' = fr_bytes f /\ fr_size f' = fr_size f - n /\ fr_head f' = fr_head f + n.
Proof.
  intros H Hl n. pose proof (fr_size_range f H).
  unfold Fragment.skip_bytes, Fragment.size. fold n. unwrap64.
  assert (Fragment.wf (mk_fragment (fr_bytes f) (fr_head f + n) (fr_size f - n))) as H'
    by (open_wf; wf_frag).
  rewrite fr_release_keeps by done. simpl. eexists. split; [done|]. simpl. split; [done|split; [|done]].
  - unfold Fragment.bytes. simpl. rewrite zdrop_load by lia. done.
Qed.

Lemma fr_ignore_ok m f len :
  Fragment.wf f -> 0 <= len ->
  let n := Z.min len (fr_size f) in
  exists f', Fragment.ignore_bytes_at_end f len = (f', n) /\ Fragment.wf f' /\
    Fragment.bytes m f' = ztake (fr_size f - n) (Fragment.bytes m f) /\
    fr_bytes f' = fr_bytes f /\ fr_size f' = fr_size f - n /\ fr_head f' = fr_head f.
Proof.
  intros H Hl n. pose proof (fr_size_range f H).
  unfold Fragment.ignore_bytes_at_end, Fragment.size. fold n. unwrap64.
  eexists. split; [done|]. simpl. split; [|split; [|done]].
  - open_wf. wf_frag.
  - unfold Fragment.bytes. simpl. rewrite ztake_load by lia. done.
Qed.
End fragment_lemmas.

Section fragment_ownership.
Implicit Types (m : mem) (h : gheap) (f : fragment) (live : list guard).

(** [split] with something before the split point: two windows onto the same
    extent, no byte moved, the guard shared. *)
Lemma fr_split_ok m h f sz live :
  Fragment.wf f -> guards_ok h (Fragment.guard f :: live) -> refs_room h ->
  0 <= sz < fr_size f -> 0 < sz + Fragment.headroom f ->
  exists h' f' r, Fragment.split h f sz = Ret (h', f', Some r) /\
    Fragment.wf f' /\ Fragment.wf r /\
    Fragment.bytes m f' = ztake sz (Fragment.bytes m f) /\
    Fragment.bytes m r = zdrop sz (Fragment.bytes m f) /\
    fr_size f' = sz /\ fr_size r = fr_size f - sz /\
    Fragment.headroom f' = Fragment.headroom f /\ Fragment.tailroom f' = 0 /\
    Fragment.headroom r = 0 /\ Fragment.tailroom r = Fragment.tailroom f /\
    guards_ok h' (Fragment.guard f' :: Fragment.guard r :: live) /\
    pending h' (Fragment.guard f' :: Fragment.guard r :: live) ≡ₚ pending h (Fragment.guard f :: live) /\
    frees h' = frees h.
Proof.
  intros H Hok Hroom Hsz Hne. pose proof (fr_rooms f H) as Hr. pose proof (fr_size_range f H).
  assert (Hb : Blob.wf (fr_bytes f)) by apply H. assert (bb_size (fr_bytes f) < 2 ^ 63) by apply Hb.
  unfold Fragment.split, Fragment.size. rewrite (proj2 (Z.leb_gt _ _)) by lia.
  replace ((sz =? 0) && (Fragment.headroom f =? 0))%bool with false
    by (symmetry; apply andb_false_iff; rewrite !Z.eqb_neq; lia).
  unwrap64.
  destruct (blob_split_inner h (fr_bytes f) (sz + Fragment.headroom f) live)
    as (h' & b' & tl & E & Eb & Et & Hok' & HP & Hf); [done|done|done|lia|].
  rewrite E. cbn [bindO]. unfold Fragment.make. rewrite fr_release_nonempty by (rewrite Et; simpl; lia).
  cbn [bindO fr_bytes fr_head fr_size]. rewrite Eb, Et. unfold Fragment.headroom, Blob.begin, Blob.size.
  cbn [bb_bytes bb_size fr_bytes fr_head fr_size].
  rewrite fr_headroom in * by done. rewrite fr_tailroom in * by done.
  destruct H as [[? ?] Hh Hs Ht Hn].
  repeat match goal with |- context [u64 ?x] => rewrite (u64_id x) by (unfold_pow2; lia) end.
  do 3 eexists. split; [done|]. unfold Fragment.bytes, Fragment.tailroom, Blob.end_, Fragment.tail, Fragment.guard. cbn [fr_bytes fr_head fr_size bb_bytes bb_size bb_guard].
  repeat match goal with |- context [u64 ?x] => rewrite (u64_id x) by (unfold_pow2; lia) end.
  split; [wf_frag|]. split; [wf_frag|].
  rewrite ztake_load, zdrop_load by lia.
  split; [f_equal; lia|]. split; [f_equal; lia|].
  repeat (split; [lia|]). auto.
Qed.

(** [split] refuses a split point at or past the end. *)
Lemma fr_split_past h f sz : fr_size f <= sz -> Fragment.split h f sz = Ret (h, f, None).
Proof. intros. unfold Fragment.split, Fragment.size. by rewrite (proj2 (Z.leb_le _ _)) by lia. Qed.

Lemma fr_null f : Fragment.wf f -> bb_size (fr_bytes f) = 0 -> f = mk_fragment Blob.null 0 0.
Proof.
  intros [_ Hh Hs Ht Hn] E. destruct f as [b hd sz]. simpl in *. rewrite (Hn E) in *. simpl in *.
  by replace hd with 0 by lia; replace sz with 0 by lia.
Qed.

(** Two fragments that are the same window onto the same extent. *)
Definition same_window f g : Prop :=
  fr_head g = fr_head f /\ fr_size g = fr_size f /\
  bb_bytes (fr_bytes g) = bb_bytes (fr_bytes f) /\ bb_size (fr_bytes g) = bb_size (fr_bytes f).

Lemma same_window_bytes m f g : same_window f g -> Fragment.bytes m g = Fragment.bytes m f.
Proof. intros (E1 & E2 & _). unfold Fragment.bytes. by rewrite E1, E2. Qed.

Lemma same_window_wf f g :
  same_window f g -> (bb_size (fr_bytes g) = 0 -> fr_bytes g = Blob.null) ->
  Fragment.wf f -> Fragment.wf g.
Proof.
  intros (E1 & E2 & E3 & E4) Hn [[? ?] ? ? ? ?]. split; unfold Blob.wf; rewrite ?E1, ?E2, ?E3, ?E4; auto with lia.
Qed.

Lemma clone_refs_under k h f live h' f' c :
  guards_ok h live -> 0 <= k -> k + 2 <= usize_max -> refs_under (k + 1) h ->
  Fragment.wf f -> Fragment.clone h f = Ret (h', f', c) -> refs_under k h'.
Proof.
  intros Hok Hk0 Hk Hu H E. unfold Fragment.clone, Blob.clone in E.
  destruct (Guard.share h (bb_guard (fr_bytes f))) as [[[h1 g] n]| | | |] eqn:Es; cbn [bindO] in E; try discriminate.
  pose proof (share_refs_under k _ _ _ _ _ _ Hok Hk0 Hk Hu Es) as Hu1.
  destruct (decide (bb_size (fr_bytes f) = 0)) as [Hz|Hz].
  - rewrite (fr_null f H Hz) in *. cbn in Es, E. injection Es as <- <- <-. by injection E as <- <- <-.
  - unfold Fragment.make in E. rewrite fr_release_nonempty in E by (simpl; lia). cbn [bindO] in E. by injection E as <- <- <-.
Qed.

Lemma fr_clone_ok h f live :
  Fragment.wf f -> guards_ok h (Fragment.guard f :: live) -> refs_room h ->
  exists h' f' c, Fragment.clone h f = Ret (h', f', c) /\
    Fragment.wf f' /\ Fragment.wf c /\ same_window f f' /\ same_window f c /\
    guards_ok h' (Fragment.guard f' :: Fragment.guard c :: live) /\
    pending h' (Fragment.guard f' :: Fragment.guard c :: live) ≡ₚ pending h (Fragment.guard f :: live) /\
    frees h' = frees h.
Proof.
  intros H Hok Hroom. destruct (decide (bb_size (fr_bytes f) = 0)) as [Hz|Hne].
  { rewrite (fr_null f H Hz) in *. exists h, (mk_fragment Blob.null 0 0), (mk_fragment Blob.null 0 0).
    split; [done|]. do 2 (split; [done|]). do 2 (split; [done|]). split; [by apply guards_ok_null|]. done. }
  destruct (blob_clone_ok h (fr_bytes f) live Hok Hroom) as (h' & b' & c & E & E1 & E2 & E3 & E4 & Hok' & HP & Hf).
  unfold Fragment.clone. rewrite E. cbn [bindO]. unfold Fragment.make.
  rewrite fr_release_nonempty by (simpl; lia). cbn [bindO]. do 3 eexists. split; [done|].
  assert (same_window f (mk_fragment b' (fr_head f) (fr_size f))) as S1 by done.
  assert (same_window f (mk_fragment c (fr_head f) (fr_size f))) as S2 by done.
  split; [apply (same_window_wf f); simpl; auto with lia|].
  split; [apply (same_window_wf f); simpl; auto with lia|]. auto.
Qed.
End fragment_ownership.

(** ** Properties *)

(** [fragment::write] appends to the data the longest prefix of the range
    that fits in the tailroom, reports its length, leaves the window inside
    the extent and changes no byte outside the tailroom. *)
Theorem fragment_write_appends (m : mem) (f : fragment) (r : byte_range) :
  Fragment.wf f -> Range.wf r ->
  disjoint (r_data r) (r_size r) (Fragment.tail f) (Fragment.tailroom f) ->
  let n := Z.min (r_size r) (Fragment.tailroom f) in
  exists m' f', Fragment.write m f r = (m', f', n) /\ Fragment.wf f' /\
    Fragment.bytes m' f' = Fragment.bytes m f ++ ztake n (Range.bytes m r) /\
    Fragment.tailroom f' = Fragment.tailroom f - n /\
    (forall a k, disjoint (Fragment.tail f) (Fragment.tailroom f) a k -> load m' a k = load m a k).
Proof.
  intros H Hr Hd n.
  destruct (fr_write_ok m f r H Hr Hd) as (m' & f' & E & Hwf & Hb & E1 & E2 & E3 & Hfr).
  exists m', f'. do 3 (split; [done|]). split; [|done].
  rewrite !fr_tailroom, E1, E2, E3 by done. fold n. lia.
Qed.

Definition ex_mem : mem := store ∅ 1000 [7; 8; 9; 10].
Definition ex_fragment : fragment := mk_fragment (mk_blob 100 8 GNull) 102 3.

Lemma fragment_write_appends_witness :
  exists m' f', Fragment.write ex_mem ex_fragment (mk_range 1000 4) = (m', f', 3) /\
    Fragment.bytes m' f' = [0; 0; 0; 7; 8; 9].
Proof.
  destruct (fragment_write_appends ex_mem ex_fragment (mk_range 1000 4)) as (m' & f' & E & _ & Hb & _).
  - wf_frag.
  - split; simpl; lia.
  - right; right; right. vm_compute. discriminate.
  - exists m', f'. split; [exact E|]. rewrite Hb. vm_compute. reflexivity.
Defined.

(** [fragment::split(sz)] with something before the split point
    (data or headroom) cuts the window in two on the same extent: this fragment
    keeps the headroom and the first [sz] bytes, the returned one the rest and
    the tailroom; no byte is copied, nothing is freed, and both share the
    extent's guard.  At or past the end it returns a null pointer and changes
    nothing. *)
Theorem fragment_split_cuts (m : mem) (h : gheap) (f : fragment) (sz : Z) (live : list guard) :
  Fragment.wf f -> guards_ok h (Fragment.guard f :: live) -> refs_room h ->
  0 <= sz < 2 ^ 64 -> 0 < sz + Fragment.headroom f ->
  exists h' f' p, Fragment.split h f sz = Ret (h', f', p) /\ Fragment.wf f' /\
    Fragment.bytes m f' = ztake sz (Fragment.bytes m f) /\
    match p with
    | None => fr_size f <= sz /\ h' = h /\ f' = f
    | Some r => sz < fr_size f /\ Fragment.wf r /\
        Fragment.bytes m r = zdrop sz (Fragment.bytes m f) /\
        Fragment.headroom f' = Fragment.headroom f /\ Fragment.tailroom f' = 0 /\
        Fragment.headroom r = 0 /\ Fragment.tailroom r = Fragment.tailroom f /\
        guards_ok h' (Fragment.guard f' :: Fragment.guard r :: live) /\
        pending h' (Fragment.guard f' :: Fragment.guard r :: live) ≡ₚ pending h (Fragment.guard f :: live) /\
        frees h' = frees h
    end.
Proof.
  intros H Hok Hroom Hsz Hne. destruct (Z.le_gt_cases (fr_size f) sz) as [Hp|Hp].
  - rewrite fr_split_past by done. exists h, f, None. do 2 (split; [done|]).
    rewrite ztake_ge by (rewrite zlen_fr_bytes by done; lia). done.
  - destruct (fr_split_ok m h f sz live H Hok Hroom ltac:(lia) Hne)
      as (h' & f' & r & E & Hf' & Hr & H1 & H2 & _ & _ & H3 & H4 & H5 & H6 & H7 & H8 & H9).
    exists h', f', (Some r). do 3 (split; [done|]). auto 20.
Qed.

(** [split(0)] of a fragment without headroom returns a fragment of
    size 0 for the whole extent and leaves this one empty: the data is in
    neither, although a split elsewhere keeps every byte. *)
Theorem fragment_split0_loses (h : gheap) (f : fragment) :
  Fragment.wf f -> 0 < fr_size f -> Fragment.headroom f = 0 ->
  exists f' r, Fragment.split h f 0 = Ret (h, f', Some r) /\
    fr_size f' = 0 /\ fr_size r = 0 /\ fr_bytes r = fr_bytes f.
Proof.
  intros H Hsz Hh. pose proof (fr_rooms f H). unfold Fragment.split, Fragment.size.
  rewrite (proj2 (Z.leb_gt _ _)) by lia. rewrite Hh. cbn [Z.eqb andb Blob.move].
  unfold Fragment.make. rewrite fr_release_nonempty by (simpl; lia). cbn [bindO].
  do 2 eexists. split; [reflexivity|]. done.
Qed.

(** [advance(sz)] slides the data up by [sz] and keeps it; [retreat(sz)],
    meant to slide it down, moves bytes the wrong way: afterwards the window
    starts with the last [sz] bytes of the old headroom, followed by the data
    without its first [sz] bytes. *)
Theorem fragment_advance_retreat (m : mem) (f : fragment) (sz : Z) :
  Fragment.wf f -> 0 <= sz <= fr_size f ->
  (sz + fr_size f <= Fragment.tailroom f ->
   exists m' f', Fragment.advance m f sz = Ret (m', f') /\ Fragment.wf f' /\
     Fragment.bytes m' f' = Fragment.bytes m f /\ Fragment.headroom f' = Fragment.headroom f + sz) /\
  (sz <= Fragment.headroom f ->
   exists m' f', Fragment.retreat m f sz = Ret (m', f') /\ Fragment.wf f' /\
     Fragment.bytes m' f' = load m (fr_head f - sz) sz ++ zdrop sz (Fragment.bytes m f) /\
     Fragment.headroom f' = Fragment.headroom f - sz).
Proof.
  intros H Hsz. split; intros Hroom.
  - destruct (fr_advance_ok m f sz H) as (m' & f' & E & Hf' & Hb & Eb & Es & Eh); [lia..|].
    exists m', f'. do 3 (split; [done|]). rewrite !fr_headroom, Eb, Eh by done. lia.
  - destruct (fr_retreat_head m f sz H) as (m' & f' & E & Hf' & Eb & Es & Eh & Em); [lia|].
    exists m', f'. do 2 (split; [done|]). rewrite !fr_headroom, Eb, Eh by done. split; [|lia].
    unfold Fragment.bytes. rewrite Es, Eh, zdrop_load by lia.
    replace (fr_size f) with (sz + (fr_size f - sz)) at 1 by lia. rewrite load_app by lia.
    replace (fr_head f - sz + sz) with (fr_head f) by lia. subst m'. case_if.
    + rewrite load_memmove_out by (unfold disjoint; lia). f_equal.
      rewrite <- (ztake_load _ (fr_head f) (fr_size f)), load_memmove by lia. apply ztake_load. lia.
    + assert (fr_size f = 0 /\ sz = 0) as [-> ->] by lia. rewrite !load_nonpos by lia. done.
Qed.

Definition ex_guarded : fragment := mk_fragment (mk_blob 100 20 (GSimple 100)) 104 3.

Lemma ex_guarded_ok : guards_ok (mk_gheap ∅ 1 []) [Fragment.guard ex_guarded].
Proof.
  change (guards_ok (mk_gheap ∅ 1 []) [Guard.make_simple_guard 100]).
  apply make_simple_guard_ok; [apply guards_ok_start|]. vm_compute. intros Hi. inversion Hi.
Qed.

Lemma fragment_split_cuts_witness :
  exists h' f' r, Fragment.split (mk_gheap ∅ 1 []) ex_guarded 2 = Ret (h', f', Some r) /\
    Fragment.bytes (store ∅ 104 [1; 2; 3]) f' = [1; 2].
Proof.
  destruct (fragment_split_cuts (store ∅ 104 [1; 2; 3]) (mk_gheap ∅ 1 []) ex_guarded 2 [])
    as (h' & f' & p & E & _ & Hb & Hp).
  - wf_frag.
  - apply ex_guarded_ok.
  - intros i im Hi. vm_compute in Hi. discriminate.
  - unfold_pow2. lia.
  - vm_compute. reflexivity.
  - destruct p as [r|].
    + exists h', f', r. split; [exact E|]. rewrite Hb. vm_compute. reflexivity.
    + destruct Hp as [Hp _]. exfalso. revert Hp. vm_compute. intros Hp. by apply Hp.
Defined.

Lemma fragment_split0_loses_witness :
  exists f' r, Fragment.split (mk_gheap ∅ 1 []) (mk_fragment (mk_blob 100 20 (GSimple 100)) 100 3) 0
    = Ret (mk_gheap ∅ 1 [], f', Some r) /\ fr_size f' = 0 /\ fr_size r = 0.
Proof.
  destruct (fragment_split0_loses (mk_gheap ∅ 1 []) (mk_fragment (mk_blob 100 20 (GSimple 100)) 100 3))
    as (f' & r & E & H1 & H2 & _).
  - wf_frag.
  - simpl. lia.
  - reflexivity.
  - exists f', r. by split.
Defined.

Lemma fragment_advance_retreat_witness :
  let m := store ∅ 100 [9; 9; 8; 7; 1; 2; 3] in
  exists m1 f1, Fragment.advance m ex_guarded 2 = Ret (m1, f1) /\ Fragment.bytes m1 f1 = [1; 2; 3] /\
  exists m2 f2, Fragment.retreat m ex_guarded 2 = Ret (m2, f2) /\ Fragment.bytes m2 f2 = [8; 7; 3].
Proof.
  destruct (fragment_advance_retreat (store ∅ 100 [9; 9; 8; 7; 1; 2; 3]) ex_guarded 2) as [Ha Hr].
  - wf_frag.
  - simpl. lia.
  - destruct Ha as (m1 & f1 & E1 & _ & H1 & _); [vm_compute; discriminate|].
    destruct Hr as (m2 & f2 & E2 & _ & H2 & _); [vm_compute; discriminate|].
    exists m1, f1. split; [exact E1|]. split; [rewrite H1; vm_compute; reflexivity|].
    exists m2, f2. split; [exact E2|]. rewrite H2. vm_compute. reflexivity.
Defined.
