(* ===== verification/Buffer.v ===== *)
(** * Buffer: [class buffer] (xi/io/buffer.h, src/io/buffer.cpp) and the
      iterator helper of xi/io/detail/buffer_utils.h

    A buffer is a list of fragments and the cached sum of their sizes.  An
    iterator into the list is a cut of the list: the fragments before it and
    the fragments from it on; dereferencing the end iterator is [Undef].  The
    allocator that [coalesce] and [range] receive is the interface
    [buffer_allocator] (xi/io/buffer_allocator.h). *)
From S2P Require Import Prelude Bytes Guard Blob Fragment.

Record buffer := mk_buffer { bf_frags : list fragment; bf_size : Z }.

(** [struct buffer_allocator]: one virtual method; [St] is the state of the
    implementation. *)
Class buffer_allocator (St : Type) := {
  ba_allocate : St -> mem -> gheap -> Z -> Z -> Z -> outcome (St * mem * gheap * buffer)
}.

(** [skip_offset(start, end, edit(offset))]: the fragments passed, those from
    the returned iterator on, and the offset left. *)
Fixpoint skip_offset (its : list fragment) (offset : Z) : list fragment * list fragment * Z :=
  match its with
  | [] => ([], [], offset)
  | it :: rest =>
      if Fragment.size it <=? offset then
        let '(pre, suf, o) := skip_offset rest (u64 (offset - Fragment.size it)) in
        (it :: pre, suf, o)
      else ([], its, offset)
  end.

Module Buffer.
Definition null : buffer := mk_buffer [] 0.

(** [erase_and_dispose] / [clear_and_dispose] with [fragment_deleter]. *)
Fixpoint dispose (h : gheap) (l : list fragment) : outcome gheap :=
  match l with
  | [] => Ret h
  | f :: l => do h <- Fragment.destroy h f;; dispose h l
  end.

(** [buffer(own< fragment > b)]; [None] is a null pointer. *)
Definition of_fragment (h : gheap) (b : option fragment) : outcome (gheap * buffer) :=
  do b <- derefO b;;
  if (Fragment.size b =? 0) && (Fragment.headroom b =? 0) && (Fragment.tailroom b =? 0) then
    do h <- Fragment.destroy h b;; Ret (h, null)
  else Ret (h, mk_buffer [b] (Fragment.size b)).

Definition of_list (l : list fragment) (sz : Z) : buffer := mk_buffer l sz.

Definition destroy (h : gheap) (b : buffer) : outcome gheap := dispose h (bf_frags b).

Definition length (b : buffer) : Z := zlen (bf_frags b).
Definition size (b : buffer) : Z := bf_size b.
Definition empty (b : buffer) : bool := match bf_frags b with [] => true | _ => false end.

Definition headroom (b : buffer) : Z :=
  match bf_frags b with [] => 0 | f :: _ => Fragment.headroom f end.
Definition tailroom (b : buffer) : Z :=
  match list.last (bf_frags b) with None => 0 | Some f => Fragment.tailroom f end.

Definition push_front (b : buffer) (p : option fragment) : buffer :=
  match p with
  | None => b
  | Some f => mk_buffer (f :: bf_frags b) (u64 (bf_size b + Fragment.size f))
  end.
Definition push_back (b : buffer) (p : option fragment) : buffer :=
  match p with
  | None => b
  | Some f => mk_buffer (bf_frags b ++ [f]) (u64 (bf_size b + Fragment.size f))
  end.
Definition push_front_buffer (b : buffer) (p : option buffer) : buffer :=
  match p with
  | None => b
  | Some q => mk_buffer (bf_frags q ++ bf_frags b) (u64 (bf_size b + bf_size q))
  end.
Definition push_back_buffer (b : buffer) (p : option buffer) : buffer :=
  match p with
  | None => b
  | Some q => mk_buffer (bf_frags b ++ bf_frags q) (u64 (bf_size b + bf_size q))
  end.

(** [_size -= i->size()] for every fragment moved out. *)
Fixpoint sub_sizes (sz : Z) (l : list fragment) : Z :=
  match l with
  | [] => sz
  | f :: l => sub_sizes (u64 (sz - Fragment.size f)) l
  end.

(** [split(sz)]: this buffer afterwards and the front part. *)
Definition split (h : gheap) (b : buffer) (sz : Z) : outcome (gheap * buffer * option buffer) :=
  if empty b || (0 =? sz) then Ret (h, b, None)
  else if bf_size b <? sz then Ret (h, mk_buffer [] 0, Some (mk_buffer (bf_frags b) (bf_size b)))
  else
    let '(pre, suf, remainder) := skip_offset (bf_frags b) sz in
    do '(h, pre, suf) <-
      (if 0 <? remainder then
         match suf with
         | [] => Undef
         | it :: rest =>
             do '(h, it, new_node) <- Fragment.split h it remainder;;
             do n <- derefO new_node;;
             Ret (h, pre ++ [it], n :: rest)
         end
       else Ret (h, pre, suf));;
    Ret (h, mk_buffer suf (sub_sizes (bf_size b) pre), Some (mk_buffer pre sz)).

(** [clone()]: clones every fragment, front to back. *)
Fixpoint clone_list (h : gheap) (l : list fragment) : outcome (gheap * list fragment * list fragment) :=
  match l with
  | [] => Ret (h, [], [])
  | f :: l =>
      do '(h, f, c) <- Fragment.clone h f;;
      do '(h, l, cs) <- clone_list h l;;
      Ret (h, f :: l, c :: cs)
  end.
Definition clone (h : gheap) (b : buffer) : outcome (gheap * buffer * buffer) :=
  do '(h, l, cs) <- clone_list h (bf_frags b);;
  Ret (h, mk_buffer l (bf_size b), mk_buffer cs (bf_size b)).

(** The copying loop of [read]; the result is the range still to fill. *)
Fixpoint read_loop (m : mem) (its : list fragment) (r : byte_range) (offset : Z)
    : outcome (mem * byte_range) :=
  match its with
  | [] => Ret (m, r)
  | it :: its =>
      let '(m, ret) := Fragment.read m it r offset in
      do r <- Range.subrange r ret usize_max;;
      if Range.empty r then Ret (m, r) else read_loop m its r 0
  end.
Definition read (m : mem) (b : buffer) (r : byte_range) (offset : Z) : outcome (mem * Z) :=
  if empty b || Range.empty r || (bf_size b <=? offset) then Ret (m, 0)
  else
    let '(_, its, offset) := skip_offset (bf_frags b) offset in
    do '(m, rest) <- read_loop m its r offset;;
    Ret (m, u64 (r_size r - r_size rest)).

(** Replaces the last fragment. *)
Definition set_last (l : list fragment) (f : fragment) : list fragment := removelast l ++ [f].

Definition write (m : mem) (b : buffer) (r : byte_range) : mem * buffer * Z :=
  if empty b || Range.empty r then (m, b, 0)
  else
    match list.last (bf_frags b) with
    | None => (m, b, 0)
    | Some f =>
        let '(m, f, ret) := Fragment.write m f r in
        (m, mk_buffer (set_last (bf_frags b) f) (u64 (bf_size b + ret)), ret)
    end.

(** [i.skip_bytes(i.size())] / [i.ignore_bytes_at_end(i.size())] over a run. *)
Fixpoint skip_all (h : gheap) (l : list fragment) : outcome (gheap * list fragment) :=
  match l with
  | [] => Ret (h, [])
  | f :: l =>
      do '(h, f, _) <- Fragment.skip_bytes h f (Fragment.size f);;
      do '(h, l) <- skip_all h l;;
      Ret (h, f :: l)
  end.
Definition ignore_all (l : list fragment) : list fragment :=
  (fun f => fst (Fragment.ignore_bytes_at_end f (Fragment.size f))) <$> l.

Definition skip_bytes (h : gheap) (b : buffer) (sz : Z) (free : bool) : outcome (gheap * buffer) :=
  if empty b then Ret (h, b)
  else
    let '(pre, suf, remainder) := skip_offset (bf_frags b) sz in
    do '(h, pre, suf, size) <-
      match suf with
      | [] => Ret (h, pre, suf, 0)
      | it :: rest =>
          do '(h, it, _) <- Fragment.skip_bytes h it remainder;;
          if Fragment.empty it then Ret (h, pre ++ [it], rest, u64 (bf_size b - sz))
          else Ret (h, pre, it :: rest, u64 (bf_size b - sz))
      end;;
    if (free : bool) then do h <- dispose h pre;; Ret (h, mk_buffer suf size)
    else do '(h, pre) <- skip_all h pre;; Ret (h, mk_buffer (pre ++ suf) size).

(** The iterators are reverse ones: [pre] are the fragments at the end, last
    first, [suf] starts with the fragment [it] points to. *)
Definition ignore_bytes_at_end (h : gheap) (b : buffer) (sz : Z) (free : bool)
    : outcome (gheap * buffer) :=
  if empty b then Ret (h, b)
  else
    let '(pre, suf, remainder) := skip_offset (rev (bf_frags b)) sz in
    let '(suf, size) :=
      match suf with
      | [] => (suf, 0)
      | it :: rest => (fst (Fragment.ignore_bytes_at_end it remainder) :: rest, u64 (bf_size b - sz))
      end in
    if (free : bool) then do h <- dispose h (rev pre);; Ret (h, mk_buffer (rev suf) size)
    else Ret (h, mk_buffer (rev suf ++ rev (ignore_all pre)) size).

(** The copying loop of [coalesce]: copies whole fragments into [w] while they
    fit in [length]; returns what was passed and what is left. *)
Fixpoint coalesce_loop (m : mem) (w : fragment) (length : Z) (its : list fragment)
    : mem * fragment * Z * list fragment * list fragment :=
  match its with
  | [] => (m, w, length, [], [])
  | it :: rest =>
      if Fragment.size it <=? length then
        let '(m, w, n) := Fragment.write m w (Fragment.data_range it) in
        let '(m, w, length, passed, rest) := coalesce_loop m w (u64 (length - n)) rest in
        (m, w, length, it :: passed, rest)
      else (m, w, length, [], its)
  end.

Section with_allocator.
Context {St : Type} `{buffer_allocator St}.

(** [coalesce(alloc, offset, length)]. *)
Definition coalesce (s : St) (m : mem) (h : gheap) (b : buffer) (offset length : Z)
    : outcome (St * mem * gheap * buffer * Z) :=
  if empty b || (0 =? length) || (bf_size b <=? offset) then Ret (s, m, h, b, 0)
  else
    let length := if u64 (bf_size b - offset) <? length then u64 (bf_size b - offset) else length in
    let '(pre, its, offset) := skip_offset (bf_frags b) offset in
    do '(it, rest) <- match its with [] => Undef | it :: rest => Ret (it, rest) end;;
    let head_size := u64 (Fragment.size it - offset) in
    if length <=? head_size then Ret (s, m, h, b, bf_size b)
    else
      do '(s, m, h, before, w, its) <-
        (if u64 (head_size + Fragment.tailroom it) <? length then
           do '(s, m, h, nb) <- ba_allocate s m h length 0 0;;
           let pre := pre ++ bf_frags nb in
           do w <- derefO (list.last pre);;
           Ret (s, m, h, removelast pre, w, it :: rest)
         else Ret (s, m, h, pre, it, rest));;
      let length := u64 (length - Fragment.size w) in
      let '(m, w, length, passed, its) := coalesce_loop m w length its in
      do h <- dispose h passed;;
      do '(m, h, w, its) <-
        (if 0 <? length then
           match its with
           | [] => Undef
           | it :: rest =>
               do r <- Range.subrange (Fragment.data_range it) 0 length;;
               let '(m, w, _) := Fragment.write m w r in
               do '(h, it, _) <- Fragment.skip_bytes h it length;;
               Ret (m, h, w, it :: rest)
           end
         else Ret (m, h, w, its));;
      Ret (s, m, h, mk_buffer (before ++ w :: its) (bf_size b), Fragment.size w).

(** [range(alloc, offset, length)]. *)
Definition range (s : St) (m : mem) (h : gheap) (b : buffer) (offset length : Z)
    : outcome (St * mem * gheap * buffer * byte_range) :=
  if bf_size b <=? offset then Ret (s, m, h, b, Range.null)
  else
    do '(s, m, h, b, _) <- coalesce s m h b offset length;;
    let '(_, its, offset) := skip_offset (bf_frags b) offset in
    do it <- derefO (list.head its);;
    Ret (s, m, h, b,
         mk_range (fr_head it + offset) (Z.min length (u64 (Fragment.size it - offset)))).
End with_allocator.

(** What a buffer holds. *)
Definition bytes (m : mem) (b : buffer) : list Z := bf_frags b ≫= Fragment.bytes m.

Definition guards (b : buffer) : list guard := Fragment.guard <$> bf_frags b.

(** Fragments are windows into their extents and the cached size is right. *)
Record wf (b : buffer) : Prop := {
  wf_frags : Forall Fragment.wf (bf_frags b);
  wf_bsize : bf_size b = zsum fr_size (bf_frags b);
  wf_small : bf_size b < 2 ^ 63
}.
End Buffer.

(** ** Lists of fragments *)
Section fragment_lists.
Implicit Types (m : mem) (h : gheap) (l its pre suf : list fragment) (live : list guard).

Definition cat m l : list Z := l ≫= Fragment.bytes m.
Definition guards_of l : list guard := Fragment.guard <$> l.

Lemma guards_of_cons f l : guards_of (f :: l) = Fragment.guard f :: guards_of l.
Proof. done. Qed.

Lemma guards_of_app l k : guards_of (l ++ k) = guards_of l ++ guards_of k.
Proof. apply fmap_app. Qed.

Lemma guards_of_rev l : guards_of (rev l) = rev (guards_of l).
Proof. exact (map_rev _ _). Qed.

Lemma cat_app m l k : cat m (l ++ k) = cat m l ++ cat m k.
Proof. apply bind_app. Qed.

Lemma cat_cons m f l : cat m (f :: l) = Fragment.bytes m f ++ cat m l.
Proof. apply bind_cons. Qed.

Lemma zlen_cat m l : Forall Fragment.wf l -> zlen (cat m l) = zsum fr_size l.
Proof.
  induction 1 as [|f l Hf Hl IH]; [done|]. rewrite cat_cons, zlen_app, IH, zlen_fr_bytes by done. done.
Qed.

Lemma zsum_size_nonneg l : Forall Fragment.wf l -> 0 <= zsum fr_size l.
Proof.
  induction 1 as [|f l Hf Hl IH]; simpl; [lia|]. apply fr_size_range in Hf. lia.
Qed.

(** Where [skip_offset] stops. *)
Lemma skip_offset_spec its offset :
  Forall Fragment.wf its -> 0 <= offset < 2 ^ 64 ->
  exists pre suf o, skip_offset its offset = (pre, suf, o) /\ its = pre ++ suf /\
    o = offset - zsum fr_size pre /\ 0 <= o <= offset /\
    match suf with [] => zsum fr_size its <= offset | it :: _ => o < fr_size it end.
Proof.
  intros Hl. revert offset. induction Hl as [|f l Hf Hl IH]; intros offset Ho; simpl.
  - exists [], [], offset. repeat (split; [done || simpl; lia|]). simpl. lia.
  - pose proof (fr_size_range f Hf). unfold Fragment.size. case_if.
    + rewrite u64_id by (unfold_pow2; lia).
      destruct (IH (offset - fr_size f)) as (pre & suf & o & E1 & -> & Eo & Hr & Hs); [lia|].
      rewrite E1. exists (f :: pre), suf, o. split; [done|]. split; [done|]. simpl.
      split; [lia|]. split; [lia|]. destruct suf; [lia|done].
    + exists [], (f :: l), offset. simpl. repeat (split; [done || lia|]). lia.
Qed.

Lemma cut_bytes m l pre suf o offset :
  Forall Fragment.wf l -> l = pre ++ suf -> o = offset - zsum fr_size pre -> 0 <= o ->
  ztake offset (cat m l) = cat m pre ++ ztake o (cat m suf) /\
  zdrop offset (cat m l) = zdrop o (cat m suf).
Proof.
  intros Hl -> -> Ho. apply Forall_app in Hl as [Hp Hs].
  rewrite cat_app. pose proof (zlen_cat m pre Hp) as Hz.
  rewrite ztake_app_ge, zdrop_app_ge by lia. by rewrite Hz.
Qed.

(** Disposing of fragments drops their guards. *)
Lemma dispose_ok h l live :
  guards_ok h (guards_of l ++ live) ->
  exists h', Buffer.dispose h l = Ret h' /\ guards_ok h' live /\
    pending h' live ++ frees h' ≡ₚ pending h (guards_of l ++ live) ++ frees h.
Proof.
  revert h. induction l as [|f l IH]; intros h Hok; simpl; [eauto|].
  destruct (release_ok _ _ _ Hok) as (h1 & E1 & Hok1 & HP1). unfold Fragment.destroy, Blob.destroy.
  change (bb_guard (fr_bytes f)) with (Fragment.guard f). rewrite E1. cbn [bindO].
  destruct (IH h1 Hok1) as (h' & -> & Hok' & HP'). exists h'. split; [done|]. split; [done|].
  by rewrite HP', HP1.
Qed.

Lemma skip_all_ok m h l :
  Forall Fragment.wf l ->
  exists l', Buffer.skip_all h l = Ret (h, l') /\ Forall Fragment.wf l' /\ cat m l' = [] /\
    guards_of l' = guards_of l /\ zsum fr_size l' = 0 /\ length l' = length l.
Proof.
  induction 1 as [|f l Hf Hl (l' & IH & Hwf & Hc & Hg & Hz & Hlen)]; cbn [Buffer.skip_all].
  - by exists [].
  - pose proof (fr_size_range f Hf).
    destruct (fr_skip_ok m h f (Fragment.size f)) as (f' & E & Hf' & Hb & Eb & Es & _);
      [done|unfold Fragment.size; lia|].
    unfold Fragment.size in *. rewrite E. cbn [bindO]. rewrite IH. cbn [bindO].
    exists (f' :: l'). split; [done|]. split; [by constructor|]. rewrite cat_cons, Hc, Hb. cbn [zsum].
    rewrite Es, Hz, Z.min_id, zdrop_ge by (rewrite zlen_fr_bytes by done; lia). split; [done|].
    rewrite !guards_of_cons, Hg. unfold Fragment.guard. rewrite Eb. split; [done|]. split; [lia|].
    cbn [length]. by rewrite Hlen.
Qed.

Lemma ignore_all_ok m l :
  Forall Fragment.wf l ->
  Forall Fragment.wf (Buffer.ignore_all l) /\ cat m (Buffer.ignore_all l) = [] /\
  guards_of (Buffer.ignore_all l) = guards_of l /\ zsum fr_size (Buffer.ignore_all l) = 0.
Proof.
  induction 1 as [|f l Hf Hl (IH1 & IH2 & IH3 & IH4)]; [done|].
  change (Buffer.ignore_all (f :: l))
    with (fst (Fragment.ignore_bytes_at_end f (Fragment.size f)) :: Buffer.ignore_all l).
  pose proof (fr_size_range f Hf).
  destruct (fr_ignore_ok m f (Fragment.size f)) as (f' & E & Hf' & Hb & Eb & Es & _);
    [done|unfold Fragment.size; lia|].
  unfold Fragment.size in *. rewrite E. cbn [fst]. rewrite cat_cons, IH2, Hb. cbn [zsum].
  rewrite Es, IH4, Z.min_id, Z.sub_diag, ztake_0. split; [by constructor|]. split; [done|].
  split; [|lia]. rewrite !guards_of_cons, IH3. unfold Fragment.guard. by rewrite Eb.
Qed.
End fragment_lists.

Lemma buffer_bytes_cat m b : Buffer.bytes m b = cat m (bf_frags b).
Proof. done. Qed.

Lemma zlen_buffer m b : Buffer.wf b -> zlen (Buffer.bytes m b) = bf_size b.
Proof. intros [Hf Hs _]. rewrite buffer_bytes_cat, zlen_cat, Hs; done. Qed.

Lemma buffer_size_range b : Buffer.wf b -> 0 <= bf_size b < 2 ^ 63.
Proof. intros [Hf Hs ?]. split; [|done]. rewrite Hs. by apply zsum_size_nonneg. Qed.

(** ** The operations against the byte sequence *)

Lemma push_back_buffer_wf m p q : Buffer.wf p -> Buffer.wf q -> bf_size p + bf_size q < 2 ^ 63 ->
  let b := Buffer.push_back_buffer p (Some q) in
  Buffer.wf b /\ Buffer.bytes m b = Buffer.bytes m p ++ Buffer.bytes m q /\
  Buffer.guards b = Buffer.guards p ++ Buffer.guards q /\ bf_size b = bf_size p + bf_size q.
Proof.
  intros Hp Hq Hs b. pose proof (buffer_size_range p Hp). pose proof (buffer_size_range q Hq). destruct Hp as [P1 P2 P3], Hq as [Q1 Q2 Q3].
  unfold b, Buffer.push_back_buffer, Buffer.guards. cbn [bf_frags bf_size]. rewrite u64_id by (unfold_pow2; lia).
  split; [split; cbn [bf_frags bf_size]; [by apply Forall_app|rewrite zsum_app; lia|lia]|].
  split; [rewrite !buffer_bytes_cat; cbn [bf_frags]; by rewrite cat_app|]. by rewrite fmap_app.
Qed.
Section buffer_lemmas.
Implicit Types (m : mem) (h : gheap) (b : buffer) (live : list guard) (r : byte_range).

Lemma sub_sizes_sum sz l :
  Forall Fragment.wf l -> zsum fr_size l <= sz < 2 ^ 64 -> Buffer.sub_sizes sz l = sz - zsum fr_size l.
Proof.
  intros Hl. revert sz. induction Hl as [|f l Hf Hl IH]; intros sz Hs; simpl in *; [lia|].
  pose proof (fr_size_range f Hf). pose proof (zsum_size_nonneg l Hl). unfold Fragment.size.
  rewrite u64_id by (unfold_pow2; lia). rewrite IH; lia.
Qed.

(** What [split] promises: the two parts carry the bytes of the whole, cut at
    [sz], and share the ownership of the extents. *)
Definition split_post m h b live sz h' b' q : Prop :=
  Buffer.wf b' /\ Buffer.wf q /\
  Buffer.bytes m q = ztake sz (Buffer.bytes m b) /\ Buffer.bytes m b' = zdrop sz (Buffer.bytes m b) /\
  guards_ok h' (Buffer.guards q ++ Buffer.guards b' ++ live) /\
  pending h' (Buffer.guards q ++ Buffer.guards b' ++ live) ≡ₚ pending h (Buffer.guards b ++ live) /\
  frees h' = frees h.

Lemma buffer_split_ok m h b sz live :
  Buffer.wf b -> guards_ok h (Buffer.guards b ++ live) -> refs_room h ->
  bf_frags b <> [] -> 0 < sz < 2 ^ 64 ->
  exists h' b' q, Buffer.split h b sz = Ret (h', b', Some q) /\ split_post m h b live sz h' b' q.
Proof.
  intros Hwf Hok Hroom Hne Hsz. pose proof (buffer_size_range b Hwf) as Hbs. destruct Hwf as [Hf Hs Hsm].
  unfold Buffer.split. unfold Buffer.empty. destruct (bf_frags b) as [|f0 fs] eqn:Ef; [done|].
  rewrite <- Ef in *. rewrite (proj2 (Z.eqb_neq _ _)) by lia. cbn [orb].
  assert (zlen (Buffer.bytes m b) = bf_size b) as Hlen by (by apply zlen_buffer; split).
  case_if.
  { do 3 eexists. split; [done|]. unfold split_post. split; [by split|]. split; [by split|].
    rewrite ztake_ge, zdrop_ge by lia. by repeat (split; [done|]). }
  destruct (skip_offset_spec (bf_frags b) sz Hf ltac:(lia)) as (pre & suf & o & E1 & El & Eo & Hr & Hst).
  rewrite E1. destruct (cut_bytes m _ _ _ _ sz Hf El Eo ltac:(lia)) as [Ht Hd].
  rewrite El in Hf. apply Forall_app in Hf as [Hp Hsf].
  assert (Hsum : bf_size b = zsum fr_size pre + zsum fr_size suf) by (rewrite Hs, El; apply zsum_app).
  pose proof (zsum_size_nonneg _ Hp). pose proof (zsum_size_nonneg _ Hsf).
  unfold Buffer.guards in *. change (fmap Fragment.guard) with guards_of in *.
  rewrite El, guards_of_app in Hok.
  case_if.
  - destruct suf as [|it rest]; [simpl in *; lia|].
    apply Forall_cons_iff in Hsf as [Hit Hrest]. cbn [zsum] in Hsum.
    rewrite guards_of_cons in Hok.
    assert (guards_ok h (Fragment.guard it :: guards_of pre ++ guards_of rest ++ live)) as Hok1.
    { revert Hok. apply guards_ok_perm. solve_Permutation. }
    pose proof (fr_rooms it Hit).
    destruct (fr_split_ok m h it o _ Hit Hok1 Hroom ltac:(lia) ltac:(lia))
      as (h' & it' & n & Esp & Hit' & Hn & Hb1 & Hb2 & Hs1 & Hs2 & _ & _ & _ & _ & Hok2 & HP & Hfr).
    rewrite Esp. cbn [bindO derefO]. do 3 eexists. split; [done|].
    assert (Forall Fragment.wf (pre ++ [it'])) as Hp' by (apply Forall_app; auto).
    assert (zsum fr_size (pre ++ [it']) = sz) as Hz by (rewrite zsum_app; simpl; lia).
    unfold split_post, Buffer.guards. cbn [bf_frags bf_size].
    split; [|split; [|split; [|split]]].
    + split; cbn [bf_frags bf_size]; [by constructor|rewrite sub_sizes_sum by (auto; lia); simpl; lia|].
      rewrite sub_sizes_sum by (auto; lia). lia.
    + split; cbn [bf_frags bf_size]; [done|lia|lia].
    + rewrite !buffer_bytes_cat, Ht. cbn [bf_frags]. rewrite cat_app, cat_cons, Hb1. f_equal.
      rewrite cat_cons, ztake_app_le by (rewrite zlen_fr_bytes by done; lia). by rewrite app_nil_r.
    + rewrite !buffer_bytes_cat, Hd. cbn [bf_frags]. rewrite !cat_cons, Hb2.
      by rewrite zdrop_app_le by (rewrite zlen_fr_bytes by done; lia).
    + change (fmap Fragment.guard) with guards_of. rewrite guards_of_app, !guards_of_cons, El, guards_of_app, guards_of_cons.
      assert ((guards_of pre ++ Fragment.guard it' :: guards_of []) ++ (Fragment.guard n :: guards_of rest) ++ live
              ≡ₚ Fragment.guard it' :: Fragment.guard n :: guards_of pre ++ guards_of rest ++ live) as HPm
        by (simpl; solve_Permutation).
      split; [|split; [|done]].
      * revert Hok2. apply guards_ok_perm. by rewrite HPm.
      * unfold pending, owned in *. rewrite HPm, HP. apply objs_perm. solve_Permutation.
  - cbn [bindO]. do 3 eexists. split; [done|]. assert (o = 0) as -> by lia.
    rewrite ztake_0, app_nil_r in Ht. rewrite zdrop_0 in Hd.
    unfold split_post, Buffer.guards. cbn [bf_frags bf_size].
    split; [|split; [|split; [|split; [|split; [|split]]]]].
    + split; cbn [bf_frags bf_size]; [done|rewrite sub_sizes_sum by (auto; lia); lia|].
      rewrite sub_sizes_sum by (auto; lia). lia.
    + split; cbn [bf_frags bf_size]; [done|lia|lia].
    + by rewrite !buffer_bytes_cat, Ht.
    + by rewrite !buffer_bytes_cat, Hd.
    + change (fmap Fragment.guard) with guards_of. by rewrite app_assoc.
    + change (fmap Fragment.guard) with guards_of. rewrite El, guards_of_app. by rewrite app_assoc.
    + done.
Qed.

(** What [skip_bytes] and [ignore_bytes_at_end] promise. *)
Definition drop_post m h b live h' b' (bs : list Z) : Prop :=
  Buffer.wf b' /\ Buffer.bytes m b' = bs /\
  guards_ok h' (Buffer.guards b' ++ live) /\
  pending h' (Buffer.guards b' ++ live) ++ frees h' ≡ₚ pending h (Buffer.guards b ++ live) ++ frees h.

(** Disposing of [gone], or emptying it in place, once the rest is known. *)
Lemma free_or_empty_front m h gone keep size live :
  Forall Fragment.wf gone -> Forall Fragment.wf keep -> size = zsum fr_size keep -> size < 2 ^ 63 ->
  guards_ok h (guards_of (gone ++ keep) ++ live) -> forall free : bool,
  exists h' b',
    (if free then do h <- Buffer.dispose h gone;; Ret (h, mk_buffer keep size)
     else do '(h, pre) <- Buffer.skip_all h gone;; Ret (h, mk_buffer (pre ++ keep) size)) = Ret (h', b') /\
    drop_post m h (mk_buffer (gone ++ keep) size) live h' b' (cat m keep).
Proof.
  intros Hg Hk Hs Hsm Hok free. unfold drop_post, Buffer.guards. change (fmap Fragment.guard) with guards_of.
  destruct free.
  - rewrite guards_of_app, <- app_assoc in Hok. destruct (dispose_ok _ _ _ Hok) as (h' & E & Hok' & HP).
    rewrite E. cbn [bindO]. do 2 eexists. split; [done|]. split; [by split|]. split; [done|].
    split; [done|]. cbn [bf_frags]. by rewrite HP, guards_of_app, app_assoc.
  - destruct (skip_all_ok m h gone Hg) as (g' & E & Hw & Hc & Hgd & Hz & _). rewrite E. cbn [bindO].
    do 2 eexists. split; [done|]. cbn [bf_frags].
    split; [split; cbn [bf_frags bf_size]; [by apply Forall_app|rewrite zsum_app; lia|done]|].
    rewrite buffer_bytes_cat. cbn [bf_frags]. rewrite cat_app, Hc. split; [done|].
    rewrite guards_of_app, Hgd, <- guards_of_app. done.
Qed.

Lemma buffer_skip_ok m h b sz free live :
  Buffer.wf b -> guards_ok h (Buffer.guards b ++ live) -> 0 <= sz < 2 ^ 64 ->
  exists h' b', Buffer.skip_bytes h b sz free = Ret (h', b') /\
    drop_post m h b live h' b' (zdrop sz (Buffer.bytes m b)).
Proof.
  intros Hwf Hok Hsz. pose proof (buffer_size_range b Hwf) as Hbs. destruct Hwf as [Hf Hs Hsm].
  unfold Buffer.skip_bytes, Buffer.empty. destruct (bf_frags b) as [|f0 fs] eqn:Ef.
  { exists h, b. split; [done|]. unfold drop_post. split; [by split; rewrite ?Ef|].
    unfold Buffer.bytes. rewrite Ef. split; [by rewrite zdrop_ge by (unfold zlen; simpl; lia)|]. done. }
  rewrite <- Ef in *. clear Ef f0 fs.
  destruct (skip_offset_spec (bf_frags b) sz Hf ltac:(lia)) as (pre & suf & o & E1 & El & Eo & Hr & Hst).
  rewrite E1. destruct (cut_bytes m _ _ _ _ sz Hf El Eo ltac:(lia)) as [_ Hd].
  rewrite buffer_bytes_cat, Hd. rewrite El in Hf. apply Forall_app in Hf as [Hp Hsf].
  assert (Hsum : bf_size b = zsum fr_size pre + zsum fr_size suf) by (rewrite Hs, El; apply zsum_app).
  pose proof (zsum_size_nonneg _ Hp). pose proof (zsum_size_nonneg _ Hsf).
  unfold drop_post, Buffer.guards in *. change (fmap Fragment.guard) with guards_of in *.
  destruct suf as [|it rest]; cbn [bindO].
  - destruct (free_or_empty_front m h pre [] 0 live Hp) with (free := free) as (h' & b' & E & Hpost);
      [done|done|lia|by rewrite <- El|].
    exists h', b'. split; [exact E|]. unfold drop_post, Buffer.guards in Hpost.
    change (fmap Fragment.guard) with guards_of in *. cbn [bf_frags] in *.
    rewrite El, zdrop_ge by (unfold cat, zlen; simpl; lia). done.
  - apply Forall_cons_iff in Hsf as [Hit Hrest]. cbn [zsum] in Hsum.
    pose proof (zsum_size_nonneg _ Hrest).
    destruct (fr_skip_ok m h it o Hit ltac:(lia)) as (it' & E & Hit' & Hb & Eb & Es & _).
    rewrite E. cbn [bindO]. unfold Fragment.empty, Fragment.size.
    rewrite (proj2 (Z.eqb_neq _ _)) by lia. cbn [bindO]. rewrite u64_id by (unfold_pow2; lia).
    assert (guards_of (it' :: rest) = guards_of (it :: rest)) as Eg
      by (rewrite !guards_of_cons; unfold Fragment.guard; by rewrite Eb).
    destruct (free_or_empty_front m h pre (it' :: rest) (bf_size b - sz) live Hp) with (free := free)
      as (h' & b' & E' & Hpost); [by constructor|simpl; lia|lia|by rewrite guards_of_app, Eg, <- guards_of_app, <- El|].
    exists h', b'. split; [exact E'|]. unfold drop_post, Buffer.guards in Hpost.
    change (fmap Fragment.guard) with guards_of in *. cbn [bf_frags] in *.
    rewrite guards_of_app, Eg, <- guards_of_app, <- El in Hpost.
    rewrite cat_cons, Hb in Hpost. rewrite cat_cons, zdrop_app_le by (rewrite zlen_fr_bytes by done; lia).
    replace (Z.min (fr_size it) o) with o in Hpost by lia. done.
Qed.
End buffer_lemmas.

Section buffer_lemmas2.
Implicit Types (m : mem) (h : gheap) (b : buffer) (live : list guard) (r : byte_range).

Lemma buffer_ignore_ok m h b sz free live :
  Buffer.wf b -> guards_ok h (Buffer.guards b ++ live) -> 0 <= sz < 2 ^ 64 ->
  exists h' b', Buffer.ignore_bytes_at_end h b sz free = Ret (h', b') /\
    drop_post m h b live h' b' (ztake (bf_size b - sz) (Buffer.bytes m b)).
Proof.
  intros Hwf Hok Hsz. pose proof (buffer_size_range b Hwf) as Hbs.
  pose proof (zlen_buffer m b Hwf) as Hlen. destruct Hwf as [Hf Hs Hsm].
  unfold Buffer.ignore_bytes_at_end, Buffer.empty. destruct (bf_frags b) as [|f0 fs] eqn:Ef.
  { exists h, b. split; [done|]. unfold drop_post. split; [by split; rewrite ?Ef|].
    unfold Buffer.bytes. rewrite Ef. simpl. unfold ztake. by rewrite take_nil. }
  rewrite <- Ef in *. clear Ef f0 fs.
  assert (Forall Fragment.wf (rev (bf_frags b))) as Hrf by (by apply Forall_rev).
  destruct (skip_offset_spec (rev (bf_frags b)) sz Hrf ltac:(lia)) as (pre & suf & o & E1 & El & Eo & Hr & Hst).
  rewrite E1. assert (bf_frags b = rev suf ++ rev pre) as El'
    by (rewrite <- (rev_involutive (bf_frags b)), El; apply rev_app_distr).
  rewrite El in Hrf. apply Forall_app in Hrf as [Hp Hsf].
  assert (Hsum : bf_size b = zsum fr_size pre + zsum fr_size suf).
  { rewrite Hs, El', zsum_app, !zsum_rev. lia. }
  pose proof (zsum_size_nonneg _ Hp). pose proof (zsum_size_nonneg _ Hsf).
  assert (Hrp : Forall Fragment.wf (rev pre)) by (by apply Forall_rev).
  assert (exists suf' size,
    match suf with
    | [] => (suf, 0)
    | it :: rest => (fst (Fragment.ignore_bytes_at_end it o) :: rest, u64 (bf_size b - sz))
    end = (suf', size) /\ Forall Fragment.wf (rev suf') /\ size = zsum fr_size suf' /\ 0 <= size <= bf_size b /\
    guards_of (rev suf') = guards_of (rev suf) /\
    cat m (rev suf') = ztake (bf_size b - sz) (Buffer.bytes m b)) as (suf' & size & E2 & Hw & Hz & Hzb & Hg & Hc).
  { destruct suf as [|it rest].
    - rewrite zsum_rev, <- Hs in Hst. exists [], 0. do 2 (split; [done|]). cbn [zsum]. repeat (split; [done || lia|]).
      rewrite ztake_neg; [done|lia].
    - apply Forall_cons_iff in Hsf as [Hit Hrest]. cbn [zsum] in Hsum. pose proof (zsum_size_nonneg _ Hrest).
      destruct (fr_ignore_ok m it o Hit ltac:(lia)) as (it' & E & Hit' & Hb & Eb & Es & _).
      rewrite E. cbn [fst]. rewrite u64_id by (unfold_pow2; lia). do 2 eexists. split; [done|].
      split; [apply Forall_rev; by constructor|]. split; [cbn [zsum]; lia|]. split; [lia|].
      split; [simpl; rewrite !guards_of_app; unfold guards_of at 2 4; simpl; unfold Fragment.guard; by rewrite Eb|].
      rewrite buffer_bytes_cat, El'. cbn [rev]. rewrite !cat_app, !cat_cons, Hb, !app_nil_r.
      assert (Hzr : zlen (cat m (rev rest)) = zsum fr_size rest)
        by (rewrite zlen_cat, zsum_rev by (by apply Forall_rev); done).
      pose proof (zlen_fr_bytes m it Hit).
      rewrite ztake_app_le by (rewrite zlen_app; lia). rewrite ztake_app_ge by lia.
      do 2 f_equal. lia. }
  rewrite E2. unfold drop_post, Buffer.guards in *. change (fmap Fragment.guard) with guards_of in *.
  rewrite El', guards_of_app in Hok. destruct free.
  - assert (guards_ok h (guards_of (rev pre) ++ guards_of (rev suf) ++ live)) as Hok1.
    { revert Hok. apply guards_ok_perm. solve_Permutation. }
    destruct (dispose_ok _ _ _ Hok1) as (h' & E & Hok' & HP). rewrite E. cbn [bindO].
    do 2 eexists. split; [done|]. cbn [bf_frags bf_size]. rewrite Hg.
    split; [split; cbn [bf_frags bf_size]; [done|by rewrite zsum_rev|lia]|].
    split; [done|]. split; [done|]. rewrite HP, El', guards_of_app. f_equiv. unfold pending, owned.
    apply objs_perm. solve_Permutation.
  - destruct (ignore_all_ok m pre Hp) as (Hw2 & Hc2 & Hg2 & Hz2).
    assert (cat m (rev (Buffer.ignore_all pre)) = [] /\ guards_of (rev (Buffer.ignore_all pre)) = guards_of (rev pre)) as [Hc3 Hg3].
    { split; [|by rewrite !guards_of_rev, Hg2].
      apply zlen_zero. rewrite zlen_cat, zsum_rev by (by apply Forall_rev). done. }
    do 2 eexists. split; [done|]. cbn [bf_frags bf_size]. rewrite buffer_bytes_cat. cbn [bf_frags].
    rewrite cat_app, Hc3, app_nil_r, !guards_of_app, Hg, Hg3. rewrite El', guards_of_app.
    split; [|by repeat (split; [done|])].
    split; cbn [bf_frags bf_size]; [apply Forall_app; split; [done|by apply Forall_rev]| |lia].
    rewrite zsum_app, !zsum_rev. lia.
Qed.

(** [write] goes to the last fragment, whose tailroom overlaps no data. *)
Definition tail_private b : Prop :=
  match list.last (bf_frags b) with
  | None => True
  | Some f => Forall (fun g => disjoint (Fragment.tail f) (Fragment.tailroom f) (fr_head g) (fr_size g)) (bf_frags b)
  end.

Lemma removelast_last l (f : fragment) : list.last l = Some f -> l = removelast l ++ [f].
Proof. intros [k ->]%last_Some. by rewrite removelast_last. Qed.

Lemma cat_ext m m' l : Forall (fun g => Fragment.bytes m' g = Fragment.bytes m g) l -> cat m' l = cat m l.
Proof. induction 1 as [|f l E Hl IH]; [done|]. by rewrite !cat_cons, E, IH. Qed.

Lemma buffer_write_ok m b r :
  Buffer.wf b -> Range.wf r -> tail_private b ->
  disjoint (r_data r) (r_size r)
    (match list.last (bf_frags b) with Some f => Fragment.tail f | None => 0 end) (Buffer.tailroom b) ->
  bf_size b + r_size r < 2 ^ 63 ->
  let n := Z.min (r_size r) (Buffer.tailroom b) in
  exists m' b', Buffer.write m b r = (m', b', n) /\ Buffer.wf b' /\
    Buffer.bytes m' b' = Buffer.bytes m b ++ ztake n (Range.bytes m r) /\
    Buffer.guards b' = Buffer.guards b /\ Buffer.tailroom b' = Buffer.tailroom b - n.
Proof.
  intros Hwf Hr Hpriv Hd Hsm. pose proof (buffer_size_range b Hwf). destruct Hwf as [Hf Hs Hs'].
  unfold Range.wf in Hr. unfold Buffer.write, Buffer.empty, Range.empty, Buffer.tailroom, tail_private in *.
  destruct (bf_frags b) as [|f0 fs] eqn:Ef.
  { simpl in *. exists m, b. rewrite Z.min_r by lia.
    split; [done|]. split; [by split; rewrite ?Ef|]. rewrite ztake_0, app_nil_r, Ef. done. }
  assert (bf_frags b <> []) as Hne by (by rewrite Ef).
  rewrite <- Ef in *. clear Ef. cbn [orb].
  destruct (list.last (bf_frags b)) as [f|] eqn:El.
  2:{ by apply last_None in El. }
  set (n := Z.min (r_size r) (Fragment.tailroom f)). pose proof (removelast_last _ _ El) as Ecut.
  assert (Fragment.wf f /\ Forall Fragment.wf (removelast (bf_frags b))) as [Hfw Hinit].
  { rewrite Ecut in Hf. apply Forall_app in Hf as [? Hf]. by apply Forall_cons_iff in Hf as [? _]. }
  case_if.
  { exists m, b. replace n with 0 by (subst n; pose proof (fr_rooms f Hfw); lia).
    split; [done|]. split; [by split|]. rewrite ztake_0, app_nil_r, El. split; [done|]. split; [done|]. lia. }
  destruct (fr_write_ok m f r Hfw Hr Hd) as (m' & f' & Ew & Hf' & Hb & Eb & Eh & Es & Hfr). fold n in Ew, Hb, Es.
  pose proof (fr_rooms f Hfw). assert (0 <= n <= r_size r) by (subst n; lia).
  rewrite Ew. rewrite u64_id by (unfold_pow2; lia). do 2 eexists. split; [done|].
  unfold Buffer.set_last, Buffer.guards. cbn [bf_frags bf_size].
  split; [split; cbn [bf_frags bf_size]; [by apply Forall_app; auto|rewrite Hs, Ecut at 1; rewrite !zsum_app; simpl; lia|lia]|].
  split; [|split].
  - rewrite !buffer_bytes_cat. cbn [bf_frags]. rewrite Ecut at 2. rewrite !cat_app, !cat_cons, Hb, !app_nil_r.
    rewrite app_assoc. f_equal. f_equal. apply cat_ext. apply Forall_forall. intros g Hg.
    unfold Fragment.bytes. apply Hfr. rewrite Forall_forall in Hpriv. apply Hpriv.
    rewrite Ecut. apply in_or_app. by left.
  - rewrite Ecut at 2. change (fmap Fragment.guard) with guards_of. rewrite !guards_of_app.
    f_equal. unfold guards_of. simpl. unfold Fragment.guard. by rewrite Eb.
  - rewrite last_snoc. rewrite !fr_tailroom, Eb, Eh, Es by done. lia.
Qed.

End buffer_lemmas2.

Section buffer_clone_read.
Implicit Types (m : mem) (h : gheap) (b : buffer) (live : list guard) (r : byte_range) (l : list fragment).

Lemma same_windows_cat m l l' : Forall2 same_window l l' -> cat m l' = cat m l.
Proof.
  induction 1 as [|f g l l' H Hl IH]; [done|]. by rewrite !cat_cons, IH, (same_window_bytes m f g H).
Qed.

Lemma same_windows_sum l l' : Forall2 same_window l l' -> zsum fr_size l' = zsum fr_size l.
Proof. induction 1 as [|f g l l' (_ & E & _) Hl IH]; [done|]. cbn [zsum]. by rewrite IH, E. Qed.

Lemma clone_list_ok h l live :
  Forall Fragment.wf l -> guards_ok h (guards_of l ++ live) -> refs_under (zlen l) h ->
  zlen l + 2 <= usize_max ->
  exists h' l' cs, Buffer.clone_list h l = Ret (h', l', cs) /\
    Forall Fragment.wf l' /\ Forall Fragment.wf cs /\
    Forall2 same_window l l' /\ Forall2 same_window l cs /\
    guards_ok h' (guards_of cs ++ guards_of l' ++ live) /\
    pending h' (guards_of cs ++ guards_of l' ++ live) ≡ₚ pending h (guards_of l ++ live) /\
    frees h' = frees h.
Proof.
  intros Hl. revert h live. induction Hl as [|f l Hf Hl IH]; intros h live Hok Hu Hn.
  { exists h, [], []. by repeat (split; [done|]). }
  rewrite zlen_cons in Hu, Hn. rewrite guards_of_cons in Hok. pose proof (zlen_nonneg l).
  destruct (fr_clone_ok h f (guards_of l ++ live) Hf Hok) as (h1 & f' & c & E1 & Hf' & Hc & Sf & Sc & Hok1 & HP1 & Hfr1).
  { apply (refs_under_room (1 + zlen l)); [lia|done]. }
  assert (refs_under (zlen l) h1) as Hu1.
  { apply (clone_refs_under _ h f _ h1 f' c Hok); try done; try lia. by rewrite Z.add_comm. }
  destruct (IH h1 (Fragment.guard f' :: Fragment.guard c :: live)) as (h' & l' & cs & E & Hw & Hwc & S1 & S2 & Hok' & HP & Hfr);
    [|done|lia|].
  { revert Hok1. apply guards_ok_perm. solve_Permutation. }
  cbn [Buffer.clone_list]. rewrite E1. cbn [bindO]. rewrite E. cbn [bindO].
  exists h', (f' :: l'), (c :: cs). split; [done|]. split; [by constructor|]. split; [by constructor|].
  split; [by constructor|]. split; [by constructor|].
  assert (guards_of (c :: cs) ++ guards_of (f' :: l') ++ live ≡ₚ
          guards_of cs ++ guards_of l' ++ Fragment.guard f' :: Fragment.guard c :: live) as HPm
    by (rewrite !guards_of_cons; solve_Permutation).
  split; [revert Hok'; apply guards_ok_perm; by rewrite HPm|]. split; [|congruence].
  unfold pending, owned in *. rewrite HPm, HP, guards_of_cons. rewrite <- HP1. apply objs_perm. solve_Permutation.
Qed.

(** The copying loop fills the range with what is left of the fragments. *)
Lemma read_loop_ok m l r offset n :
  Forall Fragment.wf l -> Range.wf r -> 0 < r_size r -> 0 <= offset ->
  match l with [] => offset = 0 | f :: _ => offset <= fr_size f end ->
  Forall (fun f => disjoint (r_data r) (r_size r) (fr_head f) (fr_size f)) l ->
  n = Z.min (r_size r) (zsum fr_size l - offset) ->
  exists m' r', Buffer.read_loop m l r offset = Ret (m', r') /\
    r_size r' = r_size r - n /\
    load m' (r_data r) n = ztake n (zdrop offset (cat m l)) /\
    (forall a k, disjoint (r_data r) n a k -> load m' a k = load m a k).
Proof.
  intros Hl. revert m r offset n. induction Hl as [|f l Hf Hl IH]; intros m r offset n Hr Hpos Ho0 Ho Hd Hn.
  { cbn [zsum Buffer.read_loop] in *. assert (n = 0) as -> by lia. exists m, r.
    rewrite Z.sub_0_r, ztake_0. by repeat (split; [done|]). }
  pose proof (fr_size_range f Hf). pose proof (zsum_size_nonneg l Hl). cbn [zsum] in Hn.
  apply Forall_cons_iff in Hd as [Hdf Hdl].
  destruct (fr_read_ok m f r offset Hf Hr ltac:(lia) Hdf) as (m1 & E1 & Hb1 & Hfr1).
  set (k := Z.max 0 (Z.min (r_size r) (fr_size f - offset))) in *.
  assert (zlen (Fragment.bytes m f) = fr_size f) as Hzf by (by apply zlen_fr_bytes).
  cbn [Buffer.read_loop]. rewrite E1. cbn [bindO]. destruct (Z.le_gt_cases (r_size r) k) as [Hfull|Hmore].
  - rewrite Range.subrange_past by lia. cbn [bindO Range.empty Range.null r_size].
    assert (n = k) as -> by (subst n k; lia). exists m1, Range.null. split; [done|].
    split; [subst k; simpl; lia|]. split; [|done].
    rewrite Hb1, cat_cons, zdrop_app_le, ztake_app_le by (rewrite ?zlen_drop, ?Hzf; lia). done.
  - unfold Range.wf in Hr. rewrite Range.subrange_tail by (unfold Range.wf; lia). cbn [bindO].
    unfold Range.empty at 1. cbn [r_size]. rewrite (proj2 (Z.eqb_neq _ _)) by lia.
    assert (k = fr_size f - offset) as Hk by (subst k; lia).
    destruct (IH m1 (mk_range (r_data r + k) (r_size r - k)) 0 (n - k)) as (m' & r' & E & Hs & Hb & Hfr);
      cbn [r_size r_data] in *; try (unfold Range.wf; simpl; lia).
    + destruct l as [|g l']; [done|]. apply Forall_cons_iff in Hl as [? _]. by apply fr_size_range.
    + clear - Hdl Hmore Hk Ho. induction Hdl as [|g l' Hg Hl' IHl]; constructor; [|done].
      unfold disjoint in *. lia.
    + assert (0 <= n - k /\ 0 <= k) as [Hn' Hk0] by lia.
      exists m', r'. split; [exact E|]. split; [lia|]. split.
      * replace n with (k + (n - k)) at 1 by lia. rewrite load_app, Hb, zdrop_0 by lia.
        rewrite Hfr by (unfold disjoint; lia). rewrite Hb1, cat_cons, zdrop_app_le by lia.
        rewrite (ztake_app_ge n) by (rewrite zlen_drop; lia). rewrite zlen_drop, Hzf by lia.
        replace (n - Z.max 0 (fr_size f - offset)) with (n - k) by lia.
        rewrite ztake_ge by (rewrite zlen_drop; lia). f_equal. f_equal. apply cat_ext.
        clear - Hdl Hfr1 Hk Hk0 Hmore. induction Hdl as [|g l' Hg Hl' IHl]; constructor; [|done].
        unfold Fragment.bytes. apply Hfr1. unfold disjoint in *. lia.
      * intros a j Ha. rewrite Hfr by (unfold disjoint in *; lia). apply Hfr1. unfold disjoint in *. lia.
Qed.

(** [read] copies [min(r.size(), size() - offset)] bytes from [offset] on. *)
Lemma buffer_read_ok m b r offset :
  Buffer.wf b -> Range.wf r -> 0 <= offset < 2 ^ 64 ->
  Forall (fun f => disjoint (r_data r) (r_size r) (fr_head f) (fr_size f)) (bf_frags b) ->
  exists m', Buffer.read m b r offset = Ret (m', Z.max 0 (Z.min (r_size r) (bf_size b - offset))) /\
    load m' (r_data r) (Z.min (r_size r) (bf_size b - offset)) =
      ztake (r_size r) (zdrop offset (Buffer.bytes m b)) /\
    (forall a k, disjoint (r_data r) (r_size r) a k -> load m' a k = load m a k).
Proof.
  intros Hwf Hr Ho Hd. pose proof (buffer_size_range b Hwf) as Hbs. pose proof (zlen_buffer m b Hwf) as Hlen.
  destruct Hwf as [Hf Hs Hsm]. unfold Range.wf in Hr. unfold Buffer.read.
  destruct (Buffer.empty b || Range.empty r || (bf_size b <=? offset)) eqn:E0.
  { assert (Z.min (r_size r) (bf_size b - offset) <= 0) as Hmin.
    { unfold Buffer.empty, Range.empty in E0. destruct (bf_frags b); simpl in *; [lia|].
      apply orb_true_iff in E0 as [E0|E0]; zbool; lia. }
    rewrite Z.max_l by lia. exists m. split; [done|]. split; [|done]. rewrite load_nonpos by lia.
    destruct (Z.le_gt_cases (bf_size b) offset).
    - rewrite zdrop_ge by lia. unfold ztake. by rewrite take_nil.
    - by rewrite ztake_neg by lia. }
  unfold Range.empty in E0. zbool.
  destruct (skip_offset_spec (bf_frags b) offset Hf ltac:(lia)) as (pre & suf & o & E1 & El & Eo & Ho' & Hst).
  rewrite E1. destruct (cut_bytes m _ _ _ _ offset Hf El Eo ltac:(lia)) as [_ Hdrop].
  rewrite buffer_bytes_cat, Hdrop. pose proof Hf as Hf'. rewrite El in Hf', Hd.
  apply Forall_app in Hf' as [Hp Hsf]. apply Forall_app in Hd as [_ Hd].
  assert (bf_size b = zsum fr_size pre + zsum fr_size suf) as Hsum by (rewrite Hs, El; apply zsum_app).
  set (n := Z.min (r_size r) (bf_size b - offset)) in *.
  destruct (read_loop_ok m suf r o n Hsf) as (m' & r' & E & Hr' & Hb & Hfr);
    [unfold Range.wf; lia|lia|lia|destruct suf; lia|done|lia|].
  rewrite E. cbn [bindO]. rewrite Hr', Z.max_r by lia.
  rewrite u64_id by (unfold_pow2; lia). exists m'. split; [do 2 f_equal; lia|]. split.
  - rewrite Hb. destruct (Z.le_gt_cases (r_size r) (bf_size b - offset)).
    + by replace n with (r_size r) by lia.
    + rewrite !ztake_ge; [done|rewrite zlen_drop, zlen_cat by (done || lia); lia..].
  - intros a k Ha. apply Hfr. unfold disjoint in *. lia.
Qed.
(** [coalesce_loop] swallows every fragment when [length] exceeds them all. *)
Lemma coalesce_loop_all m w len its :
  Forall Fragment.wf its -> zsum fr_size its < len < 2 ^ 64 ->
  exists m' w' len', Buffer.coalesce_loop m w len its = (m', w', len', its, []) /\ 0 < len'.
Proof.
  intros Hl. revert m w len. induction Hl as [|f l Hf Hl IH]; intros m w len Hlen.
  { exists m, w, len. cbn [zsum] in Hlen. split; [done|lia]. }
  cbn [zsum] in Hlen. pose proof (fr_size_range f Hf). pose proof (zsum_size_nonneg l Hl).
  cbn [Buffer.coalesce_loop]. unfold Fragment.size. rewrite (proj2 (Z.leb_le _ _)) by lia.
  unfold Fragment.write, Fragment.data_range, Fragment.size. cbn [r_size].
  assert (0 <= Fragment.tailroom w) as Ht by apply u64_range.
  set (n := Z.min (fr_size f) (Fragment.tailroom w)).
  rewrite (u64_id (len - n)) by (unfold_pow2; lia).
  match goal with |- context [Buffer.coalesce_loop ?m1 ?w1 ?len1 l] =>
    destruct (IH m1 w1 len1 ltac:(lia)) as (m' & w' & len' & E & Hp) end.
  rewrite E. by exists m', w', len'.
Qed.
End buffer_clone_read.

(** ** Properties *)

(** C8: [buffer::split(sz)] cuts the bytes of the buffer at [sz]: the returned
    buffer holds the first [sz] bytes (all of them when [sz] exceeds the
    size), this buffer the rest, both are well formed, no byte moves, nothing
    is freed, and the two buffers together own exactly the objects the buffer
    owned; a null pointer comes back only for an empty buffer or [sz = 0]. *)
Theorem buffer_split_cuts (m : mem) (h : gheap) (b : buffer) (sz : Z) (live : list guard) :
  Buffer.wf b -> guards_ok h (Buffer.guards b ++ live) -> refs_room h -> 0 <= sz < 2 ^ 64 ->
  exists h' b' p, Buffer.split h b sz = Ret (h', b', p) /\
    (p = None <-> Buffer.empty b = true \/ sz = 0) /\
    let q := default Buffer.null p in
    Buffer.wf b' /\ Buffer.wf q /\
    Buffer.bytes m q = ztake sz (Buffer.bytes m b) /\ Buffer.bytes m b' = zdrop sz (Buffer.bytes m b) /\
    guards_ok h' (Buffer.guards q ++ Buffer.guards b' ++ live) /\
    pending h' (Buffer.guards q ++ Buffer.guards b' ++ live) ≡ₚ pending h (Buffer.guards b ++ live) /\
    frees h' = frees h.
Proof.
  intros Hwf Hok Hroom Hsz.
  assert (bf_frags b = [] -> Buffer.bytes m b = []) as Hnil by (unfold Buffer.bytes; by intros ->).
  destruct (decide (bf_frags b = [] \/ sz = 0)) as [Hd|Hd].
  - exists h, b, None. unfold Buffer.split. assert (Buffer.empty b = true \/ sz = 0) as Hd'.
    { unfold Buffer.empty. destruct Hd as [-> | ->]; auto. }
    replace (Buffer.empty b || (0 =? sz)) with true
      by (symmetry; apply orb_true_iff; rewrite Z.eqb_eq; intuition lia).
    do 2 (split; [done|]). simpl. split; [done|]. split; [by split|]. unfold Buffer.bytes at 1. simpl.
    split; [|split; [|done]].
    + destruct Hd as [E | ->]; [rewrite Hnil by done; unfold ztake; by rewrite take_nil|by rewrite ztake_0].
    + destruct Hd as [E | ->]; [rewrite Hnil by done; unfold zdrop; by rewrite drop_nil|by rewrite zdrop_0].
  - apply Decidable.not_or in Hd as [Hne Hz].
    destruct (buffer_split_ok m h b sz live Hwf Hok Hroom Hne ltac:(lia)) as (h' & b' & q & E & Hpost).
    exists h', b', (Some q). split; [done|]. split; [|done]. split; [done|].
    unfold Buffer.empty. destruct (bf_frags b); intuition done.
Qed.

(** C9: [skip_bytes] drops the first [sz] bytes of a buffer and
    [ignore_bytes_at_end] the last [sz] (all bytes if there are fewer),
    whether or not the emptied fragments are freed; the result is well formed,
    and every object the buffer owned is then either still owned or was freed,
    exactly once. *)
Theorem buffer_skip_ignore (m : mem) (h : gheap) (b : buffer) (sz : Z) (free : bool) (live : list guard) :
  Buffer.wf b -> guards_ok h (Buffer.guards b ++ live) -> 0 <= sz < 2 ^ 64 ->
  (exists h' b', Buffer.skip_bytes h b sz free = Ret (h', b') /\
    drop_post m h b live h' b' (zdrop sz (Buffer.bytes m b))) /\
  (exists h' b', Buffer.ignore_bytes_at_end h b sz free = Ret (h', b') /\
    drop_post m h b live h' b' (ztake (bf_size b - sz) (Buffer.bytes m b))).
Proof. intros. split; [by apply buffer_skip_ok|by apply buffer_ignore_ok]. Qed.

(** C10: [buffer::read(r, offset)] copies into [r] the bytes of the buffer from
    [offset] on, across fragment boundaries, as many as both have; it returns
    their number, never dereferences past the last fragment and writes nothing
    outside [r]. *)
Theorem buffer_read_bytes (m : mem) (b : buffer) (r : byte_range) (offset : Z) :
  Buffer.wf b -> Range.wf r -> 0 <= offset < 2 ^ 64 ->
  Forall (fun f => disjoint (r_data r) (r_size r) (fr_head f) (fr_size f)) (bf_frags b) ->
  let n := Z.max 0 (Z.min (r_size r) (bf_size b - offset)) in
  exists m', Buffer.read m b r offset = Ret (m', n) /\
    load m' (r_data r) n = ztake (r_size r) (zdrop offset (Buffer.bytes m b)) /\
    Buffer.bytes m' b = Buffer.bytes m b /\
    (forall a k, disjoint (r_data r) (r_size r) a k -> load m' a k = load m a k).
Proof.
  intros Hwf Hr Ho Hd n. destruct (buffer_read_ok m b r offset Hwf Hr Ho Hd) as (m' & E & Hl & Hfr).
  exists m'. split; [done|]. split; [|split; [|done]].
  - rewrite <- Hl. subst n. destruct (Z.le_gt_cases (Z.min (r_size r) (bf_size b - offset)) 0).
    + by rewrite !load_nonpos by lia.
    + by rewrite Z.max_r by lia.
  - rewrite !buffer_bytes_cat. apply cat_ext. apply Forall_forall. intros f Hf.
    rewrite Forall_forall in Hd. apply Hfr. by apply Hd.
Qed.

(** C11: [buffer::write] appends to the bytes of the buffer the prefix of the
    range that fits in the tailroom of the last fragment and reports its
    length; the cached size and the guards stay right. *)
Theorem buffer_write_appends (m : mem) (b : buffer) (r : byte_range) :
  Buffer.wf b -> Range.wf r -> tail_private b ->
  disjoint (r_data r) (r_size r)
    (match list.last (bf_frags b) with Some f => Fragment.tail f | None => 0 end) (Buffer.tailroom b) ->
  bf_size b + r_size r < 2 ^ 63 ->
  let n := Z.min (r_size r) (Buffer.tailroom b) in
  exists m' b', Buffer.write m b r = (m', b', n) /\ Buffer.wf b' /\
    Buffer.bytes m' b' = Buffer.bytes m b ++ ztake n (Range.bytes m r) /\
    bf_size b' = bf_size b + n /\
    Buffer.guards b' = Buffer.guards b /\ Buffer.tailroom b' = Buffer.tailroom b - n.
Proof.
  intros Hwf Hr Hp Hd Hsm n.
  destruct (buffer_write_ok m b r Hwf Hr Hp Hd Hsm) as (m' & b' & E & Hwf' & Hb & Hg & Ht). fold n in E, Hb, Ht.
  exists m', b'. do 3 (split; [done|]). split; [|done].
  rewrite <- (zlen_buffer m' b' Hwf'), Hb, zlen_app, (zlen_buffer m b Hwf).
  assert (0 <= Buffer.tailroom b) as Ht0.
  { unfold Buffer.tailroom. destruct (list.last _) as [f|]; [apply u64_range|lia]. }
  unfold Range.wf in Hr. rewrite zlen_take, Range.zlen_bytes by (unfold Range.wf; lia). lia.
Qed.

(** [buffer::clone] returns a buffer with the same fragments, windows onto
    the same bytes, and both own together what the original owned: each object
    is still freed exactly once. *)
Theorem buffer_clone_aliases (m : mem) (h : gheap) (b : buffer) (live : list guard) :
  Buffer.wf b -> guards_ok h (Buffer.guards b ++ live) -> refs_under (Buffer.length b) h ->
  Buffer.length b + 2 <= usize_max ->
  exists h' b' c, Buffer.clone h b = Ret (h', b', c) /\ Buffer.wf b' /\ Buffer.wf c /\
    Forall2 same_window (bf_frags b) (bf_frags c) /\
    (forall m, Buffer.bytes m c = Buffer.bytes m b /\ Buffer.bytes m b' = Buffer.bytes m b) /\
    guards_ok h' (Buffer.guards c ++ Buffer.guards b' ++ live) /\
    pending h' (Buffer.guards c ++ Buffer.guards b' ++ live) ≡ₚ pending h (Buffer.guards b ++ live) /\
    frees h' = frees h.
Proof.
  intros [Hf Hs Hsm] Hok Hu Hn.
  destruct (clone_list_ok h (bf_frags b) live Hf Hok Hu Hn)
    as (h' & l' & cs & E & Hw & Hwc & S1 & S2 & Hok' & HP & Hfr).
  unfold Buffer.clone. rewrite E. cbn [bindO]. do 3 eexists. split; [done|].
  split; [split; simpl; [done|by rewrite (same_windows_sum _ _ S1)|done]|].
  split; [split; simpl; [done|by rewrite (same_windows_sum _ _ S2)|done]|].
  split; [done|]. split; [|done]. intros m0. rewrite !buffer_bytes_cat. simpl.
  by rewrite (same_windows_cat _ _ _ S1), (same_windows_cat _ _ _ S2).
Qed.

(** [buffer::range]/[coalesce] with an offset inside a fragment subtract
    the size of the whole fragment, not of its part behind the offset: a
    request that spans two fragments but is shorter than the first wraps
    around and ends in the dereference of the end iterator, although the
    buffer holds the bytes and the tailroom suffices. *)
Theorem buffer_range_offset_undefined {St : Type} `{buffer_allocator St} (s : St) (m : mem) (h : gheap)
    (b : buffer) (f : fragment) (rest : list fragment) (offset length : Z) (live : list guard) :
  bf_frags b = f :: rest -> Buffer.wf b -> guards_ok h (Buffer.guards b ++ live) ->
  0 < offset < fr_size f -> fr_size f - offset < length < fr_size f ->
  offset + length <= bf_size b -> length <= fr_size f - offset + Fragment.tailroom f ->
  Buffer.range s m h b offset length = Undef.
Proof.
  intros Ef Hwf Hok Ho Hl Hb Ht. pose proof (buffer_size_range b Hwf) as Hbs. destruct Hwf as [Hf Hs Hsm].
  rewrite Ef in Hf, Hs. cbn [zsum] in Hs. apply Forall_cons_iff in Hf as [Hfw Hr].
  pose proof (zsum_size_nonneg rest Hr). pose proof (fr_rooms f Hfw) as (Hh0 & Ht0 & Hsum).
  assert (bb_size (fr_bytes f) < 2 ^ 63) by apply (Fragment.wf_blob f Hfw).
  unfold Buffer.range. rewrite (proj2 (Z.leb_gt _ _)) by lia.
  unfold Buffer.coalesce, Buffer.empty. rewrite Ef. cbn [orb].
  rewrite (proj2 (Z.eqb_neq _ _)), (proj2 (Z.leb_gt _ _)) by lia. cbn [orb].
  rewrite (u64_id (bf_size b - offset)) by (unfold_pow2; lia). rewrite (proj2 (Z.ltb_ge _ _)) by lia.
  cbn [skip_offset]. unfold Fragment.size. rewrite (proj2 (Z.leb_gt (fr_size f) offset)) by lia. cbn [bindO].
  rewrite (u64_id (fr_size f - offset)) by (unfold_pow2; lia). rewrite (proj2 (Z.leb_gt _ _)) by lia.
  rewrite u64_id by (unfold_pow2; lia). rewrite (proj2 (Z.ltb_ge _ _)) by lia. cbn [bindO].
  assert (u64 (length - fr_size f) = length - fr_size f + 2 ^ 64) as Ewrap.
  { unfold u64, wrap. symmetry. apply (Z.mod_unique _ _ (-1)); unfold_pow2; lia. }
  rewrite Ewrap.
  destruct (coalesce_loop_all m f (length - fr_size f + 2 ^ 64) rest Hr) as (m' & w' & len' & E & Hp);
    [unfold_pow2; lia|].
  rewrite E. unfold Buffer.guards in Hok. rewrite Ef in Hok.
  change (fmap Fragment.guard) with guards_of in Hok. rewrite guards_of_cons in Hok.
  destruct (dispose_ok h rest (Fragment.guard f :: live)) as (h' & Ed & _).
  { revert Hok. apply guards_ok_perm. solve_Permutation. }
  rewrite Ed. cbn [bindO]. rewrite (proj2 (Z.ltb_lt _ _)) by lia. done.
Qed.

(** ** The properties at concrete inputs *)

Definition ex_heap : gheap := mk_gheap ∅ 1 [].
Definition ex_fragment1 : fragment := mk_fragment (mk_blob 100 8 (GSimple 100)) 102 3.
Definition ex_fragment2 : fragment := mk_fragment (mk_blob 200 6 (GSimple 200)) 200 4.
Definition ex_buffer : buffer := mk_buffer [ex_fragment1; ex_fragment2] 7.
Definition ex_buffer_mem : mem := store (store (store ∅ 102 [1; 2; 3]) 200 [4; 5; 6; 7]) 1000 [8; 9; 10].

Lemma ex_buffer_wf : Buffer.wf ex_buffer.
Proof.
  split; [|reflexivity|reflexivity].
  constructor; [|constructor; [|constructor]]; wf_frag.
Qed.

Lemma ex_buffer_guards : guards_ok ex_heap (Buffer.guards ex_buffer ++ []).
Proof.
  change (guards_ok ex_heap (Guard.make_simple_guard 100 :: Guard.make_simple_guard 200 :: [])).
  apply make_simple_guard_ok; [apply make_simple_guard_ok; [apply guards_ok_start|]|].
  - vm_compute. intros Hi. inversion Hi.
  - vm_compute. intros Hi. inversion Hi as [|? ? ? Hj]; subst. inversion Hj.
Qed.

Lemma buffer_split_cuts_witness :
  exists h' b' q, Buffer.split ex_heap ex_buffer 5 = Ret (h', b', Some q) /\
    Buffer.bytes ex_buffer_mem q = [1; 2; 3; 4; 5] /\ Buffer.bytes ex_buffer_mem b' = [6; 7].
Proof.
  destruct (buffer_split_cuts ex_buffer_mem ex_heap ex_buffer 5 []) as (h' & b' & p & E & Hp & Hpost).
  - apply ex_buffer_wf.
  - apply ex_buffer_guards.
  - intros i im Hi. vm_compute in Hi. discriminate.
  - unfold_pow2. lia.
  - destruct p as [q|]; [|destruct Hp as [[Hp|Hp] _]; [done|discriminate|lia]].
    exists h', b', q. split; [exact E|]. destruct Hpost as (_ & _ & H1 & H2 & _). cbn [default] in *.
    unfold default in H1, H2. simpl in H1, H2. rewrite H1, H2. split; vm_compute; reflexivity.
Defined.

Lemma buffer_skip_ignore_witness :
  (exists h' b', Buffer.skip_bytes ex_heap ex_buffer 4 true = Ret (h', b') /\ log h' = [freed 100] /\
    Buffer.bytes ex_buffer_mem b' = [5; 6; 7]) /\
  (exists h' b', Buffer.ignore_bytes_at_end ex_heap ex_buffer 4 true = Ret (h', b') /\
    Buffer.bytes ex_buffer_mem b' = [1; 2; 3]).
Proof.
  destruct (buffer_skip_ignore ex_buffer_mem ex_heap ex_buffer 4 true []) as [(h1 & b1 & E1 & H1) (h2 & b2 & E2 & H2)].
  - apply ex_buffer_wf.
  - apply ex_buffer_guards.
  - unfold_pow2. lia.
  - split.
    + exists h1, b1. split; [exact E1|]. destruct H1 as (_ & H1 & _). rewrite H1.
      vm_compute in E1. injection E1 as <- <-. split; vm_compute; reflexivity.
    + exists h2, b2. split; [exact E2|]. destruct H2 as (_ & H2 & _). rewrite H2. vm_compute. reflexivity.
Defined.

Lemma buffer_read_bytes_witness :
  exists m', Buffer.read ex_buffer_mem ex_buffer (mk_range 2000 4) 2 = Ret (m', 4) /\
    load m' 2000 4 = [3; 4; 5; 6].
Proof.
  destruct (buffer_read_bytes ex_buffer_mem ex_buffer (mk_range 2000 4) 2) as (m' & E & H & _).
  - apply ex_buffer_wf.
  - split; simpl; lia.
  - unfold_pow2. lia.
  - repeat apply Forall_cons_2; [eval_disjoint..|apply Forall_nil_2].
  - exists m'. split; [exact E|]. change (Z.max 0 _) with 4 in H. cbn [r_data] in H. rewrite H. vm_compute. reflexivity.
Defined.

Lemma buffer_write_appends_witness :
  exists m' b', Buffer.write ex_buffer_mem ex_buffer (mk_range 1000 3) = (m', b', 2) /\
    Buffer.bytes m' b' = [1; 2; 3; 4; 5; 6; 7; 8; 9].
Proof.
  destruct (buffer_write_appends ex_buffer_mem ex_buffer (mk_range 1000 3)) as (m' & b' & E & _ & H & _).
  - apply ex_buffer_wf.
  - split; simpl; lia.
  - unfold tail_private; cbn. repeat apply Forall_cons_2; [eval_disjoint..|apply Forall_nil_2].
  - eval_disjoint.
  - vm_compute. reflexivity.
  - exists m', b'. split; [exact E|]. rewrite H. vm_compute. reflexivity.
Defined.

Lemma buffer_clone_aliases_witness :
  exists h' b' c, Buffer.clone ex_heap ex_buffer = Ret (h', b', c) /\
    Buffer.bytes ex_buffer_mem c = [1; 2; 3; 4; 5; 6; 7].
Proof.
  destruct (buffer_clone_aliases ex_buffer_mem ex_heap ex_buffer []) as (h' & b' & c & E & _ & _ & _ & H & _).
  - apply ex_buffer_wf.
  - apply ex_buffer_guards.
  - intros i im Hi. vm_compute in Hi. discriminate.
  - vm_compute. discriminate.
  - exists h', b', c. split; [exact E|]. rewrite (proj1 (H _)). vm_compute. reflexivity.
Defined.

(** An allocator for the examples: every buffer is one fragment at 5000. *)
Definition ex_allocator : buffer_allocator unit :=
  {| ba_allocate s m h sz hr tr :=
       Ret (s, m, h, mk_buffer [mk_fragment (mk_blob 5000 (hr + sz + tr) (GSimple 5000)) (5000 + hr) 0] 0) |}.

Lemma buffer_range_offset_undefined_witness :
  Buffer.range (H := ex_allocator) tt ex_buffer_mem ex_heap
    (mk_buffer [mk_fragment (mk_blob 100 8 (GSimple 100)) 100 4; ex_fragment2] 8) 3 3 = Undef.
Proof.
  apply (buffer_range_offset_undefined (H := ex_allocator) tt ex_buffer_mem ex_heap _
    (mk_fragment (mk_blob 100 8 (GSimple 100)) 100 4) [ex_fragment2] 3 3 []).
  - reflexivity.
  - split; [|reflexivity|reflexivity]. constructor; [|constructor; [|constructor]]; wf_frag.
  - exact ex_buffer_guards.
  - simpl. lia.
  - simpl. lia.
  - simpl. lia.
  - vm_compute. discriminate.
Defined.
