(* ===== verification/Alloc.v ===== *)
(** * Alloc: where fragments come from, and the [iovec] view of a buffer
      (xi/io/basic_buffer_allocator.h, xi/io/buffer_allocator.h,
      xi/io/buffer_iovec_adapter.h)

    [fragment_allocator] is an interface with three implementations; the
    buffer allocator is written against it.  The C heap is a state and the
    functions [malloc] (0 is a null pointer) and [malloc_usable_size]. *)
From S2P Require Import Prelude Bytes Guard Blob Fragment Buffer.

(** [struct fragment_allocator]: the state of the implementation includes that
    of the C heap. *)
Class fragment_allocator (St : Type) := {
  fa_allocate : St -> gheap -> Z -> outcome (St * gheap * fragment)
}.

(** [malloc] and [malloc_usable_size]. *)
Class c_heap (CH : Type) := {
  malloc : CH -> Z -> CH * Z;
  malloc_usable_size : CH -> Z -> Z
}.

Section allocators.
Context {CH : Type} `{c_heap CH}.

(** [byte_blob(mem, mem ? n : 0, make_simple_guard(mem))]. *)
Definition heap_blob (p n : Z) : byte_blob :=
  mk_blob p (if p =? 0 then 0 else n) (Guard.make_simple_guard p).

(** [exact_fragment_allocator]. *)
Definition exact_make_heap_byte_blob (c : CH) (sz : Z) : CH * byte_blob :=
  let '(c, p) := malloc c sz in (c, heap_blob p sz).

Definition exact_allocate (c : CH) (h : gheap) (sz : Z) : outcome (CH * gheap * fragment) :=
  let '(c, b) := exact_make_heap_byte_blob c sz in
  do '(h, f) <- Fragment.make h b;; Ret (c, h, f).

(** [simple_fragment_allocator]. *)
Definition simple_make_heap_byte_blob (c : CH) (sz : Z) : CH * byte_blob :=
  let '(c, p) := malloc c sz in (c, heap_blob p (malloc_usable_size c p)).

Definition simple_allocate (c : CH) (h : gheap) (sz : Z) : outcome (CH * gheap * fragment) :=
  let '(c, b) := simple_make_heap_byte_blob c sz in
  do '(h, f) <- Fragment.make h b;; Ret (c, h, f).

(** [arena_fragment_allocator]. *)
Record arena := mk_arena {
  ar_arena : byte_blob;
  ar_arena_size : Z;
  ar_low_watermark : Z
}.

Definition arena_new (arena_size low_watermark : Z) : arena :=
  mk_arena Blob.null arena_size (if low_watermark =? 0 then arena_size / 100 else low_watermark).

Definition make_arena (c : CH) (a : arena) : CH * byte_blob :=
  let '(c, p) := malloc c (ar_arena_size a) in (c, heap_blob p (malloc_usable_size c p)).

Definition set_arena (a : arena) (b : byte_blob) : arena :=
  mk_arena b (ar_arena_size a) (ar_low_watermark a).

Definition arena_allocate (ca : CH * arena) (h : gheap) (sz : Z)
    : outcome ((CH * arena) * gheap * fragment) :=
  let '(c, a) := ca in
  let cut (c : CH) (a : arena) (h : gheap) :=
    (** [auto blob = _arena; _arena = _arena.split(sz);] *)
    do '(h, ar, blob) <- Blob.copy h (ar_arena a);;
    do '(h, front, tl) <- Blob.split h ar sz;;
    do '(h, ar) <- Blob.move_assign h front tl;;
    do '(h, f) <- Fragment.make h blob;;
    Ret ((c, set_arena a ar), h, f) in
  if Blob.empty (ar_arena a) then
    let '(c, b) := make_arena c a in
    do '(h, b) <- Blob.move_assign h (ar_arena a) b;;
    cut c (set_arena a b) h
  else if Blob.size (ar_arena a) <=? u64 (sz + ar_low_watermark a) then
    let '(was, moved) := Blob.move (ar_arena a) in
    do '(h, f) <- Fragment.make h moved;;
    let '(c, b) := make_arena c a in
    do '(h, b) <- Blob.move_assign h was b;;
    Ret ((c, set_arena a b), h, f)
  else cut c a h.

#[export] Instance exact_fragment_allocator : fragment_allocator CH := {| fa_allocate := exact_allocate |}.
Definition simple_fragment_allocator : fragment_allocator CH := {| fa_allocate := simple_allocate |}.
Definition arena_fragment_allocator : fragment_allocator (CH * arena) := {| fa_allocate := arena_allocate |}.
End allocators.

(** [basic_buffer_allocator::allocate]. *)
Section basic_buffer_allocator.
Context {St : Type} `{fragment_allocator St}.

Definition basic_allocate (s : St) (m : mem) (h : gheap) (sz headroom tailroom : Z)
    : outcome (St * mem * gheap * buffer) :=
  let total_size := u64 (u64 (sz + headroom) + tailroom) in
  do '(s, h, frag) <- fa_allocate s h total_size;;
  do '(m, frag) <- (if headroom =? 0 then Ret (m, frag) else Fragment.advance m frag headroom);;
  do '(h, b) <- Buffer.of_fragment h (Some frag);;
  Ret (s, m, h, b).

#[export] Instance basic_buffer_allocator : buffer_allocator St := {| ba_allocate := basic_allocate |}.
End basic_buffer_allocator.

(** [class buffer::iovec_adapter]: an [iovec] is a base and a length. *)
Module IovecAdapter.
Definition IOV_MAX : Z := 1024.

Fixpoint fill (l : list fragment) (i max : Z) : list byte_range :=
  match l with
  | [] => []
  | f :: l =>
      let range := Fragment.data_range f in
      if Range.empty range then fill l i max
      else range :: (if max =? u16 (i + 1) then [] else fill l (u16 (i + 1)) max)
  end.

(** The entries written to [iov]; their number is the result. *)
Definition fill_readable_iovec (b : buffer) (max : Z) : outcome (list byte_range) :=
  assertO (max <=? IOV_MAX)
    (if Buffer.empty b || (0 =? Buffer.size b) || (0 =? max) then Ret []
     else Ret (fill (bf_frags b) 0 max)).

Definition fill_writable_iovec (b : buffer) : list byte_range :=
  match list.last (bf_frags b) with
  | None => []
  | Some f => let range := Fragment.tail_range f in if Range.empty range then [] else [range]
  end.

Definition report_written (b : buffer) (sz : Z) : outcome buffer :=
  match list.last (bf_frags b) with
  | None => Ret b
  | Some f =>
      do '(f, n) <- Fragment.record_bytes f sz;;
      Ret (mk_buffer (Buffer.set_last (bf_frags b) f) (u64 (bf_size b + n)))
  end.
End IovecAdapter.

(** ** Contracts *)

(** What the code relies on: [malloc] succeeds and returns an object that
    nothing owns and that was never freed (addresses stand for allocations),
    with room for at least [n] bytes. *)
Class c_heap_spec (CH : Type) `{c_heap CH} := {
  ch_inv : CH -> gheap -> list guard -> Prop;
  malloc_ok (c : CH) (h : gheap) (live : list guard) (n : Z) :
    ch_inv c h live -> 0 < n < 2 ^ 48 ->
    exists c' p, malloc c n = (c', p) /\ 0 < p /\ (p ∉ pending h live ++ frees h) /\
      n <= malloc_usable_size c' p < 2 ^ 62 /\ ch_inv c' h (GSimple p :: live)
}.

(** [fragment_allocator::allocate(sz)] promises an empty fragment without
    headroom, room for [sz] bytes and sole ownership of its extent. *)
Class fragment_allocator_spec (St : Type) `{fragment_allocator St} := {
  fa_inv : St -> gheap -> list guard -> Prop;
  fa_allocate_ok (s : St) (h : gheap) (live : list guard) (sz : Z) :
    fa_inv s h live -> guards_ok h live -> 0 < sz < 2 ^ 48 ->
    exists s' h' f, fa_allocate s h sz = Ret (s', h', f) /\ Fragment.wf f /\
      fr_size f = 0 /\ Fragment.headroom f = 0 /\ sz <= Fragment.tailroom f /\
      guards_ok h' (Fragment.guard f :: live) /\ fa_inv s' h' (Fragment.guard f :: live)
}.

(** [buffer_allocator::allocate(sz, headroom, tailroom)]. *)
Class buffer_allocator_spec (St : Type) `{buffer_allocator St} := {
  ba_inv : St -> gheap -> list guard -> Prop;
  ba_allocate_ok (s : St) (m : mem) (h : gheap) (live : list guard) (sz hr tr : Z) :
    ba_inv s h live -> guards_ok h live -> 0 <= sz -> 0 <= hr -> 0 <= tr -> 0 < sz + hr + tr < 2 ^ 48 ->
    exists s' h' b, ba_allocate s m h sz hr tr = Ret (s', m, h', b) /\ Buffer.wf b /\
      Buffer.length b = 1 /\ Buffer.size b = 0 /\ Buffer.headroom b = hr /\ sz + tr <= Buffer.tailroom b /\
      guards_ok h' (Buffer.guards b ++ live) /\ ba_inv s' h' (Buffer.guards b ++ live)
}.

Section contracts.
Implicit Types (h : gheap) (live : list guard) (m : mem).

Lemma heap_blob_fragment h p n live :
  0 < p -> 0 < n < 2 ^ 62 -> (p ∉ pending h live ++ frees h) -> guards_ok h live ->
  exists f, Fragment.make h (heap_blob p n) = Ret (h, f) /\ Fragment.wf f /\ fr_size f = 0 /\
    Fragment.headroom f = 0 /\ Fragment.tailroom f = n /\ Fragment.guard f = GSimple p /\
    guards_ok h (Fragment.guard f :: live).
Proof.
  intros Hp Hn Hfresh Hok. unfold heap_blob. rewrite (proj2 (Z.eqb_neq _ _)) by lia.
  unfold Fragment.make. rewrite fr_release_nonempty by (simpl; lia). cbn [Blob.begin bb_bytes].
  assert (Guard.make_simple_guard p = GSimple p) as Eg
    by (unfold Guard.make_simple_guard; by rewrite (proj2 (Z.eqb_neq _ _)) by lia).
  eexists. split; [done|]. rewrite Eg.
  assert (Fragment.wf (mk_fragment (mk_blob p n (GSimple p)) p 0)) as Hwf by wf_frag.
  split; [done|]. split; [done|]. split; [rewrite fr_headroom by done; simpl; lia|].
  split; [rewrite fr_tailroom by done; simpl; lia|]. split; [done|].
  unfold Fragment.guard. simpl. rewrite <- Eg. by apply make_simple_guard_ok.
Qed.

Context {CH : Type} `{c_heap_spec CH}.

#[export] Program Instance exact_allocator_spec : fragment_allocator_spec (H := exact_fragment_allocator) CH :=
  {| fa_inv := ch_inv |}.
Next Obligation.
  intros c h live sz Hinv Hok Hsz. destruct (malloc_ok c h live sz Hinv Hsz) as (c' & p & E & Hp & Hf & Hu & Hinv').
  destruct (heap_blob_fragment h p sz live Hp ltac:(lia) Hf Hok) as (f & Em & Hwf & Hs & Hh & Ht & Hg & Hok').
  exists c', h, f. cbn [fa_allocate exact_fragment_allocator].
  unfold exact_allocate, exact_make_heap_byte_blob. rewrite E, Em. cbn [bindO].
  rewrite Hg in *. rewrite Ht. by repeat (split; [done || lia|]).
Qed.

#[export] Program Instance simple_allocator_spec : fragment_allocator_spec (H := simple_fragment_allocator) CH :=
  {| fa_inv := ch_inv |}.
Next Obligation.
  intros c h live sz Hinv Hok Hsz. destruct (malloc_ok c h live sz Hinv Hsz) as (c' & p & E & Hp & Hf & Hu & Hinv').
  assert (0 < malloc_usable_size c' p < 2 ^ 62) as Hu' by lia.
  destruct (heap_blob_fragment h p (malloc_usable_size c' p) live Hp Hu' Hf Hok)
    as (f & Em & Hwf & Hs & Hh & Ht & Hg & Hok').
  exists c', h, f. cbn [fa_allocate simple_fragment_allocator].
  unfold simple_allocate, simple_make_heap_byte_blob. rewrite E, Em. cbn [bindO].
  rewrite Hg in *. rewrite Ht. by repeat (split; [done || lia|]).
Qed.
End contracts.

Section basic_contract.
Context {St : Type} `{fragment_allocator_spec St}.

(** The basic allocator meets the buffer allocator's contract whatever
    fragment allocator it is given. *)
#[export] Program Instance basic_allocator_spec : buffer_allocator_spec St := {| ba_inv := fa_inv |}.
Next Obligation.
  intros s m h live sz hr tr Hinv Hok Hsz Hhr Htr Hsum.
  destruct (fa_allocate_ok s h live (sz + hr + tr) Hinv Hok Hsum)
    as (s' & h' & f & E & Hwf & Hs & Hh & Ht & Hok' & Hinv').
  cbn [ba_allocate basic_buffer_allocator]. unfold basic_allocate.
  rewrite !(u64_id (sz + hr)), u64_id by (unfold_pow2; lia). rewrite E. cbn [bindO].
  pose proof (fr_rooms f Hwf) as Hr. assert (bb_size (fr_bytes f) < 2 ^ 63) by apply (Fragment.wf_blob f Hwf).
  assert (exists f', (if hr =? 0 then Ret (m, f) else Fragment.advance m f hr) = Ret (m, f') /\ Fragment.wf f' /\
    fr_bytes f' = fr_bytes f /\ fr_size f' = 0 /\ Fragment.headroom f' = hr) as (f' & Ea & Hwf' & Eb & Es & Eh).
  { case_if; [exists f; repeat (split; [done|]); lia|].
    unfold Fragment.advance, Fragment.size. rewrite Hs, Z.add_0_r, u64_id by (unfold_pow2; lia).
    rewrite (proj2 (Z.leb_le _ _)) by lia. cbn [assertO Z.ltb Z.compare]. eexists. split; [done|].
    rewrite fr_headroom, fr_tailroom in * by done. destruct Hwf as [[? ?] ? ? ? ?].
    assert (Fragment.wf (mk_fragment (fr_bytes f) (fr_head f + hr) 0)) as Hw by wf_frag.
    split; [done|]. split; [done|]. split; [done|]. rewrite fr_headroom by done. simpl. lia. }
  rewrite Ea. cbn [bindO]. pose proof (fr_rooms f' Hwf') as Hr'. rewrite Eb in Hr'.
  unfold Buffer.of_fragment. cbn [derefO bindO].
  replace ((Fragment.size f' =? 0) && (Fragment.headroom f' =? 0) && (Fragment.tailroom f' =? 0)) with false
    by (symmetry; rewrite !andb_false_iff, !Z.eqb_neq; lia).
  cbn [bindO]. do 3 eexists. split; [done|]. unfold Buffer.guards, Fragment.size in *. cbn [bf_frags bf_size].
  assert (Fragment.guard f' = Fragment.guard f) as Eg by (unfold Fragment.guard; by rewrite Eb).
  split; [split; cbn [bf_frags bf_size]; [by constructor|simpl; lia|lia]|].
  unfold Buffer.headroom, Buffer.tailroom, Buffer.length, Buffer.size. cbn [bf_frags bf_size]. simpl. rewrite Eg.
  repeat (split; [done || lia|]). done.
Qed.
End basic_contract.

(** ** [iovec]s *)
Section iovecs.
Implicit Types (m : mem) (l : list fragment) (b : buffer).

(** The non-empty data ranges, front to back. *)
Definition data_ranges l : list byte_range :=
  filter (fun r => r_size r <> 0) (Fragment.data_range <$> l).

Lemma data_ranges_cons f l :
  data_ranges (f :: l) = if Range.empty (Fragment.data_range f) then data_ranges l
                         else Fragment.data_range f :: data_ranges l.
Proof.
  unfold data_ranges, Range.empty. cbn [fmap list_fmap]. rewrite filter_cons.
  case_decide as Hd; case_if; congruence.
Qed.

Lemma data_ranges_bytes m l :
  Forall Fragment.wf l -> data_ranges l ≫= Range.bytes m = cat m l.
Proof.
  induction 1 as [|f l Hf Hl IH]; [done|]. rewrite data_ranges_cons, cat_cons. unfold Range.empty. case_if.
  - rewrite IH. unfold Fragment.bytes. rewrite load_nonpos; [done|]. unfold Fragment.data_range, Fragment.size in *.
    simpl in *. lia.
  - by rewrite bind_cons, IH.
Qed.

Lemma fill_ok l i max :
  0 <= i < max -> max <= IovecAdapter.IOV_MAX -> IovecAdapter.fill l i max = ztake (max - i) (data_ranges l).
Proof.
  unfold IovecAdapter.IOV_MAX. revert i. induction l as [|f l IH]; intros i Hi Hm; cbn [IovecAdapter.fill].
  { change (data_ranges []) with (@nil byte_range). unfold ztake. by rewrite take_nil. }
  rewrite data_ranges_cons. case_if; [by apply IH|]. rewrite u16_id by (cbn; lia).
  assert (forall k, k = max - i -> ztake k (Fragment.data_range f :: data_ranges l)
    = Fragment.data_range f :: ztake (max - (i + 1)) (data_ranges l)) as Hk.
  { intros k Hk. unfold ztake. replace (Z.to_nat k) with (S (Z.to_nat (max - (i + 1)))) by lia. done. }
  rewrite Hk by done. case_if.
  - rewrite ztake_neg by lia. done.
  - by rewrite IH by lia.
Qed.

Lemma fill_readable_ok b max :
  Buffer.wf b -> 0 <= max <= IovecAdapter.IOV_MAX ->
  IovecAdapter.fill_readable_iovec b max = Ret (ztake max (data_ranges (bf_frags b))).
Proof.
  intros [Hf Hs Hsm] Hmax. unfold IovecAdapter.fill_readable_iovec, Buffer.size. rewrite (proj2 (Z.leb_le _ _)) by lia. cbn [assertO].
  destruct (Buffer.empty b || (0 =? bf_size b) || (0 =? max)) eqn:E0.
  - destruct (decide (max = 0)) as [->|Hne]; [by rewrite ztake_0|].
    assert (cat ∅ (bf_frags b) = []) as Hnil.
    { apply zlen_zero. rewrite zlen_cat, <- Hs by done. unfold Buffer.empty in E0.
      destruct (bf_frags b) eqn:Ef; [by rewrite Hs|]. cbn [orb] in E0.
      apply orb_true_iff in E0 as [E0|E0]; zbool; lia. }
    rewrite <- data_ranges_bytes in Hnil by done.
    replace (data_ranges (bf_frags b)) with (@nil byte_range); [unfold ztake; by rewrite take_nil|].
    destruct (data_ranges (bf_frags b)) as [|r rs] eqn:Er; [done|]. exfalso.
    rewrite bind_cons in Hnil. apply app_eq_nil in Hnil as [Hnil _].
    assert (r ∈ data_ranges (bf_frags b)) as Hin by (rewrite Er; left).
    apply list_elem_of_filter in Hin as [Hne' Hin]. apply list_elem_of_fmap in Hin as (f & -> & Hfin).
    rewrite Forall_forall in Hf. apply list_elem_of_In in Hfin.
    pose proof (fr_size_range f (Hf f Hfin)). unfold Fragment.data_range, Fragment.size in *. simpl in Hne'.
    apply (f_equal zlen) in Hnil. unfold Range.bytes in Hnil. simpl in Hnil. rewrite zlen_load in Hnil by lia.
    rewrite zlen_nil in Hnil. lia.
  - zbool. rewrite fill_ok by lia. by rewrite Z.sub_0_r.
Qed.

(** The described bytes: a prefix of the buffer, all of it when they fit. *)
Lemma data_ranges_prefix m b max :
  Buffer.wf b ->
  (ztake max (data_ranges (bf_frags b)) ≫= Range.bytes m) `prefix_of` Buffer.bytes m b /\
  (zlen (data_ranges (bf_frags b)) <= max -> (ztake max (data_ranges (bf_frags b)) ≫= Range.bytes m) = Buffer.bytes m b).
Proof.
  intros [Hf _ _]. rewrite buffer_bytes_cat, <- data_ranges_bytes by done. split.
  - rewrite <- (ztake_zdrop max (data_ranges (bf_frags b))) at 2. rewrite bind_app. by eexists.
  - intros Hall. by rewrite ztake_ge.
Qed.
End iovecs.

(** ** Properties *)

(** A buffer from [basic_buffer_allocator] over [malloc] (through
    [simple_fragment_allocator]) is empty and well formed, has exactly the
    headroom asked for and at least the room for [sz] bytes and the tailroom
    behind it, and owns an allocation nothing else owns. *)
Theorem basic_buffer_over_malloc {CH : Type} `{c_heap_spec CH} (c : CH) (m : mem) (h : gheap)
    (live : list guard) (sz hr tr : Z) :
  ch_inv c h live -> guards_ok h live -> 0 <= sz -> 0 <= hr -> 0 <= tr -> 0 < sz + hr + tr < 2 ^ 48 ->
  exists c' h' b, basic_allocate (H := simple_fragment_allocator) c m h sz hr tr = Ret (c', m, h', b) /\
    Buffer.wf b /\ Buffer.size b = 0 /\ Buffer.headroom b = hr /\ sz + tr <= Buffer.tailroom b /\
    guards_ok h' (Buffer.guards b ++ live).
Proof.
  intros Hinv Hok H1 H2 H3 H4.
  destruct (ba_allocate_ok (buffer_allocator_spec := basic_allocator_spec (H0 := simple_allocator_spec))
    c m h live sz hr tr Hinv Hok H1 H2 H3 H4) as (c' & h' & b & E & Hw & _ & ? & ? & ? & ? & _).
  exists c', h', b. by split.
Qed.

(** The arena allocator copies the arena before it cuts it: the fragment
    it hands out spans the whole remaining arena, the arena it keeps lies
    inside that fragment's tailroom, and so does every later fragment cut from
    it. *)
Theorem arena_fragments_overlap {CH : Type} `{c_heap CH} (c : CH) (a : arena) (h : gheap) (sz : Z)
    (live : list guard) :
  Blob.wf (ar_arena a) -> guards_ok h (bb_guard (ar_arena a) :: live) -> refs_under 2 h ->
  0 < sz -> 0 <= ar_low_watermark a -> sz + ar_low_watermark a < bb_size (ar_arena a) ->
  exists h' f a', arena_allocate (c, a) h sz = Ret ((c, a'), h', f) /\
    Fragment.tail f = bb_bytes (ar_arena a) /\ Fragment.tailroom f = bb_size (ar_arena a) /\
    bb_bytes (ar_arena a') = bb_bytes (ar_arena a) + sz /\
    bb_size (ar_arena a') = bb_size (ar_arena a) - sz /\
    Blob.within (ar_arena a') (fr_bytes f).
Proof.
  intros Hb Hok Hu Hsz Hw Hfit. destruct Hb as [Hb1 Hb2]. unfold arena_allocate.
  unfold Blob.empty, Blob.size. rewrite (proj2 (Z.eqb_neq _ _)) by lia.
  rewrite u64_id by (unfold_pow2; lia). rewrite (proj2 (Z.leb_gt _ _)) by lia.
  destruct (share_ok h (bb_guard (ar_arena a)) live Hok) as (h1 & g1 & n & E1 & Hok1 & _).
  { apply (refs_under_room 2); [lia|done]. }
  unfold Blob.copy. rewrite E1. cbn [bindO].
  assert (refs_under 1 h1) as Hu1 by (by apply (share_refs_under 1 _ _ _ _ _ _ Hok) in E1).
  destruct (blob_split_inner h1 (mk_blob (bb_bytes (ar_arena a)) (bb_size (ar_arena a)) g1) sz (n :: live))
    as (h2 & b' & tl & E2 & _ & Et & Hok2 & _); [by split|done|by apply (refs_under_room 1)|simpl; lia|].
  rewrite E2. cbn [bindO]. unfold Blob.move_assign, Guard.assign. cbn [bb_guard] in *.
  destruct (release_ok _ _ _ Hok2) as (h3 & E3 & _). rewrite E3. cbn [bindO].
  unfold Fragment.make. rewrite fr_release_nonempty by (simpl; lia). cbn [bindO].
  do 3 eexists. split; [done|]. unfold Fragment.tail, Fragment.tailroom, Blob.within, Blob.end_, Fragment.tail. simpl.
  rewrite Et. simpl.
  rewrite !u64_id by (unfold_pow2; lia). lia.
Qed.

(** [fill_readable_iovec(b, iov, max)] describes the non-empty fragments
    from the front, at most [max] of them; when they all fit, the described
    bytes are the bytes of the buffer. *)
Theorem iovec_describes_buffer (m : mem) (b : buffer) (max : Z) :
  Buffer.wf b -> 0 <= max <= IovecAdapter.IOV_MAX ->
  exists iov, IovecAdapter.fill_readable_iovec b max = Ret iov /\
    iov = ztake max (data_ranges (bf_frags b)) /\
    (iov ≫= Range.bytes m) `prefix_of` Buffer.bytes m b /\
    (zlen (data_ranges (bf_frags b)) <= max -> (iov ≫= Range.bytes m) = Buffer.bytes m b).
Proof.
  intros Hwf Hmax. exists (ztake max (data_ranges (bf_frags b))). split; [by apply fill_readable_ok|]. split; [done|].
  by apply data_ranges_prefix.
Qed.

(** ** The properties at concrete inputs *)

(** A heap that never reuses addresses. *)
#[export] Instance bump_heap : c_heap Z := {|
  malloc c n := (c + Z.max n 1, c);
  malloc_usable_size c p := c - p
|}.

#[export] Program Instance bump_heap_spec : c_heap_spec Z := {|
  ch_inv c h live := 0 < c /\ Forall (fun p => p < c) (pending h live ++ frees h)
|}.
Next Obligation.
  intros c h live n [Hc Hb] Hn. exists (c + Z.max n 1), c. cbn [malloc malloc_usable_size bump_heap].
  split; [done|]. split; [done|]. split.
  - intros Hin. rewrite Forall_forall in Hb. specialize (Hb c). rewrite list_elem_of_In in Hin.
    specialize (Hb Hin). lia.
  - split; [lia|]. split; [lia|]. rewrite pending_cons. simpl. constructor; [lia|].
    rewrite Forall_forall in *. intros p Hp. specialize (Hb p Hp). lia.
Qed.

Lemma basic_buffer_over_malloc_witness :
  exists c' h' b, basic_allocate (H := simple_fragment_allocator) 1000 ∅ (mk_gheap ∅ 1 []) 16 4 2 = Ret (c', ∅, h', b) /\
    Buffer.headroom b = 4 /\ 18 <= Buffer.tailroom b.
Proof.
  destruct (basic_buffer_over_malloc 1000 ∅ (mk_gheap ∅ 1 []) [] 16 4 2) as (c' & h' & b & E & _ & _ & H1 & H2 & _).
  - split; [lia|]. vm_compute. constructor.
  - apply guards_ok_start.
  - lia.
  - lia.
  - lia.
  - lia.
  - exists c', h', b. split; [exact E|]. split; [exact H1|lia].
Defined.

Definition ex_arena : arena := mk_arena (mk_blob 100 64 (GSimple 100)) 64 1.

Lemma arena_fragments_overlap_witness :
  exists h' f a', arena_allocate (1000, ex_arena) (mk_gheap ∅ 1 []) 16 = Ret ((1000, a'), h', f) /\
    Fragment.tailroom f = 64 /\ bb_bytes (ar_arena a') = 116.
Proof.
  destruct (arena_fragments_overlap 1000 ex_arena (mk_gheap ∅ 1 []) 16 []) as (h' & f & a' & E & _ & H1 & H2 & _).
  - split; simpl; lia.
  - change (guards_ok (mk_gheap ∅ 1 []) [Guard.make_simple_guard 100]).
    apply make_simple_guard_ok; [apply guards_ok_start|]. vm_compute. intros Hi. inversion Hi.
  - intros i im Hi. vm_compute in Hi. discriminate.
  - lia.
  - simpl. lia.
  - simpl. lia.
  - exists h', f, a'. split; [exact E|]. by split.
Defined.

Lemma iovec_describes_buffer_witness :
  exists iov, IovecAdapter.fill_readable_iovec ex_buffer 8 = Ret iov /\
    (iov ≫= Range.bytes ex_buffer_mem) = [1; 2; 3; 4; 5; 6; 7].
Proof.
  destruct (iovec_describes_buffer ex_buffer_mem ex_buffer 8) as (iov & E & _ & _ & H).
  - apply ex_buffer_wf.
  - vm_compute. by split.
  - exists iov. split; [exact E|]. rewrite H; vm_compute; [reflexivity|discriminate].
Defined.
