(* ===== verification/FragString.v ===== *)
(** * FragString: [class fragment_string] (xi/io/fragment_string.h,
      src/io/fragment_string.cpp)

    A string made of fragments, its comparison with flat strings and with
    other fragment strings.  [memcmp] returns the difference of the first
    differing bytes; the C standard fixes only its sign. *)
From S2P Require Import Prelude Bytes Guard Blob Fragment Buffer.

Record fragment_string := mk_fs { fs_frags : list fragment; fs_size : Z }.

(** [memcmp(a, b, n)] on the bytes behind the pointers. *)
Fixpoint memcmp (a b : list Z) : Z :=
  match a, b with
  | x :: a, y :: b => if x =? y then memcmp a b else x - y
  | _, _ => 0
  end.

Module FragString.
(** [fragment_string(own< fragment > b)]: the null test comes after the first
    use of [b]. *)
Definition of_fragment (h : gheap) (b : option fragment) : outcome (gheap * fragment_string) :=
  do f <- derefO b;;
  if (Fragment.size f =? 0) && (Fragment.headroom f =? 0) && (Fragment.tailroom f =? 0) then
    do h <- Fragment.destroy h f;; Ret (h, mk_fs [] 0)
  else Ret (h, mk_fs [f] (Fragment.size f)).

Definition of_list (fragments : list fragment) (sz : Z) : fragment_string := mk_fs fragments sz.

Definition destroy (h : gheap) (s : fragment_string) : outcome gheap := Buffer.dispose h (fs_frags s).

Definition empty (s : fragment_string) : bool := match fs_frags s with [] => true | _ => false end.
Definition length (s : fragment_string) : Z := zlen (fs_frags s).
Definition size (s : fragment_string) : Z := fs_size s.

(** [return make_signed_t< usize >(x)] as an [i32]. *)
Definition ret_i32 (x : Z) : Z := i32 (u64 x).

Fixpoint compare_string_loop (m : mem) (l : list fragment) (s : list Z) (offset size : Z) : Z :=
  match l with
  | [] => ret_i32 (size - zlen s)
  | frag :: l =>
      if Fragment.size frag =? 0 then compare_string_loop m l s offset size
      else
        let cap := Z.min (Fragment.size frag) (u64 (zlen s - offset)) in
        let ret := memcmp (load m (Fragment.data frag) cap) (ztake cap (zdrop offset s)) in
        if negb (ret =? 0) then ret
        else
          let offset := u64 (offset + cap) in
          if offset =? zlen s then ret_i32 (size - offset)
          else compare_string_loop m l s offset size
  end.

(** [compare(string_ref)]. *)
Definition compare_string (m : mem) (self : fragment_string) (s : list Z) : Z :=
  if zlen s =? 0 then ret_i32 (fs_size self)
  else compare_string_loop m (fs_frags self) s 0 (fs_size self).

Fixpoint compare_loop (m : mem) (mine other : list fragment) : option Z :=
  match mine, other with
  | it_my :: mine, it_other :: other =>
      let cap := Z.min (Fragment.size it_my) (Fragment.size it_other) in
      let ret := memcmp (load m (Fragment.data it_my) cap) (load m (Fragment.data it_other) cap) in
      if negb (ret =? 0) then Some ret
      else if negb (Fragment.size it_my =? Fragment.size it_other) then None
      else compare_loop m mine other
  | _, _ => None
  end.

(** [compare(ref< fragment_string >)]. *)
Definition compare (m : mem) (self s : fragment_string) : Z :=
  if fs_size s =? 0 then ret_i32 (fs_size self)
  else
    match compare_loop m (fs_frags self) (fs_frags s) with
    | Some ret => ret
    | None => ret_i32 (fs_size self - fs_size s)
    end.

Fixpoint copy_loop (m : mem) (l : list fragment) (sz : Z) : list Z :=
  match l with
  | [] => []
  | frag :: l =>
      if 0 =? sz then []
      else
        let cap := Z.min (Fragment.size frag) sz in
        load m (Fragment.data frag) cap ++ copy_loop m l (u64 (sz - cap))
  end.

Definition copy_to_string (m : mem) (self : fragment_string) (sz : Z) : list Z :=
  copy_loop m (fs_frags self) sz.

(** [for_each_byte(f)]: [f] threads a state. *)
Definition for_each_byte {S : Type} (m : mem) (self : fragment_string) (f : S -> Z -> S) (s : S) : S :=
  fold_left (fun s frag => fold_left f (Range.bytes m (Fragment.data_range frag)) s) (fs_frags self) s.

Definition op_lt (m : mem) (l r : fragment_string) : bool := compare m l r <? 0.
(** [operator>] has the body of [operator<]. *)
Definition op_gt (m : mem) (l r : fragment_string) : bool := compare m l r <? 0.
Definition op_eq (m : mem) (l r : fragment_string) : bool := compare m l r =? 0.
Definition op_eq_string (m : mem) (l : fragment_string) (r : list Z) : bool := compare_string m l r =? 0.
Definition op_string_eq (m : mem) (l : list Z) (r : fragment_string) : bool := op_eq_string m r l.

Definition bytes (m : mem) (s : fragment_string) : list Z := cat m (fs_frags s).

(** Well formed, and short enough for the [i32] results. *)
Record wf (s : fragment_string) : Prop := {
  wf_frags : Forall Fragment.wf (fs_frags s);
  wf_fsize : fs_size s = zsum fr_size (fs_frags s);
  wf_short : fs_size s < 2 ^ 31
}.
End FragString.

(** ** The order on byte strings *)

(** Lexicographic comparison: -1, 0 or 1. *)
Fixpoint lex (a b : list Z) : Z :=
  match a, b with
  | [], [] => 0
  | [], _ => -1
  | _, [] => 1
  | x :: a, y :: b => if x =? y then lex a b else Z.sgn (x - y)
  end.

Section compare_lemmas.
Implicit Types (m : mem) (l : list fragment) (s a b : list Z).

Lemma ret_i32_sgn x : - 2 ^ 31 < x < 2 ^ 31 -> FragString.ret_i32 x = x.
Proof.
  intros H. unfold FragString.ret_i32, i32, u64, u32, wrap. unfold_pow2.
  rewrite Z.mod_mod_divide by (exists 4294967296; reflexivity).
  destruct (Z.le_gt_cases 0 x).
  - rewrite Z.mod_small by lia. by rewrite (proj2 (Z.ltb_lt _ _)) by lia.
  - replace (x mod 4294967296) with (x + 4294967296) by (apply (Z.mod_unique _ _ (-1)); lia).
    rewrite (proj2 (Z.ltb_ge _ _)) by lia. lia.
Qed.

Lemma lex_nil_r a : lex a [] = Z.sgn (zlen a).
Proof.
  destruct a; [done|]. rewrite zlen_cons. pose proof (zlen_nonneg a). simpl.
  rewrite Z.sgn_pos; lia.
Qed.

Lemma lex_nil_l b : lex [] b = - Z.sgn (zlen b).
Proof.
  destruct b; [done|]. rewrite zlen_cons. pose proof (zlen_nonneg b). simpl.
  rewrite Z.sgn_pos; lia.
Qed.

(** Equal-length runs decide, or drop out of, the comparison. *)
Lemma lex_run a b a' b' :
  zlen a = zlen b ->
  lex (a ++ a') (b ++ b') = if memcmp a b =? 0 then lex a' b' else Z.sgn (memcmp a b).
Proof.
  revert b. induction a as [|x a IH]; intros [|y b] Hl; rewrite ?zlen_cons, ?zlen_nil in Hl;
    try (pose proof (zlen_nonneg a)); try (pose proof (zlen_nonneg b)); try lia; [done|].
  cbn [app lex memcmp]. case_if; [apply IH; lia|]. by rewrite (proj2 (Z.eqb_neq _ _)) by lia.
Qed.

Lemma compare_string_loop_ok m l s offset size :
  Forall Fragment.wf l -> 0 <= offset < zlen s -> zlen s < 2 ^ 31 -> size < 2 ^ 31 ->
  size = offset + zsum fr_size l ->
  Z.sgn (FragString.compare_string_loop m l s offset size) = lex (cat m l) (zdrop offset s).
Proof.
  intros Hl. revert offset. induction Hl as [|f l Hf Hl IH]; intros offset Ho Hs Hsz Hsum;
    cbn [FragString.compare_string_loop zsum] in *.
  { rewrite ret_i32_sgn by lia. change (cat m []) with (@nil Z). rewrite lex_nil_l, zlen_drop by lia.
    rewrite Z.sgn_neg, Z.sgn_pos; lia. }
  pose proof (fr_size_range f Hf). pose proof (zsum_size_nonneg l Hl). unfold Fragment.size, Fragment.data.
  rewrite cat_cons. case_if.
  { rewrite IH by lia. f_equal. unfold Fragment.bytes. by rewrite load_nonpos by lia. }
  rewrite (u64_id (zlen s - offset)) by (unfold_pow2; lia).
  set (cap := Z.min (fr_size f) (zlen s - offset)). assert (0 < cap) as Hcap by (subst cap; lia).
  assert (zlen (ztake cap (zdrop offset s)) = cap) as Hzc by (rewrite zlen_take, zlen_drop by lia; subst cap; lia).
  assert (Hlex : lex (Fragment.bytes m f ++ cat m l) (zdrop offset s) =
    let r := memcmp (load m (fr_head f) cap) (ztake cap (zdrop offset s)) in
    if r =? 0 then lex (zdrop cap (Fragment.bytes m f) ++ cat m l) (zdrop (offset + cap) s) else Z.sgn r).
  { cbv zeta. rewrite <- (ztake_zdrop cap (Fragment.bytes m f)) at 1.
    rewrite <- (ztake_zdrop cap (zdrop offset s)) at 1.
    unfold Fragment.bytes. rewrite ztake_load by (subst cap; lia). rewrite <- app_assoc.
    rewrite lex_run by (rewrite zlen_load; lia). rewrite zdrop_zdrop by lia. by rewrite (Z.add_comm cap). }
  rewrite Hlex. cbv zeta. destruct (memcmp _ _ =? 0) eqn:Er; cbn [negb]; [|done].
  rewrite (u64_id (offset + cap)) by (unfold_pow2; subst cap; lia). case_if.
  - rewrite ret_i32_sgn by lia. rewrite (zdrop_ge (offset + cap)) by lia.
    rewrite lex_nil_r, zlen_app, zlen_cat, zlen_drop by (done || lia). rewrite (zlen_fr_bytes m f Hf). f_equal. subst cap. lia.
  - assert (cap = fr_size f) as Hcf by (subst cap; lia).
    rewrite IH by (subst cap; lia). rewrite (zdrop_ge cap) by (rewrite zlen_fr_bytes by done; lia). done.
Qed.

Lemma copy_loop_ok m l sz :
  Forall Fragment.wf l -> 0 <= sz < 2 ^ 64 -> FragString.copy_loop m l sz = ztake sz (cat m l).
Proof.
  intros Hl. revert sz. induction Hl as [|f l Hf Hl IH]; intros sz Hsz; cbn [FragString.copy_loop].
  { change (cat m []) with (@nil Z). unfold ztake. by rewrite take_nil. }
  pose proof (fr_size_range f Hf). unfold Fragment.size, Fragment.data. case_if; [subst; by rewrite ztake_0|].
  rewrite cat_cons. rewrite u64_id by (unfold_pow2; lia). rewrite IH by lia.
  rewrite <- (ztake_load _ _ (fr_size f)) by lia. change (load m (fr_head f) (fr_size f)) with (Fragment.bytes m f).
  pose proof (zlen_fr_bytes m f Hf). destruct (Z.le_gt_cases (fr_size f) sz).
  - rewrite Z.min_l, (ztake_ge (fr_size f)), ztake_app_ge by lia. do 2 f_equal. lia.
  - rewrite Z.min_r, Z.sub_diag, ztake_0, app_nil_r, ztake_app_le by lia. done.
Qed.

Lemma for_each_byte_ok {S : Type} m (self : fragment_string) (f : S -> Z -> S) (s : S) :
  FragString.for_each_byte m self f s = fold_left f (FragString.bytes m self) s.
Proof.
  unfold FragString.for_each_byte, FragString.bytes. revert s.
  induction (fs_frags self) as [|g l IH]; intros s; [done|]. rewrite cat_cons, fold_left_app. simpl.
  by rewrite IH.
Qed.
End compare_lemmas.

(** ** Properties *)

(** [fragment_string::compare(string_ref)] orders the bytes of the string
    lexicographically against [s], however the string is cut into fragments
    (empty ones included), for sizes below 2^31; so [operator==] with a
    [string_ref] holds exactly for equal bytes. *)
Theorem fragment_string_compare_lex (m : mem) (self : fragment_string) (s : list Z) :
  FragString.wf self -> zlen s < 2 ^ 31 ->
  Z.sgn (FragString.compare_string m self s) = lex (FragString.bytes m self) s.
Proof.
  intros [Hf Hs Hsm] Hz. unfold FragString.compare_string, FragString.bytes. pose proof (zlen_nonneg s).
  pose proof (zsum_size_nonneg _ Hf). case_if.
  - apply zlen_zero in E as ->. rewrite ret_i32_sgn by lia. by rewrite lex_nil_r, zlen_cat, Hs.
  - rewrite (compare_string_loop_ok m (fs_frags self) s 0) by (done || lia). by rewrite zdrop_0.
Qed.

(** [copy_to_string(sz)] is the first [sz] bytes and [for_each_byte]
    visits all bytes front to back, each once. *)
Theorem fragment_string_contents {S : Type} (m : mem) (self : fragment_string) (sz : Z) (f : S -> Z -> S) (s : S) :
  FragString.wf self -> 0 <= sz < 2 ^ 64 ->
  FragString.copy_to_string m self sz = ztake sz (FragString.bytes m self) /\
  FragString.for_each_byte m self f s = fold_left f (FragString.bytes m self) s.
Proof. intros [Hf _ _] Hz. split; [by apply copy_loop_ok|apply for_each_byte_ok]. Qed.

(** Comparing two fragment strings stops at the first pair of fragments
    whose sizes differ: whatever bytes follow, strings of equal size are then
    reported equal.  The fragmentation decides, not the contents. *)
Theorem fragment_string_compare_stops (m : mem) (f g : fragment) (fs gs : list fragment) (sz : Z) :
  Fragment.size f <> Fragment.size g -> 0 < sz < 2 ^ 31 ->
  load m (Fragment.data f) (Z.min (Fragment.size f) (Fragment.size g)) =
    load m (Fragment.data g) (Z.min (Fragment.size f) (Fragment.size g)) ->
  FragString.op_eq m (mk_fs (f :: fs) sz) (mk_fs (g :: gs) sz) = true.
Proof.
  intros Hne Hsz Heq. unfold FragString.op_eq, FragString.compare. cbn [fs_size fs_frags].
  rewrite (proj2 (Z.eqb_neq sz 0)) by lia. cbn [FragString.compare_loop]. rewrite Heq.
  assert (forall a, memcmp a a = 0) as Hrefl.
  { intros a. induction a as [|x a IH]; [done|]. simpl. by rewrite Z.eqb_refl. }
  rewrite Hrefl. cbn [Z.eqb negb]. rewrite (proj2 (Z.eqb_neq (Fragment.size f) _)) by done. cbn [negb].
  by rewrite Z.sub_diag.
Qed.

(** ** The properties at concrete inputs *)

Definition ex_fs : fragment_string := mk_fs (bf_frags ex_buffer) 7.

Lemma ex_fs_wf : FragString.wf ex_fs.
Proof. split; [apply ex_buffer_wf|reflexivity|reflexivity]. Qed.

Lemma fragment_string_compare_lex_witness :
  Z.sgn (FragString.compare_string ex_buffer_mem ex_fs [1; 2; 3; 4; 9]) = -1 /\
  Z.sgn (FragString.compare_string ex_buffer_mem ex_fs [1; 2; 3; 4; 5; 6]) = 1.
Proof.
  split; rewrite fragment_string_compare_lex; first [apply ex_fs_wf | vm_compute; reflexivity].
Defined.

Lemma fragment_string_contents_witness :
  FragString.copy_to_string ex_buffer_mem ex_fs 5 = [1; 2; 3; 4; 5] /\
  FragString.for_each_byte ex_buffer_mem ex_fs (fun n b => n * 10 + b) 0 = 1234567.
Proof.
  destruct (fragment_string_contents ex_buffer_mem ex_fs 5 (fun n b => n * 10 + b) 0) as [H1 H2].
  - apply ex_fs_wf.
  - unfold_pow2. lia.
  - rewrite H1, H2. split; vm_compute; reflexivity.
Defined.

Lemma fragment_string_compare_stops_witness :
  let f := mk_fragment (mk_blob 100 8 GNull) 100 2 in
  let g := mk_fragment (mk_blob 200 8 GNull) 200 1 in
  let m := store (store ∅ 100 [1; 2]) 200 [1] in
  FragString.op_eq m (mk_fs [f; mk_fragment (mk_blob 300 4 GNull) 300 1] 3)
                     (mk_fs [g; mk_fragment (mk_blob 400 4 GNull) 400 2] 3) = true.
Proof.
  apply fragment_string_compare_stops; vm_compute; [discriminate|split; reflexivity|reflexivity].
Defined.
