(* ===== verification/Reader.v ===== *)
(** * Reader: [class buffer::reader] (xi/io/buffer_reader.h)

    A reader is a buffer and a mark, an offset into it.  A [T &value] is the
    run of [sizeof(T)] bytes at the object's address; the overloads that return
    [opt< T >] read into a local object, whose address is an argument here. *)
From S2P Require Import Prelude Bytes Guard Blob Fragment Buffer FragString.

Record reader := mk_reader { rd_buffer : buffer; rd_mark : Z }.

Module Reader.
Definition make_reader (b : buffer) : reader := mk_reader b 0.

Definition set_mark (rd : reader) (mark : Z) : reader := mk_reader (rd_buffer rd) mark.

(** [read_value(T &value)]: [value] is the object's range. *)
Definition read_value (m : mem) (rd : reader) (value : byte_range) : outcome (mem * bool) :=
  let b := rd_buffer rd in
  if (rd_mark rd <? Buffer.size b) && (r_size value <=? u64 (Buffer.size b - rd_mark rd)) then
    do '(m, _) <- Buffer.read m b value (rd_mark rd);; Ret (m, true)
  else Ret (m, false).

(** [opt< T > read_value()]. *)
Definition read_value_opt (m : mem) (rd : reader) (local : byte_range) : outcome (mem * option (list Z)) :=
  do '(m, ok) <- read_value m rd local;;
  Ret (m, if (ok : bool) then Some (Range.bytes m local) else None).

Definition read_value_and_mark_opt (m : mem) (rd : reader) (local : byte_range)
    : outcome (mem * reader * option (list Z)) :=
  do '(m, v) <- read_value_opt m rd local;;
  match v with
  | Some v => Ret (m, set_mark rd (u64 (rd_mark rd + r_size local)), Some v)
  | None => Ret (m, rd, None)
  end.

Definition read_value_and_mark (m : mem) (rd : reader) (value : byte_range) : outcome (mem * reader * bool) :=
  do '(m, ret) <- read_value m rd value;;
  Ret (m, if (ret : bool) then set_mark rd (u64 (rd_mark rd + r_size value)) else rd, ret).

(** [skip_bytes(sz)] has [free = true] by default. *)
Definition skip_and_reset (h : gheap) (rd : reader) (n : Z) : outcome (gheap * reader) :=
  do '(h, b) <- Buffer.skip_bytes h (rd_buffer rd) n true;; Ret (h, mk_reader b 0).

Definition read_value_and_skip_opt (m : mem) (h : gheap) (rd : reader) (local : byte_range)
    : outcome (mem * gheap * reader * option (list Z)) :=
  do '(m, v) <- read_value_opt m rd local;;
  match v with
  | Some v => do '(h, rd) <- skip_and_reset h rd (u64 (rd_mark rd + r_size local));; Ret (m, h, rd, Some v)
  | None => Ret (m, h, rd, None)
  end.

Definition read_value_and_skip (m : mem) (h : gheap) (rd : reader) (value : byte_range)
    : outcome (mem * gheap * reader * bool) :=
  do '(m, ret) <- read_value m rd value;;
  if (ret : bool) then
    do '(h, rd) <- skip_and_reset h rd (u64 (rd_mark rd + r_size value));; Ret (m, h, rd, true)
  else Ret (m, h, rd, false).

Definition total_size (rd : reader) : Z := Buffer.size (rd_buffer rd).
Definition unmarked_size (rd : reader) : Z := u64 (Buffer.size (rd_buffer rd) - rd_mark rd).
Definition marked_size (rd : reader) : Z := rd_mark rd.

(** [while (it != end && it->size() == 0) ++it;] *)
Fixpoint skip_empty (its : list fragment) : list fragment :=
  match its with
  | [] => []
  | it :: rest => if Fragment.size it =? 0 then skip_empty rest else its
  end.

Definition next_data_range (rd : reader) : outcome byte_range :=
  if unmarked_size rd =? 0 then Ret Range.null
  else
    let '(_, its, offset) := skip_offset (bf_frags (rd_buffer rd)) (rd_mark rd) in
    match skip_empty its with
    | [] => Ret Range.null
    | it :: _ => Range.subrange (Fragment.data_range it) offset usize_max
    end.

Definition mark_offset (rd : reader) (offset : Z) : outcome (reader * Z) :=
  assertO (signed_nonneg (rd_mark rd + offset))
    (let cap := Z.min offset (unmarked_size rd) in
     Ret (set_mark rd (u64 (rd_mark rd + cap)), cap)).

Definition discard_to_mark (h : gheap) (rd : reader) : outcome (gheap * reader) :=
  skip_and_reset h rd (rd_mark rd).

Definition consume_mark_into_buffer (h : gheap) (rd : reader) : outcome (gheap * reader * option buffer) :=
  do '(h, b, q) <- Buffer.split h (rd_buffer rd) (rd_mark rd);; Ret (h, mk_reader b 0, q).

(** [buf->_fragments] of a null [buf] is undefined. *)
Definition consume_mark_into_string (h : gheap) (rd : reader) : outcome (gheap * reader * fragment_string) :=
  do '(h, b, q) <- Buffer.split h (rd_buffer rd) (rd_mark rd);;
  do buf <- derefO q;;
  Ret (h, mk_reader b 0, FragString.of_list (bf_frags buf) (bf_size buf)).

(** [memchr(pattern, ch, len)] as a condition. *)
Definition memchr (pattern : list Z) (ch : Z) : bool := existsb (fun c => c =? ch) pattern.

(** The scan of one fragment: how many bytes pass, and whether it stopped. *)
Fixpoint scan (stop : Z -> bool) (bs : list Z) : Z * bool :=
  match bs with
  | [] => (0, false)
  | ch :: bs => if stop ch then (0, true) else let '(n, d) := scan stop bs in (n + 1, d)
  end.

Fixpoint scan_frags (m : mem) (stop : Z -> bool) (its : list fragment) (offset : Z) : Z :=
  match its with
  | [] => 0
  | it :: its =>
      let '(n, done) := scan stop (load m (fr_head it + offset) (Fragment.size it - offset)) in
      if (done : bool) then n else n + scan_frags m stop its 0
  end.

(** [skip_any_of_and_mark(pattern, len, predicate)]. *)
Definition skip_any (m : mem) (rd : reader) (pattern : list Z) (predicate : bool -> bool) : reader * Z :=
  let '(_, its, offset) := skip_offset (bf_frags (rd_buffer rd)) (rd_mark rd) in
  let ret := u64 (scan_frags m (fun ch => predicate (memchr pattern ch)) its offset) in
  (set_mark rd (u64 (rd_mark rd + ret)), ret).

Definition skip_any_not_of_and_mark (m : mem) (rd : reader) (pattern : list Z) : reader * Z :=
  if zlen pattern =? 0 then (set_mark rd (Buffer.size (rd_buffer rd)), Buffer.size (rd_buffer rd))
  else skip_any m rd pattern (fun b => b).

Definition skip_any_of_and_mark (m : mem) (rd : reader) (pattern : list Z) : reader * Z :=
  if zlen pattern =? 0 then (rd, 0) else skip_any m rd pattern negb.

(** The position of a byte in a run. *)
Fixpoint find (target : Z) (bs : list Z) : option Z :=
  match bs with
  | [] => None
  | ch :: bs => if ch =? target then Some 0 else (fun n => n + 1) <$> find target bs
  end.

(** The [do .. while] loop of [find_byte]. *)
Fixpoint find_loop (m : mem) (target : Z) (its : list fragment) (offset size : Z) : option Z :=
  match its with
  | [] => None
  | it :: its =>
      match find target (load m (Fragment.data it + offset) (u64 (Fragment.size it - offset))) with
      | Some i => Some (u64 (size + i))
      | None => find_loop m target its 0 (u64 (size + u64 (Fragment.size it - offset)))
      end
  end.

Definition find_byte (m : mem) (rd : reader) (target offset : Z) : outcome (option Z) :=
  if Buffer.size (rd_buffer rd) <=? offset then Ret None
  else
    let '(_, its, offset) := skip_offset (bf_frags (rd_buffer rd)) offset in
    match its with
    | [] => Undef
    | _ => Ret (find_loop m target its offset 0)
    end.

(** The bytes behind the mark. *)
Definition ahead (m : mem) (rd : reader) : list Z := zdrop (rd_mark rd) (Buffer.bytes m (rd_buffer rd)).

Record wf (rd : reader) : Prop := {
  wf_buffer : Buffer.wf (rd_buffer rd);
  wf_mark : 0 <= rd_mark rd <= bf_size (rd_buffer rd)
}.
End Reader.

(** ** Scanning across fragments is scanning the bytes *)
Section reader_lemmas.
Implicit Types (m : mem) (its : list fragment) (rd : reader) (bs : list Z) (stop : Z -> bool).

Lemma scan_app stop bs cs :
  Reader.scan stop (bs ++ cs) =
    let '(n, d) := Reader.scan stop bs in
    if (d : bool) then (n, true) else let '(k, e) := Reader.scan stop cs in (n + k, e).
Proof.
  induction bs as [|b bs IH]; cbn [app Reader.scan]; [by destruct (Reader.scan stop cs)|].
  destruct (stop b); [done|]. rewrite IH. destruct (Reader.scan stop bs) as [n [|]]; [done|].
  destruct (Reader.scan stop cs) as [k e]. f_equal. lia.
Qed.

(** The scan stops at the first byte that [stop] accepts. *)
Lemma scan_spec stop bs :
  let n := fst (Reader.scan stop bs) in
  0 <= n <= zlen bs /\ Forall (fun b => stop b = false) (ztake n bs) /\
  (forall b, znth bs n = Some b -> stop b = true).
Proof.
  induction bs as [|b bs IH]; cbn [Reader.scan].
  { cbn [fst]. split; [unfold zlen; simpl; lia|]. split; [apply Forall_nil_2|done]. }
  rewrite zlen_cons. pose proof (zlen_nonneg bs).
  destruct (stop b) eqn:Es; cbn [fst].
  { split; [lia|]. split; [apply Forall_nil_2|]. by intros ? [= <-]. }
  destruct (Reader.scan stop bs) as [n d]. cbn [fst] in *. destruct IH as (Hn & Hf & Hl).
  split; [lia|]. rewrite ztake_cons, znth_cons by lia. split; [by constructor|exact Hl].
Qed.

Lemma scan_frags_ok m stop its offset :
  Forall Fragment.wf its -> match its with [] => offset = 0 | f :: _ => 0 <= offset <= fr_size f end ->
  Reader.scan_frags m stop its offset = fst (Reader.scan stop (zdrop offset (cat m its))).
Proof.
  intros Hl. revert offset. induction Hl as [|f l Hf Hl IH]; intros offset Ho; cbn [Reader.scan_frags].
  { by subst. }
  pose proof (fr_size_range f Hf). unfold Fragment.size.
  rewrite cat_cons, zdrop_app_le, scan_app by (rewrite zlen_fr_bytes by done; lia).
  unfold Fragment.bytes at 1. rewrite zdrop_load by lia.
  destruct (Reader.scan stop (load m _ _)) as [n [|]]; [done|]. rewrite IH.
  - rewrite zdrop_0. by destruct (Reader.scan stop (cat m l)).
  - destruct Hl as [|g l Hg]; [done|]. apply fr_size_range in Hg. lia.
Qed.

Lemma find_app t bs cs :
  Reader.find t (bs ++ cs) =
    match Reader.find t bs with Some i => Some i | None => (fun n => zlen bs + n) <$> Reader.find t cs end.
Proof.
  induction bs as [|b bs IH]; cbn [app Reader.find].
  - destruct (Reader.find t cs); [|done]. simpl. f_equal.
  - case_if; [done|]. rewrite IH, zlen_cons. destruct (Reader.find t bs); [done|].
    destruct (Reader.find t cs); [|done]. simpl. f_equal. lia.
Qed.

Lemma find_range t bs i : Reader.find t bs = Some i -> 0 <= i < zlen bs.
Proof.
  revert i. induction bs as [|b bs IH]; intros i; cbn [Reader.find]; [done|].
  rewrite zlen_cons. pose proof (zlen_nonneg bs). case_if; [intros [= <-]; lia|].
  destruct (Reader.find t bs) as [j|]; [|done]. intros [= <-]. specialize (IH j eq_refl). lia.
Qed.

(** [find] is the first occurrence. *)
Lemma find_spec t bs :
  match Reader.find t bs with
  | Some i => znth bs i = Some t /\ t ∉ ztake i bs
  | None => t ∉ bs
  end.
Proof.
  induction bs as [|b bs IH]; cbn [Reader.find]; [by apply not_elem_of_nil|].
  case_if; [subst; split; [done|apply not_elem_of_nil]|].
  destruct (Reader.find t bs) as [i|] eqn:Ef; simpl.
  - pose proof (find_range _ _ _ Ef). destruct IH as [H1 H2]. rewrite ztake_cons, znth_cons by lia.
    split; [done|]. rewrite elem_of_cons. intuition.
  - rewrite elem_of_cons. intuition.
Qed.

Lemma find_loop_ok m t its offset size :
  Forall Fragment.wf its -> match its with [] => offset = 0 | f :: _ => 0 <= offset <= fr_size f end ->
  0 <= size -> size + zsum fr_size its < 2 ^ 63 ->
  Reader.find_loop m t its offset size = (fun i => size + i) <$> Reader.find t (zdrop offset (cat m its)).
Proof.
  intros Hl. revert offset size. induction Hl as [|f l Hf Hl IH]; intros offset size Ho Hs Hsum;
    cbn [Reader.find_loop zsum] in *; [by subst|].
  pose proof (fr_size_range f Hf). pose proof (zsum_size_nonneg l Hl). unfold Fragment.size, Fragment.data.
  rewrite (u64_id (fr_size f - offset)) by (unfold_pow2; lia).
  rewrite cat_cons, zdrop_app_le, find_app by (rewrite zlen_fr_bytes by done; lia).
  unfold Fragment.bytes at 1 2. rewrite !zdrop_load by lia.
  destruct (Reader.find t (load m (fr_head f + offset) (fr_size f - offset))) as [i|] eqn:Ef.
  - pose proof (find_range _ _ _ Ef) as Hi. rewrite zlen_load in Hi by lia. simpl.
    by rewrite u64_id by (unfold_pow2; lia).
  - rewrite u64_id by (unfold_pow2; lia). rewrite IH; [|destruct Hl as [|g l Hg]; [done|apply fr_size_range in Hg; lia]|lia|lia].
    rewrite zdrop_0, zlen_load by lia. destruct (Reader.find t (cat m l)); [|done]. simpl. f_equal. lia.
Qed.

Lemma read_value_ok m rd r :
  Reader.wf rd -> Range.wf r -> 0 < r_size r ->
  Forall (fun f => disjoint (r_data r) (r_size r) (fr_head f) (fr_size f)) (bf_frags (rd_buffer rd)) ->
  exists m', Reader.read_value m rd r = Ret (m', rd_mark rd + r_size r <=? bf_size (rd_buffer rd)) /\
    (rd_mark rd + r_size r <= bf_size (rd_buffer rd) ->
       Range.bytes m' r = ztake (r_size r) (Reader.ahead m rd)) /\
    (bf_size (rd_buffer rd) < rd_mark rd + r_size r -> m' = m) /\
    (forall a k, disjoint (r_data r) (r_size r) a k -> load m' a k = load m a k).
Proof.
  intros [Hb Hm] Hr Hpos Hd. pose proof (buffer_size_range _ Hb). unfold Reader.read_value, Buffer.size.
  rewrite u64_id by (unfold_pow2; lia).
  destruct ((rd_mark rd <? bf_size (rd_buffer rd)) && (r_size r <=? bf_size (rd_buffer rd) - rd_mark rd)) eqn:Ec.
  - zbool. destruct (buffer_read_ok m (rd_buffer rd) r (rd_mark rd) Hb Hr) as (m' & E & Hl & Hfr);
      [unfold_pow2; lia|done|].
    rewrite E. cbn [bindO]. exists m'. rewrite (proj2 (Z.leb_le _ _)) by lia. split; [done|].
    split; [|split; [lia|done]]. intros _. unfold Reader.ahead, Range.bytes. rewrite <- Hl. f_equal. lia.
  - exists m. apply andb_false_iff in Ec. rewrite Z.ltb_ge, Z.leb_gt in Ec.
    rewrite (proj2 (Z.leb_gt _ _)) by lia. split; [done|]. split; [lia|]. done.
Qed.
End reader_lemmas.

(** ** Properties *)

(** [read_value_and_mark] succeeds exactly when the bytes behind the mark
    suffice; it then stores the object's bytes, crossing fragments as needed,
    and moves the mark behind them, and otherwise changes neither the value nor
    the mark. *)
Theorem reader_reads_value (m : mem) (rd : reader) (r : byte_range) :
  Reader.wf rd -> Range.wf r -> 0 < r_size r ->
  Forall (fun f => disjoint (r_data r) (r_size r) (fr_head f) (fr_size f)) (bf_frags (rd_buffer rd)) ->
  let ok := rd_mark rd + r_size r <=? bf_size (rd_buffer rd) in
  exists m' rd', Reader.read_value_and_mark m rd r = Ret (m', rd', ok) /\ Reader.wf rd' /\
    rd_buffer rd' = rd_buffer rd /\
    (ok = true -> Range.bytes m' r = ztake (r_size r) (Reader.ahead m rd) /\
                  Reader.ahead m rd' = zdrop (r_size r) (Reader.ahead m rd)) /\
    (ok = false -> m' = m /\ rd' = rd) /\
    (forall a k, disjoint (r_data r) (r_size r) a k -> load m' a k = load m a k).
Proof.
  intros Hwf Hr Hpos Hd ok. destruct (read_value_ok m rd r Hwf Hr Hpos Hd) as (m' & E & H1 & H2 & Hfr).
  unfold Reader.read_value_and_mark. rewrite E. cbn [bindO]. fold ok.
  pose proof (wf_mark := Reader.wf_mark rd Hwf). pose proof (buffer_size_range _ (Reader.wf_buffer rd Hwf)).
  destruct ok eqn:Eok; subst ok; zbool.
  - rewrite u64_id by (unfold_pow2; lia). do 2 eexists. split; [done|].
    split; [split; [apply Hwf|simpl; lia]|]. split; [done|]. split; [|split; [done|done]].
    intros _. split; [auto|]. unfold Reader.ahead. simpl. rewrite zdrop_zdrop by lia. f_equal. lia.
  - do 2 eexists. split; [done|]. split; [done|]. split; [done|]. split; [done|]. split; [|done]. auto.
Qed.

(** [skip_any_of_and_mark(pattern)] and [skip_any_not_of_and_mark(pattern)]
    (non-empty patterns) pass exactly the longest run behind the mark of bytes
    in, respectively not in, the pattern, however it is fragmented; they return
    its length and move the mark by it. *)
Theorem reader_skips_run (m : mem) (rd : reader) (pattern : list Z) (any_of : bool) :
  Reader.wf rd -> pattern <> [] ->
  let '(rd', n) := (if any_of then Reader.skip_any_of_and_mark else Reader.skip_any_not_of_and_mark) m rd pattern in
  let inside b := Bool.eqb (Reader.memchr pattern b) any_of in
  Reader.wf rd' /\ rd_mark rd' = rd_mark rd + n /\
  0 <= n <= zlen (Reader.ahead m rd) /\
  Forall (fun b => inside b = true) (ztake n (Reader.ahead m rd)) /\
  (forall b, znth (Reader.ahead m rd) n = Some b -> inside b = false).
Proof.
  intros [Hb Hm] Hp. pose proof (buffer_size_range _ Hb) as Hbs. pose proof (zlen_buffer m _ Hb) as Hlen.
  assert (E : (if any_of then Reader.skip_any_of_and_mark else Reader.skip_any_not_of_and_mark) m rd pattern
    = Reader.skip_any m rd pattern (if any_of then negb else fun b => b)).
  { unfold Reader.skip_any_of_and_mark, Reader.skip_any_not_of_and_mark.
    assert (zlen pattern <> 0) as Hz by (intros Hz; by apply Hp, zlen_zero).
    destruct any_of; by rewrite (proj2 (Z.eqb_neq _ _)). }
  rewrite E. unfold Reader.skip_any. pose proof Hb as [Hf Hs Hsm].
  destruct (skip_offset_spec (bf_frags (rd_buffer rd)) (rd_mark rd) Hf) as (pre & suf & o & E1 & El & Eo & Ho & Hst);
    [unfold_pow2; lia|].
  rewrite E1. destruct (cut_bytes m _ _ _ _ (rd_mark rd) Hf El Eo ltac:(lia)) as [_ Hd].
  pose proof Hf as Hf'. rewrite El in Hf'. apply Forall_app in Hf' as [Hpre Hsuf].
  set (stop := fun ch => (if any_of then negb else fun b => b) (Reader.memchr pattern ch)).
  rewrite scan_frags_ok; [|done|].
  2:{ destruct suf as [|g l]; [|lia]. rewrite app_nil_r in El. subst pre. lia. }
  rewrite <- Hd. change (cat m (bf_frags (rd_buffer rd))) with (Buffer.bytes m (rd_buffer rd)).
  fold (Reader.ahead m rd). destruct (scan_spec stop (Reader.ahead m rd)) as (Hn & Hall & Hnext).
  assert (zlen (Reader.ahead m rd) = bf_size (rd_buffer rd) - rd_mark rd) as Hza
    by (unfold Reader.ahead; rewrite zlen_drop; lia).
  set (n := fst _) in *. rewrite !(u64_id n), u64_id by (unfold_pow2; lia). cbn [rd_mark Reader.set_mark].
  split; [split; [done|simpl; lia]|]. split; [done|]. split; [lia|]. split.
  - apply (list.Forall_impl _ _ _ Hall). intros b. unfold stop. by destruct any_of, (Reader.memchr pattern b).
  - intros b Hb'. specialize (Hnext b Hb'). unfold stop in Hnext. by destruct any_of, (Reader.memchr pattern b).
Qed.

(** [find_byte(target, offset)] returns the distance from [offset] to the
    first occurrence of [target] at or after [offset], in whatever fragment it
    is, and [none] if there is none; it never dereferences the end iterator. *)
Theorem reader_finds_byte (m : mem) (rd : reader) (target offset : Z) :
  Buffer.wf (rd_buffer rd) -> 0 <= offset < 2 ^ 64 ->
  exists r, Reader.find_byte m rd target offset = Ret r /\
    let rest := zdrop offset (Buffer.bytes m (rd_buffer rd)) in
    match r with
    | Some i => znth rest i = Some target /\ target ∉ ztake i rest
    | None => target ∉ rest
    end.
Proof.
  intros Hb Ho. pose proof (buffer_size_range _ Hb) as Hbs. pose proof (zlen_buffer m _ Hb) as Hlen.
  unfold Reader.find_byte, Buffer.size. case_if.
  { exists None. split; [done|]. cbv zeta. rewrite zdrop_ge by lia. apply not_elem_of_nil. }
  pose proof Hb as [Hf Hs Hsm].
  destruct (skip_offset_spec (bf_frags (rd_buffer rd)) offset Hf Ho) as (pre & suf & o & E1 & El & Eo & Hr & Hst).
  rewrite E1. destruct (cut_bytes m _ _ _ _ offset Hf El Eo ltac:(lia)) as [_ Hd].
  pose proof Hf as Hf'. rewrite El in Hf'. apply Forall_app in Hf' as [Hpre Hsuf].
  destruct suf as [|it rest]; [lia|]. eexists. split; [done|]. cbv zeta. rewrite buffer_bytes_cat, Hd.
  pose proof (zsum_size_nonneg _ Hpre). rewrite El, zsum_app in Hs.
  rewrite find_loop_ok by (done || lia). pose proof (find_spec target (zdrop o (cat m (it :: rest)))) as Hspec.
  by destruct (Reader.find target (zdrop o (cat m (it :: rest)))).
Qed.

(** ** The properties at concrete inputs *)

Definition ex_reader : reader := mk_reader ex_buffer 1.

Lemma ex_reader_wf : Reader.wf ex_reader.
Proof. split; [apply ex_buffer_wf|simpl; lia]. Qed.

Lemma reader_reads_value_witness :
  exists m' rd', Reader.read_value_and_mark ex_buffer_mem ex_reader (mk_range 2000 4) = Ret (m', rd', true) /\
    load m' 2000 4 = [2; 3; 4; 5] /\ Reader.ahead ex_buffer_mem rd' = [6; 7].
Proof.
  destruct (reader_reads_value ex_buffer_mem ex_reader (mk_range 2000 4)) as (m' & rd' & E & _ & _ & H & _).
  - apply ex_reader_wf.
  - split; simpl; lia.
  - simpl. lia.
  - repeat apply Forall_cons_2; [eval_disjoint..|apply Forall_nil_2].
  - exists m', rd'. split; [exact E|]. destruct H as [H1 H2]; [reflexivity|].
    split; [exact H1|]. rewrite H2. vm_compute. reflexivity.
Defined.

Lemma reader_skips_run_witness :
  snd (Reader.skip_any_of_and_mark ex_buffer_mem ex_reader [2; 3; 4]) = 3 /\
  0 <= snd (Reader.skip_any_of_and_mark ex_buffer_mem ex_reader [2; 3; 4]) <= 6.
Proof.
  pose proof (reader_skips_run ex_buffer_mem ex_reader [2; 3; 4] true ex_reader_wf ltac:(done)) as H.
  split; [vm_compute; reflexivity|]. cbn [negb] in H.
  destruct (Reader.skip_any_of_and_mark ex_buffer_mem ex_reader [2; 3; 4]) as [rd' n].
  destruct H as (_ & _ & H & _). exact H.
Defined.

Lemma reader_finds_byte_witness :
  exists r, Reader.find_byte ex_buffer_mem ex_reader 6 1 = Ret r /\ r = Some 4.
Proof.
  destruct (reader_finds_byte ex_buffer_mem ex_reader 6 1) as (r & E & _).
  - apply ex_buffer_wf.
  - unfold_pow2. lia.
  - exists r. split; [exact E|]. vm_compute in E. injection E as <-. reflexivity.
Defined.
