(* ===== verification/Input.v ===== *)
(** * Input: what a protocol decoder needs of a buffer

    The decoders consume their input through four calls: [in->size()],
    [make_reader(in).read_value_and_skip< T >()], [in->skip_bytes(n)], and
    nothing else.  [input] is that interface, [input_spec] what it promises in
    terms of the bytes not consumed yet; the implementation is [buffer] with
    [buffer::reader].  Byte lists are the reference implementation, on which
    the decoders can be run. *)
From S2P Require Import Prelude Bytes Guard Blob Fragment Buffer FragString Reader.

Class input (B : Type) := {
  in_size : B -> Z;
  (** a fresh reader, [read_value_and_skip< T >()] with [sizeof(T)] given *)
  in_read_and_skip : B -> Z -> outcome (B * option (list Z));
  in_skip_bytes : B -> Z -> outcome B
}.

Class input_spec (B : Type) `{input B} := {
  in_bytes : B -> list Z;
  in_wf : B -> Prop;
  in_size_ok (b : B) : in_wf b -> in_size b = zlen (in_bytes b) /\ zlen (in_bytes b) < 2 ^ 63;
  in_read_some (b : B) (n : Z) :
    in_wf b -> 0 < n <= 8 -> n <= zlen (in_bytes b) ->
    exists b', in_read_and_skip b n = Ret (b', Some (ztake n (in_bytes b))) /\ in_wf b' /\
      in_bytes b' = zdrop n (in_bytes b);
  in_read_none (b : B) (n : Z) :
    in_wf b -> 0 < n <= 8 -> zlen (in_bytes b) < n -> in_read_and_skip b n = Ret (b, None);
  in_skip_ok (b : B) (n : Z) :
    in_wf b -> 0 <= n < 2 ^ 64 ->
    exists b', in_skip_bytes b n = Ret b' /\ in_wf b' /\ in_bytes b' = zdrop n (in_bytes b)
}.

(** ** Byte lists *)

#[export] Instance list_input : input (list Z) := {|
  in_size := zlen;
  in_read_and_skip b n := Ret (if n <=? zlen b then (zdrop n b, Some (ztake n b)) else (b, None));
  in_skip_bytes b n := Ret (zdrop n b)
|}.

#[export] Program Instance list_input_spec : input_spec (list Z) := {|
  in_bytes b := b;
  in_wf b := zlen b < 2 ^ 63
|}.
Next Obligation. done. Qed.
Next Obligation.
  intros b n Hb Hn Hle. cbn beta in *. cbn [in_read_and_skip list_input]. rewrite (proj2 (Z.leb_le _ _)) by lia.
  eexists. split; [done|]. split; [|done]. rewrite zlen_drop; lia.
Qed.
Next Obligation. intros b n Hb Hn Hlt. cbn beta in *. cbn [in_read_and_skip list_input]. by rewrite (proj2 (Z.leb_gt _ _)) by lia. Qed.
Next Obligation. intros b n Hb Hn. cbn beta in *. eexists. split; [done|]. split; [|done]. rewrite zlen_drop; lia. Qed.

(** ** Buffers

    Local objects live below the addresses of heap objects. *)
Definition local_object (n : Z) : byte_range := mk_range (- n) n.

Record buffer_input := mk_buffer_input { bi_mem : mem; bi_heap : gheap; bi_buffer : buffer }.

#[export] Instance buffer_is_input : input buffer_input := {|
  in_size b := Buffer.size (bi_buffer b);
  in_read_and_skip b n :=
    do '(m, h, rd, v) <- Reader.read_value_and_skip_opt (bi_mem b) (bi_heap b)
                           (Reader.make_reader (bi_buffer b)) (local_object n);;
    Ret (mk_buffer_input m h (rd_buffer rd), v);
  in_skip_bytes b n :=
    do '(h, q) <- Buffer.skip_bytes (bi_heap b) (bi_buffer b) n true;;
    Ret (mk_buffer_input (bi_mem b) h q)
|}.

Definition buffer_input_wf (b : buffer_input) : Prop :=
  Buffer.wf (bi_buffer b) /\ guards_ok (bi_heap b) (Buffer.guards (bi_buffer b) ++ []).

Lemma local_disjoint n b :
  Buffer.wf b -> Forall (fun f => disjoint (r_data (local_object n)) (r_size (local_object n)) (fr_head f) (fr_size f)) (bf_frags b).
Proof.
  intros [Hf _ _]. apply (list.Forall_impl _ _ _ Hf). intros f [[Hb _] Hh _ _ _].
  unfold disjoint, local_object. simpl. lia.
Qed.

#[export] Program Instance buffer_input_spec : input_spec buffer_input := {|
  in_bytes b := Buffer.bytes (bi_mem b) (bi_buffer b);
  in_wf := buffer_input_wf
|}.
Next Obligation.
  intros b [Hwf _]. cbn [in_size buffer_is_input]. rewrite zlen_buffer by done. split; [done|].
  by apply buffer_size_range.
Qed.
Next Obligation.
  intros [m h b] n [Hwf Hok] Hn Hle. cbn beta in *. cbn [in_read_and_skip buffer_is_input bi_mem bi_heap bi_buffer] in *.
  rewrite zlen_buffer in Hle by done. pose proof (buffer_size_range b Hwf) as Hbs.
  assert (Reader.wf (Reader.make_reader b)) as Hrd by (split; [done|simpl; lia]).
  destruct (read_value_ok m _ (local_object n) Hrd) as (m' & E & Hv & _ & Hfr);
    [unfold Range.wf; simpl; lia|simpl; lia|by apply local_disjoint|].
  unfold Reader.read_value_and_skip_opt, Reader.read_value_opt. cbn [rd_buffer rd_mark Reader.make_reader r_size local_object] in *.
  rewrite E. rewrite (proj2 (Z.leb_le _ _)) by lia. cbn [bindO]. unfold Reader.skip_and_reset. cbn [rd_buffer].
  rewrite u64_id by (unfold_pow2; lia).
  destruct (buffer_skip_ok m' h b (0 + n) true [] Hwf Hok) as (h' & b' & Es & Hw & Hb & Hg & _); [unfold_pow2; lia|].
  cbn [rd_buffer Reader.make_reader]. rewrite Es. cbn [bindO]. rewrite Hv by lia. unfold Reader.ahead. cbn [rd_mark rd_buffer Reader.make_reader].
  rewrite zdrop_0. eexists. split; [done|]. cbn [bi_mem bi_buffer bi_heap rd_buffer]. split; [by split|].
  rewrite Hb. cbn [Z.add]. f_equal. rewrite !buffer_bytes_cat. apply cat_ext.
  apply (list.Forall_impl _ _ _ (local_disjoint n b Hwf)). intros f Hd. by apply Hfr.
Qed.
Next Obligation.
  intros [m h b] n [Hwf Hok] Hn Hlt. cbn beta in *. cbn [in_read_and_skip buffer_is_input bi_mem bi_heap bi_buffer] in *.
  rewrite zlen_buffer in Hlt by done. pose proof (buffer_size_range b Hwf) as Hbs.
  assert (Reader.wf (Reader.make_reader b)) as Hrd by (split; [done|simpl; lia]).
  destruct (read_value_ok m _ (local_object n) Hrd) as (m' & E & _ & Hm & _);
    [unfold Range.wf; simpl; lia|simpl; lia|by apply local_disjoint|].
  unfold Reader.read_value_and_skip_opt, Reader.read_value_opt. cbn [rd_buffer rd_mark Reader.make_reader r_size local_object] in *.
  rewrite E, Hm by lia. by rewrite (proj2 (Z.leb_gt _ _)) by lia.
Qed.
Next Obligation.
  intros [m h b] n [Hwf Hok] Hn. cbn beta in *. cbn [in_skip_bytes buffer_is_input bi_mem bi_heap bi_buffer] in *.
  destruct (buffer_skip_ok m h b n true [] Hwf Hok Hn) as (h' & b' & Es & Hw & Hb & Hg & _).
  rewrite Es. cbn [bindO]. eexists. split; [done|]. by split.
Qed.
