(* ===== verification/Http2.v ===== *)
(** * Http2: the frame decoder and the codec (xi/io/proto/http2/constants.h,
      decoder.h, codec.h)

    The decoder is a state machine over an [input]; its calls on the delegate
    are returned as a trace, which the codec folds.  [decode] runs the
    [while (loop)] of the source with fuel, one unit per iteration; the inner
    loops consume input, so their fuel is the size of the input plus one.
    Writing to [std::cout] is left out. *)
From S2P Require Import Prelude Bytes Guard Blob Fragment Buffer FragString Reader Input Alloc.

(** ** constants.h *)

Definition INITIATION_STRING : list Z :=
  [80; 82; 73; 32; 42; 32; 72; 84; 84; 80; 47; 50; 46; 48; 13; 10; 13; 10; 83; 77; 13; 10; 13; 10].

Inductive state :=
  | READ_CONNECTION_PREFACE | READ_FRAME_HEADER | READ_FRAME_PADDING
  | READ_DATA_FRAME | READ_HEADERS_FRAME | READ_PRIORITY_FRAME | READ_RST_STREAM_FRAME
  | READ_SETTINGS_FRAME | READ_PUSH_PROMISE_FRAME | READ_PING_FRAME | READ_GOAWAY_FRAME
  | READ_WINDOW_UPDATE_FRAME | READ_CONTINUATION_FRAME | CONNECTION_ERROR
  | other_state (v : Z).   (** a value of the underlying [u8] without a name *)

(** [static_cast< state >(v)]. *)
Definition state_of_u8 (v : Z) : state :=
  if v =? 0 then READ_CONNECTION_PREFACE else if v =? 1 then READ_FRAME_HEADER
  else if v =? 2 then READ_FRAME_PADDING else if v =? 240 then READ_DATA_FRAME
  else if v =? 241 then READ_HEADERS_FRAME else if v =? 242 then READ_PRIORITY_FRAME
  else if v =? 243 then READ_RST_STREAM_FRAME else if v =? 244 then READ_SETTINGS_FRAME
  else if v =? 245 then READ_PUSH_PROMISE_FRAME else if v =? 246 then READ_PING_FRAME
  else if v =? 247 then READ_GOAWAY_FRAME else if v =? 248 then READ_WINDOW_UPDATE_FRAME
  else if v =? 249 then READ_CONTINUATION_FRAME else if v =? 255 then CONNECTION_ERROR
  else other_state v.

(** [enum class frame : u8]; any byte can be read into one. *)
Module Frame.
Definition DATA_FRAME := 0.
Definition HEADERS_FRAME := 1.
Definition PRIORITY_FRAME := 2.
Definition RST_STREAM_FRAME := 3.
Definition SETTINGS_FRAME := 4.
Definition PUSH_PROMISE_FRAME := 5.
Definition PING_FRAME := 6.
Definition GOAWAY_FRAME := 7.
Definition WINDOW_UPDATE_FRAME := 8.
Definition CONTINUATION_FRAME := 9.
Definition MAX_KNOWN_FRAME := CONTINUATION_FRAME.
Definition INVALID_FRAME_TYPE := 255.
End Frame.

Module Flag.
Definition ACK := 1.
Definition PADDED := 8.
Definition PRIORITY := 32.
End Flag.

Module Setting.
Definition SETTINGS_HEADER_TABLE_SIZE := 1.
Definition SETTINGS_ENABLE_PUSH := 2.
Definition SETTINGS_MAX_CONCURRENT_STREAMS := 3.
Definition SETTINGS_INITIAL_WINDOW_SIZE := 4.
Definition SETTINGS_MAX_FRAME_SIZE := 5.
Definition SETTINGS_MAX_HEADER_LIST_SIZE := 6.
Definition SETTINGS_MAX := 7.
End Setting.

Inductive error :=
  | NO_ERROR | PROTOCOL_ERROR | INTERNAL_ERROR | FLOW_CONTROL_ERROR | SETTINGS_TIMEOUT
  | STREAM_CLOSED | FRAME_SIZE_ERROR | REFUSED_STREAM | CANCEL | COMPRESSION_ERROR
  | CONNECT_ERROR | ENHANCE_YOUR_CALM | INADEQUATE_SECURITY | HTTP_1_1_REQUIRED.

Definition error_to_u8 (e : error) : Z :=
  match e with
  | NO_ERROR => 0 | PROTOCOL_ERROR => 1 | INTERNAL_ERROR => 2 | FLOW_CONTROL_ERROR => 3
  | SETTINGS_TIMEOUT => 4 | STREAM_CLOSED => 5 | FRAME_SIZE_ERROR => 6 | REFUSED_STREAM => 7
  | CANCEL => 8 | COMPRESSION_ERROR => 9 | CONNECT_ERROR => 10 | ENHANCE_YOUR_CALM => 11
  | INADEQUATE_SECURITY => 12 | HTTP_1_1_REQUIRED => 13
  end.

Definition FRAME_HEADER_SIZE : Z := 9.
Definition CONNECTION_PREFACE_LENGTH : Z := 24.
Definition MAX_ALLOWED_FRAME_SIZE : Z := 2 ^ 24 - 1.
Definition MAX_ALLOWED_WINDOW_SIZE : Z := 2 ^ 31 - 1.

(** ** decoder.h *)

Inductive delegate_call :=
  | setting_received (id value : Z)
  | settings_end
  | settings_ack
  | send_connection_error (e : error).

Record decoder := mk_decoder {
  d_length : Z;
  d_type : Z;
  d_state : state;
  d_flags : Z;
  d_padding : Z;
  d_stream_id : Z
}.

Definition decoder_init : decoder :=
  mk_decoder 0 Frame.INVALID_FRAME_TYPE READ_CONNECTION_PREFACE 0 0 0.

Module Decoder.
Definition set_length (d : decoder) (x : Z) : decoder :=
  mk_decoder x (d_type d) (d_state d) (d_flags d) (d_padding d) (d_stream_id d).
Definition set_state (d : decoder) (x : state) : decoder :=
  mk_decoder (d_length d) (d_type d) x (d_flags d) (d_padding d) (d_stream_id d).
Definition set_padding (d : decoder) (x : Z) : decoder :=
  mk_decoder (d_length d) (d_type d) (d_state d) (d_flags d) x (d_stream_id d).

Definition has_flag (d : decoder) (f : Z) : bool := negb (Z.land (d_flags d) f =? 0).

Definition get_state_from_type (d : decoder) : state := state_of_u8 (Z.lor (d_type d) 240).

Definition transition_to_error (d : decoder) (e : error) : decoder * list delegate_call :=
  (set_state d CONNECTION_ERROR, [send_connection_error e]).

Definition is_stream_id_valid (d : decoder) : bool :=
  let t := d_type d in
  if (t =? Frame.DATA_FRAME) || (t =? Frame.HEADERS_FRAME) || (t =? Frame.PRIORITY_FRAME)
     || (t =? Frame.RST_STREAM_FRAME) || (t =? Frame.PUSH_PROMISE_FRAME)
  then negb (d_stream_id d =? 0)
  else if (t =? Frame.SETTINGS_FRAME) || (t =? Frame.PING_FRAME) || (t =? Frame.GOAWAY_FRAME)
  then d_stream_id d =? 0
  else true.

(** [x >= has_flag(f) ? a : b] compares first and converts [a] or [b]. *)
Definition ge_then_else (x : Z) (flag : bool) (a b : Z) : bool :=
  negb ((if (if flag then 1 else 0) <=? x then a else b) =? 0).

Definition is_length_valid (d : decoder) : bool :=
  let t := d_type d in
  let len := d_length d in
  if t =? Frame.DATA_FRAME then ge_then_else len (has_flag d Flag.PADDED) 1 0
  else if t =? Frame.HEADERS_FRAME then
    let min_length := if has_flag d Flag.PADDED then 1 else 0 in
    let min_length := if has_flag d Flag.PRIORITY then min_length + 5 else min_length in
    min_length <=? len
  else if t =? Frame.PRIORITY_FRAME then len =? 5
  else if t =? Frame.RST_STREAM_FRAME then len =? 4
  else if t =? Frame.SETTINGS_FRAME then
    if has_flag d Flag.ACK then len =? 0 else len mod 6 =? 0
  else if t =? Frame.PUSH_PROMISE_FRAME then ge_then_else len (has_flag d Flag.PADDED) 5 4
  else if t =? Frame.PING_FRAME then len =? 8
  else if t =? Frame.GOAWAY_FRAME then 8 <=? len
  else if t =? Frame.WINDOW_UPDATE_FRAME then len =? 4
  else true.

Definition validate_frame_header (d : decoder) : error :=
  if MAX_ALLOWED_FRAME_SIZE <=? d_length d then FRAME_SIZE_ERROR
  else if Frame.MAX_KNOWN_FRAME <? d_type d then PROTOCOL_ERROR
  else if negb (is_stream_id_valid d) then PROTOCOL_ERROR
  else if negb (is_length_valid d) then FRAME_SIZE_ERROR
  else NO_ERROR.

(** [opt< T >::unwrap()]. *)
Definition unwrap {A : Type} (o : option A) : outcome A :=
  match o with Some a => Ret a | None => Throw optional_panic end.

Definition byte_at (bs : list Z) (i : nat) : Z := nth i bs 0.

Definition u16_of (bs : list Z) : Z := u16 (Z.lor (Z.shiftl (byte_at bs 0) 8) (byte_at bs 1)).
Definition u24_of (bs : list Z) : Z :=
  u32 (Z.lor (Z.lor (Z.shiftl (byte_at bs 0) 16) (Z.shiftl (byte_at bs 1) 8)) (byte_at bs 2)).
Definition u32_of (bs : list Z) : Z :=
  u32 (Z.lor (Z.lor (Z.lor (Z.shiftl (byte_at bs 0) 24) (Z.shiftl (byte_at bs 1) 16))
                    (Z.shiftl (byte_at bs 2) 8)) (byte_at bs 3)).

(** The value check of one setting. *)
Definition setting_error (id value : Z) : option error :=
  if id =? Setting.SETTINGS_ENABLE_PUSH then if 1 <? value then Some PROTOCOL_ERROR else None
  else if id =? Setting.SETTINGS_INITIAL_WINDOW_SIZE then
    if MAX_ALLOWED_WINDOW_SIZE <? value then Some FLOW_CONTROL_ERROR else None
  else if id =? Setting.SETTINGS_MAX_FRAME_SIZE then
    if MAX_ALLOWED_FRAME_SIZE <? value then Some PROTOCOL_ERROR else None
  else None.

Section with_input.
Context {B : Type} `{input B}.

Definition read_u16 (b : B) : outcome (B * Z) :=
  do '(b, v) <- in_read_and_skip b 2;; do v <- unwrap v;; Ret (b, u16_of v).
Definition read_u24 (b : B) : outcome (B * Z) :=
  do '(b, v) <- in_read_and_skip b 3;; do v <- unwrap v;; Ret (b, u24_of v).
Definition read_u32 (b : B) : outcome (B * Z) :=
  do '(b, v) <- in_read_and_skip b 4;; do v <- unwrap v;; Ret (b, u32_of v).
Definition read_u8 (b : B) : outcome (B * Z) :=
  do '(b, v) <- in_read_and_skip b 1;; do v <- unwrap v;; Ret (b, byte_at v 0).

Definition input_fuel (b : B) : nat := S (Z.to_nat (in_size b)).

(** What a handler returns: input, decoder, delegate calls, [loop]. *)
Definition step_result : Type := outcome (B * decoder * list delegate_call * bool).

Fixpoint preface_loop (fuel : nat) (b : B) (d : decoder) : step_result :=
  match fuel with
  | O => Diverge
  | S fuel =>
      do '(b, v) <- in_read_and_skip b 1;;
      match v with
      | None => Ret (b, d, [], true)
      | Some v =>
          do c <- derefO (znth (INITIATION_STRING ++ [0]) (d_length d));;
          let d := set_length d (u32 (d_length d + 1)) in
          if negb (byte_at v 0 =? c) then
            Ret (b, set_state d CONNECTION_ERROR, [send_connection_error PROTOCOL_ERROR], false)
          else if d_length d =? CONNECTION_PREFACE_LENGTH then
            Ret (b, set_state d READ_FRAME_HEADER, [], false)
          else preface_loop fuel b d
      end
  end.

Definition read_connection_preface (b : B) (d : decoder) : step_result :=
  preface_loop (input_fuel b) b d.

Definition read_frame_padding (b : B) (d : decoder) : step_result :=
  do '(b, v) <- in_read_and_skip b 1;;
  match v with
  | None => Ret (b, d, [], true)
  | Some v =>
      let d := set_state (set_padding d (byte_at v 0)) (get_state_from_type d) in
      Ret (b, set_length d (u32 (d_length d - 1)), [], true)
  end.

(** The [while] of [read_settings_frame]; the flag says whether the body
    returned from the function. *)
Fixpoint settings_loop (fuel : nat) (b : B) (d : decoder) : step_result :=
  match fuel with
  | O => Diverge
  | S fuel =>
      if negb (d_length d =? 0) && (6 <=? in_size b) then
        do '(b, id) <- read_u16 b;;
        do '(b, value) <- read_u32 b;;
        if Setting.SETTINGS_MAX <=? id then settings_loop fuel b d
        else
          match setting_error id value with
          | Some e => let '(d, ev) := transition_to_error d e in Ret (b, d, ev, true)
          | None =>
              do '(b, d, ev, returned) <- settings_loop fuel b (set_length d (u32 (d_length d - 6)));;
              Ret (b, d, setting_received id value :: ev, returned)
          end
      else Ret (b, d, [], false)
  end.

Definition read_settings_frame (b : B) (d : decoder) : step_result :=
  let ack := has_flag d Flag.ACK in
  if d_length d =? 0 then
    Ret (b, set_state d READ_FRAME_HEADER, if ack then [settings_ack] else [], false)
  else if ack then let '(d, ev) := transition_to_error d FRAME_SIZE_ERROR in Ret (b, d, ev, false)
  else if negb (d_length d mod 6 =? 0) then
    let '(d, ev) := transition_to_error d PROTOCOL_ERROR in Ret (b, d, ev, false)
  else if negb (d_stream_id d =? 0) then
    let '(d, ev) := transition_to_error d PROTOCOL_ERROR in Ret (b, d, ev, false)
  else
    do '(b, d, ev, returned) <- settings_loop (input_fuel b) b d;;
    if (returned : bool) then Ret (b, d, ev, false)
    else Ret (b, d, ev ++ (if 0 =? d_length d then [settings_end] else []), d_length d <? in_size b).

Definition read_data_frame (b : B) (d : decoder) : step_result :=
  do b <- in_skip_bytes b (d_length d);;
  Ret (b, set_state d READ_FRAME_HEADER, [], 0 <? in_size b).

Definition read_frame_header (b : B) (d : decoder) : step_result :=
  if in_size b <? FRAME_HEADER_SIZE then Ret (b, d, [], false)
  else
    do '(b, length) <- read_u24 b;;
    do '(b, type) <- read_u8 b;;
    do '(b, flags) <- read_u8 b;;
    do '(b, stream_id) <- read_u32 b;;
    let d := mk_decoder length type (d_state d) flags (d_padding d) stream_id in
    match validate_frame_header d with
    | NO_ERROR =>
        Ret (b, set_state d (if has_flag d Flag.PADDED then READ_FRAME_PADDING else get_state_from_type d),
             [], true)
    | err => let '(d, ev) := transition_to_error d err in Ret (b, d, ev, false)
    end.

(** The arm shared by the frames whose payload is skipped. *)
Definition skip_frame (b : B) (d : decoder) : step_result :=
  do b <- in_skip_bytes b (d_length d);;
  Ret (b, set_state d READ_FRAME_HEADER, [], d_length d <? in_size b).

(** One iteration of [while (loop)]; [None] is the [return] of the
    [CONNECTION_ERROR] arm. *)
Definition decode_step (b : B) (d : decoder) : outcome (B * decoder * list delegate_call * option bool) :=
  let some (r : step_result) := do '(b, d, ev, loop) <- r;; Ret (b, d, ev, Some loop) in
  match d_state d with
  | READ_CONNECTION_PREFACE => some (read_connection_preface b d)
  | READ_FRAME_HEADER => some (read_frame_header b d)
  | READ_FRAME_PADDING => some (read_frame_padding b d)
  | READ_DATA_FRAME => some (read_data_frame b d)
  | READ_SETTINGS_FRAME =>
      do '(b, d, ev, loop) <- read_settings_frame b d;;
      Ret (b, set_state d READ_FRAME_HEADER, ev, Some loop)
  | CONNECTION_ERROR => Ret (b, d, [], None)
  | other_state _ => Ret (b, d, [], Some true)
  | _ => some (skip_frame b d)
  end.

(** [decode(in)]. *)
Fixpoint decode (fuel : nat) (b : B) (d : decoder) : outcome (B * decoder * list delegate_call) :=
  match fuel with
  | O => Diverge
  | S fuel =>
      do '(b, d, ev, loop) <- decode_step b d;;
      if default false loop then
        do '(b, d, evs) <- decode fuel b d;; Ret (b, d, ev ++ evs)
      else Ret (b, d, ev)
  end.
End with_input.
End Decoder.

(** ** codec.h *)

Record remote_settings := mk_remote_settings {
  header_table_size : Z;
  enable_push : bool;
  max_concurrent_streams : Z;
  initial_window_size : Z;
  max_frame_size : Z;
  max_header_list_size : Z
}.

Definition remote_settings_init : remote_settings :=
  mk_remote_settings 4096 true 100 (2 ^ 16 - 1) (2 ^ 14) (u32 (-1)).

(** What the codec does to its context: [forward_write(b)], [close()]. *)
Inductive context_action :=
  | forward_write (b : buffer)
  | close_channel.

Module Codec.
(** The bytes of the two string literals. *)
Definition settings_ack_frame : list Z := [0; 0; 0; 4; 1; 0; 0; 0; 0].
Definition goaway_literal : list Z := [0; 0; 8; 7; 0; 0; 0; 0; 0; 0; 0; 0; 0; 0; 0; 0].

Definition setting_received (rs : remote_settings) (id value : Z) : remote_settings :=
  let '(mk_remote_settings hts ep mcs iws mfs mhls) := rs in
  if id =? Setting.SETTINGS_HEADER_TABLE_SIZE then mk_remote_settings value ep mcs iws mfs mhls
  else if id =? Setting.SETTINGS_ENABLE_PUSH then mk_remote_settings hts (negb (value =? 0)) mcs iws mfs mhls
  else if id =? Setting.SETTINGS_MAX_CONCURRENT_STREAMS then mk_remote_settings hts ep value iws mfs mhls
  else if id =? Setting.SETTINGS_INITIAL_WINDOW_SIZE then mk_remote_settings hts ep mcs value mfs mhls
  else if id =? Setting.SETTINGS_MAX_FRAME_SIZE then mk_remote_settings hts ep mcs iws value mhls
  else if id =? Setting.SETTINGS_MAX_HEADER_LIST_SIZE then mk_remote_settings hts ep mcs iws mfs value
  else rs.

Section with_allocator.
Context {St : Type} `{buffer_allocator St}.

(** [settings_end()]; [lit] is the address of the literal. *)
Definition settings_end (s : St) (m : mem) (h : gheap) (lit : Z)
    : outcome (St * mem * gheap * list context_action) :=
  do '(s, m, h, b) <- ba_allocate s m h 1024 0 0;;
  let '(m, b, _) := Buffer.write m b (mk_range lit (zlen settings_ack_frame)) in
  Ret (s, m, h, [forward_write b]).

(** [send_connection_error(e)]; [e_addr] is the address of the parameter. *)
Definition send_connection_error (s : St) (m : mem) (h : gheap) (lit e_addr : Z) (e : error)
    : outcome (St * mem * gheap * list context_action) :=
  let m := store m e_addr [error_to_u8 e] in
  do '(s, m, h, b) <- ba_allocate s m h 1024 0 0;;
  let '(m, b, _) := Buffer.write m b (mk_range lit (zlen goaway_literal)) in
  let '(m, b, _) := Buffer.write m b (mk_range e_addr 1) in
  Ret (s, m, h, [forward_write b; close_channel]).

(** The delegate's methods, called while [decode] runs; their effects do not
    reach the decoder, so they can be run on the trace. *)
Fixpoint run_delegate (s : St) (m : mem) (h : gheap) (rs : remote_settings) (lit_ack lit_goaway e_addr : Z)
    (calls : list delegate_call) : outcome (St * mem * gheap * remote_settings * list context_action) :=
  match calls with
  | [] => Ret (s, m, h, rs, [])
  | call :: calls =>
      do '(s, m, h, rs, acts) <-
        match call with
        | Http2.setting_received id value => Ret (s, m, h, setting_received rs id value, [])
        | Http2.settings_end =>
            do '(s, m, h, acts) <- settings_end s m h lit_ack;; Ret (s, m, h, rs, acts)
        | Http2.settings_ack => Ret (s, m, h, rs, [])
        | Http2.send_connection_error e =>
            do '(s, m, h, acts) <- send_connection_error s m h lit_goaway e_addr e;; Ret (s, m, h, rs, acts)
        end;;
      do '(s, m, h, rs, more) <- run_delegate s m h rs lit_ack lit_goaway e_addr calls;;
      Ret (s, m, h, rs, acts ++ more)
  end.
End with_allocator.
End Codec.

(** ** Byte order *)

Definition be16 (n : Z) : list Z := [n / 256; n mod 256].
Definition be24 (n : Z) : list Z := [n / 65536; n / 256 mod 256; n mod 256].
Definition be32 (n : Z) : list Z := [n / 16777216; n / 65536 mod 256; n / 256 mod 256; n mod 256].

(** The wire format of a frame header and of a setting. *)
Definition frame_header (length type flags stream_id : Z) : list Z :=
  be24 length ++ [type; flags] ++ be32 stream_id.
Definition setting_bytes (s : Z * Z) : list Z := be16 s.1 ++ be32 s.2.

Lemma lor_shiftl_add a b k : 0 <= k -> 0 <= b < 2 ^ k -> Z.lor (Z.shiftl a k) b = a * 2 ^ k + b.
Proof.
  intros Hk Hb. rewrite <- Z.shiftl_mul_pow2 by done.
  assert (Z.land (Z.shiftl a k) b = 0) as Hl.
  { apply Z.bits_inj'. intros n Hn. rewrite Z.land_spec, Z.bits_0, Z.shiftl_spec by done.
    destruct (Z.lt_ge_cases n k); [by rewrite Z.testbit_neg_r by lia|].
    destruct (Z.eq_dec b 0) as [->|]; [by rewrite Z.testbit_0_l, andb_false_r|].
    rewrite (Z.bits_above_log2 b n), andb_false_r; [done|lia|]. apply Z.log2_lt_pow2; [lia|].
    apply Z.lt_le_trans with (2 ^ k); [lia|]. apply Z.pow_le_mono_r; lia. }
  pose proof (Z.add_lor_land (Z.shiftl a k) b). lia.
Qed.

Ltac join_bytes :=
  unfold be16, be24, be32, Decoder.u16_of, Decoder.u24_of, Decoder.u32_of, Decoder.byte_at; cbn [nth];
  rewrite <- ?Z.lor_assoc;
  repeat match goal with
  | |- context [Z.lor (Z.shiftl ?a ?k) ?b] =>
      lazymatch b with
      | context [Z.lor] => fail
      | _ => rewrite (lor_shiftl_add a b k) by (Z.div_mod_to_equations; lia)
      end
  end.

Lemma u16_of_be16 n : 0 <= n < 2 ^ 16 -> Decoder.u16_of (be16 n) = n.
Proof. intros. join_bytes. rewrite u16_id; Z.div_mod_to_equations; lia. Qed.
Lemma u24_of_be24 n : 0 <= n < 2 ^ 24 -> Decoder.u24_of (be24 n) = n.
Proof. intros. join_bytes. rewrite u32_id; Z.div_mod_to_equations; lia. Qed.
Lemma u32_of_be32 n : 0 <= n < 2 ^ 32 -> Decoder.u32_of (be32 n) = n.
Proof. intros. join_bytes. rewrite u32_id; Z.div_mod_to_equations; lia. Qed.

(** ** The decoder on a stream of bytes *)
Section decoder_lemmas.
Context {B : Type} `{input_spec B}.
Implicit Types (b : B) (d : decoder) (rest t : list Z).

Lemma read_ok b n x rest :
  in_wf b -> in_bytes b = x ++ rest -> zlen x = n -> 0 < n <= 8 ->
  exists b', in_read_and_skip b n = Ret (b', Some x) /\ in_wf b' /\ in_bytes b' = rest.
Proof.
  intros Hwf E Hn H8. pose proof (zlen_nonneg rest).
  destruct (in_read_some b n Hwf H8) as (b' & Er & Hw & Eb).
  { rewrite E, zlen_app. lia. }
  exists b'. rewrite Er, Eb, E. rewrite ztake_app_exact, zdrop_app_exact by done. done.
Qed.

Lemma read_u8_ok b x rest :
  in_wf b -> in_bytes b = x :: rest ->
  exists b', Decoder.read_u8 b = Ret (b', x) /\ in_wf b' /\ in_bytes b' = rest.
Proof.
  intros Hwf E. destruct (read_ok b 1 [x] rest Hwf E) as (b' & Er & Hw & Eb); [done|lia|].
  exists b'. unfold Decoder.read_u8. by rewrite Er.
Qed.

Lemma read_u16_ok b n rest :
  in_wf b -> in_bytes b = be16 n ++ rest -> 0 <= n < 2 ^ 16 ->
  exists b', Decoder.read_u16 b = Ret (b', n) /\ in_wf b' /\ in_bytes b' = rest.
Proof.
  intros Hwf E Hn. destruct (read_ok b 2 _ _ Hwf E) as (b' & Er & Hw & Eb); [done|lia|].
  exists b'. unfold Decoder.read_u16. rewrite Er. cbn [bindO Decoder.unwrap]. by rewrite u16_of_be16.
Qed.

Lemma read_u24_ok b n rest :
  in_wf b -> in_bytes b = be24 n ++ rest -> 0 <= n < 2 ^ 24 ->
  exists b', Decoder.read_u24 b = Ret (b', n) /\ in_wf b' /\ in_bytes b' = rest.
Proof.
  intros Hwf E Hn. destruct (read_ok b 3 _ _ Hwf E) as (b' & Er & Hw & Eb); [done|lia|].
  exists b'. unfold Decoder.read_u24. rewrite Er. cbn [bindO Decoder.unwrap]. by rewrite u24_of_be24.
Qed.

Lemma read_u32_ok b n rest :
  in_wf b -> in_bytes b = be32 n ++ rest -> 0 <= n < 2 ^ 32 ->
  exists b', Decoder.read_u32 b = Ret (b', n) /\ in_wf b' /\ in_bytes b' = rest.
Proof.
  intros Hwf E Hn. destruct (read_ok b 4 _ _ Hwf E) as (b' & Er & Hw & Eb); [done|lia|].
  exists b'. unfold Decoder.read_u32. rewrite Er. cbn [bindO Decoder.unwrap]. by rewrite u32_of_be32.
Qed.

Lemma in_size_bytes b : in_wf b -> in_size b = zlen (in_bytes b).
Proof. intros Hwf. by destruct (in_size_ok b Hwf). Qed.

(** Enough fuel for a loop that consumes input. *)
Lemma input_fuel_ge {A : Type} b (l : list A) : in_wf b -> zlen l <= zlen (in_bytes b) -> (length l < Decoder.input_fuel b)%nat.
Proof.
  intros Hwf Hl. unfold Decoder.input_fuel. rewrite in_size_bytes by done. unfold zlen in *. lia.
Qed.

(** [read_frame_header] inverts [frame_header]. *)
Lemma read_frame_header_ok b d len type flags sid rest :
  in_wf b -> in_bytes b = frame_header len type flags sid ++ rest ->
  0 <= len < 2 ^ 24 -> 0 <= sid < 2 ^ 32 ->
  let d' := mk_decoder len type (d_state d) flags (d_padding d) sid in
  exists b', in_wf b' /\ in_bytes b' = rest /\
    Decoder.read_frame_header b d =
      match Decoder.validate_frame_header d' with
      | NO_ERROR =>
          Ret (b', Decoder.set_state d' (if Decoder.has_flag d' Flag.PADDED then READ_FRAME_PADDING
                                          else Decoder.get_state_from_type d'), [], true)
      | err => Ret (b', Decoder.set_state d' CONNECTION_ERROR, [send_connection_error err], false)
      end.
Proof.
  intros Hwf E Hl Hs. unfold frame_header in E. rewrite <- !app_assoc in E. cbn [app] in E. intros d'.
  unfold Decoder.read_frame_header. rewrite in_size_bytes by done.
  rewrite (proj2 (Z.ltb_ge _ _)).
  2:{ rewrite E, zlen_app, !zlen_cons, zlen_app. pose proof (zlen_nonneg rest). unfold FRAME_HEADER_SIZE.
      change (zlen (be24 len)) with 3. change (zlen (be32 sid)) with 4. lia. }
  destruct (read_u24_ok b len _ Hwf E Hl) as (b1 & E1 & Hw1 & Eb1).
  destruct (read_u8_ok b1 _ _ Hw1 Eb1) as (b2 & E2 & Hw2 & Eb2).
  destruct (read_u8_ok b2 _ _ Hw2 Eb2) as (b3 & E3 & Hw3 & Eb3).
  destruct (read_u32_ok b3 sid _ Hw3 Eb3 Hs) as (b4 & E4 & Hw4 & Eb4).
  exists b4. split; [done|]. split; [done|].
  rewrite E1. cbn [bindO]. rewrite E2. cbn [bindO]. rewrite E3. cbn [bindO]. rewrite E4. cbn [bindO]. fold d'.
  by destruct (Decoder.validate_frame_header d').
Qed.

(** A setting with a known identifier and an allowed value. *)
Definition setting_ok (s : Z * Z) : Prop :=
  0 <= s.1 < Setting.SETTINGS_MAX /\ 0 <= s.2 < 2 ^ 32 /\ Decoder.setting_error s.1 s.2 = None.

Lemma settings_loop_step fuel b d (s : Z * Z) rest :
  in_wf b -> in_bytes b = setting_bytes s ++ rest -> 0 <= s.1 < 2 ^ 16 -> 0 <= s.2 < 2 ^ 32 ->
  d_length d <> 0 ->
  exists b', in_wf b' /\ in_bytes b' = rest /\
    Decoder.settings_loop (S fuel) b d =
      (if Setting.SETTINGS_MAX <=? s.1 then Decoder.settings_loop fuel b' d
       else match Decoder.setting_error s.1 s.2 with
       | Some e => let '(d, ev) := Decoder.transition_to_error d e in Ret (b', d, ev, true)
       | None =>
           do '(b, d, ev, returned) <- Decoder.settings_loop fuel b' (Decoder.set_length d (u32 (d_length d - 6)));;
           Ret (b, d, setting_received s.1 s.2 :: ev, returned)
       end).
Proof.
  intros Hwf E H1 H2 Hd. unfold setting_bytes in E. rewrite <- app_assoc in E.
  cbn [Decoder.settings_loop]. rewrite in_size_bytes by done.
  rewrite (proj2 (Z.eqb_neq _ _)) by done. cbn [negb andb].
  rewrite (proj2 (Z.leb_le _ _)).
  2:{ rewrite E, !zlen_app. pose proof (zlen_nonneg rest).
      change (zlen (be16 s.1)) with 2. change (zlen (be32 s.2)) with 4. lia. }
  destruct (read_u16_ok b _ _ Hwf E H1) as (b1 & E1 & Hw1 & Eb1).
  destruct (read_u32_ok b1 _ _ Hw1 Eb1 H2) as (b2 & E2 & Hw2 & Eb2).
  exists b2. split; [done|]. split; [done|]. rewrite E1. cbn [bindO]. rewrite E2. done.
Qed.

Lemma settings_loop_done fuel b d :
  d_length d = 0 -> Decoder.settings_loop (S fuel) b d = Ret (b, d, [], false).
Proof. intros E. cbn [Decoder.settings_loop]. by rewrite E. Qed.

Lemma settings_loop_ok (l : list (Z * Z)) fuel b d rest :
  in_wf b -> in_bytes b = (l ≫= setting_bytes) ++ rest -> Forall setting_ok l ->
  d_length d = 6 * zlen l -> d_length d < 2 ^ 24 -> (length l < fuel)%nat ->
  exists b', in_wf b' /\ in_bytes b' = rest /\
    Decoder.settings_loop fuel b d =
      Ret (b', Decoder.set_length d 0, (fun s => setting_received s.1 s.2) <$> l, false).
Proof.
  intros Hwf E Hl. revert fuel b d Hwf E.
  induction Hl as [|s l (H1 & H2 & H3) Hl IH]; intros fuel b d Hwf E Hd Hd' Hf; (destruct fuel as [|fuel]; [simpl in Hf; lia|]).
  - change (zlen (@nil (Z * Z))) with 0 in Hd. exists b. split; [done|]. split; [done|].
    rewrite settings_loop_done by lia. destruct d; simpl in *. by rewrite Hd.
  - rewrite zlen_cons in Hd. pose proof (zlen_nonneg l). rewrite bind_cons, <- app_assoc in E.
    unfold Setting.SETTINGS_MAX in *.
    destruct (settings_loop_step fuel b d s _ Hwf E) as (b1 & Hw1 & Eb1 & ->); [lia|done|lia|].
    rewrite (proj2 (Z.leb_gt _ _)) by (unfold Setting.SETTINGS_MAX; lia). rewrite H3.
    rewrite u32_id by (unfold_pow2; lia).
    destruct (IH fuel b1 (Decoder.set_length d (d_length d - 6)) Hw1 Eb1) as (b2 & Hw2 & Eb2 & ->);
      [simpl; lia|simpl; lia|simpl in Hf; lia|].
    exists b2. split; [done|]. split; [done|]. done.
Qed.

Lemma settings_len (l : list (Z * Z)) : zlen (l ≫= setting_bytes) = 6 * zlen l.
Proof.
  induction l as [|s l IH]; [done|]. rewrite bind_cons, zlen_app, IH, zlen_cons.
  change (zlen (setting_bytes s)) with 6. lia.
Qed.

(** One byte of the preface. *)
Lemma preface_step x c s rest fuel b d :
  in_wf b -> in_bytes b = x :: rest -> 0 <= d_length d -> zdrop (d_length d) INITIATION_STRING = c :: s ->
  let d' := Decoder.set_length d (d_length d + 1) in
  exists b', in_wf b' /\ in_bytes b' = rest /\
    Decoder.preface_loop (S fuel) b d =
      if negb (x =? c) then
        Ret (b', Decoder.set_state d' CONNECTION_ERROR, [send_connection_error PROTOCOL_ERROR], false)
      else if bool_decide (s = []) then Ret (b', Decoder.set_state d' READ_FRAME_HEADER, [], false)
      else Decoder.preface_loop fuel b' d'.
Proof.
  intros Hwf E Hd0 Hd d'. destruct (read_ok b 1 [x] rest Hwf E) as (b1 & E1 & Hw1 & Eb1); [done|lia|].
  assert (Hlen : d_length d + zlen (c :: s) = 24).
  { change 24 with (zlen INITIATION_STRING). rewrite <- Hd, zlen_drop by done.
    destruct (Z.le_gt_cases (zlen INITIATION_STRING) (d_length d)); [|lia].
    by rewrite zdrop_ge in Hd by done. }
  rewrite zlen_cons in Hlen. pose proof (zlen_nonneg s).
  cbn [Decoder.preface_loop]. rewrite E1. cbn [bindO].
  assert (znth (INITIATION_STRING ++ [0]) (d_length d) = Some c) as ->.
  { unfold znth. rewrite (proj2 (Z.ltb_ge _ _)) by lia. rewrite lookup_app_l.
    - unfold zdrop in Hd. rewrite <- (Nat.add_0_r (Z.to_nat (d_length d))), <- lookup_drop, Hd. done.
    - change (length INITIATION_STRING) with 24%nat. lia. }
  cbn [derefO bindO Decoder.byte_at nth]. rewrite u32_id by (unfold_pow2; lia). fold d'.
  exists b1. split; [done|]. split; [done|]. destruct (x =? c); cbn [negb]; [|done].
  unfold CONNECTION_PREFACE_LENGTH. cbn [d_length Decoder.set_length d'].
  destruct s as [|y s]; [by rewrite (proj2 (Z.eqb_eq _ _)) by (rewrite zlen_nil in Hlen; lia)|].
  rewrite zlen_cons in Hlen. pose proof (zlen_nonneg s). by rewrite (proj2 (Z.eqb_neq _ _)) by lia.
Qed.

(** A run of bytes that agree with the preface and do not finish it. *)
Lemma preface_prefix (s : list Z) t rest fuel b d :
  in_wf b -> in_bytes b = s ++ rest -> 0 <= d_length d ->
  zdrop (d_length d) INITIATION_STRING = s ++ t -> t <> [] ->
  exists b', in_wf b' /\ in_bytes b' = rest /\
    Decoder.preface_loop (length s + fuel) b d =
      Decoder.preface_loop fuel b' (Decoder.set_length d (d_length d + zlen s)).
Proof.
  revert b d. induction s as [|c s IH]; intros b d Hwf E Hd0 Hd Ht.
  - exists b. rewrite zlen_nil, Z.add_0_r. by destruct d.
  - destruct (preface_step c c (s ++ t) (s ++ rest) (length s + fuel) b d Hwf E Hd0 Hd) as (b1 & Hw1 & Eb1 & E1).
    rewrite Z.eqb_refl, bool_decide_false in E1 by (by intros [_ ?]%app_eq_nil). cbn [negb] in E1.
    cbn [length Nat.add]. rewrite E1.
    destruct (IH b1 (Decoder.set_length d (d_length d + 1)) Hw1 Eb1) as (b2 & Hw2 & Eb2 & ->);
      [simpl; lia| |done|].
    { cbn [d_length Decoder.set_length]. rewrite Z.add_comm, <- zdrop_zdrop, Hd by lia. done. }
    exists b2. split; [done|]. split; [done|]. rewrite zlen_cons. unfold Decoder.set_length. simpl.
    do 2 f_equal. lia.
Qed.

Lemma preface_empty fuel b d :
  in_wf b -> in_bytes b = [] -> Decoder.preface_loop (S fuel) b d = Ret (b, d, [], true).
Proof.
  intros Hwf E. cbn [Decoder.preface_loop].
  by rewrite (in_read_none b 1) by (first [done | lia | rewrite E; unfold zlen; simpl; lia]).
Qed.

Lemma input_fuel_split b (s : list Z) : in_wf b -> zlen s <= zlen (in_bytes b) ->
  exists n, Decoder.input_fuel b = (length s + S n)%nat.
Proof.
  intros Hwf Hs. pose proof (input_fuel_ge b s Hwf Hs). exists (Decoder.input_fuel b - length s - 1)%nat. lia.
Qed.

(** The whole preface, behind any bytes already matched. *)
Lemma preface_accept (s : list Z) c rest b d :
  in_wf b -> in_bytes b = s ++ c :: rest -> 0 <= d_length d ->
  zdrop (d_length d) INITIATION_STRING = s ++ [c] ->
  exists b', in_wf b' /\ in_bytes b' = rest /\
    Decoder.read_connection_preface b d =
      Ret (b', Decoder.set_state (Decoder.set_length d 24) READ_FRAME_HEADER, [], false).
Proof.
  intros Hwf E Hd0 Hd. unfold Decoder.read_connection_preface.
  destruct (input_fuel_split b s Hwf) as [n ->]; [rewrite E, zlen_app; pose proof (zlen_nonneg (c :: rest)); lia|].
  destruct (preface_prefix s [c] (c :: rest) (S n) b d Hwf E Hd0 Hd) as (b1 & Hw1 & Eb1 & ->); [done|].
  assert (Hlen : d_length d + zlen s = 23).
  { apply (f_equal zlen) in Hd. rewrite zlen_drop, zlen_app in Hd by done. change (zlen [c]) with 1 in Hd.
    change (zlen INITIATION_STRING) with 24 in Hd. pose proof (zlen_nonneg s). lia. }
  destruct (preface_step c c [] rest n b1 (Decoder.set_length d (d_length d + zlen s)) Hw1 Eb1) as (b2 & Hw2 & Eb2 & ->).
  - simpl. lia.
  - cbn [d_length Decoder.set_length]. rewrite Z.add_comm, <- zdrop_zdrop, Hd by (pose proof (zlen_nonneg s); lia).
    by apply zdrop_app_exact.
  - exists b2. split; [done|]. split; [done|]. rewrite Z.eqb_refl. cbn [negb d_length Decoder.set_length].
    rewrite Hlen. done.
Qed.

Lemma preface_reject (s : list Z) c t x rest b d :
  in_wf b -> in_bytes b = s ++ x :: rest -> 0 <= d_length d ->
  zdrop (d_length d) INITIATION_STRING = s ++ c :: t -> x <> c ->
  exists b' d', in_wf b' /\ in_bytes b' = rest /\ d_state d' = CONNECTION_ERROR /\
    Decoder.read_connection_preface b d = Ret (b', d', [send_connection_error PROTOCOL_ERROR], false).
Proof.
  intros Hwf E Hd0 Hd Hx. unfold Decoder.read_connection_preface.
  destruct (input_fuel_split b s Hwf) as [n ->]; [rewrite E, zlen_app; pose proof (zlen_nonneg (x :: rest)); lia|].
  destruct (preface_prefix s (c :: t) (x :: rest) (S n) b d Hwf E Hd0 Hd) as (b1 & Hw1 & Eb1 & ->); [done|].
  pose proof (zlen_nonneg s).
  destruct (preface_step x c t rest n b1 (Decoder.set_length d (d_length d + zlen s)) Hw1 Eb1) as (b2 & Hw2 & Eb2 & ->).
  - simpl. lia.
  - cbn [d_length Decoder.set_length]. rewrite Z.add_comm, <- zdrop_zdrop, Hd by lia.
    by apply zdrop_app_exact.
  - rewrite (proj2 (Z.eqb_neq _ _)) by done. do 2 eexists. split; [done|]. split; [done|]. by split; [|reflexivity].
Qed.

Lemma preface_starved (s : list Z) t b d :
  in_wf b -> in_bytes b = s -> 0 <= d_length d -> zdrop (d_length d) INITIATION_STRING = s ++ t -> t <> [] ->
  exists b', in_wf b' /\ in_bytes b' = [] /\
    Decoder.read_connection_preface b d = Ret (b', Decoder.set_length d (d_length d + zlen s), [], true).
Proof.
  intros Hwf E Hd0 Hd Ht. unfold Decoder.read_connection_preface.
  destruct (input_fuel_split b s Hwf) as [n ->]; [rewrite E; lia|].
  destruct (preface_prefix s t [] (S n) b d Hwf) as (b1 & Hw1 & Eb1 & ->); [by rewrite app_nil_r|done|done|done|].
  exists b1. by rewrite preface_empty.
Qed.

(** Without input the two waiting states loop for ever. *)
Lemma decode_starved fuel b d :
  in_wf b -> in_bytes b = [] -> d_state d = READ_CONNECTION_PREFACE \/ d_state d = READ_FRAME_PADDING ->
  Decoder.decode fuel b d = Diverge.
Proof.
  intros Hwf E Hd. induction fuel as [|fuel IH]; [done|]. cbn [Decoder.decode].
  assert (Decoder.decode_step b d = Ret (b, d, [], Some true)) as ->.
  { unfold Decoder.decode_step. destruct Hd as [-> | ->].
    - unfold Decoder.read_connection_preface, Decoder.input_fuel. by rewrite preface_empty.
    - unfold Decoder.read_frame_padding.
      by rewrite (in_read_none b 1) by (first [done | lia | rewrite E; unfold zlen; simpl; lia]). }
  cbn [bindO default]. unfold default. simpl. by rewrite IH.
Qed.
(** An iteration that goes on. *)
Lemma decode_next fuel b d b' d' ev :
  Decoder.decode_step b d = Ret (b', d', ev, Some true) ->
  Decoder.decode (S fuel) b d = do '(b, d, evs) <- Decoder.decode fuel b' d';; Ret (b, d, ev ++ evs).
Proof. intros E. cbn [Decoder.decode]. by rewrite E. Qed.

(** The iteration that reads the payload of a SETTINGS frame. *)
Lemma settings_step b d (l : list (Z * Z)) rest :
  in_wf b -> in_bytes b = (l ≫= setting_bytes) ++ rest -> Forall setting_ok l -> l <> [] ->
  d_state d = READ_SETTINGS_FRAME -> d_flags d = 0 -> d_stream_id d = 0 ->
  d_length d = 6 * zlen l -> d_length d < 2 ^ 24 ->
  exists b', in_wf b' /\ in_bytes b' = rest /\
    Decoder.decode_step b d =
      Ret (b', Decoder.set_state (Decoder.set_length d 0) READ_FRAME_HEADER,
           ((fun s => setting_received s.1 s.2) <$> l) ++ [settings_end], Some (0 <? zlen rest)).
Proof.
  intros Hwf E Hl Hne Hst Hfl Hsid Hlen Hsm.
  assert (0 < zlen l) by (destruct l; [done|rewrite zlen_cons; pose proof (zlen_nonneg l); lia]).
  destruct (settings_loop_ok l (Decoder.input_fuel b) b d rest Hwf E Hl Hlen Hsm) as (b2 & Hw2 & Eb2 & E2).
  { apply input_fuel_ge; [done|]. rewrite E, zlen_app, settings_len. pose proof (zlen_nonneg rest). lia. }
  exists b2. split; [done|]. split; [done|].
  unfold Decoder.decode_step. rewrite Hst. unfold Decoder.read_settings_frame.
  unfold Decoder.has_flag. rewrite Hfl, Hsid, Hlen. cbn [Z.land Z.eqb negb].
  rewrite (proj2 (Z.eqb_neq _ _)) by lia. rewrite Z.mul_comm, Z.mod_mul by done. cbn [Z.eqb negb].
  rewrite E2. cbn [bindO d_length Decoder.set_length Z.eqb]. by rewrite in_size_bytes, Eb2 by done.
Qed.
End decoder_lemmas.

(** [is_length_valid] as the frame definitions have it: the payload has room
    for the pad length, the priority and the fixed fields. *)
Definition length_allowed (type flags len : Z) : bool :=
  let padded := if negb (Z.land flags Flag.PADDED =? 0) then 1 else 0 in
  let priority := if negb (Z.land flags Flag.PRIORITY =? 0) then 5 else 0 in
  match type with
  | 0 => padded <=? len
  | 1 => padded + priority <=? len
  | 2 => len =? 5
  | 3 => len =? 4
  | 4 => if negb (Z.land flags Flag.ACK =? 0) then len =? 0 else len mod 6 =? 0
  | 5 => 4 + padded <=? len
  | 6 => len =? 8
  | 7 => 8 <=? len
  | 8 => len =? 4
  | _ => true
  end.

Section codec_lemmas.

Lemma tail_private_single b : Buffer.wf b -> Buffer.length b = 1 -> tail_private b.
Proof.
  intros [Hf _ _] Hl. unfold Buffer.length, tail_private in *. destruct (bf_frags b) as [|f [|g l]] eqn:E.
  - done.
  - cbn [list.last]. apply Forall_cons_2; [|apply Forall_nil_2]. unfold disjoint, Fragment.tail. lia.
  - rewrite !zlen_cons in Hl. pose proof (zlen_nonneg l). lia.
Qed.

Lemma write_length m b r m' b' n :
  Buffer.write m b r = (m', b', n) -> Buffer.length b = 1 -> Buffer.length b' = 1.
Proof.
  unfold Buffer.write, Buffer.length. intros E Hl. destruct (bf_frags b) as [|f [|g l]] eqn:Ef.
  - done.
  - unfold Buffer.empty in E. rewrite Ef in E. cbn [orb list.last] in E.
    destruct (Range.empty r); [inversion E; subst; by rewrite Ef|].
    destruct (Fragment.write m f r) as [[? ?] ?]. inversion E; subst. reflexivity.
  - rewrite !zlen_cons in Hl. pose proof (zlen_nonneg l). lia.
Qed.

(** Writing a static or local object, below all heap addresses, to a buffer of
    one fragment that has room. *)
Lemma write_low m b r bs :
  Buffer.wf b -> Buffer.length b = 1 -> Range.bytes m r = bs -> Range.wf r -> r_data r + r_size r <= 0 ->
  r_size r <= Buffer.tailroom b -> bf_size b + r_size r < 2 ^ 63 ->
  exists m' b', Buffer.write m b r = (m', b', r_size r) /\ Buffer.wf b' /\ Buffer.length b' = 1 /\
    Buffer.bytes m' b' = Buffer.bytes m b ++ bs /\ Buffer.guards b' = Buffer.guards b /\
    bf_size b' = bf_size b + r_size r /\ Buffer.tailroom b' = Buffer.tailroom b - r_size r /\
    (forall a k, a + k <= 0 -> load m' a k = load m a k).
Proof.
  intros Hwf Hl Hb Hr Hlow Hroom Hsm. unfold Buffer.length in Hl.
  destruct (bf_frags b) as [|f [|g l]] eqn:Ef; [done| |rewrite !zlen_cons in Hl; pose proof (zlen_nonneg l); lia].
  pose proof Hwf as [Hf Hs _]. rewrite Ef in Hf, Hs. apply Forall_cons_iff in Hf as [Hfw _]. cbn [zsum] in Hs.
  unfold Buffer.tailroom in Hroom. rewrite Ef in Hroom. cbn [list.last] in Hroom.
  assert (0 <= fr_head f) as Hh by (destruct Hfw as [[? ?] ? ? ? ?]; lia).
  pose proof (fr_size_range f Hfw). pose proof (fr_rooms f Hfw).
  assert (forall a k, a + k <= 0 -> disjoint (Fragment.tail f) (Fragment.tailroom f) a k) as Hdis
    by (intros; unfold disjoint, Fragment.tail; lia).
  destruct (fr_write_ok m f r Hfw Hr) as (m1 & f1 & E1 & _ & _ & _ & _ & _ & Hfr1);
    [unfold disjoint, Fragment.tail; lia|].
  destruct (buffer_write_ok m b r Hwf Hr) as (m' & b' & E & Hw & Hbs & Hg & Ht).
  - apply tail_private_single; [done|]. unfold Buffer.length. by rewrite Ef.
  - rewrite Ef. cbn [list.last]. unfold disjoint, Fragment.tail. lia.
  - done.
  - assert (Buffer.tailroom b = Fragment.tailroom f) as Etr by (unfold Buffer.tailroom; by rewrite Ef).
    assert (Z.min (r_size r) (Buffer.tailroom b) = r_size r) as En by lia. rewrite En in *.
    exists m', b'. split; [done|]. split; [done|].
    split; [apply (write_length _ _ _ _ _ _ E); unfold Buffer.length; by rewrite Ef|].
    unfold Range.wf in Hr. pose proof (Range.zlen_bytes m r Hr) as Hz.
    rewrite ztake_ge, Hb in Hbs by lia. split; [done|]. split; [done|]. split; [|split; [done|]].
    + rewrite <- (zlen_buffer m' b' Hw), Hbs, zlen_app, (zlen_buffer m b Hwf). rewrite <- Hb. lia.
    + intros a k Ha. unfold Buffer.write, Buffer.empty in E. rewrite Ef in E. cbn [orb list.last] in E.
      destruct (Range.empty r); [by inversion E|]. rewrite E1 in E. inversion E; subst. by apply Hfr1, Hdis.
Qed.
End codec_lemmas.

(** ** Properties *)

(** [read_frame_header] inverts the wire format of a frame header: from any
    input that starts with the encoding of a header it reads back length, type,
    flags and stream id, consumes nine bytes, and either enters the state of
    the frame (or of its padding) or reports the error found by
    [validate_frame_header]. *)
Theorem http2_header_roundtrip {B : Type} `{input_spec B} (b : B) (d : decoder) (len type flags sid : Z) (rest : list Z) :
  in_wf b -> in_bytes b = frame_header len type flags sid ++ rest ->
  0 <= len < 2 ^ 24 -> 0 <= sid < 2 ^ 32 ->
  let d' := mk_decoder len type (d_state d) flags (d_padding d) sid in
  exists b', in_wf b' /\ in_bytes b' = rest /\
    Decoder.read_frame_header b d =
      match Decoder.validate_frame_header d' with
      | NO_ERROR =>
          Ret (b', Decoder.set_state d' (if Decoder.has_flag d' Flag.PADDED then READ_FRAME_PADDING
                                          else Decoder.get_state_from_type d'), [], true)
      | err => Ret (b', Decoder.set_state d' CONNECTION_ERROR, [send_connection_error err], false)
      end.
Proof. intros. by apply read_frame_header_ok. Qed.

(** C33: a SETTINGS frame with one or more known settings of allowed values is
    decoded in two iterations: the delegate receives every setting, in order,
    and then [settings_end]; the decoder consumes exactly the frame and is
    ready for the next header, with which the loop goes on if there is more
    input. *)
Theorem http2_settings_decoded {B : Type} `{input_spec B} (b : B) (d : decoder) (l : list (Z * Z))
    (rest : list Z) (fuel : nat) :
  in_wf b -> d_state d = READ_FRAME_HEADER -> l <> [] -> Forall setting_ok l ->
  6 * zlen l < MAX_ALLOWED_FRAME_SIZE ->
  in_bytes b = frame_header (6 * zlen l) Frame.SETTINGS_FRAME 0 0 ++ (l ≫= setting_bytes) ++ rest ->
  exists b' d', in_wf b' /\ in_bytes b' = rest /\ d_state d' = READ_FRAME_HEADER /\
    Decoder.decode (S (S fuel)) b d =
      do '(b, d, evs) <- (if 0 <? zlen rest then Decoder.decode fuel b' d' else Ret (b', d', []));;
      Ret (b, d, ((fun s => setting_received s.1 s.2) <$> l) ++ [settings_end] ++ evs).
Proof.
  intros Hwf Hst Hne Hl Hlen E. unfold MAX_ALLOWED_FRAME_SIZE in Hlen. pose proof (zlen_nonneg l).
  assert (0 < zlen l) by (destruct l; [done|rewrite zlen_cons; pose proof (zlen_nonneg l); lia]).
  destruct (read_frame_header_ok b d _ _ _ _ _ Hwf E) as (b1 & Hw1 & Eb1 & E1); [lia|lia|].
  assert (Hval : Decoder.validate_frame_header
      (mk_decoder (6 * zlen l) Frame.SETTINGS_FRAME (d_state d) 0 (d_padding d) 0) = NO_ERROR).
  { unfold Decoder.validate_frame_header, MAX_ALLOWED_FRAME_SIZE. cbn [d_length d_type].
    rewrite (proj2 (Z.leb_gt _ _)) by lia. cbn. rewrite Z.mul_comm, Z.mod_mul by done. done. }
  rewrite Hval in E1. cbn in E1.
  change (Decoder.read_frame_header b d =
    Ret (b1, mk_decoder (6 * zlen l) Frame.SETTINGS_FRAME READ_SETTINGS_FRAME 0 (d_padding d) 0, [], true)) in E1.
  destruct (settings_step b1 (mk_decoder (6 * zlen l) Frame.SETTINGS_FRAME READ_SETTINGS_FRAME 0 (d_padding d) 0) l rest)
    as (b2 & Hw2 & Eb2 & E2); try done; [cbn; lia|].
  set (d2 := Decoder.set_state _ READ_FRAME_HEADER) in E2.
  exists b2, d2. split; [done|]. split; [done|]. split; [done|].
  { rewrite (decode_next _ b d b1 _ []) by (unfold Decoder.decode_step; by rewrite Hst, E1).
      cbn [Decoder.decode]. rewrite E2. cbn [bindO default]. unfold default. cbn [id].
      destruct (0 <? zlen rest).
      - destruct (Decoder.decode fuel b2 _) as [[[? ?] ?]| | | |]; try done. cbn [bindO app]. by rewrite <- app_assoc.
      - cbn [bindO app]. done. }
Qed.

(** Input that starts with the connection preface is accepted: the decoder
    is then ready for a frame header, but [decode] returns without looking at
    what follows the preface in the same buffer.  The first byte that differs
    from the preface is a connection error, whatever precedes it. *)
Theorem http2_preface_decided {B : Type} `{input_spec B} (b : B) (rest : list Z) (fuel : nat) :
  in_wf b ->
  (in_bytes b = INITIATION_STRING ++ rest ->
   exists b' d', in_wf b' /\ in_bytes b' = rest /\ d_state d' = READ_FRAME_HEADER /\
     Decoder.decode (S fuel) b decoder_init = Ret (b', d', [])) /\
  (forall s c t x, INITIATION_STRING = s ++ c :: t -> x <> c -> in_bytes b = s ++ x :: rest ->
   exists b' d', in_wf b' /\ in_bytes b' = rest /\ d_state d' = CONNECTION_ERROR /\
     Decoder.decode (S fuel) b decoder_init = Ret (b', d', [send_connection_error PROTOCOL_ERROR])).
Proof.
  intros Hwf. split.
  - intros E. destruct (preface_accept (removelast INITIATION_STRING) 10 rest b decoder_init Hwf)
      as (b' & Hw & Eb & E1); [exact E|cbn; lia|reflexivity|].
    do 2 eexists. split; [exact Hw|]. split; [exact Eb|]. split; [|cbn [Decoder.decode]; unfold Decoder.decode_step;
      cbn [d_state decoder_init]; rewrite E1; reflexivity]. done.
  - intros s c t x Hp Hx E. destruct (preface_reject s c t x rest b decoder_init Hwf E)
      as (b' & d' & Hw & Eb & Hst & E1); [cbn; lia|exact Hp|exact Hx|].
    exists b', d'. do 3 (split; [done|]). cbn [Decoder.decode]. unfold Decoder.decode_step.
    cbn [d_state decoder_init]. by rewrite E1.
Qed.

(** [read_connection_preface] and [read_frame_padding] report "go on" when
    the input runs out, so [decode] of a proper prefix of the preface, or of a
    buffer that ends between the header of a padded frame and its pad length,
    never returns, whatever the fuel. *)
Theorem http2_starved_decode_diverges {B : Type} `{input_spec B} (b : B) (d : decoder) (fuel : nat) :
  in_wf b ->
  (exists s t, in_bytes b = s /\ INITIATION_STRING = s ++ t /\ t <> [] /\ d = decoder_init) \/
  (in_bytes b = [] /\ d_state d = READ_FRAME_PADDING) ->
  Decoder.decode fuel b d = Diverge.
Proof.
  intros Hwf [(s & t & E & Hp & Ht & ->)|[E Hst]]; [|by apply decode_starved; auto].
  destruct fuel as [|fuel]; [done|].
  destruct (preface_starved s t b decoder_init Hwf E) as (b' & Hw & Eb & E1); [cbn; lia|exact Hp|exact Ht|].
  rewrite (decode_next fuel b decoder_init b' (Decoder.set_length decoder_init (0 + zlen s)) []).
  - rewrite decode_starved; [done|done|done|by left].
  - unfold Decoder.decode_step. cbn [d_state decoder_init]. by rewrite E1.
Qed.

(** A setting whose identifier is unknown is skipped without being counted:
    the decoder takes the six bytes behind the frame for one more setting of
    it, reports that setting to the delegate and only then ends the frame. *)
Theorem http2_unknown_setting_overruns {B : Type} `{input_spec B} (b : B) (d : decoder)
    (id value : Z) (s : Z * Z) (rest : list Z) :
  in_wf b -> in_bytes b = setting_bytes (id, value) ++ setting_bytes s ++ rest ->
  Setting.SETTINGS_MAX <= id < 2 ^ 16 -> 0 <= value < 2 ^ 32 -> setting_ok s ->
  d_state d = READ_SETTINGS_FRAME -> d_flags d = 0 -> d_stream_id d = 0 -> d_length d = 6 ->
  exists b' d', in_wf b' /\ in_bytes b' = rest /\
    Decoder.decode_step b d = Ret (b', d', [setting_received s.1 s.2; settings_end], Some (0 <? zlen rest)).
Proof.
  intros Hwf E Hid Hv (H1 & H2 & H3) Hst Hfl Hsid Hlen. unfold Setting.SETTINGS_MAX in *.
  destruct (input_fuel_split b [0; 0] Hwf) as [n Hn].
  { rewrite E, !zlen_app. change (zlen (setting_bytes _)) with 6. change (zlen (setting_bytes s)) with 6.
    pose proof (zlen_nonneg rest). rewrite !zlen_cons, zlen_nil. lia. }
  destruct (settings_loop_step (S (S n)) b d (id, value) _ Hwf E) as (b1 & Hw1 & Eb1 & E1); [simpl; lia|done|lia|].
  destruct (settings_loop_step (S n) b1 d s rest Hw1 Eb1) as (b2 & Hw2 & Eb2 & E2); [lia|done|lia|].
  do 2 eexists. split; [exact Hw2|]. split; [exact Eb2|].
  unfold Decoder.decode_step. rewrite Hst. unfold Decoder.read_settings_frame, Decoder.has_flag.
  rewrite Hfl, Hsid, Hlen. cbn [Z.land Z.eqb negb Z.modulo Z.div_eucl Pos.eqb]. rewrite Hn. cbn [length Nat.add].
  change (6 mod 6) with 0. cbn [Z.eqb negb].
  rewrite E1. cbn [fst]. unfold Setting.SETTINGS_MAX. rewrite (proj2 (Z.leb_le _ _)) by lia. rewrite E2.
  unfold Setting.SETTINGS_MAX. rewrite (proj2 (Z.leb_gt _ _)) by lia. rewrite H3, Hlen.
  change (u32 (6 - 6)) with 0. rewrite settings_loop_done by done. cbn [bindO d_length Decoder.set_length Z.eqb app].
  by rewrite in_size_bytes, Eb2 by done.
Qed.

(** An illegal value in a SETTINGS frame is reported as a connection error,
    but [decode] then overwrites the error state: the decoder is left ready
    for the next frame header and carries on with later input. *)
Theorem http2_settings_error_forgotten {B : Type} `{input_spec B} (b : B) (d : decoder)
    (s : Z * Z) (e : error) (rest : list Z) :
  in_wf b -> in_bytes b = setting_bytes s ++ rest ->
  0 <= s.1 < Setting.SETTINGS_MAX -> 0 <= s.2 < 2 ^ 32 -> Decoder.setting_error s.1 s.2 = Some e ->
  d_state d = READ_SETTINGS_FRAME -> d_flags d = 0 -> d_stream_id d = 0 ->
  d_length d mod 6 = 0 -> d_length d <> 0 ->
  exists b' d', in_wf b' /\ in_bytes b' = rest /\ d_state d' = READ_FRAME_HEADER /\
    Decoder.decode_step b d = Ret (b', d', [send_connection_error e], Some false).
Proof.
  intros Hwf E H1 H2 H3 Hst Hfl Hsid Hm Hne. unfold Setting.SETTINGS_MAX in *.
  destruct (settings_loop_step (Z.to_nat (in_size b)) b d s _ Hwf E) as (b1 & Hw1 & Eb1 & E1); [lia|done|done|].
  exists b1, (Decoder.set_state (Decoder.set_state d CONNECTION_ERROR) READ_FRAME_HEADER).
  split; [done|]. split; [done|]. split; [done|].
  unfold Decoder.decode_step. rewrite Hst. unfold Decoder.read_settings_frame, Decoder.has_flag.
  rewrite Hfl, Hsid, Hm. rewrite (proj2 (Z.eqb_neq _ _)) by done. cbn [Z.land Z.eqb negb].
  unfold Decoder.input_fuel. rewrite E1. unfold Setting.SETTINGS_MAX. rewrite (proj2 (Z.leb_gt _ _)) by lia.
  rewrite H3. reflexivity.
Qed.

(** [is_length_valid] accepts exactly the lengths the frame types allow,
    except for PUSH_PROMISE, where it accepts every length: the conditional
    binds weaker than the comparison. *)
Theorem http2_length_check (d : decoder) :
  0 <= d_length d -> 0 <= d_type d <= Frame.MAX_KNOWN_FRAME ->
  Decoder.is_length_valid d =
    (length_allowed (d_type d) (d_flags d) (d_length d) || (d_type d =? Frame.PUSH_PROMISE_FRAME)).
Proof.
  unfold Frame.MAX_KNOWN_FRAME, Frame.CONTINUATION_FRAME. intros Hl Ht.
  unfold Decoder.is_length_valid, length_allowed, Decoder.ge_then_else, Decoder.has_flag,
    Flag.PADDED, Flag.PRIORITY, Flag.ACK.
  assert (d_type d = 0 \/ d_type d = 1 \/ d_type d = 2 \/ d_type d = 3 \/ d_type d = 4 \/ d_type d = 5 \/
          d_type d = 6 \/ d_type d = 7 \/ d_type d = 8 \/ d_type d = 9) as Hcase by lia.
  set (p := Z.land (d_flags d) 8 =? 0). set (q := Z.land (d_flags d) 32 =? 0).
  repeat destruct Hcase as [-> | Hcase]; [..|rewrite Hcase]; cbn [Z.eqb Pos.eqb orb negb]; rewrite ?orb_false_r; try reflexivity.
  - destruct p; cbn [negb]; destruct (_ <=? d_length d); reflexivity.
  - destruct p, q; reflexivity.
  - rewrite orb_true_r. destruct p; cbn [negb]; destruct (_ <=? d_length d); reflexivity.
Qed.

(** The codec answers in the wire format: [settings_end] forwards a buffer
    that holds exactly the header of an empty SETTINGS frame with ACK, and
    [send_connection_error(e)] one that holds a GOAWAY frame for stream 0 with
    the code of [e] as its 32-bit error code, and then closes the channel. *)
Theorem http2_codec_frames {St : Type} `{buffer_allocator_spec St} (s : St) (m : mem) (h : gheap)
    (live : list guard) (lit_ack lit_goaway e_addr : Z) (e : error) :
  ba_inv s h live -> guards_ok h live ->
  lit_ack + 9 <= 0 -> load m lit_ack 9 = Codec.settings_ack_frame ->
  lit_goaway + 16 <= 0 -> load m lit_goaway 16 = Codec.goaway_literal ->
  e_addr + 1 <= 0 -> disjoint e_addr 1 lit_goaway 16 ->
  (exists s' m' h' b, Codec.settings_end s m h lit_ack = Ret (s', m', h', [forward_write b]) /\
     Buffer.wf b /\ guards_ok h' (Buffer.guards b ++ live) /\
     Buffer.bytes m' b = frame_header 0 Frame.SETTINGS_FRAME Flag.ACK 0) /\
  (exists s' m' h' b, Codec.send_connection_error s m h lit_goaway e_addr e =
       Ret (s', m', h', [forward_write b; close_channel]) /\
     Buffer.wf b /\ guards_ok h' (Buffer.guards b ++ live) /\
     Buffer.bytes m' b = frame_header 8 Frame.GOAWAY_FRAME 0 0 ++ be32 0 ++ be32 (error_to_u8 e)).
Proof.
  intros Hinv Hok Ha1 Ha2 Hg1 Hg2 He Hd. split.
  - destruct (ba_allocate_ok s m h live 1024 0 0 Hinv Hok) as (s' & h' & b & E & Hw & Hl & Hs & _ & Ht & Hok' & _);
      [lia..|].
    assert (Buffer.bytes m b = []) as Hb by (apply zlen_zero; by rewrite zlen_buffer).
    unfold Codec.settings_end. rewrite E. cbn [bindO]. change (zlen Codec.settings_ack_frame) with 9.
    destruct (write_low m b (mk_range lit_ack 9) Codec.settings_ack_frame Hw Hl)
      as (m' & b' & -> & Hw' & _ & Hb' & Hg & _);
      [exact Ha2|split; [done|reflexivity]|cbn; lia|cbn; lia|unfold Buffer.size in Hs; rewrite Hs; reflexivity|].
    exists s', m', h', b'. split; [done|]. split; [done|]. rewrite Hg. split; [done|]. by rewrite Hb', Hb.
  - set (m1 := store m e_addr [error_to_u8 e]).
    destruct (ba_allocate_ok s m1 h live 1024 0 0 Hinv Hok) as (s' & h' & b & E & Hw & Hl & Hs & _ & Ht & Hok' & _);
      [lia..|].
    assert (Buffer.bytes m1 b = []) as Hb by (apply zlen_zero; by rewrite zlen_buffer).
    unfold Codec.send_connection_error. fold m1. rewrite E. cbn [bindO]. unfold Buffer.size in Hs.
    change (zlen Codec.goaway_literal) with 16.
    destruct (write_low m1 b (mk_range lit_goaway 16) Codec.goaway_literal Hw Hl)
      as (m2 & b2 & -> & Hw2 & Hl2 & Hb2 & Hg2' & Hs2 & Ht2 & Hfr2);
      [|split; [done|reflexivity]|cbn; lia|cbn; lia|rewrite Hs; reflexivity|].
    { change (load m1 lit_goaway 16 = Codec.goaway_literal). subst m1. by rewrite load_store_out. }
    cbn [r_size] in *. change (zlen Codec.goaway_literal) with 16 in *.
    destruct (write_low m2 b2 (mk_range e_addr 1) [error_to_u8 e] Hw2 Hl2)
      as (m3 & b3 & -> & Hw3 & _ & Hb3 & Hg3 & _);
      [|split; [done|reflexivity]|cbn; lia|cbn; lia|rewrite Hs2, Hs; reflexivity|].
    { change (load m2 e_addr 1 = [error_to_u8 e]). rewrite Hfr2 by lia. subst m1. by apply load_store_len. }
    exists s', m3, h', b3. split; [done|]. split; [done|]. rewrite Hg3, Hg2'. split; [done|].
    rewrite Hb3, Hb2, Hb. by destruct e.
Qed.

(** ** The properties at concrete inputs *)

Definition ex_decoder : decoder := mk_decoder 0 0 READ_FRAME_HEADER 0 0 0.

Lemma http2_header_roundtrip_witness :
  exists b', Decoder.read_frame_header (frame_header 8 Frame.PING_FRAME 0 0 ++ [1; 2]) ex_decoder =
    Ret (b', mk_decoder 8 6 READ_PING_FRAME 0 0 0, [], true) /\ b' = [1; 2].
Proof.
  destruct (http2_header_roundtrip (frame_header 8 Frame.PING_FRAME 0 0 ++ [1; 2]) ex_decoder
    8 Frame.PING_FRAME 0 0 [1; 2]) as (b' & _ & Eb & E).
  - vm_compute. reflexivity.
  - reflexivity.
  - lia.
  - lia.
  - exists b'. split; [exact E|exact Eb].
Defined.

Lemma http2_settings_decoded_witness :
  exists b' d', Decoder.decode 2 (frame_header 12 Frame.SETTINGS_FRAME 0 0 ++ setting_bytes (1, 70000) ++ setting_bytes (2, 1))
      ex_decoder = Ret (b', d', [setting_received 1 70000; setting_received 2 1; settings_end]).
Proof.
  destruct (http2_settings_decoded (frame_header 12 Frame.SETTINGS_FRAME 0 0 ++ setting_bytes (1, 70000) ++ setting_bytes (2, 1))
    ex_decoder [(1, 70000); (2, 1)] [] 0) as (b' & d' & _ & _ & _ & E).
  - vm_compute. reflexivity.
  - reflexivity.
  - discriminate.
  - repeat apply Forall_cons_2; [..|apply Forall_nil_2]; (split; [|split]); vm_compute;
      try reflexivity; split; try reflexivity; discriminate.
  - vm_compute. reflexivity.
  - reflexivity.
  - exists b', d'. exact E.
Defined.

Lemma http2_preface_decided_witness :
  (exists b' d', Decoder.decode 1 (INITIATION_STRING ++ frame_header 0 4 0 0) decoder_init = Ret (b', d', []) /\
    b' = frame_header 0 4 0 0) /\
  (exists b' d', Decoder.decode 1 ([80; 82] ++ 65 :: [66]) decoder_init =
    Ret (b', d', [send_connection_error PROTOCOL_ERROR])).
Proof.
  split.
  - destruct (http2_preface_decided (INITIATION_STRING ++ frame_header 0 4 0 0) (frame_header 0 4 0 0) 0) as [H _].
    + vm_compute. reflexivity.
    + destruct (H eq_refl) as (b' & d' & _ & Eb & _ & E). exists b', d'. split; [exact E|exact Eb].
  - destruct (http2_preface_decided ([80; 82] ++ 65 :: [66]) [66] 0) as [_ H].
    + vm_compute. reflexivity.
    + destruct (H [80; 82] 73 (drop 3 INITIATION_STRING) 65) as (b' & d' & _ & _ & _ & E);
        [reflexivity|discriminate|reflexivity|]. exists b', d'. exact E.
Defined.

Lemma http2_starved_decode_diverges_witness : Decoder.decode 1000 [80; 82; 73] decoder_init = Diverge.
Proof.
  apply http2_starved_decode_diverges.
  - vm_compute. reflexivity.
  - left. exists [80; 82; 73], (drop 3 INITIATION_STRING). split; [reflexivity|]. split; [reflexivity|].
    split; [discriminate|reflexivity].
Defined.

Definition ex_settings_decoder : decoder := mk_decoder 6 4 READ_SETTINGS_FRAME 0 0 0.

(** An unknown setting 9, then the first six bytes of a GOAWAY header read as
    setting 0. *)
Lemma http2_unknown_setting_overruns_witness :
  exists b' d', Decoder.decode_step (setting_bytes (9, 1) ++ setting_bytes (0, 134676480) ++ []) ex_settings_decoder =
    Ret (b', d', [setting_received 0 134676480; settings_end], Some false).
Proof.
  destruct (http2_unknown_setting_overruns (setting_bytes (9, 1) ++ setting_bytes (0, 134676480) ++ [])
    ex_settings_decoder 9 1 (0, 134676480) []) as (b' & d' & _ & _ & E); try reflexivity.
  - vm_compute. split; [discriminate|reflexivity].
  - vm_compute. split; [discriminate|reflexivity].
  - split; [|split]; vm_compute; try reflexivity; split; try reflexivity; discriminate.
  - exists b', d'. exact E.
Defined.

Lemma http2_settings_error_forgotten_witness :
  exists b' d', Decoder.decode_step (setting_bytes (2, 7)) ex_settings_decoder =
    Ret (b', d', [send_connection_error PROTOCOL_ERROR], Some false) /\ d_state d' = READ_FRAME_HEADER.
Proof.
  destruct (http2_settings_error_forgotten (setting_bytes (2, 7) ++ []) ex_settings_decoder (2, 7) PROTOCOL_ERROR [])
    as (b' & d' & _ & _ & Hst & E); try reflexivity; try discriminate.
  - vm_compute. split; [discriminate|reflexivity].
  - vm_compute. split; [discriminate|reflexivity].
  - exists b', d'. split; [exact E|exact Hst].
Defined.

Lemma http2_length_check_witness :
  Decoder.is_length_valid (mk_decoder 0 Frame.PUSH_PROMISE_FRAME READ_FRAME_HEADER 0 0 1) = true.
Proof.
  rewrite http2_length_check; [reflexivity|simpl; lia|]. vm_compute. split; discriminate.
Defined.

Definition ex_literals : mem := store (store ∅ (-100) Codec.settings_ack_frame) (-50) Codec.goaway_literal.

#[local] Instance ex_allocator_spec : buffer_allocator_spec (H := basic_buffer_allocator (H := simple_fragment_allocator)) Z :=
  basic_allocator_spec (H0 := simple_allocator_spec).

Lemma http2_codec_frames_witness :
  exists s' m' h' b, Codec.send_connection_error (H := basic_buffer_allocator (H := simple_fragment_allocator))
      1000 ex_literals (mk_gheap ∅ 1 []) (-50) (-10) FLOW_CONTROL_ERROR = Ret (s', m', h', [forward_write b; close_channel]) /\
    Buffer.bytes m' b = [0; 0; 8; 7; 0; 0; 0; 0; 0; 0; 0; 0; 0; 0; 0; 0; 3].
Proof.
  destruct (http2_codec_frames (H0 := ex_allocator_spec) 1000 ex_literals (mk_gheap ∅ 1 []) [] (-100) (-50) (-10)
    FLOW_CONTROL_ERROR) as [_ (s' & m' & h' & b & E & _ & _ & Hb)].
  - split; [lia|]. vm_compute. constructor.
  - apply guards_ok_start.
  - lia.
  - vm_compute. reflexivity.
  - lia.
  - vm_compute. reflexivity.
  - lia.
  - eval_disjoint.
  - exists s', m', h', b. split; [exact E|]. rewrite Hb. reflexivity.
Defined.
