(* ===== verification/Http.v ===== *)
(** * Http: the HTTP/1 decoder (xi/io/proto/http/decoder.h, codec.h)

    The decoder consumes an [input] (see Input).  [compare_bytes] and the bodies
    of [read_uri] and [read_version] are commented out in the source; they are
    modelled as what is left of them.  The loop of [decode] is run with fuel. *)
From S2P Require Import Prelude Bytes Guard Blob Fragment Buffer FragString Reader Input.

Inductive verb := GET | HEAD | PUT | POST | DELETE | INVALID.
Inductive state := VERB | URI | VERSION | CRLF | HEADERS | BODY.

#[export] Instance verb_eq_dec : EqDecision verb.
Proof. solve_decision. Defined.

Record decoder := mk_decoder { d_state : state; d_verb : verb }.
Definition decoder_init : decoder := mk_decoder VERB INVALID.

Module Decoder.
Section decoder.
Context {B : Type} `{input B}.
Implicit Types (d : decoder) (b : B).

(** [compare_bytes]: the comparison is commented out. *)
Definition compare_bytes (pattern : list Z) (b : B) : bool := true.

Definition read_verb d b : outcome (decoder * B * bool) :=
  if in_size b <? 6 then Ret (d, b, false)
  else
    do '(b, r) <- in_read_and_skip b 1;;
    match r with
    | Some [c] =>
        let v :=
          if c =? 68 then if compare_bytes [69; 76; 69; 84; 69] b then DELETE else d_verb d
          else if c =? 72 then if compare_bytes [69; 65; 68] b then HEAD else d_verb d
          else if c =? 71 then if compare_bytes [69; 84] b then GET else d_verb d
          else if c =? 80 then
            if compare_bytes [85; 84] b then PUT else if compare_bytes [79; 83; 84] b then POST else d_verb d
          else d_verb d in
        if decide (v = INVALID) then Ret (mk_decoder (d_state d) v, b, 0 <? in_size b)
        else
          do b <- in_skip_bytes b 1;;
          Ret (mk_decoder URI v, b, 0 <? in_size b)
    | _ => Throw optional_panic
    end.

Definition read_uri d b : outcome (decoder * B * bool) := Ret (d, b, 0 <? in_size b).

Definition read_version d b : outcome (decoder * B * bool) :=
  if in_size b <? 8 then Ret (d, b, false) else Ret (d, b, 0 <? in_size b).

Definition read_crlf d b : outcome (decoder * B * bool) :=
  if in_size b <? 2 then Ret (d, b, false)
  else
    let d := if compare_bytes [13; 10] b then mk_decoder HEADERS (d_verb d) else d in
    Ret (d, b, 0 <? in_size b).

(** One turn of the loop of [decode]. *)
Definition decode_step d b : outcome (decoder * B * bool) :=
  match d_state d with
  | VERB => read_verb d b
  | URI => read_uri d b
  | VERSION => read_version d b
  | CRLF => read_crlf d b
  | HEADERS | BODY => Ret (d, b, false)
  end.

Fixpoint decode (fuel : nat) d b : outcome (decoder * B) :=
  match fuel with
  | O => Diverge
  | S fuel =>
      do '(d, b, loop) <- decode_step d b;;
      if loop : bool then decode fuel d b else Ret (d, b)
  end.
End decoder.
End Decoder.

(** ** Properties *)
Section http.
Context {B : Type} `{input_spec B}.
Implicit Types (b : B) (bs : list Z).

(** The letters the decoder takes for a verb. *)
Definition verb_letter (c : Z) : bool := (c =? 68) || (c =? 72) || (c =? 71) || (c =? 80).

(** Whether a verb letter comes with at least five bytes behind it. *)
Fixpoint verb_found (bs : list Z) : bool :=
  match bs with [] => false | c :: bs' => (6 <=? zlen bs) && (verb_letter c || verb_found bs') end.

Lemma size_bytes b : in_wf b -> in_size b = zlen (in_bytes b).
Proof. intros Hb. by apply in_size_ok. Qed.

Lemma read_uri_diverges fuel d b : in_wf b -> 0 < zlen (in_bytes b) -> d_state d = URI -> Decoder.decode fuel d b = Diverge.
Proof.
  intros Hb Hl Hd. induction fuel as [|fuel IH]; [done|]. cbn [Decoder.decode]. unfold Decoder.decode_step, Decoder.read_uri.
  rewrite Hd. cbn [bindO]. by rewrite (size_bytes b Hb), (proj2 (Z.ltb_lt _ _)).
Qed.

(** One turn in the first state. *)
Lemma read_verb_ok b c bs : in_wf b -> in_bytes b = c :: bs -> 6 <= zlen (c :: bs) ->
  exists b', in_wf b' /\
    (if verb_letter c
     then (exists v, Decoder.read_verb decoder_init b = Ret (mk_decoder URI v, b', true)) /\ in_bytes b' = zdrop 1 bs
     else Decoder.read_verb decoder_init b = Ret (decoder_init, b', true) /\ in_bytes b' = bs).
Proof.
  intros Hb Ebs Hl. unfold Decoder.read_verb. rewrite (size_bytes b Hb), Ebs, (proj2 (Z.ltb_ge _ _)) by lia.
  rewrite zlen_cons in Hl.
  destruct (in_read_some b 1 Hb) as (b1 & E1 & Hb1 & Eb1); [lia|rewrite Ebs, zlen_cons; lia|].
  rewrite E1, Ebs. cbn [bindO]. change (ztake 1 (c :: bs)) with [c].
  rewrite Ebs in Eb1. change (zdrop 1 (c :: bs)) with bs in Eb1.
  destruct (in_skip_ok b1 1 Hb1) as (b2 & E2 & Hb2 & Eb2); [unfold_pow2; lia|].
  rewrite Eb1 in Eb2. cbn [Decoder.compare_bytes decoder_init d_verb d_state]. unfold verb_letter.
  assert (0 < zlen (zdrop 1 bs)) as Hpos by (rewrite zlen_drop; lia).
  destruct (c =? 68), (c =? 72), (c =? 71), (c =? 80); cbn [orb];
    (exists b2 + exists b1); (split; [done|]);
    rewrite ?(decide_False (P := _ = INVALID)) by done; rewrite ?E2; cbn [bindO];
    rewrite ?(size_bytes b2 Hb2), ?Eb2, ?(size_bytes b1 Hb1), ?Eb1, ?(proj2 (Z.ltb_lt _ _)) by lia;
    (split; [first [by eexists|done]|done]).
Qed.

(** The HTTP/1 decoder gets stuck on every request it recognises: as soon
    as the letter of a verb comes with five more bytes, [decode] consumes that
    letter and the byte behind it and then loops for ever in the state URI,
    which consumes nothing.  Otherwise it drops all but the last five bytes and returns. *)
Theorem http_decode_stuck (b : B) (fuel : nat) :
  in_wf b ->
  (verb_found (in_bytes b) = true -> Decoder.decode fuel decoder_init b = Diverge) /\
  (verb_found (in_bytes b) = false -> (length (in_bytes b) < fuel)%nat ->
     exists b', Decoder.decode fuel decoder_init b = Ret (decoder_init, b') /\ in_wf b' /\
       in_bytes b' = zdrop (Z.max 0 (zlen (in_bytes b) - 5)) (in_bytes b)).
Proof.
  intros Hb. remember (in_bytes b) as bs eqn:Ebs. revert b fuel Hb Ebs. induction bs as [|c bs IH]; intros b fuel Hb Ebs.
  - split; [done|]. intros _ Hf. destruct fuel as [|fuel]; [cbn in Hf; lia|]. exists b. split; [|by rewrite <- Ebs].
    cbn [Decoder.decode]. unfold Decoder.decode_step, Decoder.read_verb. cbn [decoder_init d_state].
    by rewrite (size_bytes b Hb), <- Ebs.
  - cbn [verb_found]. destruct (6 <=? zlen (c :: bs)) eqn:El; zbool; cbn [andb].
    + destruct (read_verb_ok b c bs Hb (eq_sym Ebs) El) as (b' & Hb' & Hv). destruct (verb_letter c); cbn [orb].
      * destruct Hv as [[v Ev] Ebs']. split; [intros _|done]. destruct fuel as [|fuel]; [done|].
        cbn [Decoder.decode]. unfold Decoder.decode_step at 1. cbn [decoder_init d_state]. fold decoder_init. rewrite Ev. cbn [bindO].
        apply read_uri_diverges; [done| |done]. rewrite Ebs', zlen_drop; rewrite zlen_cons in El; lia.
      * destruct Hv as [Ev Ebs'].
        assert (forall fuel, Decoder.decode (S fuel) decoder_init b = Decoder.decode fuel decoder_init b') as Estep.
        { intros f. cbn [Decoder.decode]. unfold Decoder.decode_step at 1. cbn [decoder_init d_state]. fold decoder_init. by rewrite Ev. }
        split.
        -- intros Hv. destruct fuel as [|fuel]; [done|]. rewrite Estep. by apply (IH b' fuel Hb' (eq_sym Ebs')).
        -- intros Hv Hf. destruct fuel as [|fuel]; [lia|]. rewrite Estep.
           destruct (proj2 (IH b' fuel Hb' (eq_sym Ebs')) Hv) as (b2 & E2 & Hb2 & Eb2); [cbn in Hf; lia|].
           exists b2. do 2 (split; [done|]). rewrite Eb2, zlen_cons. rewrite zlen_cons in El.
           rewrite !Z.max_r by lia. replace (1 + zlen bs - 5) with (zlen bs - 5 + 1) by lia.
           rewrite <- zdrop_zdrop by lia. done.
    + split; [done|]. intros _ Hf. destruct fuel as [|fuel]; [lia|]. exists b. split.
      * cbn [Decoder.decode]. unfold Decoder.decode_step, Decoder.read_verb. cbn [decoder_init d_state].
        by rewrite (size_bytes b Hb), <- Ebs, (proj2 (Z.ltb_lt _ _)) by lia.
      * split; [done|]. rewrite Z.max_l by lia. by rewrite zdrop_0.
Qed.
End http.

(** [GET / HTTP/1.1]. *)
Lemma http_decode_stuck_witness :
  Decoder.decode 1000 decoder_init [71; 69; 84; 32; 47; 32; 72; 84; 84; 80; 47; 49; 46; 49] = Diverge.
Proof.
  refine (proj1 (http_decode_stuck [71; 69; 84; 32; 47; 32; 72; 84; 84; 80; 47; 49; 46; 49] 1000 _) _).
  - cbn. unfold_pow2. unfold zlen. cbn. lia.
  - reflexivity.
Defined.
