(* ===== verification/Optional.v ===== *)
(** * Optional: [optional], [result] and [expected] (xi/util/optional.h,
      xi/util/result.h, xi/ext/expected.h)

    Methods that extract the value empty the object, so they return it as it
    is left behind.  Callbacks may throw: [T -> outcome U].  An [error_code] is
    its value, 0 being no error; all error codes here are of one category. *)
From S2P Require Import Prelude.

Module Optional.
Section optional.
Context {T : Type}.

Definition is_none (o : option T) : bool := match o with None => true | Some _ => false end.
Definition is_some (o : option T) : bool := negb (is_none o).
Definition some (t : T) : option T := Some t.

(** [as_mut()], [as_ref()]: a view of the value; nothing is moved. *)
Definition as_ref (o : option T) : option T := o.

(** [extract_value()] behind a test for [none]. *)
Definition extract_value (o : option T) : outcome (option T * T) :=
  match o with Some t => Ret (None, t) | None => Throw bad_get end.

Definition panic_if_none (o : option T) : outcome unit :=
  if is_none o then Throw optional_panic else Ret tt.

Definition unwrap (o : option T) : outcome (option T * T) :=
  do '_ <- panic_if_none o;; extract_value o.

Definition unwrap_or (o : option T) (def : T) : outcome (option T * T) :=
  if is_none o then Ret (o, def) else extract_value o.

Definition unwrap_or_else (o : option T) (generator : outcome T) : outcome (option T * T) :=
  if is_none o then do t <- generator;; Ret (o, t) else extract_value o.

(** The object left behind and what the call does: the value is out of the
    object before [f] runs. *)
Definition map {U : Type} (o : option T) (f : T -> outcome U) : option T * outcome (option U) :=
  match o with
  | None => (None, Ret None)
  | Some t => (None, do u <- f t;; Ret (Some u))
  end.

(** [map] with an [F] that returns an optional: [some] does not nest. *)
Definition map_flat {U : Type} (o : option T) (f : T -> outcome (option U)) : option T * outcome (option U) :=
  match o with None => (None, Ret None) | Some t => (None, f t) end.

Definition map_or {U : Type} (o : option T) (def : U) (f : T -> outcome U) : option T * outcome U :=
  match o with None => (None, Ret def) | Some t => (None, f t) end.

Definition map_or_else {U : Type} (o : option T) (generator : outcome U) (f : T -> outcome U)
    : option T * outcome U :=
  match o with None => (None, generator) | Some t => (None, f t) end.

Definition and_ {U : Type} (o : option T) (optb : option U) : option U :=
  if is_none o then None else optb.

Definition eq (teq : T -> T -> bool) (o other : option T) : bool :=
  match o, other with
  | None, _ => is_none other
  | Some _, None => false
  | Some a, Some b => teq a b
  end.
Definition neq (teq : T -> T -> bool) (o other : option T) : bool := negb (eq teq o other).
Definition lt (tlt : T -> T -> bool) (o other : option T) : bool :=
  match o, other with Some a, Some b => tlt a b | _, _ => false end.
Definition gt (tlt : T -> T -> bool) (o other : option T) : bool := lt tlt other o.
Definition to_bool (o : option T) : bool := is_some o.
End optional.
End Optional.

(** ** [class result]: [variant< T, error_code, empty_t >] *)

Inductive result (T : Type) : Type :=
  | r_ok (t : T)
  | r_error (e : Z)
  | r_empty.
Arguments r_ok {T} _.
Arguments r_error {T} _.
Arguments r_empty {T}.

Module Result.
Section result.
Context {T : Type}.

Definition is_ok (r : result T) : bool := match r with r_ok _ => true | _ => false end.
Definition is_error (r : result T) : bool := match r with r_error _ => true | _ => false end.
Definition to_error (r : result T) : Z := match r with r_error e => e | _ => 0 end.
Definition is_error_code (r : result T) (e : Z) : bool := is_error r && (to_error r =? e).

(** [extract< T >()], [extract< error_code >()]: [boost::get] throws on the
    wrong alternative. *)
Definition extract (r : result T) : outcome T :=
  match r with r_ok t => Ret t | _ => Throw bad_get end.
Definition extract_error (r : result T) : outcome Z :=
  match r with r_error e => Ret e | _ => Throw bad_get end.

Definition throw_if_error (r : result T) : outcome unit :=
  match r with r_error e => Throw (system_error e) | _ => Ret tt end.

Definition unwrap (r : result T) : outcome (result T * T) :=
  assertO (is_ok r) (do '_ <- throw_if_error r;; do t <- extract r;; Ret (r_empty, t)).

Definition to_optional (r : result T) : outcome (result T * option T) :=
  if is_ok r then do '(r, t) <- unwrap r;; Ret (r, Some t) else Ret (r, None).

(** [ref()] of the comparison operators. *)
Definition ref (r : result T) : outcome T :=
  assertO (is_ok r) (do '_ <- throw_if_error r;; extract r).

Definition eq_error (r : result T) (e : Z) : bool := to_error r =? e.
Definition neq_error (r : result T) (e : Z) : bool := negb (to_error r =? e).
Definition eq {U : Type} (teq : T -> U -> bool) (r : result T) (u : U) : outcome bool :=
  do t <- ref r;; Ret (teq t u).
Definition lt {U : Type} (tlt : T -> U -> bool) (r : result T) (u : U) : outcome bool :=
  do t <- ref r;; Ret (tlt t u).

(** [then(f)] for [F] that returns a value, nothing, or a result; the result
    is left empty. *)
Definition then_bind {U : Type} (r : result T) (f : T -> outcome (result U)) : outcome (result U) :=
  if is_error r then do e <- extract_error r;; Ret (r_error e)
  else do t <- extract r;; f t.
Definition then_map {U : Type} (r : result T) (f : T -> outcome U) : outcome (result U) :=
  then_bind r (fun t => do u <- f t;; Ret (r_ok u)).
Definition then_void (r : result T) (f : T -> outcome unit) : outcome (result unit) :=
  then_bind r (fun t => do '_ <- f t;; Ret (r_ok tt)).

(** [result(result< U > &&)] with the conversion [U -> T]. *)
Definition convert {U : Type} (conv : U -> T) (other : result U) : outcome (result T) :=
  match other with
  | r_ok u => Ret (r_ok (conv u))
  | r_error e => Ret (r_error e)
  | r_empty => Throw bad_get
  end.
End result.

Definition ok {T : Type} (t : T) : result T := r_ok t.
Definition err {T : Type} (e : Z) : result T := r_error e.
Definition result_from_errno {T : Type} (errno : Z) : result T := r_error errno.
End Result.

(** ** [class expected]: [variant< T, error_code >] *)

Inductive expected (T : Type) : Type := e_value (t : T) | e_error (e : Z).
Arguments e_value {T} _.
Arguments e_error {T} _.

Module Expected.
Section expected.
Context {T : Type}.

Definition has_error (x : expected T) : bool := match x with e_error _ => true | _ => false end.
Definition error (x : expected T) : Z := match x with e_error e => e | _ => 0 end.

(** [value() noexcept] and [move_value() noexcept]: the exception cannot
    leave, the program is terminated. *)
Definition value (x : expected T) : outcome T :=
  match x with e_value t => Ret t | e_error _ => Abort end.

(** [fmap(val, f)]: the condition [if (val)] converts to [T] and then to
    [bool]. *)
Definition fmap {U : Type} (to_bool : T -> bool) (x : expected T) (f : T -> outcome U) : outcome (expected U) :=
  do t <- value x;;
  if to_bool t then do t <- value x;; do u <- f t;; Ret (e_value u) else Ret (e_error (error x)).
End expected.

(** [expected< void >] holds an error code. *)
Definition void_of {T : Type} (x : expected T) : Z := if has_error x then error x else 0.
Definition void_has_error (x : Z) : bool := negb (x =? 0).

Definition posix_to_expected (ret errno : Z) : expected Z :=
  if -1 =? ret then e_error errno else e_value ret.
End Expected.

(** ** Properties *)

(** An optional gives its value away once: [unwrap], [unwrap_or] and [map]
    see the value of a non-empty optional and leave [none], so a second
    [unwrap] panics, and that also when the callback of [map] throws; on [none]
    [unwrap] panics and the others use the default or do nothing. *)
Theorem optional_gives_value_once {T U : Type} (o : option T) (def : T) (f : T -> outcome U) :
  match o with
  | Some t => Optional.unwrap o = Ret (None, t) /\ Optional.unwrap_or o def = Ret (None, t) /\
      snd (Optional.map o f) = (do u <- f t;; Ret (Some u))
  | None => Optional.unwrap o = Throw optional_panic /\ Optional.unwrap_or o def = Ret (None, def) /\
      snd (Optional.map o f) = Ret None
  end /\ Optional.unwrap (fst (Optional.map o f)) = Throw optional_panic.
Proof. by destruct o. Qed.

(** [result::then] sequences fallible steps: it is associative, starts with
    the value of a successful result, passes the first error on without running
    later steps, and the error code arrives unchanged. *)
Theorem result_then_sequences {T U V : Type} (r : result T) (f : T -> outcome (result U)) (g : U -> outcome (result V)) :
  r <> r_empty -> (forall t u, f t = Ret u -> u <> r_empty) ->
  (do s <- Result.then_bind r f;; Result.then_bind s g) =
    Result.then_bind r (fun t => do s <- f t;; Result.then_bind s g) /\
  (forall t, r = r_ok t -> Result.then_bind r f = f t) /\
  (Result.is_error r = true ->
    exists s, Result.then_bind r f = Ret s /\ Result.to_error s = Result.to_error r /\
      Result.then_bind s g = Ret (r_error (Result.to_error r))).
Proof.
  intros Hr Hf. split; [|split].
  - destruct r as [t|e|]; [|done|done]. done.
  - by intros t ->.
  - destruct r as [t|e|]; [done| |done]. intros _. by exists (r_error e).
Qed.

(** [fmap] on an [expected] tests the converted value instead of the error:
    an [expected] that holds an error terminates the program, and a value that
    converts to [false] comes back as an [expected] that claims an error, with
    a success code and without a call of [f]. *)
Theorem expected_fmap_tests_value {T U : Type} (to_bool : T -> bool) (x : expected T) (f : T -> outcome U) :
  (Expected.has_error x = true -> Expected.fmap to_bool x f = Abort) /\
  (forall t, x = e_value t -> to_bool t = false ->
     exists y, Expected.fmap to_bool x f = Ret y /\ Expected.has_error y = true /\ Expected.error y = 0) /\
  (forall t u, x = e_value t -> to_bool t = true -> f t = Ret u -> Expected.fmap to_bool x f = Ret (e_value u)).
Proof.
  split; [by destruct x|]. split.
  - intros t -> Hb. exists (e_error 0). unfold Expected.fmap. simpl. by rewrite Hb.
  - intros t u -> Hb Hf. unfold Expected.fmap. simpl. by rewrite Hb, Hf.
Qed.

Lemma result_then_sequences_witness :
  let f t := Ret (if t =? 3 then r_error 5 else r_ok t) in
  let g u := Ret (r_ok (u + 1)) in
  (do s <- Result.then_bind (r_ok 3) f;; Result.then_bind s g) = Ret (r_error 5).
Proof.
  cbv zeta. rewrite (proj1 (result_then_sequences (r_ok 3) (fun t => Ret (if t =? 3 then r_error 5 else r_ok t))
    (fun u => Ret (r_ok (u + 1))) ltac:(discriminate) ltac:(intros t u [= <-]; by case_if))).
  reflexivity.
Defined.
