(* ===== verification/Ring.v ===== *)
(** * Ring: [polymorphic_sp_sc_ring_buffer] (xi/util/polymorphic_sp_sc_ring_buffer.h)

    Objects of different sizes are laid out in a byte array, each behind a
    header with the size of its block; a block never wraps, a marker (or the
    lack of room for one) sends the reader back to the start.  The array is
    modelled by the headers and the objects at the offsets they were written
    to; a read of a header that crosses the end of the array is [Undef].  The
    two indices are atomics of one reader and one writer, so the operations
    are modelled as atomic steps. *)
From S2P Require Import Prelude.

Definition SIZEOF_SIZE_T : Z := 8.
Definition WRAP_MARK : Z := 0xDEADBEEFFACEC0DE.

Section ring.
(** The objects and [sizeof(pod)] of each. *)
Context {T : Type} (sizeof_pod : T -> Z).

Record ring := mk_ring {
  write_idx : Z;
  read_idx : Z;
  SIZE : Z;
  RESERVED_SIZE : Z;
  words : gmap Z Z;      (** headers *)
  objs : gmap Z T;       (** objects, by the offset of their header *)
  destroyed : list T     (** objects whose destructor ran, latest first *)
}.

Definition ring_new (size reserved : Z) : ring := mk_ring 0 0 size reserved ∅ ∅ [].

Definition set_read_idx (r : ring) (i : Z) : ring :=
  mk_ring (write_idx r) i (SIZE r) (RESERVED_SIZE r) (words r) (objs r) (destroyed r).

Definition write_available (writer_idx reader_idx size : Z) : Z :=
  let ret := u64 (reader_idx - writer_idx - 1) in
  if reader_idx <=? writer_idx then u64 (ret + size) else ret.

(** [*reinterpret_cast< size_t* >(&_data[idx])]: bytes never written read 0. *)
Definition header (r : ring) (idx : Z) : outcome Z :=
  if SIZE r <? idx + SIZEOF_SIZE_T then Undef else Ret (default 0 (words r !! idx)).

(** [next_readable_block()]: the offset of the block; [continue] in the
    [do .. while (false)] leaves the loop. *)
Definition next_readable_block (r : ring) : outcome (ring * option Z) :=
  if read_idx r =? write_idx r then Ret (r, None)
  else
    do size <- header r (read_idx r);;
    if (size =? WRAP_MARK) || (SIZE r - read_idx r <=? SIZEOF_SIZE_T) then Ret (set_read_idx r 0, Some 0)
    else Ret (r, Some (read_idx r)).

(** [next()]: the object, or a null pointer. *)
Definition next (r : ring) : outcome (ring * option T) :=
  do '(r, p) <- next_readable_block r;;
  match p with
  | None => Ret (r, None)
  | Some i => do x <- derefO (objs r !! i);; Ret (r, Some x)
  end.

Definition do_push (r : ring) (obj : T) (force : bool) : ring * bool :=
  let size := align_up (sizeof_pod obj) 8 in
  let current_writer_idx := write_idx r in
  let reader_idx := read_idx r in
  let available := write_available current_writer_idx reader_idx (SIZE r) in
  if available <? size then (r, false)
  else
    let wrap := SIZE r <=? u64 (current_writer_idx + size) in
    let adjusted_write_idx := if wrap then 0 else current_writer_idx in
    let available := if wrap then write_available 0 reader_idx (SIZE r) else available in
    if wrap && (available <? size) then (r, false)
    else if negb force && (u64 (available - size) <? RESERVED_SIZE r) then (r, false)
    else
      let words :=
        if (adjusted_write_idx <? current_writer_idx) && (SIZEOF_SIZE_T <? u64 (SIZE r - current_writer_idx))
        then <[current_writer_idx := WRAP_MARK]> (words r) else words r in
      (mk_ring (u64 (adjusted_write_idx + size)) reader_idx (SIZE r) (RESERVED_SIZE r)
         (<[adjusted_write_idx := size]> words) (<[adjusted_write_idx := obj]> (objs r)) (destroyed r), true).

Definition push (r : ring) (obj : T) : ring * bool := do_push r obj false.
Definition push_forced (r : ring) (obj : T) : ring * bool := do_push r obj true.

(** [pop()] on a marker only moves the reader to the start. *)
Definition pop (r : ring) : outcome ring :=
  if read_idx r =? write_idx r then Ret r
  else
    do size <- header r (read_idx r);;
    if size =? WRAP_MARK then Ret (set_read_idx r 0)
    else
      do x <- derefO (objs r !! read_idx r);;
      Ret (mk_ring (write_idx r) (u64 (read_idx r + size)) (SIZE r) (RESERVED_SIZE r) (words r) (objs r) (x :: destroyed r)).

(** ** The queue a ring holds *)

(** Blocks from offset [i] to offset [j]. *)
Inductive seg (r : ring) : Z -> Z -> list T -> Prop :=
  | seg_nil i : seg r i i []
  | seg_cons i j x q :
      words r !! i = Some (align_up (sizeof_pod x) 8) -> objs r !! i = Some x ->
      seg r (i + align_up (sizeof_pod x) 8) j q -> seg r i j (x :: q).

Definition sizes_ok : Prop := forall x, 8 <= sizeof_pod x < 2 ^ 32.

(** Offsets are multiples of 8 and blocks lie inside the array, which may have any
    size: either the reader is behind the writer, or the writer has wrapped and the
    reader has still to reach the end [e] of the first run, where it will wrap too. *)
Inductive holds (r : ring) : list T -> Prop :=
  | holds_straight q :
      0 <= read_idx r <= write_idx r -> write_idx r < SIZE r -> seg r (read_idx r) (write_idx r) q -> holds r q
  | holds_wrapped e q1 q2 :
      0 < write_idx r < read_idx r -> read_idx r <= e -> e < SIZE r ->
      (words r !! e = Some WRAP_MARK \/ SIZE r - e <= 8) ->
      seg r (read_idx r) e q1 -> seg r 0 (write_idx r) q2 -> holds r (q1 ++ q2).

Record ring_ok (r : ring) (q : list T) : Prop := {
  ring_holds : holds r q;
  ring_size : 0 < SIZE r < 2 ^ 62;
  ring_align : (8 | write_idx r) /\ (8 | read_idx r);
  ring_reserved : 0 <= RESERVED_SIZE r
}.

(** The reader stands less than a header before the end of the array. *)
Definition crosses (r : ring) : bool := negb (read_idx r =? write_idx r) && (SIZE r <? read_idx r + SIZEOF_SIZE_T).

(** ** Sizes and indices *)

Lemma align_up_ok v : 0 <= v < 2 ^ 62 -> v <= align_up v 8 < v + 8 /\ (8 | align_up v 8).
Proof.
  intros Hv. unfold align_up. rewrite (u64_id (v + 8)) by (unfold_pow2; lia).
  rewrite u64_id by (unfold_pow2; lia). change (8 - 1) with (Z.ones 3).
  rewrite <- Z.ldiff_land, Z.ldiff_ones_r, Z.shiftl_mul_pow2, Z.shiftr_div_pow2 by lia.
  change (2 ^ 3) with 8. split; [Z.div_mod_to_equations; lia|]. apply Z.divide_factor_r.
Qed.

Lemma size_ok x : sizes_ok -> 8 <= align_up (sizeof_pod x) 8 < 2 ^ 33 /\ (8 | align_up (sizeof_pod x) 8).
Proof.
  intros Hs. specialize (Hs x). destruct (align_up_ok (sizeof_pod x)) as [H1 H2]; [lia|]. split; [lia|done].
Qed.

Lemma divide_gap a b : (8 | a) -> (8 | b) -> a < b -> 8 <= b - a.
Proof. intros [x ->] [y ->] H. lia. Qed.

Lemma available_straight w i n :
  0 <= i <= w -> w < n -> n < 2 ^ 62 -> write_available w i n = n - (w - i) - 1.
Proof.
  intros H1 H2 H3. unfold write_available. rewrite (proj2 (Z.leb_le _ _)) by lia.
  unfold u64, wrap. unfold_pow2. rewrite Zplus_mod_idemp_l. symmetry. apply (Z.mod_unique _ _ 0); lia.
Qed.

Lemma available_wrapped w i n : 0 <= w < i -> i < 2 ^ 62 -> write_available w i n = i - w - 1.
Proof.
  intros H1 H2. unfold write_available. rewrite (proj2 (Z.leb_gt _ _)) by lia.
  rewrite u64_id; unfold_pow2; lia.
Qed.

(** ** Segments *)

Context (Hsizes : sizes_ok).

Lemma seg_bounds r i j q : seg r i j q -> i <= j /\ (q = [] -> i = j) /\ (i = j -> q = []).
Proof.
  induction 1 as [i|i j x q Hw Ho Hs (IH1 & IH2 & IH3)]; [done|]. destruct (size_ok x Hsizes) as [? _].
  split; [lia|]. split; [done|]. lia.
Qed.

Lemma seg_ext r r' i j q :
  (forall k, i <= k < j -> words r' !! k = words r !! k /\ objs r' !! k = objs r !! k) ->
  seg r i j q -> seg r' i j q.
Proof.
  intros He Hs. induction Hs as [i|i j x q Hw Ho Hs IH]; [constructor|].
  destruct (seg_bounds _ _ _ _ Hs) as [Hb _]. destruct (size_ok x Hsizes) as [Hx _].
  destruct (He i) as [E1 E2]; [lia|]. constructor; [by rewrite E1|by rewrite E2|].
  apply IH. intros k Hk. apply He. lia.
Qed.

Lemma seg_snoc r i j q x :
  seg r i j q -> words r !! j = Some (align_up (sizeof_pod x) 8) -> objs r !! j = Some x ->
  seg r i (j + align_up (sizeof_pod x) 8) (q ++ [x]).
Proof.
  induction 1 as [i|i j y q Hw Ho Hs IH]; intros Hj Hx; simpl; constructor; auto. constructor.
Qed.

Lemma seg_front r i j x q :
  seg r i j (x :: q) ->
  words r !! i = Some (align_up (sizeof_pod x) 8) /\ objs r !! i = Some x /\
  seg r (i + align_up (sizeof_pod x) 8) j q /\ i + align_up (sizeof_pod x) 8 <= j.
Proof.
  intros H. inversion H as [|? ? ? ? Hw Ho Hs]; subst. do 3 (split; [done|]). by apply (seg_bounds _ _ _ _ Hs).
Qed.

(** ** The operations on the queue *)

Lemma push_ok r q x force :
  ring_ok r q ->
  exists r' b, do_push r x force = (r', b) /\ (b = false -> r' = r) /\
    ring_ok r' (if (b : bool) then q ++ [x] else q).
Proof.
  intros Hok. pose proof Hok as [Hh Hsz (Ha2 & Ha3) Hrs]. destruct (size_ok x Hsizes) as [Hx Hdx].
  unfold do_push. set (size := align_up (sizeof_pod x) 8) in *.
  destruct Hh as [q [H1 H2] H3 Hseg|e q1 q2 [H1 H2] H3 H4 Hm Hs1 Hs2].
  - rewrite available_straight by lia. case_if; [by exists r, false|].
    rewrite (u64_id (write_idx r + size)) by (unfold_pow2; lia).
    destruct (SIZE r <=? write_idx r + size) eqn:Ew; zbool; cbn [andb].
    + assert (0 < read_idx r) as Hr0 by lia. rewrite available_wrapped by lia.
      case_if; [by exists r, false|]. case_if; [by exists r, false|].
      rewrite (proj2 (Z.ltb_lt _ _)) by lia. cbn [andb].
      rewrite !(u64_id (SIZE r - write_idx r)), u64_id by (unfold_pow2; lia).
      do 2 eexists. split; [done|]. split; [done|]. split; [|done|by rewrite Z.add_0_l|done].
      unfold SIZEOF_SIZE_T in *.
      apply (holds_wrapped _ (write_idx r)); cbn [write_idx read_idx SIZE words objs]; [lia|lia|lia| | |].
      * rewrite lookup_insert_ne by lia. destruct (8 <? SIZE r - write_idx r) eqn:Eg; zbool; [left|right; lia].
        apply lookup_insert_eq.
      * apply (seg_ext r); [|done]. intros k Hk. cbn [words objs]. rewrite !lookup_insert_ne by lia. split; [|done].
        case_if; [|done]. by rewrite lookup_insert_ne by lia.
      * apply seg_cons; cbn [words objs]; [apply lookup_insert_eq|apply lookup_insert_eq|apply seg_nil].
    + case_if; [by exists r, false|]. rewrite Z.ltb_irrefl. cbn [andb]. rewrite u64_id by (unfold_pow2; lia).
      do 2 eexists. split; [done|]. split; [done|].
      split; [|done|split; [by apply Z.divide_add_r|done]|done].
      apply holds_straight; cbn [write_idx read_idx SIZE]; [lia|lia|].
      apply seg_snoc; cbn [words objs]; [|apply lookup_insert_eq|apply lookup_insert_eq].
      apply (seg_ext r); [|done]. intros k Hk. cbn [words objs]. by rewrite !lookup_insert_ne by lia.
  - rewrite available_wrapped by lia. case_if; [by exists r, false|].
    rewrite (u64_id (write_idx r + size)) by (unfold_pow2; lia).
    rewrite (proj2 (Z.leb_gt _ _)) by lia. cbn [andb].
    case_if; [by exists r, false|]. rewrite Z.ltb_irrefl. cbn [andb]. rewrite u64_id by (unfold_pow2; lia).
    do 2 eexists. split; [done|]. split; [done|].
    split; [|done|split; [by apply Z.divide_add_r|done]|done].
    rewrite <- app_assoc.
    apply (holds_wrapped _ e); cbn [write_idx read_idx SIZE words objs]; [lia|lia|lia| | |].
    + by rewrite lookup_insert_ne by lia.
    + apply (seg_ext r); [|done]. intros k Hk. cbn [words objs]. by rewrite !lookup_insert_ne by lia.
    + apply seg_snoc; cbn [words objs]; [|apply lookup_insert_eq|apply lookup_insert_eq].
      apply (seg_ext r); [|done]. intros k Hk. cbn [words objs]. by rewrite !lookup_insert_ne by lia.
Qed.

(** The reader stands at the block of [x]. *)
Definition at_block (r : ring) (x : T) : Prop :=
  words r !! read_idx r = Some (align_up (sizeof_pod x) 8) /\ objs r !! read_idx r = Some x /\
  8 < SIZE r - read_idx r.

Lemma header_block r x i :
  words r !! i = Some (align_up (sizeof_pod x) 8) -> i + SIZEOF_SIZE_T <= SIZE r ->
  header r i = Ret (align_up (sizeof_pod x) 8) /\ (align_up (sizeof_pod x) 8 =? WRAP_MARK) = false.
Proof.
  intros Hw Hi. unfold header. rewrite (proj2 (Z.ltb_ge _ _)) by lia. rewrite Hw. split; [done|].
  apply Z.eqb_neq. destruct (size_ok x Hsizes) as [? _]. unfold WRAP_MARK. lia.
Qed.

Lemma next_at_block r x :
  at_block r x -> read_idx r <> write_idx r -> next r = Ret (r, Some x).
Proof.
  intros (Hw & Ho & Hg) Hne. unfold next, next_readable_block. rewrite (proj2 (Z.eqb_neq _ _)) by done.
  destruct (header_block r x _ Hw) as [-> Em]; [unfold SIZEOF_SIZE_T; lia|]. cbn [bindO]. rewrite Em.
  unfold SIZEOF_SIZE_T. rewrite (proj2 (Z.leb_gt _ _)) by lia. cbn [orb bindO]. by rewrite Ho.
Qed.

(** In an array whose size is a multiple of 8 the reader never does. *)
Lemma crosses_aligned r q : ring_ok r q -> (8 | SIZE r) -> crosses r = false.
Proof.
  intros [Hh Hsz (Ha2 & Ha3) Hrs] Hd. unfold crosses. destruct (Z.eqb_spec (read_idx r) (write_idx r)); [done|]. cbn [negb andb].
  apply Z.ltb_ge. assert (read_idx r < SIZE r) as Hlt by (inversion Hh; lia). pose proof (divide_gap _ _ Ha3 Hd Hlt).
  unfold SIZEOF_SIZE_T. lia.
Qed.

Lemma crosses_undef r : crosses r = true -> next r = Undef /\ pop r = Undef.
Proof.
  unfold crosses. intros [Hne Hlt]%andb_prop. apply negb_true_iff in Hne. unfold next, next_readable_block, pop, header. by rewrite Hne, Hlt.
Qed.

Lemma next_ok r q :
  ring_ok r q -> crosses r = false ->
  exists r', next r = Ret (r', head q) /\ ring_ok r' q /\ destroyed r' = destroyed r /\
    (forall x q', q = x :: q' -> at_block r' x /\ read_idx r' <> write_idx r').
Proof.
  intros Hok Hcr. pose proof Hok as [Hh Hsz (Ha2 & Ha3) Hrs].
  destruct Hh as [q [H1 H2] H3 Hseg|e q1 q2 [H1 H2] H3 H4 Hm Hs1 Hs2].
  - destruct q as [|x q].
    + exists r. destruct (seg_bounds _ _ _ _ Hseg) as (_ & E & _). unfold next, next_readable_block.
      rewrite E, Z.eqb_refl by done. done.
    + destruct (seg_front _ _ _ _ _ Hseg) as (Hw & Ho & _ & Hle). destruct (size_ok x Hsizes) as [Hx _].
      assert (at_block r x) as Hb by (split; [done|split; [done|lia]]).
      exists r. split; [apply next_at_block; [done|lia]|]. split; [done|]. split; [done|].
      intros y q' [= <- <-]. split; [done|lia].
  - destruct q1 as [|x q1].
    + destruct (seg_bounds _ _ _ _ Hs1) as (_ & E & _). specialize (E eq_refl). subst e.
      destruct q2 as [|y q2]; [destruct (seg_bounds _ _ _ _ Hs2) as (_ & E & _); specialize (E eq_refl); lia|].
      destruct (seg_front _ _ _ _ _ Hs2) as (Hw & Ho & _ & Hle). destruct (size_ok y Hsizes) as [Hx _].
      exists (set_read_idx r 0).
      assert (next_readable_block r = Ret (set_read_idx r 0, Some 0)) as En.
      { unfold crosses in Hcr. unfold next_readable_block, header, SIZEOF_SIZE_T in *. rewrite (proj2 (Z.eqb_neq _ _)) in * by lia.
        cbn [negb andb] in Hcr. rewrite Hcr. cbn [bindO]. destruct Hm as [-> | Hm]; [done|].
        by rewrite (proj2 (Z.leb_le _ 8) Hm), orb_true_r. }
      unfold next. rewrite En. cbn [bindO objs set_read_idx]. rewrite Ho. split; [done|].
      split; [split; [|done|split; [done|apply Z.divide_0_r]|done]|].
      * apply holds_straight; simpl; [lia|lia|]. apply (seg_ext r); done.
      * split; [done|]. intros z q' [= <- <-]. simpl. split; [|lia]. split; [done|split; [done|simpl; lia]].
    + destruct (seg_front _ _ _ _ _ Hs1) as (Hw & Ho & _ & Hle). destruct (size_ok x Hsizes) as [Hx _].
      assert (at_block r x) as Hb by (split; [done|split; [done|lia]]).
      exists r. split; [apply next_at_block; [done|lia]|]. split; [done|]. split; [done|].
      intros y q' [= <- <-]. split; [done|lia].
Qed.

Lemma pop_ok r x q :
  ring_ok r (x :: q) -> at_block r x -> read_idx r <> write_idx r ->
  exists r', pop r = Ret r' /\ ring_ok r' q /\ destroyed r' = x :: destroyed r.
Proof.
  intros [Hh Hsz (Ha2 & Ha3) Hrs] (Hw & Ho & Hg) Hne. destruct (size_ok x Hsizes) as [Hx Hdx].
  assert (0 <= read_idx r) as Hr0 by (inversion Hh; lia).
  assert (pop r = Ret (mk_ring (write_idx r) (read_idx r + align_up (sizeof_pod x) 8) (SIZE r) (RESERVED_SIZE r)
    (words r) (objs r) (x :: destroyed r))) as ->.
  { unfold pop. rewrite (proj2 (Z.eqb_neq _ _)) by done.
    destruct (header_block r x _ Hw) as [-> Em]; [unfold SIZEOF_SIZE_T; lia|]. cbn [bindO]. rewrite Em, Ho.
    cbn [derefO bindO]. by rewrite u64_id by (unfold_pow2; lia). }
  eexists. split; [done|]. split; [|done].
  split; [|done|split; [done|by apply Z.divide_add_r]|done].
  remember (x :: q) as q0 eqn:Eq. destruct Hh as [q0 [H1 H2] H3 Hseg|e q1 q2 [H1 H2] H3 H4 Hm Hs1 Hs2].
  - subst q0. destruct (seg_front _ _ _ _ _ Hseg) as (_ & _ & Hs & Hle).
    apply holds_straight; simpl; [lia|lia|]. apply (seg_ext r); done.
  - destruct q1 as [|y q1].
    + destruct (seg_bounds _ _ _ _ Hs1) as (_ & E & _). specialize (E eq_refl). subst e.
      destruct Hm as [Hm|Hm]; [|lia]. rewrite Hw in Hm. injection Hm as Hm. unfold WRAP_MARK in Hm. lia.
    + injection Eq as -> <-. destruct (seg_front _ _ _ _ _ Hs1) as (_ & _ & Hs & Hle).
      apply (holds_wrapped _ e); simpl; [lia|lia|lia|done|apply (seg_ext r); done|apply (seg_ext r); done].
Qed.
End ring.

(** ** Properties *)

(** C13: The ring is a FIFO queue, as long as its reader does not come to stand within
    the last 7 bytes of the array, which cannot happen when the size is a multiple of 8
    (the constructor takes any size).  A new ring holds nothing; a push either appends
    the object or refuses and changes nothing; [next] shows the oldest object (a null
    pointer when there is none) and keeps it; [next] followed by [pop] destroys that
    object and removes it, also across the wrap-around.  Where the reader stands within
    the last 7 bytes, behind the last block before the writer wrapped, [next] and [pop]
    read a header that crosses the end of the array. *)
Theorem ring_is_fifo {T : Type} (sizeof_pod : T -> Z) :
  sizes_ok sizeof_pod ->
  (forall size reserved, 0 < size < 2 ^ 62 -> 0 <= reserved -> ring_ok sizeof_pod (ring_new size reserved) []) /\
  (forall r q x force, ring_ok sizeof_pod r q ->
     exists r' b, do_push sizeof_pod r x force = (r', b) /\ (b = false -> r' = r) /\
       ring_ok sizeof_pod r' (if (b : bool) then q ++ [x] else q)) /\
  (forall r q, ring_ok sizeof_pod r q -> (8 | SIZE r) -> crosses r = false) /\
  (forall r q, ring_ok sizeof_pod r q ->
     if crosses r then next r = Undef /\ pop r = Undef
     else
       exists r', next r = Ret (r', head q) /\ ring_ok sizeof_pod r' q /\
         forall x q', q = x :: q' ->
           exists r'', pop r' = Ret r'' /\ ring_ok sizeof_pod r'' q' /\ destroyed r'' = x :: destroyed r).
Proof.
  intros Hs. split; [|split; [|split]].
  - intros size reserved Hsz Hr. split; [|done|split; apply Z.divide_0_r|done].
    apply holds_straight; simpl; [lia|lia|constructor].
  - intros r q x force Hok. by apply push_ok.
  - intros r q. by apply crosses_aligned.
  - intros r q Hok. destruct (crosses r) eqn:Hcr; [by apply crosses_undef|].
    destruct (next_ok sizeof_pod Hs r q Hok Hcr) as (r' & E & Hok' & Hd & Hb).
    exists r'. split; [done|]. split; [done|]. intros x q' ->. destruct (Hb x q' eq_refl) as [Hat Hne].
    rewrite <- Hd. by apply (pop_ok sizeof_pod Hs).
Qed.

(** [pop] on its own is not enough: when the reader stands at the wrap
    marker, [pop] leaves the loop after moving to the start and removes and
    destroys nothing, although the ring is not empty. *)
Theorem ring_pop_at_mark {T : Type} (sizeof_pod : T -> Z) (r : ring) (q : list T) :
  sizes_ok sizeof_pod -> ring_ok sizeof_pod r q -> read_idx r <> write_idx r -> crosses r = false ->
  words r !! read_idx r = Some WRAP_MARK ->
  q <> [] /\ exists r', pop r = Ret r' /\ ring_ok sizeof_pod r' q /\ destroyed r' = destroyed r.
Proof.
  intros Hs Hok Hne Hcr Hw. destruct (next_ok sizeof_pod Hs r q Hok Hcr) as (r' & E & Hok' & Hd & Hb).
  assert (header r (read_idx r) = Ret WRAP_MARK) as Ehd.
  { unfold crosses in Hcr. rewrite (proj2 (Z.eqb_neq _ _)) in Hcr by done. unfold header. cbn [negb andb] in Hcr. by rewrite Hcr, Hw. }
  unfold next, next_readable_block in E. unfold pop. rewrite (proj2 (Z.eqb_neq _ _)) in * by done.
  rewrite Ehd in *. cbn [bindO] in *. rewrite Z.eqb_refl in *. cbn [orb bindO] in E.
  destruct (objs (set_read_idx r 0) !! 0) as [x|] eqn:Eo; cbn [derefO bindO] in E; [|discriminate].
  injection E as <- Eh. split; [by destruct q|]. exists (set_read_idx r 0). by split.
Qed.

(** ** The properties at concrete inputs *)

(** A ring of 64 bytes and objects of 24 bytes: the third block wraps. *)
Definition ex_sizeof (x : Z) : Z := 24.

Lemma ex_sizes : sizes_ok ex_sizeof.
Proof. intros x. unfold ex_sizeof. lia. Qed.

Definition ex_ring : ring := fst (push ex_sizeof (fst (push ex_sizeof (ring_new 64 0) 1)) 2).
Definition ex_drained : outcome (ring * list (option Z)) :=
  do '(r, a) <- next ex_ring;; do r <- pop r;; do '(r, b) <- next r;; do r <- pop r;;
  let '(r, _) := push ex_sizeof r 3 in
  do '(r', c) <- next r;; Ret (r, [a; b; c]).

Lemma ring_is_fifo_witness :
  ring_ok ex_sizeof ex_ring [1; 2] /\ exists r, ex_drained = Ret (r, [Some 1; Some 2; Some 3]).
Proof.
  destruct (ring_is_fifo ex_sizeof ex_sizes) as (H0 & H1 & _). split.
  - assert (ring_ok ex_sizeof (ring_new 64 0) []) as R0 by (apply H0; lia).
    destruct (H1 _ _ 1 false R0) as (r1 & b1 & E1 & _ & R1).
    assert (b1 = true) as -> by (vm_compute in E1; by injection E1 as _ <-).
    destruct (H1 _ _ 2 false R1) as (r2 & b2 & E2 & _ & R2).
    assert (b2 = true) as -> by (vm_compute in E1; injection E1 as <-; vm_compute in E2; by injection E2 as _ <-).
    unfold ex_ring, push. rewrite E1. cbn [fst]. rewrite E2. exact R2.
  - eexists. vm_compute. reflexivity.
Defined.

(** The test [wrapping_around_because_not_much_size_left]: a ring of 51 bytes of objects
    of 4 bytes (blocks of 16).  The writer wraps at offset 48; when the reader comes
    there, it reads a header of which 3 bytes are left. *)
Definition ex_int (x : Z) : Z := 16.

Definition ex_test (size : Z) : outcome (ring * option Z) :=
  let '(r, _) := push ex_int (ring_new size 0) 1 in
  do '(r, _) <- next r;; do r <- pop r;;
  let '(r, _) := push ex_int r 2 in
  let '(r, _) := push ex_int r 3 in
  do '(r, _) <- next r;; do r <- pop r;;
  let '(r, _) := push ex_int r 4 in
  do '(r, _) <- next r;; do r <- pop r;;
  next r.

Example ring_test_51_undefined : ex_test 51 = Undef.
Proof. reflexivity. Qed.

Example ring_test_56_wraps : exists r, ex_test 56 = Ret (r, Some 4).
Proof. eexists. vm_compute. reflexivity. Qed.

Definition ex_wrapped : ring := match ex_drained with Ret (r, _) => r | _ => ring_new 64 0 end.

Lemma ring_pop_at_mark_witness :
  exists r', pop ex_wrapped = Ret r' /\ destroyed r' = destroyed ex_wrapped /\ destroyed r' = [2; 1].
Proof.
  destruct (ring_pop_at_mark ex_sizeof ex_wrapped [3]) as [_ (r' & E & _ & Hd)].
  - apply ex_sizes.
  - split; [|vm_compute; split; reflexivity| |vm_compute; discriminate].
    + apply (holds_wrapped ex_sizeof ex_wrapped 48 [] [3]).
      * vm_compute. split; reflexivity.
      * vm_compute. discriminate.
      * vm_compute. reflexivity.
      * left. vm_compute. reflexivity.
      * apply seg_nil.
      * apply seg_cons; [vm_compute; reflexivity..|apply seg_nil].
    + split; [by exists 3|by exists 6].
  - vm_compute. discriminate.
  - reflexivity.
  - vm_compute. reflexivity.
  - exists r'. split; [exact E|]. split; [exact Hd|]. rewrite Hd. vm_compute. reflexivity.
Defined.
