(* ===== verification/Channel.v ===== *)
(** * Channel: channels between resumables (xi/core/channel.h,
      xi/util/spin_lock.h)

    The bodies of [put] and [get] run under the bus's spin lock, so each pass
    through the lock is one atomic step.  [self->block()] suspends the calling
    resumable; a sender goes around the loop of [put] when it is unblocked, a
    receiver returns.  Resumables and storage locations are numbers. *)
From S2P Require Import Prelude.

(** ** [class spin_lock] *)

Inductive lock_state := locked | unlocked.

#[export] Instance lock_state_eq_dec : EqDecision lock_state.
Proof. solve_decision. Defined.

Module SpinLock.
(** [_state.exchange(locked)]: what it returns is tested against [locked]. *)
Definition exchange_locked (s : lock_state) : lock_state * bool := (locked, bool_decide (s = locked)).
Definition unlock (s : lock_state) : lock_state := unlocked.
(** [spin_lock(spin_lock&& other)]: the new lock's state and [other]'s. *)
Definition move (other : lock_state) : lock_state * lock_state := (other, unlock other).

(** Threads around one lock: a step is one turn of the loop of [lock()] by a
    thread that wants the lock, or [unlock()] by one that holds it. *)
Record world := mk_world { w_state : lock_state; w_wanting : list Z; w_holding : list Z }.

Inductive step : world -> world -> Prop :=
  | want s ws hs t : step (mk_world s ws hs) (mk_world s (t :: ws) hs)
  | spin s s' ws hs t :
      t ∈ ws -> exchange_locked s = (s', true) -> step (mk_world s ws hs) (mk_world s' ws hs)
  | acquire s s' ws1 ws2 hs t :
      exchange_locked s = (s', false) ->
      step (mk_world s (ws1 ++ t :: ws2) hs) (mk_world s' (ws1 ++ ws2) (t :: hs))
  | release s ws hs1 hs2 t :
      step (mk_world s ws (hs1 ++ t :: hs2)) (mk_world (unlock s) ws (hs1 ++ hs2)).

Definition reachable : world -> Prop := rtc step (mk_world unlocked [] []).
End SpinLock.

(** ** [struct buffer< T, Size >] *)

Section channel.
Context {T : Type} `{Inhabited T} (Size : Z).

Record cbuffer := mk_cbuffer { cb_queue : list T; cb_head : Z; cb_tail : Z }.

Definition cb_next_idx (cur : Z) : Z := u64 (cur + 1) mod Size.

(** [buffer< T, 0 >] refuses both. *)
Definition cb_push (b : cbuffer) (value : T) : cbuffer * bool :=
  if Size =? 0 then (b, false)
  else
    let next_tail := cb_next_idx (cb_tail b) in
    if next_tail =? cb_head b then (b, false)
    else (mk_cbuffer (<[Z.to_nat next_tail := value]> (cb_queue b)) (cb_head b) next_tail, true).

Definition cb_pop (b : cbuffer) : cbuffer * option T :=
  if Size =? 0 then (b, None)
  else if cb_tail b =? cb_head b then (b, None)
  else (mk_cbuffer (cb_queue b) (cb_next_idx (cb_head b)) (cb_tail b), Some (cb_queue b !!! Z.to_nat (cb_head b))).

(** ** [class message_bus< T, Size >] *)

Record bus := mk_bus {
  blocked_senders : list Z;
  blocked_receivers : list (Z * Z);   (** storage and process *)
  bus_buffer : cbuffer;
  stored : list (Z * T);              (** values constructed in storage, latest first *)
  woken : list Z                      (** processes unblocked, latest first *)
}.

Definition bus_new (queue : list T) : bus := mk_bus [] [] (mk_cbuffer queue 0 0) [] [].

Definition maybe_deliver (b : bus) (value : T) : bus * bool :=
  match blocked_receivers b with
  | [] => (b, false)
  | (storage, process) :: rest =>
      let '(buf, popped) := cb_pop (bus_buffer b) in
      match popped with
      | Some v => (mk_bus (blocked_senders b) rest buf ((storage, v) :: stored b) (woken b), false)
      | None => (mk_bus (blocked_senders b) rest buf ((storage, value) :: stored b) (process :: woken b), true)
      end
  end.

Definition maybe_fill (b : bus) : bus :=
  match blocked_senders b with
  | [] => b
  | s :: rest => mk_bus rest (blocked_receivers b) (bus_buffer b) (stored b) (s :: woken b)
  end.

(** One turn of the loop of [put]: [true] returns, [false] blocks. *)
Definition put_once (b : bus) (self : Z) (value : T) : bus * bool :=
  let '(b, delivered) := maybe_deliver b value in
  if (delivered : bool) then (b, true)
  else
    let '(buf, pushed) := cb_push (bus_buffer b) value in
    let b := mk_bus (blocked_senders b) (blocked_receivers b) buf (stored b) (woken b) in
    if (pushed : bool) then (b, true)
    else (mk_bus (blocked_senders b ++ [self]) (blocked_receivers b) (bus_buffer b) (stored b) (woken b), false).

(** [get]: [true] returns with the value stored, [false] blocks. *)
Definition get (b : bus) (self storage : Z) : bus * bool :=
  let '(buf, popped) := cb_pop (bus_buffer b) in
  match popped with
  | Some v =>
      (maybe_fill (mk_bus (blocked_senders b) (blocked_receivers b) buf ((storage, v) :: stored b) (woken b)), true)
  | None =>
      (maybe_fill (mk_bus (blocked_senders b) (blocked_receivers b ++ [(storage, self)]) buf (stored b) (woken b)), false)
  end.

(** ** The channel in use

    [sending] are the processes inside [put] with their values, [sent] all
    values ever passed to [put], [gets] the storages of all calls of [get],
    both latest first.  A process inside [put] runs when it is not blocked. *)
Record world := mk_cworld { w_bus : bus; sending : gmap Z T; sent : list T; gets : list Z }.

Definition world_new (queue : list T) : world := mk_cworld (bus_new queue) ∅ [] [].

Inductive step : world -> world -> Prop :=
  | step_put b ps vs gs p v b' done :
      ps !! p = None -> put_once b p v = (b', done) ->
      step (mk_cworld b ps vs gs) (mk_cworld b' (if (done : bool) then ps else <[p := v]> ps) (v :: vs) gs)
  | step_resume b ps vs gs p v b' done :
      ps !! p = Some v -> p ∉ blocked_senders b -> put_once b p v = (b', done) ->
      step (mk_cworld b ps vs gs) (mk_cworld b' (if (done : bool) then delete p ps else ps) vs gs)
  | step_get b ps vs gs p storage b' done :
      get b p storage = (b', done) ->
      step (mk_cworld b ps vs gs) (mk_cworld b' ps vs (storage :: gs)).

Definition reachable (queue : list T) : world -> Prop := rtc step (world_new queue).

(** Values on their way. *)
Definition in_flight (w : world) : list T := snd <$> map_to_list (sending w).
End channel.

(** ** Invariants *)

Lemma spin_lock_inv w :
  SpinLock.reachable w ->
  (SpinLock.w_state w = unlocked -> SpinLock.w_holding w = []) /\ (length (SpinLock.w_holding w) <= 1)%nat.
Proof.
  apply (rtc_invariant SpinLock.step (fun w => (SpinLock.w_state w = unlocked -> SpinLock.w_holding w = []) /\
    (length (SpinLock.w_holding w) <= 1)%nat)); [|split; [done|simpl; lia]]. intros w1 w2 Hs.
  destruct Hs as [s ws hs t|s s' ws hs t _ E|s s' ws1 ws2 hs t E|s ws hs1 hs2 t]; simpl; intros [H1 H2].
  - done.
  - injection E as <- _. by split.
  - injection E as <- E. apply bool_decide_eq_false in E. split; [done|].
    destruct s; [done|]. rewrite H1 by done. simpl. lia.
  - rewrite length_app in *. simpl in *. destruct hs1, hs2; simpl in *; split; try done; lia.
Qed.

Section rendezvous.
Context {T : Type} `{Inhabited T}.
Implicit Types (b : bus (T := T)) (w : world (T := T)).

Record rendezvous_inv w : Prop := {
  inv_nodup : NoDup (blocked_senders (w_bus w));
  inv_senders : Forall (fun p => is_Some (sending w !! p)) (blocked_senders (w_bus w));
  inv_conserved : (snd <$> stored (w_bus w)) ++ in_flight w ≡ₚ sent w;
  inv_order : rev (fst <$> blocked_receivers (w_bus w)) ++ (fst <$> stored (w_bus w)) = gets w;
  inv_awake : blocked_senders (w_bus w) = [] \/
    (length (blocked_receivers (w_bus w)) + length (blocked_senders (w_bus w)) <= size (sending w))%nat
}.

(** What a turn of [put] does without a buffer. *)
Lemma put_once_cases b p v b' done :
  put_once 0 b p v = (b', done) ->
  (exists s q rest, done = true /\ blocked_receivers b = (s, q) :: rest /\
     blocked_receivers b' = rest /\ blocked_senders b' = blocked_senders b /\ stored b' = (s, v) :: stored b) \/
  (done = false /\ blocked_receivers b = [] /\ blocked_receivers b' = [] /\
     blocked_senders b' = blocked_senders b ++ [p] /\ stored b' = stored b).
Proof.
  unfold put_once, maybe_deliver, cb_pop, cb_push. intros E.
  destruct (blocked_receivers b) as [|[s q] rest] eqn:Er; cbn in E; injection E as <- <-; cbn.
  - right. by rewrite Er.
  - left. by exists s, q, rest.
Qed.

Lemma get_cases b p s b' done :
  get 0 b p s = (b', done) ->
  done = false /\ blocked_receivers b' = blocked_receivers b ++ [(s, p)] /\
  blocked_senders b' = tail (blocked_senders b) /\ stored b' = stored b.
Proof.
  unfold get, cb_pop, maybe_fill. intros E. cbn in E.
  destruct (blocked_senders b) as [|x l] eqn:Es; cbn in E; injection E as <- <-; cbn; by rewrite ?Es.
Qed.

Lemma in_flight_insert (ps : gmap Z T) p (v : T) bs vs gs :
  ps !! p = None -> in_flight (mk_cworld bs (<[p := v]> ps) vs gs) ≡ₚ v :: (snd <$> map_to_list ps).
Proof. intros Hp. unfold in_flight. simpl. by rewrite map_to_list_insert by done. Qed.

Lemma in_flight_delete (ps : gmap Z T) p (v : T) :
  ps !! p = Some v -> snd <$> map_to_list ps ≡ₚ v :: (snd <$> map_to_list (delete p ps)).
Proof. intros Hp. by rewrite <- (map_to_list_delete ps p v Hp). Qed.

Lemma rendezvous_step w w' : step 0 w w' -> rendezvous_inv w -> rendezvous_inv w'.
Proof.
  intros Hs [H1 H2 H3 H4 H5]. unfold in_flight in H3.
  destruct Hs as [b ps vs gs p v b' done Hp E|b ps vs gs p v b' done Hp Hnb E|b ps vs gs p s b' done E];
    cbn [w_bus sending sent gets] in *.
  - destruct (put_once_cases _ _ _ _ _ E) as [(s & q & rest & -> & Er & Er' & Es & Est)|(-> & Er & Er' & Es & Est)].
    + split; cbn [w_bus sending sent gets]; rewrite ?Es, ?Est, ?Er'; rewrite ?Er in *; try done.
      * unfold in_flight. simpl. by rewrite H3.
      * rewrite <- H4. simpl. by rewrite <- app_assoc.
      * destruct H5 as [H5|H5]; [by left|right; simpl in H5; lia].
    + assert (p ∉ blocked_senders b) as Hpn.
      { intros Hin. rewrite Forall_forall in H2. apply list_elem_of_In in Hin. destruct (H2 p Hin) as [? E']. congruence. }
      split; cbn [w_bus sending sent gets]; rewrite ?Es, ?Est, ?Er'; rewrite ?Er in *; try done.
      * apply list.NoDup_app. split; [done|]. split; [|apply NoDup_singleton].
        intros x Hx ->%list_elem_of_singleton. done.
      * apply Forall_app. split.
        -- apply (list.Forall_impl _ _ _ H2). intros x Hx. destruct (decide (x = p)) as [->|]; [by rewrite lookup_insert_eq|].
           by rewrite lookup_insert_ne by done.
        -- apply Forall_cons_2; [by rewrite lookup_insert_eq|apply Forall_nil_2].
      * rewrite in_flight_insert by done. rewrite <- H3. solve_Permutation.
      * right. rewrite map_size_insert_None by done. rewrite length_app. simpl.
        assert (length (blocked_senders b) <= size ps)%nat; [|lia].
        destruct H5 as [->|H5]; simpl in *; lia.
  - destruct (put_once_cases _ _ _ _ _ E) as [(s & q & rest & -> & Er & Er' & Es & Est)|(-> & Er & Er' & Es & Est)].
    + split; cbn [w_bus sending sent gets]; rewrite ?Es, ?Est, ?Er'; rewrite ?Er in *; try done.
      * apply Forall_forall. intros x Hx. rewrite Forall_forall in H2.
        rewrite lookup_delete_ne; [by apply H2|]. intros ->. apply Hnb. by apply list_elem_of_In.
      * unfold in_flight. simpl. rewrite <- H3, (in_flight_delete ps p v Hp). solve_Permutation.
      * rewrite <- H4. simpl. by rewrite <- app_assoc.
      * destruct H5 as [H5|H5]; [by left|right]. rewrite map_size_delete_Some by (by exists v). simpl in H5. lia.
    + split; cbn [w_bus sending sent gets]; rewrite ?Es, ?Est, ?Er'; rewrite ?Er in *; try done.
      * apply list.NoDup_app. split; [done|]. split; [|apply NoDup_singleton].
        intros x Hx ->%list_elem_of_singleton. done.
      * apply Forall_app. split; [done|]. apply Forall_cons_2; [by exists v|apply Forall_nil_2].
      * right. rewrite length_app. simpl.
        assert (length (p :: blocked_senders b) <= size ps)%nat as Hle; [|simpl in Hle; lia].
        rewrite <- size_dom. rewrite <- (size_list_to_set (C := gset Z)) by (by constructor).
        apply subseteq_size. intros x Hx. apply elem_of_list_to_set, elem_of_cons in Hx as [->|Hx].
        -- by apply elem_of_dom_2 in Hp.
        -- rewrite Forall_forall in H2. apply elem_of_dom, H2. by apply list_elem_of_In.
  - destruct (get_cases _ _ _ _ _ E) as (-> & Er & Es & Est).
    split; cbn [w_bus sending sent gets]; rewrite ?Es, ?Est, ?Er.
    + destruct (blocked_senders b); [done|]. by apply list.NoDup_cons in H1 as [_ ?].
    + destruct (blocked_senders b); [done|]. by apply Forall_cons_iff in H2 as [_ ?].
    + unfold in_flight. simpl. done.
    + rewrite fmap_app, rev_app_distr. simpl. by rewrite H4.
    + destruct (blocked_senders b) as [|x l]; [by left|]. right. destruct H5 as [H5|H5]; [done|].
      rewrite length_app. simpl in *. lia.
Qed.

Lemma rendezvous_reachable queue w : reachable 0 queue w -> rendezvous_inv w.
Proof.
  apply (rtc_invariant (step 0) rendezvous_inv); [by apply rendezvous_step|].
  split; simpl; [apply NoDup_nil_2|apply Forall_nil_2|done|done|by left].
Qed.
End rendezvous.

Section shifted.
Context {T : Type} `{Inhabited T} (Size : Z).
Implicit Types (q vs : list T).

Fixpoint push_all (b : cbuffer (T := T)) vs : cbuffer * list bool :=
  match vs with
  | [] => (b, [])
  | v :: vs => let '(b, ok) := cb_push Size b v in let '(b, oks) := push_all b vs in (b, ok :: oks)
  end.

Fixpoint pop_many (n : nat) (b : cbuffer (T := T)) : list (option T) :=
  match n with
  | O => []
  | S n => let '(b, v) := cb_pop Size b in v :: pop_many n b
  end.

Lemma next_idx_inside i : 0 <= i -> i + 1 < Size -> Size < 2 ^ 63 -> cb_next_idx Size i = i + 1.
Proof. intros. unfold cb_next_idx. rewrite u64_id by (unfold_pow2; lia). apply Z.mod_small. lia. Qed.

Lemma push_all_ok q k vs :
  Z.of_nat (length q) = Size -> Size < 2 ^ 63 -> Z.of_nat (k + length vs) < Size ->
  push_all (mk_cbuffer q 0 (Z.of_nat k)) vs =
    (mk_cbuffer (take (S k) q ++ vs ++ drop (S k + length vs) q) 0 (Z.of_nat (k + length vs)),
     replicate (length vs) true).
Proof.
  revert q k. induction vs as [|v vs IH]; intros q k Hq Hs Hn; cbn [push_all length].
  - rewrite !Nat.add_0_r. simpl app. by rewrite take_drop.
  - simpl length in Hn. unfold cb_push. rewrite (proj2 (Z.eqb_neq _ _)) by lia. cbn [cb_tail cb_head cb_queue].
    rewrite next_idx_inside by lia. rewrite (proj2 (Z.eqb_neq _ _)) by lia.
    replace (Z.of_nat k + 1) with (Z.of_nat (S k)) by lia. rewrite Nat2Z.id.
    rewrite IH by (rewrite ?length_insert; simpl in *; lia). simpl replicate.
    assert (take (S (S k)) (<[S k := v]> q) = take (S k) q ++ [v]) as E1.
    { rewrite insert_take_drop by lia. rewrite take_app_ge by (rewrite length_take; lia).
      rewrite length_take_le by lia. replace (S (S k) - S k)%nat with 1%nat by lia. done. }
    assert (drop (S (S k) + length vs) (<[S k := v]> q) = drop (S (S k) + length vs) q) as E2.
    { by rewrite drop_insert_lt by lia. }
    rewrite E1, E2, <- app_assoc. cbn [app].
    replace (S (S k) + length vs)%nat with (S k + S (length vs))%nat by lia.
    by replace (S k + length vs)%nat with (k + S (length vs))%nat by lia.
Qed.

Lemma pop_many_ok q j n :
  Z.of_nat (length q) = Size -> Size < 2 ^ 63 -> Z.of_nat (j + n) < Size ->
  pop_many n (mk_cbuffer q (Z.of_nat j) (Z.of_nat (j + n))) = Some <$> take n (drop j q).
Proof.
  intros Hq Hs. revert j. induction n as [|n IH]; intros j Hn; cbn [pop_many]; [by rewrite take_0|].
  unfold cb_pop. rewrite (proj2 (Z.eqb_neq _ _)) by lia. cbn [cb_tail cb_head cb_queue].
  rewrite (proj2 (Z.eqb_neq _ _)) by lia. rewrite next_idx_inside by lia.
  replace (Z.of_nat j + 1) with (Z.of_nat (S j)) by lia.
  replace (Z.of_nat (j + S n)) with (Z.of_nat (S j + n)) by lia. rewrite IH by lia. rewrite Nat2Z.id.
  destruct (lookup_lt_is_Some_2 q j) as [x Hx]; [lia|].
  rewrite (list_lookup_total_correct _ _ _ Hx), (drop_S _ _ _ Hx). done.
Qed.
End shifted.

(** ** Properties *)

(** Values sent over a channel without a buffer (the default) are delivered
    exactly once: in every reachable state the values ever sent are those
    stored for receivers together with those still being sent; receivers are
    served in the order of their calls; and whenever a sender and a receiver
    are both blocked there are at least as many woken senders on their way as
    blocked receivers, so no wake-up is lost. *)
Theorem channel_rendezvous {T : Type} `{Inhabited T} (queue : list T) (w : world) :
  reachable 0 queue w ->
  (snd <$> stored (w_bus w)) ++ in_flight w ≡ₚ sent w /\
  rev (fst <$> blocked_receivers (w_bus w)) ++ (fst <$> stored (w_bus w)) = gets w /\
  (blocked_senders (w_bus w) <> [] ->
   (length (blocked_receivers (w_bus w)) <= size (sending w) - length (blocked_senders (w_bus w)))%nat).
Proof.
  intros Hr. destruct (rendezvous_reachable queue w Hr) as [_ _ H3 H4 H5].
  split; [done|]. split; [done|]. intros Hne. destruct H5 as [H5|H5]; [done|lia].
Qed.

(** The buffer of a buffered channel is off by one: [push] writes behind
    the index that [pop] reads first.  After pushing [vs] to a fresh buffer,
    the pops return whatever the first slot held initially, then [vs] without
    its last element, which stays behind. *)
Theorem channel_buffer_shifts {T : Type} `{Inhabited T} (Size : Z) (x : T) (queue vs : list T) :
  zlen (x :: queue) = Size -> Size < 2 ^ 63 -> zlen vs < Size ->
  let '(b, oks) := push_all Size (mk_cbuffer (x :: queue) 0 0) vs in
  Forall (fun ok => ok = true) oks /\
  pop_many Size (length vs) b = Some <$> take (length vs) (x :: vs).
Proof.
  unfold zlen. intros Hq Hs Hn. change 0 with (Z.of_nat 0) at 2. rewrite (push_all_ok Size (x :: queue) 0 vs) by (done || lia). split.
  - by apply Forall_replicate.
  - change 0 with (Z.of_nat 0) at 1. rewrite (pop_many_ok Size _ 0); [|rewrite <- Hq; f_equal; rewrite !length_app, length_take, length_drop; simpl in *; lia|done|done].
    rewrite drop_0. f_equal. change (take 1 (x :: queue)) with [x]. cbn [app].
    destruct vs as [|v vs]; [done|]. cbn [length take]. f_equal. rewrite take_app_le by (simpl; lia). done.
Qed.

(** At most one thread holds a [spin_lock] in any interleaving of threads
    that call [lock] and [unlock] in turn, and while one does the others keep
    spinning. *)
Theorem spin_lock_exclusive (w : SpinLock.world) :
  SpinLock.reachable w ->
  (length (SpinLock.w_holding w) <= 1)%nat /\
  (SpinLock.w_holding w <> [] -> snd (SpinLock.exchange_locked (SpinLock.w_state w)) = true).
Proof.
  intros Hr. destruct (spin_lock_inv w Hr) as [H1 H2]. split; [done|]. intros Hne.
  unfold SpinLock.exchange_locked. simpl. apply bool_decide_eq_true. destruct (SpinLock.w_state w); [done|].
  by rewrite H1 in Hne.
Qed.

(** ** The properties at concrete inputs *)

(** One sender blocks, a receiver comes and wakes it, it delivers. *)
Definition ex_world : world := mk_cworld
  (mk_bus [] [] (mk_cbuffer [0] 0 0) [(500, 42)] [2; 1]) ∅ [42] [500].

Lemma ex_world_reachable : reachable 0 [0] ex_world.
Proof.
  eapply rtc_l.
  { apply (step_put 0 (bus_new [0]) ∅ [] [] 1 42); [done|]. reflexivity. }
  eapply rtc_l.
  { eapply (step_get 0 _ _ _ _ 2 500). reflexivity. }
  eapply rtc_l.
  { eapply (step_resume 0 _ _ _ _ 1 42); [reflexivity| |reflexivity]. cbn. apply not_elem_of_nil. }
  apply rtc_done. vm_compute. reflexivity.
Qed.

Lemma channel_rendezvous_witness :
  (snd <$> stored (w_bus ex_world)) ++ in_flight ex_world ≡ₚ [42] /\ gets ex_world = [500].
Proof.
  destruct (channel_rendezvous [0] ex_world) as (H1 & H2 & _).
  - exact ex_world_reachable.
  - split; [exact H1|]. rewrite <- H2. reflexivity.
Defined.

Lemma channel_buffer_shifts_witness :
  let '(b, _) := push_all 4 (mk_cbuffer [0; 0; 0; 0] 0 0) [7; 8; 9] in
  pop_many 4 3 b = [Some 0; Some 7; Some 8].
Proof.
  pose proof (channel_buffer_shifts 4 0 [0; 0; 0] [7; 8; 9] eq_refl eq_refl eq_refl) as H.
  destruct (push_all 4 (mk_cbuffer [0; 0; 0; 0] 0 0) [7; 8; 9]) as [b oks]. exact (proj2 H).
Defined.

Lemma spin_lock_exclusive_witness :
  (length (SpinLock.w_holding (SpinLock.mk_world locked [2%Z] [1%Z])) <= 1)%nat.
Proof.
  apply spin_lock_exclusive. unfold SpinLock.reachable.
  eapply rtc_l; [apply (SpinLock.want _ _ _ 1)|]. eapply rtc_l; [apply (SpinLock.want _ _ _ 2)|].
  eapply rtc_l; [apply (SpinLock.acquire unlocked locked [2] [] [] 1); reflexivity|]. apply rtc_refl.
Defined.
