(* ===== verification/Future.v ===== *)
(** * Future: futures, promises and latches (xi/core/future/, xi/core/latch.h)

    Shared states live in a store; a future is a ready state of its own or a
    reference to a shared one.  Values are all of one type [V] and continuations
    are pure: [V -> fres V], they return a value or a future or throw.  A call
    holds the state's spin lock while it runs the callback, so a call is one
    atomic step.  A value moved out of a state is not told apart from one still
    there.  Setting a state can run a chain of callbacks; fuel bounds its
    length. *)
From S2P Require Import Prelude.

Section futures.
Context {V : Type}.

(** [variant< unfulfilled, T, exception_ptr >] of [state< T >]. *)
Inductive st : Type :=
  | unfulfilled
  | has_value (v : V)
  | has_exception (e : exn).

Inductive future : Type :=
  | f_local (x : st)
  | f_shared (i : positive).

(** What a continuation does. *)
Inductive fres : Type :=
  | f_value (v : V)
  | f_future (f : future)
  | f_throw (e : exn).

(** [class promise]: [None] is a promise that was moved from. *)
Record promise := mk_promise { p_state : option positive; p_future_made : bool; p_value_set : bool }.

(** The closure of [set_continuation]; [cb_shard] is its executor, if any. *)
Record callback := mk_callback { cb_promise : promise; cb_fun : V -> fres; cb_shard : option Z }.

(** [_callback]: empty, callable, or destroyed after it ran. *)
Inductive callback_slot : Type := no_callback | some_callback (c : callback) | spent_callback.

Record shared_state := mk_shared { sh_state : st; sh_callback : callback_slot }.

(** A task posted to a shard. *)
Record task := mk_task { t_shard : Z; t_promise : promise; t_fun : V -> fres; t_value : V }.

Record store := mk_store { states : gmap positive shared_state; fresh : positive; posted : list task }.

Definition store_empty : store := mk_store ∅ 1 [].
End futures.
Arguments st : clear implicits.
Arguments future : clear implicits.
Arguments fres : clear implicits.
Arguments callback : clear implicits.
Arguments callback_slot : clear implicits.
Arguments shared_state : clear implicits.
Arguments task : clear implicits.
Arguments store : clear implicits.

Module State.
Section state.
Context {V : Type}.
Implicit Types (x : st V).
Definition is_ready (x : st V) : bool := match x with unfulfilled => false | _ => true end.
Definition is_exception (x : st V) : bool := match x with has_exception _ => true | _ => false end.

(** [get_value()]: rethrows the exception. *)
Definition get_value (x : st V) : outcome V :=
  assertO (is_ready x)
    match x with has_value v => Ret v | has_exception e => Throw e | unfulfilled => Abort end.

Definition get_exception (x : st V) : outcome exn :=
  assertO (is_exception x) match x with has_exception e => Ret e | _ => Throw bad_get end.

(** [make_ready_future(...)] of what a continuation did. *)
Definition ready_of (r : fres V) : future V :=
  match r with f_value v => f_local (has_value v) | f_future f => f | f_throw e => f_local (has_exception e) end.

(** [set_continuation(f)] of a state that is ready. *)
Definition set_continuation (x : st V) (f : V -> fres V) : outcome (future V) :=
  match x with
  | has_exception e => Ret (f_local (has_exception e))
  | _ => do v <- get_value x;; Ret (ready_of (f v))
  end.
End state.
End State.

Section stores.
Context {V : Type}.

Definition put_shared (s : store V) (i : positive) (sh : shared_state V) : store V :=
  mk_store (<[i := sh]> (states s)) (fresh s) (posted s).

Definition state_of (s : store V) (i : positive) : outcome (st V) :=
  do sh <- derefO (states s !! i);; Ret (sh_state sh).

End stores.

Module Future.
Section future.
Context {V : Type}.

(** [get_state()]. *)
Definition get_state (s : store V) (f : future V) : outcome (st V) :=
  match f with f_local x => Ret x | f_shared i => state_of s i end.
Definition is_ready (s : store V) (f : future V) : outcome bool := do x <- get_state s f;; Ret (State.is_ready x).
Definition is_exception (s : store V) (f : future V) : outcome bool := do x <- get_state s f;; Ret (State.is_exception x).
Definition make_ready_future (v : V) : future V := f_local (has_value v).
Definition make_ready_future_exn (e : exn) : future V := f_local (has_exception e).
End future.
End Future.

(** ** class promise *)
Module Promise.
Section promise.
Context {V : Type}.

(** [promise()]: a fresh shared state. *)
Definition make (s : store V) : store V * promise :=
  (mk_store (<[fresh s := mk_shared unfulfilled no_callback]> (states s)) (fresh s + 1)%positive (posted s),
   mk_promise (Some (fresh s)) false false).

Definition get_future (p : promise) : outcome (promise * future V) :=
  if p_future_made p then Throw invalid_promise_exception
  else
    do i <- derefO (p_state p);;
    Ret (mk_promise (p_state p) true (p_value_set p), f_shared i).

Definition moved_from : promise := mk_promise None false false.

(** The operations that fulfil a promise, given [shared_state::set]. *)
Section with_set.
Context (set_state : store V -> positive -> st V -> outcome (store V)).

(** [set(T)], [set(exception_ptr)]. *)
Definition set (s : store V) (p : promise) (x : st V) : outcome (store V * promise) :=
  if p_value_set p then Throw invalid_promise_exception
  else
    do i <- derefO (p_state p);;
    do s <- set_state s i x;;
    Ret (s, mk_promise (p_state p) (p_future_made p) true).

(** [set(future< T > &&)] with [extract_into_shared_state]: a ready value goes
    to the promise's state; otherwise the promise takes over the state of the
    future and forgets its own. *)
Definition set_future (s : store V) (p : promise) (f : future V) : outcome (store V * promise) :=
  if p_value_set p then Throw invalid_promise_exception
  else
    do x <- Future.get_state s f;;
    if State.is_ready x then
      do i <- derefO (p_state p);;
      do v <- State.get_value x;;
      do s <- set_state s i (has_value v);;
      Ret (s, mk_promise (p_state p) (p_future_made p) true)
    else
      match f with
      | f_shared i => Ret (s, mk_promise (Some i) (p_future_made p) true)
      | f_local _ => Throw bad_get
      end.

(** [~promise()]. *)
Definition destroy (s : store V) (p : promise) : outcome (store V) :=
  match p_state p with
  | None => Ret s
  | Some i =>
      do x <- state_of s i;;
      if State.is_ready x then Ret s else set_state s i (has_exception broken_promise_exception)
  end.

(** [try { promise.set(f(v)); } catch (...) { promise.set(current_exception()); }]:
    an exception that leaves the first [set] finds the flag already set. *)
Definition set_applied (s : store V) (p : promise) (f : V -> fres V) (v : V) : outcome (store V * promise) :=
  let guarded (r : outcome (store V * promise)) :=
    match r with Throw _ => Throw invalid_promise_exception | _ => r end in
  match f v with
  | f_value u => guarded (set s p (has_value u))
  | f_future g => guarded (set_future s p g)
  | f_throw e => set s p (has_exception e)
  end.

(** The body of a callback run on the state [x]; the closure, and with it the
    promise, is destroyed afterwards. *)
Definition run_callback (s : store V) (c : callback V) (x : st V) : outcome (store V) :=
  match x with
  | has_exception e => do '(s, p) <- set s (cb_promise c) (has_exception e);; destroy s p
  | _ =>
      do v <- State.get_value x;;
      match cb_shard c with
      | None => do '(s, p) <- set_applied s (cb_promise c) (cb_fun c) v;; destroy s p
      | Some e =>
          do s <- destroy s moved_from;;
          Ret (mk_store (states s) (fresh s) (posted s ++ [mk_task e (cb_promise c) (cb_fun c) v]))
      end
  end.
End with_set.
End promise.
End Promise.

(** ** class shared_state *)
Module SharedState.
Section shared_state.
Context {V : Type}.

(** [set(x)] with [maybe_callback()]. *)
Fixpoint set (fuel : nat) (s : store V) (i : positive) (x : st V) : outcome (store V) :=
  match fuel with
  | O => Diverge
  | S fuel =>
      do sh <- derefO (states s !! i);;
      let s := put_shared s i (mk_shared x (sh_callback sh)) in
      match sh_callback sh with
      | no_callback => Ret s
      | spent_callback => Undef
      | some_callback c =>
          do s <- Promise.run_callback (set fuel) s c x;;
          do sh <- derefO (states s !! i);;
          Ret (put_shared s i (mk_shared (sh_state sh) spent_callback))
      end
  end.

(** [set_continuation]: a ready state answers at once; otherwise the callback
    storage is overwritten. *)
Definition set_continuation (s : store V) (i : positive) (shard : option Z) (f : V -> fres V)
    : outcome (store V * future V) :=
  do sh <- derefO (states s !! i);;
  if State.is_ready (sh_state sh) then
    match shard, sh_state sh with
    | None, x => do g <- State.set_continuation x f;; Ret (s, g)
    | Some _, has_exception e => Ret (s, f_local (has_exception e))
    | Some e, x =>
        let '(s, p) := Promise.make s in
        do '(p, g) <- Promise.get_future p;;
        do v <- State.get_value x;;
        Ret (mk_store (states s) (fresh s) (posted s ++ [mk_task e p f v]), g)
    end
  else
    let '(s, p) := Promise.make s in
    do '(p, g) <- Promise.get_future p;;
    do sh <- derefO (states s !! i);;
    Ret (put_shared s i (mk_shared (sh_state sh) (some_callback (mk_callback p f shard))), g).
End shared_state.
End SharedState.

Section futures.
Context {V : Type}.

(** [future::then(f)], [future::then(shard, f)]. *)
Definition then_ (s : store V) (fut : future V) (shard : option Z) (f : V -> fres V) : outcome (store V * future V) :=
  match fut with
  | f_shared i => SharedState.set_continuation s i shard f
  | f_local x =>
      match shard, x with
      | None, _ => do g <- State.set_continuation x f;; Ret (s, g)
      | Some _, has_exception e => Ret (s, f_local (has_exception e))
      | Some e, _ =>
          let '(s, p) := Promise.make s in
          do '(p, g) <- Promise.get_future p;;
          do v <- State.get_value x;;
          Ret (mk_store (states s) (fresh s) (posted s ++ [mk_task e p f v]), g)
      end
  end.

(** Enough fuel for any chain of callbacks. *)
Definition set_fuel (s : store V) : nat := S (size (states s)).

Definition promise_set (s : store V) (p : promise) (x : st V) : outcome (store V * promise) :=
  Promise.set (fun s => SharedState.set (set_fuel s) s) s p x.
Definition promise_set_future (s : store V) (p : promise) (f : future V) : outcome (store V * promise) :=
  Promise.set_future (fun s => SharedState.set (set_fuel s) s) s p f.
Definition promise_destroy (s : store V) (p : promise) : outcome (store V) :=
  Promise.destroy (fun s => SharedState.set (set_fuel s) s) s p.

(** [apply(func, args...)]. *)
Definition promise_apply (s : store V) (p : promise) (f : V -> fres V) (v : V) : outcome (store V * promise) :=
  Promise.set_applied (fun s => SharedState.set (set_fuel s) s) s p f v.

(** A posted task, run on its shard. *)
Definition run_task (s : store V) (t : task V) : outcome (store V) :=
  do '(s, p) <- promise_apply s (t_promise t) (t_fun t) (t_value t);; promise_destroy s p.
End futures.

(** ** class latch *)
Module Latch.
Record latch := mk_latch { l_count : Z; l_promise : promise }.
Abbreviation lstore := (store unit).

Definition make (s : lstore) (c : Z) : outcome (lstore * latch) :=
  let '(s, p) := Promise.make s in
  if 0 =? c then do '(s, p) <- promise_set s p (has_value tt);; Ret (s, mk_latch c p)
  else Ret (s, mk_latch c p).

(** [count_down(amount)]: the loop around the compare-exchange is one atomic
    step. *)
Definition count_down (s : lstore) (l : latch) (amount : Z) : outcome (lstore * latch) :=
  if 0 =? l_count l then Ret (s, l)
  else
    let new_count := if amount <? l_count l then l_count l - amount else 0 in
    if new_count =? 0 then
      do '(s, p) <- promise_set s (l_promise l) (has_value tt);; Ret (s, mk_latch new_count p)
    else Ret (s, mk_latch new_count (l_promise l)).

Definition count (l : latch) : Z := l_count l.

Definition await (l : latch) : outcome (latch * future unit) :=
  do '(p, f) <- Promise.get_future (l_promise l);; Ret (mk_latch (l_count l) p, f).

Fixpoint count_downs (s : lstore) (l : latch) (amounts : list Z) : outcome (lstore * latch) :=
  match amounts with
  | [] => Ret (s, l)
  | a :: amounts => do '(s, l) <- count_down s l a;; count_downs s l amounts
  end.
End Latch.

(** ** Chains of continuations *)
Section chains.
Context {V : Type}.
Implicit Types (s : store V) (x : st V) (f : V -> fres V) (fs : list (V -> fres V)).

(** A continuation that returns a value or throws. *)
Definition plain f : Prop := forall v, match f v with f_future _ => False | _ => True end.

(** What a continuation makes of a ready state. *)
Definition apply_st x f : st V :=
  match x with
  | has_value v =>
      match f v with f_value u => has_value u | f_throw e => has_exception e | f_future _ => unfulfilled end
  | _ => x
  end.

Fixpoint then_all s (fut : future V) fs : outcome (store V * future V) :=
  match fs with
  | [] => Ret (s, fut)
  | f :: fs => do '(s, g) <- then_ s fut None f;; then_all s g fs
  end.

(** Every state was handed out by [fresh]. *)
Definition store_wf s : Prop := forall i, is_Some (states s !! i) -> (i < fresh s)%positive.

Inductive chain s : positive -> list (V -> fres V) -> positive -> Prop :=
  | chain_nil i : states s !! i = Some (mk_shared unfulfilled no_callback) -> chain s i [] i
  | chain_cons i k f fs j :
      states s !! i = Some (mk_shared unfulfilled
        (some_callback (mk_callback (mk_promise (Some k) true false) f None))) ->
      (i < k)%positive -> chain s k fs j -> chain s i (f :: fs) j.

Lemma chain_ext s s' i fs j :
  (forall k, (i <= k)%positive -> states s' !! k = states s !! k) -> chain s i fs j -> chain s' i fs j.
Proof.
  intros He Hc. induction Hc as [i H|i k f fs j H Hk Hc IH].
  - constructor. by rewrite He by lia.
  - apply (chain_cons _ _ k); [by rewrite He by lia|done|]. apply IH. intros l Hl. apply He. lia.
Qed.

Lemma chain_end s i fs j : chain s i fs j -> (i <= j)%positive.
Proof. induction 1; lia. Qed.

Lemma chain_keys s i fs j : chain s i fs j ->
  exists ks, length ks = S (length fs) /\ NoDup ks /\
    Forall (fun k => (i <= k)%positive /\ is_Some (states s !! k)) ks.
Proof.
  induction 1 as [i H|i k f fs j H Hk Hc (ks & Hl & Hnd & Hf)].
  - exists [i]. split; [done|]. split; [apply NoDup_singleton|]. apply Forall_cons_2; [by rewrite H|apply Forall_nil_2].
  - exists (i :: ks). split; [simpl; by rewrite Hl|]. split.
    + apply NoDup_cons_2; [|done]. intros Hin. rewrite Forall_forall in Hf.
      apply list_elem_of_In in Hin. destruct (Hf i Hin). lia.
    + apply Forall_cons_2; [by rewrite H|]. apply (list.Forall_impl _ _ _ Hf). intros l [? ?]. split; [lia|done].
Qed.

Lemma chain_length s i fs j : chain s i fs j -> (length fs < size (states s))%nat.
Proof.
  intros Hc. destruct (chain_keys s i fs j Hc) as (ks & Hl & Hnd & Hf).
  rewrite <- size_dom. enough (length ks <= size (dom (states s)))%nat by lia.
  rewrite <- (size_list_to_set (C := gset positive)) by done. apply subseteq_size.
  intros k Hk. apply elem_of_list_to_set in Hk. rewrite Forall_forall in Hf. apply elem_of_dom.
  by apply Hf, list_elem_of_In.
Qed.

Lemma apply_ready x f : plain f -> State.is_ready x = true -> State.is_ready (apply_st x f) = true.
Proof. intros Hp Hx. destruct x as [|v|e]; try done. simpl. specialize (Hp v). by destruct (f v). Qed.

Lemma state_of_put s i sh : state_of (put_shared s i sh) i = Ret (sh_state sh).
Proof. unfold state_of, put_shared. cbn [states]. by rewrite lookup_insert_eq. Qed.

Lemma state_of_put_ne s i j sh : i <> j -> state_of (put_shared s i sh) j = state_of s j.
Proof. intros H. unfold state_of, put_shared. cbn [states]. by rewrite lookup_insert_ne. Qed.

(** A callback with a plain function forwards the outcome to its promise. *)
Lemma run_callback_plain (set_state : store V -> positive -> st V -> outcome (store V)) s s' k f x :
  plain f -> State.is_ready x = true -> set_state s k (apply_st x f) = Ret s' ->
  state_of s' k = Ret (apply_st x f) ->
  Promise.run_callback set_state s (mk_callback (mk_promise (Some k) true false) f None) x = Ret s'.
Proof.
  intros Hp Hx E Es. pose proof (apply_ready x f Hp Hx) as Hr. unfold Promise.run_callback.
  assert (forall p, p_state p = Some k -> Promise.destroy set_state s' p = Ret s') as Hd.
  { intros p Ep. unfold Promise.destroy. rewrite Ep, Es. cbn [bindO]. by rewrite Hr. }
  destruct x as [|v|e]; [done| |].
  - cbn [State.get_value State.is_ready assertO bindO cb_shard cb_promise cb_fun]. unfold Promise.set_applied, Promise.set.
    cbn [p_value_set p_state derefO bindO]. simpl apply_st in *. specialize (Hp v).
    destruct (f v) as [u|g|e]; [|done|]; rewrite E; cbn [bindO]; by apply Hd.
  - cbn [cb_promise]. unfold Promise.set. cbn [p_value_set p_state derefO bindO]. simpl apply_st in *. rewrite E.
    cbn [bindO]. by apply Hd.
Qed.

(** A callback whose function returns a pending future breaks that future. *)
Lemma run_callback_future (set_state : store V -> positive -> st V -> outcome (store V)) s s' k f v j :
  f v = f_future (f_shared j) -> state_of s j = Ret unfulfilled ->
  set_state s j (has_exception broken_promise_exception) = Ret s' ->
  Promise.run_callback set_state s (mk_callback (mk_promise (Some k) true false) f None) (has_value v) = Ret s'.
Proof.
  intros Hf Es E. unfold Promise.run_callback. cbn [State.get_value State.is_ready assertO bindO cb_shard cb_promise cb_fun].
  unfold Promise.set_applied. rewrite Hf. unfold Promise.set_future. cbn [p_value_set Future.get_state]. rewrite Es.
  cbn [bindO State.is_ready p_future_made]. unfold Promise.destroy. cbn [p_state]. rewrite Es. cbn [bindO State.is_ready].
  done.
Qed.

Lemma set_no_callback n s i x y :
  states s !! i = Some (mk_shared y no_callback) ->
  SharedState.set (S n) s i x = Ret (put_shared s i (mk_shared x no_callback)).
Proof. intros H. cbn [SharedState.set]. by rewrite H. Qed.

(** The state the callback of [i] will fulfil. *)
Definition next_of s (i : positive) : option positive :=
  match states s !! i with
  | Some (mk_shared _ (some_callback c)) => p_state (cb_promise c)
  | _ => None
  end.

Lemma next_of_chain s i fs j k : chain s i fs j -> next_of s i = Some k -> (i < k)%positive.
Proof.
  unfold next_of. destruct 1 as [i Hi|i k' f fs j Hi Hk _]; rewrite Hi; [done|]. by intros [= <-].
Qed.

(** Fulfilling the first state of a chain fulfils the last with the fold. *)
Lemma set_chain fuel s i fs j x :
  chain s i fs j -> Forall plain fs -> State.is_ready x = true -> (length fs < fuel)%nat ->
  exists s', SharedState.set fuel s i x = Ret s' /\
    state_of s' j = Ret (fold_left apply_st fs x) /\ state_of s' i = Ret x /\
    (forall l, l <> i -> (forall k, next_of s i = Some k -> (l < k)%positive) -> states s' !! l = states s !! l).
Proof.
  intros Hc. revert fuel s x Hc. revert i. induction fs as [|f fs IH]; intros i fuel s x Hc Hp Hx Hf;
    (destruct fuel as [|fuel]; [simpl in Hf; lia|]); cbn [SharedState.set].
  - inversion Hc as [i' Hi|]; subst. rewrite Hi. cbn [derefO bindO sh_callback]. eexists. split; [done|].
    rewrite state_of_put. do 2 (split; [done|]). intros l Hl _. simpl. by rewrite lookup_insert_ne.
  - inversion Hc as [|i' k f' fs' j' Hi Hk Hc']; subst. rewrite Hi. cbn [derefO bindO sh_callback].
    apply Forall_cons_iff in Hp as [Hpf Hp].
    set (s1 := put_shared s i _).
    assert (chain s1 k fs j) as Hc1.
    { apply (chain_ext s); [|done]. intros l Hl. simpl. by rewrite lookup_insert_ne by lia. }
    destruct (IH k fuel s1 (apply_st x f) Hc1 Hp (apply_ready x f Hpf Hx)) as (s2 & E & Ej & Ek & Hl); [simpl in Hf; lia|].
    rewrite (run_callback_plain (SharedState.set fuel) s1 s2 k f x Hpf Hx E Ek). cbn [bindO].
    assert (states s2 !! i = states s1 !! i) as Hi2.
    { apply Hl; [lia|]. intros k' Hk'. pose proof (next_of_chain _ _ _ _ _ Hc1 Hk'). lia. }
    rewrite Hi2. subst s1. cbn [put_shared states]. rewrite lookup_insert_eq. cbn [derefO bindO sh_state].
    eexists. split; [done|]. pose proof (chain_end _ _ _ _ Hc').
    split; [rewrite state_of_put_ne by lia; done|]. split; [by rewrite state_of_put|].
    intros l Hne Hlt. assert (l < k)%positive as Hlk by (apply Hlt; unfold next_of; by rewrite Hi).
    simpl. rewrite lookup_insert_ne by done. rewrite Hl; [simpl; by rewrite lookup_insert_ne|lia|].
    intros k' Hk'. pose proof (next_of_chain _ _ _ _ _ Hc1 Hk'). lia.
Qed.

(** Attaching continuations to a pending future builds a chain. *)
Lemma then_all_pending s i fs :
  store_wf s -> states s !! i = Some (mk_shared unfulfilled no_callback) ->
  exists s' j, then_all s (f_shared i) fs = Ret (s', f_shared j) /\ chain s' i fs j /\ store_wf s' /\
    (forall l, l <> i -> (l < fresh s)%positive -> states s' !! l = states s !! l).
Proof.
  revert s i. induction fs as [|f fs IH]; intros s i Hwf Hi; cbn [then_all].
  - exists s, i. split; [done|]. split; [by constructor|]. done.
  - assert (i < fresh s)%positive as Hlt by (apply Hwf; by rewrite Hi).
    cbn [then_]. unfold SharedState.set_continuation. rewrite Hi. cbn [derefO bindO sh_state State.is_ready].
    unfold Promise.make, Promise.get_future. cbn [p_future_made p_state derefO bindO states].
    rewrite lookup_insert_ne by lia. rewrite Hi. cbn [derefO bindO sh_state p_value_set].
    set (s1 := put_shared _ i _).
    assert (states s1 !! fresh s = Some (mk_shared unfulfilled no_callback)) as Hk.
    { simpl. rewrite lookup_insert_ne by lia. by rewrite lookup_insert_eq. }
    assert (store_wf s1) as Hwf1.
    { intros l [y Hl]. simpl in Hl |- *. rewrite lookup_insert in Hl. case_decide; [subst; lia|].
      rewrite lookup_insert in Hl. case_decide; [subst; lia|]. assert (l < fresh s)%positive; [|lia]. apply Hwf. by exists y. }
    destruct (IH s1 (fresh s) Hwf1 Hk) as (s' & j & E & Hc & Hwf' & Hl). exists s', j.
    split; [done|]. split; [|split; [done|]].
    + apply (chain_cons _ _ (fresh s)); [|lia|done]. rewrite Hl; [|lia|simpl; lia]. simpl. by rewrite lookup_insert_eq.
    + intros l Hne Hll. rewrite Hl; [|lia|simpl; lia]. simpl. by rewrite !lookup_insert_ne by lia.
Qed.

Lemma then_all_local s x fs :
  State.is_ready x = true -> Forall plain fs ->
  then_all s (f_local x) fs = Ret (s, f_local (fold_left apply_st fs x)).
Proof.
  intros Hx Hp. revert x Hx. induction Hp as [|f fs Hpf Hp IH]; intros x Hx; cbn [then_all fold_left]; [done|].
  assert (then_ s (f_local x) None f = Ret (s, f_local (apply_st x f))) as ->.
  { unfold then_, State.set_continuation. destruct x as [|v|e]; [done| |done].
    cbn [State.get_value State.is_ready assertO bindO apply_st]. specialize (Hpf v). by destruct (f v). }
  cbn [bindO]. apply IH. by apply apply_ready.
Qed.

Lemma then_all_ready s i x fs :
  state_of s i = Ret x -> State.is_ready x = true -> Forall plain fs ->
  exists g, then_all s (f_shared i) fs = Ret (s, g) /\ Future.get_state s g = Ret (fold_left apply_st fs x).
Proof.
  intros Hi Hx Hp. destruct Hp as [|f fs Hpf Hp]; [by exists (f_shared i)|]. cbn [then_all fold_left].
  assert (then_ s (f_shared i) None f = Ret (s, f_local (apply_st x f))) as ->.
  { unfold state_of in Hi. cbn [then_]. unfold SharedState.set_continuation.
    destruct (states s !! i) as [sh|]; [|done]. cbn [derefO bindO] in *. injection Hi as Hi. rewrite Hi, Hx.
    unfold State.set_continuation. destruct x as [|v|e]; [done| |done].
    cbn [State.get_value State.is_ready assertO bindO apply_st]. specialize (Hpf v). by destruct (f v). }
  cbn [bindO]. rewrite then_all_local by (done || by apply apply_ready). by eexists.
Qed.

Lemma make_wf s : store_wf s -> store_wf (fst (Promise.make s)) /\
  states (fst (Promise.make s)) !! fresh s = Some (mk_shared unfulfilled no_callback).
Proof.
  intros Hwf. unfold Promise.make. cbn [fst states fresh]. rewrite lookup_insert_eq. split; [|done].
  intros l [y Hl]. cbn [states fresh] in *. rewrite lookup_insert in Hl. case_decide; [subst; lia|].
  assert (l < fresh s)%positive; [|lia]. apply Hwf. by exists y.
Qed.
End chains.

(** Two fresh promises, and a continuation attached to the first one's future. *)
Section pending_pair.
Context {V : Type} (s : store V) (f : V -> fres V).
Local Abbreviation a := (fresh s).
Local Abbreviation b := (fresh s + 1)%positive.
Local Abbreviation k := (fresh s + 1 + 1)%positive.

Definition two_states : store V :=
  mk_store (<[b := mk_shared unfulfilled no_callback]> (<[a := mk_shared unfulfilled no_callback]> (states s))) k (posted s).

(** [a] with the callback that will fulfil [k]. *)
Definition waiting : shared_state V :=
  mk_shared unfulfilled (some_callback (mk_callback (mk_promise (Some k) true false) f None)).
Definition with_callback : store V :=
  mk_store (<[a := waiting]> (<[k := mk_shared unfulfilled no_callback]> (states two_states))) (k + 1)%positive (posted s).

Lemma then_two_states : then_ two_states (f_shared a) None f = Ret (with_callback, f_shared k).
Proof.
  cbn [then_]. unfold SharedState.set_continuation. cbn [states two_states].
  rewrite lookup_insert_ne by lia. rewrite lookup_insert_eq.
  cbn [derefO bindO sh_state State.is_ready]. unfold Promise.make, Promise.get_future.
  cbn [p_future_made p_state derefO bindO states fresh two_states].
  do 2 rewrite lookup_insert_ne by lia. by rewrite lookup_insert_eq.
Qed.

Lemma with_callback_at_a : states with_callback !! a = Some waiting.
Proof. cbn. by rewrite lookup_insert_eq. Qed.

Lemma with_callback_at_b y : states (put_shared with_callback a y) !! b = Some (mk_shared unfulfilled no_callback).
Proof. cbn. rewrite !lookup_insert_ne by lia. by rewrite lookup_insert_eq. Qed.

Lemma with_callback_at_k : states with_callback !! k = Some (mk_shared unfulfilled no_callback).
Proof. cbn. rewrite lookup_insert_ne by lia. by rewrite lookup_insert_eq. Qed.

Lemma with_callback_fuel : exists n, set_fuel with_callback = S (S n).
Proof.
  assert (chain with_callback a [f] k) as Hc.
  { apply (chain_cons _ _ k); [apply with_callback_at_a|lia|]. constructor. apply with_callback_at_k. }
  pose proof (chain_length _ _ _ _ Hc) as Hl. unfold set_fuel. revert Hl.
  generalize (size (states with_callback)). intros n Hl. cbn [length] in Hl. exists (n - 1)%nat. lia.
Qed.
End pending_pair.

(** Fulfilling a promise nobody waits for yet. *)
Lemma promise_set_plain (s : store unit) (i : positive) fm : states s !! i = Some (mk_shared unfulfilled no_callback) ->
  promise_set s (mk_promise (Some i) fm false) (has_value tt) =
    Ret (put_shared s i (mk_shared (has_value tt) no_callback), mk_promise (Some i) fm true).
Proof.
  intros Hs. unfold promise_set, Promise.set, set_fuel. cbn [p_value_set p_state derefO bindO SharedState.set].
  by rewrite Hs.
Qed.

(** Counting down a latch whose future is the state [i]. *)
Lemma latch_counts (i : positive) (l : list Z) : forall (s1 : store unit) n, Forall (fun a => 0 <= a) l -> 0 <= n ->
  states s1 !! i = Some (mk_shared (if n =? 0 then has_value tt else unfulfilled) no_callback) ->
  exists s2 l2, Latch.count_downs s1 (Latch.mk_latch n (mk_promise (Some i) true (n =? 0))) l = Ret (s2, l2) /\
    Latch.count l2 = Z.max 0 (n - zsum id l) /\
    state_of s2 i = Ret (if n <=? zsum id l then has_value tt else unfulfilled).
Proof.
  induction l as [|a l IH]; intros s1 n Ha Hn Hs; cbn [Latch.count_downs zsum].
  - eexists s1, _. split; [reflexivity|]. cbn [Latch.count Latch.l_count]. split; [lia|]. unfold state_of. rewrite Hs.
    cbn. do 2 f_equal. destruct (n =? 0) eqn:E, (n <=? 0) eqn:E'; zbool; done || lia.
  - apply Forall_cons_iff in Ha as [Ha Hl]. unfold id at 1 3.
    assert (0 <= zsum id l) as Hz by (apply zsum_nonneg; exact Hl).
    unfold Latch.count_down. cbn [Latch.l_count Latch.l_promise].
    destruct (Z.eq_dec n 0) as [->|Hne].
    + cbn [Z.eqb bindO] in *. destruct (IH s1 0 Hl ltac:(lia) Hs) as (s2 & l2 & E & Ec & Es).
      exists s2, l2. split; [exact E|]. split; [lia|]. rewrite Es. f_equal.
      by rewrite !(proj2 (Z.leb_le _ _)) by lia.
    + rewrite (proj2 (Z.eqb_neq 0 n)) by lia. rewrite (proj2 (Z.eqb_neq n 0)) in * by lia.
      destruct (a <? n) eqn:E; zbool.
      * rewrite (proj2 (Z.eqb_neq (n - a) 0)) by lia. cbn [bindO].
        destruct (IH s1 (n - a) Hl ltac:(lia)) as (s2 & l2 & E2 & Ec & Es).
        { by rewrite (proj2 (Z.eqb_neq (n - a) 0)) by lia. }
        rewrite (proj2 (Z.eqb_neq (n - a) 0)) in E2 by lia.
        exists s2, l2. split; [exact E2|]. split; [lia|]. rewrite Es. f_equal.
        destruct (n - a <=? zsum id l) eqn:E3, (n <=? a + zsum id l) eqn:E4; zbool; done || lia.
      * cbn [Z.eqb]. rewrite (promise_set_plain s1 i true Hs). cbn [bindO].
        destruct (IH (put_shared s1 i (mk_shared (has_value tt) no_callback)) 0 Hl ltac:(lia)) as (s2 & l2 & E2 & Ec & Es).
        { simpl. by rewrite lookup_insert_eq. }
        exists s2, l2. split; [exact E2|]. split; [lia|]. rewrite Es. f_equal.
        by rewrite !(proj2 (Z.leb_le _ _)) by lia.
Qed.

(** ** Properties *)

(** C12: continuations see the outcome of a promise in order, whether they are
    attached before or after it is fulfilled: for any chain of [then]s with
    functions that return values or throw, the last future ends in the state
    that folding the functions over the value (or exception) gives, an
    exception skipping the functions behind it; and every callback is run. *)
Theorem future_chain_order_independent {V : Type} (s : store V) (fs : list (V -> fres V)) (x : st V) :
  store_wf s -> Forall plain fs -> State.is_ready x = true ->
  let '(s0, p0) := Promise.make s in
  exists p fut, Promise.get_future p0 = Ret (p, fut) /\
    (exists s1 g s2 p', then_all s0 fut fs = Ret (s1, g) /\ promise_set s1 p x = Ret (s2, p') /\
       Future.get_state s2 g = Ret (fold_left apply_st fs x)) /\
    (exists s1 p' s2 g, promise_set s0 p x = Ret (s1, p') /\ then_all s1 fut fs = Ret (s2, g) /\
       Future.get_state s2 g = Ret (fold_left apply_st fs x)).
Proof.
  intros Hwf Hp Hx. destruct (make_wf s Hwf) as [Hwf0 Hi]. destruct (Promise.make s) as [s0 p0] eqn:Em.
  cbn [fst] in *. assert (p0 = mk_promise (Some (fresh s)) false false) as -> by (by inversion Em).
  eexists _, _. split; [reflexivity|]. unfold promise_set, Promise.set. cbn [p_value_set p_state derefO bindO].
  split.
  - destruct (then_all_pending s0 (fresh s) fs Hwf0 Hi) as (s1 & j & E & Hc & Hwf1 & _).
    destruct (set_chain (set_fuel s1) s1 (fresh s) fs j x Hc Hp Hx) as (s2 & E2 & Ej & _).
    { unfold set_fuel. pose proof (chain_length _ _ _ _ Hc). lia. }
    eexists s1, _, s2, _. split; [exact E|]. rewrite E2. cbn [bindO]. split; [reflexivity|]. exact Ej.
  - destruct (set_chain (set_fuel s0) s0 (fresh s) [] (fresh s) x) as (s1 & E1 & _ & Ei & _); try done.
    { by constructor. }
    { unfold set_fuel. simpl. lia. }
    destruct (then_all_ready s1 (fresh s) x fs Ei Hx Hp) as (g & E2 & Eg).
    eexists s1, _, s1, g. rewrite E1. cbn [bindO]. split; [reflexivity|]. by split.
Qed.

(** A promise is fulfilled once: its future can be taken once, a second
    value, exception or future is refused with [invalid_promise_exception], and
    destroying a promise that was never fulfilled completes every chain hanging
    on its future with [broken_promise_exception]. *)
Theorem promise_fulfilled_once {V : Type} (s : store V) (fs : list (V -> fres V)) (x y : st V) (fut' : future V) :
  store_wf s -> Forall plain fs -> State.is_ready x = true ->
  let '(s0, p0) := Promise.make s in
  exists p fut, Promise.get_future p0 = Ret (p, fut) /\ Promise.get_future p = (Throw invalid_promise_exception : outcome (_ * future V)) /\
    (exists s1 p', promise_set s0 p x = Ret (s1, p') /\
       promise_set s1 p' y = Throw invalid_promise_exception /\
       promise_set_future s1 p' fut' = Throw invalid_promise_exception /\
       promise_destroy s1 p' = Ret s1) /\
    (exists s1 g s2, then_all s0 fut fs = Ret (s1, g) /\ promise_destroy s1 p = Ret s2 /\
       Future.get_state s2 g = Ret (has_exception broken_promise_exception)).
Proof.
  intros Hwf Hp Hx. destruct (make_wf s Hwf) as [Hwf0 Hi]. destruct (Promise.make s) as [s0 p0] eqn:Em.
  cbn [fst] in *. assert (p0 = mk_promise (Some (fresh s)) false false) as -> by (by inversion Em).
  eexists _, _. split; [reflexivity|]. split; [reflexivity|].
  unfold promise_set, promise_set_future, promise_destroy, Promise.set, Promise.set_future, Promise.destroy.
  cbn [p_value_set p_state derefO bindO]. split.
  - destruct (set_chain (set_fuel s0) s0 (fresh s) [] (fresh s) x) as (s1 & E1 & _ & Ei & _); try done.
    { by constructor. }
    { unfold set_fuel. simpl. lia. }
    rewrite E1. cbn [bindO]. eexists _, _. split; [reflexivity|]. cbn [p_value_set p_state].
    split; [done|]. split; [done|]. rewrite Ei. cbn [bindO]. by rewrite Hx.
  - destruct (then_all_pending s0 (fresh s) fs Hwf0 Hi) as (s1 & j & E & Hc & Hwf1 & _).
    destruct (set_chain (set_fuel s1) s1 (fresh s) fs j (has_exception broken_promise_exception) Hc Hp eq_refl)
      as (s2 & E2 & Ej & _).
    { unfold set_fuel. pose proof (chain_length _ _ _ _ Hc). lia. }
    exists s1, (f_shared j), s2. split; [exact E|]. assert (state_of s1 (fresh s) = Ret unfulfilled) as ->.
    { unfold state_of. inversion Hc as [? Hs|? ? ? ? ? Hs]; subst; by rewrite Hs. }
    cbn [bindO State.is_ready]. split; [exact E2|]. cbn [Future.get_state]. rewrite Ej. f_equal.
    clear. by induction fs.
Qed.

(** The callback storage of a shared state holds one callback: a second
    [then] on a pending future overwrites the first, whose future then stays
    unfulfilled for ever, even after the promise is set. *)
Theorem future_second_then_drops_first {V : Type} (s : store V) (f1 f2 : V -> fres V) (x : st V) :
  store_wf s -> plain f2 -> State.is_ready x = true ->
  let '(s0, p0) := Promise.make s in
  exists p fut s1 g1 s2 g2 s3 p',
    Promise.get_future p0 = Ret (p, fut) /\ then_ s0 fut None f1 = Ret (s1, g1) /\
    then_ s1 fut None f2 = Ret (s2, g2) /\ promise_set s2 p x = Ret (s3, p') /\
    Future.get_state s3 g2 = Ret (apply_st x f2) /\ Future.get_state s3 g1 = Ret unfulfilled.
Proof.
  intros Hwf Hp Hx. set (i := fresh s).
  unfold Promise.make. fold i.
  set (pend := fun k f => mk_shared (unfulfilled (V := V)) (some_callback (mk_callback (mk_promise (Some k) true false) f None))).
  set (s0 := mk_store (<[i := mk_shared unfulfilled no_callback]> (states s)) (i + 1)%positive (posted s)).
  set (s1 := mk_store (<[i := pend (i + 1)%positive f1]> (<[(i + 1)%positive := mk_shared unfulfilled no_callback]> (states s0)))
               (i + 2)%positive (posted s)).
  set (s2 := mk_store (<[i := pend (i + 2)%positive f2]> (<[(i + 2)%positive := mk_shared unfulfilled no_callback]> (states s1)))
               (i + 3)%positive (posted s)).
  assert (then_ s0 (f_shared i) None f1 = Ret (s1, f_shared (i + 1))) as E1.
  { cbn [then_]. unfold SharedState.set_continuation. cbn [states s0]. rewrite lookup_insert_eq.
    cbn [derefO bindO sh_state State.is_ready]. unfold Promise.make, Promise.get_future. cbn [p_future_made p_state derefO bindO states fresh s0].
    rewrite lookup_insert_ne by lia. rewrite lookup_insert_eq. cbn [derefO bindO sh_state p_value_set].
    unfold put_shared. cbn [states fresh posted]. by replace (i + 1 + 1)%positive with (i + 2)%positive by lia. }
  assert (then_ s1 (f_shared i) None f2 = Ret (s2, f_shared (i + 2))) as E2.
  { cbn [then_]. unfold SharedState.set_continuation. cbn [states s1]. rewrite lookup_insert_eq.
    cbn [derefO bindO sh_state State.is_ready]. unfold Promise.make, Promise.get_future. cbn [p_future_made p_state derefO bindO states fresh s1].
    rewrite lookup_insert_ne by lia. rewrite lookup_insert_eq. cbn [derefO bindO sh_state p_value_set pend].
    unfold put_shared. cbn [states fresh posted]. by replace (i + 2 + 1)%positive with (i + 3)%positive by lia. }
  assert (chain s2 i [f2] (i + 2)%positive) as Hc.
  { apply (chain_cons _ _ (i + 2)%positive); [by cbn; rewrite lookup_insert_eq|lia|].
    constructor. cbn. rewrite lookup_insert_ne by lia. by rewrite lookup_insert_eq. }
  destruct (set_chain (set_fuel s2) s2 i [f2] _ x Hc) as (s3 & E3 & Ej & _ & Hl).
  { by apply Forall_cons_2. } { done. } { unfold set_fuel. pose proof (chain_length _ _ _ _ Hc). lia. }
  eexists _, _, s1, _, s2, _, s3, _. split; [reflexivity|]. split; [exact E1|]. split; [exact E2|].
  unfold promise_set, Promise.set. cbn [p_value_set p_state derefO bindO]. rewrite E3. cbn [bindO].
  split; [reflexivity|]. split; [exact Ej|]. cbn [Future.get_state]. unfold state_of. rewrite Hl; [|lia|].
  - cbn. rewrite !lookup_insert_ne by lia. by rewrite lookup_insert_eq.
  - intros k Hk. unfold next_of in Hk. cbn in Hk. rewrite lookup_insert_eq in Hk. injection Hk as <-. lia.
Qed.

(** A continuation of a pending future must not return a future that is
    itself pending or holds an exception.  In the first case the promise takes
    over the inner state and, destroyed with its closure, breaks it at once,
    while the future [then] returned stays unfulfilled; in the second the
    exception of the inner future is rethrown inside [promise::set] and fulfils
    nothing, and [invalid_promise_exception] escapes from the outer [set]. *)
Theorem future_inner_future_breaks {V : Type} (s : store V) :
  store_wf s ->
  let '(s0, p0) := Promise.make s in
  let '(s1, q0) := Promise.make s0 in
  exists p fut q inner, Promise.get_future p0 = Ret (p, fut) /\ Promise.get_future q0 = Ret (q, inner) /\
    (forall f v, f v = f_future inner ->
       exists s2 g s3 p', then_ s1 fut None f = Ret (s2, g) /\ promise_set s2 p (has_value v) = Ret (s3, p') /\
         Future.get_state s3 g = Ret unfulfilled /\
         Future.get_state s3 inner = Ret (has_exception broken_promise_exception)) /\
    (forall f v e, f v = f_future (f_local (has_exception e)) ->
       exists s2 g, then_ s1 fut None f = Ret (s2, g) /\
         promise_set s2 p (has_value v) = Throw invalid_promise_exception).
Proof.
  intros Hwf. unfold Promise.make at 1. cbn [fresh states posted]. unfold Promise.make. cbn [fresh states posted].
  fold (two_states s). eexists _, _, _, _. split; [reflexivity|]. split; [reflexivity|]. split.
  - intros f v Hf. destruct (with_callback_fuel s f) as [n Hn].
    eexists _, _, _, _. split; [apply then_two_states|]. unfold promise_set, Promise.set. cbn [p_value_set p_state derefO bindO].
    rewrite Hn. remember (S n) as m eqn:Em. cbn [SharedState.set]. rewrite with_callback_at_a. unfold waiting. cbn [derefO bindO sh_callback].
    set (s2 := put_shared (with_callback s f) (fresh s) _).
    rewrite (run_callback_future _ s2 (put_shared s2 (fresh s + 1) (mk_shared (has_exception broken_promise_exception) no_callback))
      _ _ _ (fresh s + 1)%positive Hf).
    + cbn [bindO put_shared states s2]. rewrite lookup_insert_ne by lia. rewrite lookup_insert_eq.
      cbn [derefO bindO sh_state]. split; [reflexivity|]. unfold Future.get_state, put_shared, state_of. cbn [states]. split.
      * do 3 rewrite lookup_insert_ne by lia. by rewrite with_callback_at_k.
      * rewrite lookup_insert_ne by lia. by rewrite lookup_insert_eq.
    + unfold state_of, s2. by rewrite with_callback_at_b.
    + subst m. apply set_no_callback with (y := unfulfilled). apply with_callback_at_b.
  - intros f v e Hf. destruct (with_callback_fuel s f) as [n Hn].
    eexists _, _. split; [apply then_two_states|]. unfold promise_set, Promise.set. cbn [p_value_set p_state derefO bindO].
    rewrite Hn. cbn [SharedState.set]. rewrite with_callback_at_a. unfold waiting. cbn [derefO bindO sh_callback].
    unfold Promise.run_callback. cbn [State.get_value State.is_ready assertO bindO cb_shard cb_promise cb_fun].
    unfold Promise.set_applied. by rewrite Hf.
Qed.

(** A latch of [c] counts down to zero and never below; its future becomes
    ready exactly when the amounts counted down reach [c] (at once for
    [c = 0]), and no order of calls ever fulfils its promise twice. *)
Theorem latch_opens_once (s : store unit) (c : Z) (amounts : list Z) :
  store_wf s -> 0 <= c -> Forall (fun a => 0 <= a) amounts ->
  exists s0 l0 l1 fut s2 l2,
    Latch.make s c = Ret (s0, l0) /\ Latch.await l0 = Ret (l1, fut) /\
    Latch.count_downs s0 l1 amounts = Ret (s2, l2) /\
    Latch.count l2 = Z.max 0 (c - zsum id amounts) /\
    Future.get_state s2 fut = Ret (if c <=? zsum id amounts then has_value tt else unfulfilled).
Proof.
  intros Hwf Hc Ha. destruct (make_wf s Hwf) as [_ Hi]. unfold Latch.make. destruct (Promise.make s) as [s0 p0] eqn:Em. cbn [fst] in *.
  assert (p0 = mk_promise (Some (fresh s)) false false) as -> by (by inversion Em).
  destruct (Z.eq_dec c 0) as [->|Hne].
  - cbn [Z.eqb]. rewrite (promise_set_plain s0 (fresh s) false Hi). cbn [bindO].
    destruct (latch_counts (fresh s) amounts (put_shared s0 (fresh s) (mk_shared (has_value tt) no_callback)) 0 Ha ltac:(lia))
      as (s2 & l2 & E & Ec & Es); [simpl; by rewrite lookup_insert_eq|].
    eexists _, _, _, _, s2, l2. split; [reflexivity|]. split; [reflexivity|]. split; [exact E|]. by split.
  - rewrite (proj2 (Z.eqb_neq 0 c)) by lia.
    destruct (latch_counts (fresh s) amounts s0 c Ha Hc) as (s2 & l2 & E & Ec & Es); [by rewrite (proj2 (Z.eqb_neq c 0)) by lia|].
    rewrite (proj2 (Z.eqb_neq c 0)) in E by lia.
    eexists _, _, _, _, s2, l2. split; [reflexivity|]. split; [reflexivity|]. split; [exact E|]. by split.
Qed.

(** ** Witnesses *)

Lemma store_empty_wf {V : Type} : store_wf (store_empty : store V).
Proof. intros i [y Hi]. unfold store_empty in Hi. cbn [states] in Hi. by rewrite lookup_empty in Hi. Qed.

Definition add_one : Z -> fres Z := fun v => f_value (v + 1).
Definition throws : Z -> fres Z := fun v => if v =? 4 then f_throw bad_get else f_value v.

Lemma future_chain_order_independent_witness :
  exists s0 p0 p fut, Promise.make store_empty = (s0, p0) /\ Promise.get_future p0 = Ret (p, fut) /\
    (exists s1 g s2 p', then_all s0 fut [add_one; throws; add_one] = Ret (s1, g) /\
       promise_set s1 p (has_value 3) = Ret (s2, p') /\ Future.get_state s2 g = Ret (has_exception bad_get)).
Proof.
  pose proof (future_chain_order_independent store_empty [add_one; throws; add_one] (has_value 3) store_empty_wf) as H.
  destruct H as (p & fut & E & H & _); [|reflexivity|].
  - repeat constructor. intros v. unfold throws. by destruct (v =? 4).
  - eexists _, _, p, fut. split; [reflexivity|]. split; [exact E|]. exact H.
Defined.

Lemma promise_fulfilled_once_witness :
  let '(s0, p0) := Promise.make store_empty in
  exists p fut s1 g s2, Promise.get_future p0 = Ret (p, fut) /\ then_all s0 fut [add_one; throws] = Ret (s1, g) /\
    promise_destroy s1 p = Ret s2 /\ Future.get_state s2 g = Ret (has_exception broken_promise_exception).
Proof.
  pose proof (promise_fulfilled_once store_empty [add_one; throws] (has_value 3) (has_value 4)
    (Future.make_ready_future 5) store_empty_wf) as H.
  destruct H as (p & fut & E & _ & _ & (s1 & g & s2 & H1 & H2 & H3)); [|reflexivity|].
  - repeat constructor. intros v. unfold throws. by destruct (v =? 4).
  - exists p, fut, s1, g, s2. split; [exact E|]. split; [exact H1|]. by split.
Defined.

Lemma future_second_then_drops_first_witness :
  exists p fut s1 g1 s2 g2 s3 p',
    Promise.get_future (snd (Promise.make (store_empty : store Z))) = Ret (p, fut) /\
    then_ (fst (Promise.make store_empty)) fut None add_one = Ret (s1, g1) /\
    then_ s1 fut None throws = Ret (s2, g2) /\ promise_set s2 p (has_value 3) = Ret (s3, p') /\
    Future.get_state s3 g2 = Ret (has_value 3) /\ Future.get_state s3 g1 = Ret unfulfilled.
Proof.
  refine (future_second_then_drops_first store_empty add_one throws (has_value 3) store_empty_wf _ eq_refl).
  intros v. unfold throws. by destruct (v =? 4).
Defined.

Lemma future_inner_future_breaks_witness :
  let '(s0, p0) := Promise.make (store_empty : store Z) in
  let '(s1, q0) := Promise.make s0 in
  exists p fut q inner s2 g s3 p', Promise.get_future p0 = Ret (p, fut) /\ Promise.get_future q0 = Ret (q, inner) /\
    then_ s1 fut None (fun _ => f_future inner) = Ret (s2, g) /\ promise_set s2 p (has_value 3) = Ret (s3, p') /\
    Future.get_state s3 g = Ret unfulfilled.
Proof.
  destruct (future_inner_future_breaks (store_empty : store Z) store_empty_wf) as (p & fut & q & inner & E1 & E2 & H & _).
  destruct (H (fun _ => f_future inner) 3 eq_refl) as (s2 & g & s3 & p' & E3 & E4 & E5 & _).
  exists p, fut, q, inner, s2, g, s3, p'. do 4 (split; [assumption|]). exact E5.
Defined.

Lemma latch_opens_once_witness :
  exists s0 l0 l1 fut s2 l2,
    Latch.make store_empty 3 = Ret (s0, l0) /\ Latch.await l0 = Ret (l1, fut) /\
    Latch.count_downs s0 l1 [1; 1; 4; 1] = Ret (s2, l2) /\ Latch.count l2 = 0 /\
    Future.get_state s2 fut = Ret (has_value tt).
Proof.
  refine (latch_opens_once store_empty 3 [1; 1; 4; 1] store_empty_wf _ _); [lia|].
  repeat (apply Forall_cons_2; [lia|]). apply Forall_nil_2.
Defined.
