(* ===== verification/Queues.v ===== *)
(** * Queues: the queues and budgets of the scheduler (xi/core/worker_queue.h,
      sleep_queue.h, shared_queue.h, execution_budget.h)

    A resumable is named by a number; [own< resumable >] is a number or null.
    The only field of a resumable these queues use is its wakeup time, which
    lives in the resumable: [wakeups] maps resumables to it.  Time points are
    nanoseconds.  The sorted container of the sleep queue is boost's
    [intrusive::set]: [timed_set] states what its documentation promises, and
    sorted lists show that the promise can be kept. *)
From Stdlib Require Import Sorting.Sorted.
From S2P Require Import Prelude.

(** ** class worker_queue *)
Module WorkerQueue.
Definition worker_queue : Type := list Z.
Definition enqueue (q : worker_queue) (r : option Z) : outcome worker_queue :=
  match r with None => Abort | Some r => Ret (q ++ [r]) end.
Definition is_empty (q : worker_queue) : bool := match q with [] => true | _ => false end.
Definition dequeue (q : worker_queue) : worker_queue * option Z :=
  match q with [] => ([], None) | r :: q => (q, Some r) end.
End WorkerQueue.
Abbreviation worker_queue := WorkerQueue.worker_queue.

(** ** Wakeup times *)

(** [steady_clock::time_point::max()]. *)
Definition tp_max : Z := 2 ^ 63 - 1.

Abbreviation wakeups := (gmap Z Z).
Definition wakeup_time (h : wakeups) (r : Z) : Z := default tp_max (h !! r).
Definition set_wakeup_time (h : wakeups) (r when : Z) : wakeups := <[r := when]> h.

(** [timepoint_less]. *)
Definition timepoint_less (h : wakeups) (l r : Z) : Prop := wakeup_time h l < wakeup_time h r.

(** ** [intrusive::set] with [timepoint_less] *)

Class timed_set (S : Type) := {
  ts_empty : S;
  (** the elements from [begin()] to [end()] *)
  ts_elements : S -> list Z;
  ts_insert : wakeups -> Z -> S -> S;
  (** [erase(begin())] *)
  ts_pop : S -> S
}.

Class timed_set_spec (S : Type) `{timed_set S} := {
  ts_empty_ok : ts_elements ts_empty = [];
  ts_pop_ok s : ts_elements (ts_pop s) = tail (ts_elements s);
  ts_insert_equal h r s :
    StronglySorted (timepoint_less h) (ts_elements s) ->
    (exists x, x ∈ ts_elements s /\ wakeup_time h x = wakeup_time h r) -> ts_insert h r s = s;
  ts_insert_new h r s :
    StronglySorted (timepoint_less h) (ts_elements s) ->
    (forall x, x ∈ ts_elements s -> wakeup_time h x <> wakeup_time h r) ->
    StronglySorted (timepoint_less h) (ts_elements (ts_insert h r s)) /\
    ts_elements (ts_insert h r s) ≡ₚ r :: ts_elements s
}.

Fixpoint list_insert_timed (h : wakeups) (r : Z) (l : list Z) : list Z :=
  match l with
  | [] => [r]
  | x :: l' =>
      if wakeup_time h r <? wakeup_time h x then r :: l
      else if wakeup_time h x <? wakeup_time h r then x :: list_insert_timed h r l'
      else l
  end.

#[export] Instance list_timed_set : timed_set (list Z) := {|
  ts_empty := [];
  ts_elements l := l;
  ts_insert := list_insert_timed;
  ts_pop := tail
|}.

Lemma list_insert_new h r l :
  StronglySorted (timepoint_less h) l -> (forall x, x ∈ l -> wakeup_time h x <> wakeup_time h r) ->
  StronglySorted (timepoint_less h) (list_insert_timed h r l) /\ list_insert_timed h r l ≡ₚ r :: l.
Proof.
  intros Hs Hne. induction Hs as [|x l Hs IH Hx]; simpl.
  - split; [|done]. repeat constructor.
  - pose proof (Hne x (list_elem_of_here x l)) as Hxr. case_if.
    + split; [|done]. constructor; [by constructor|]. constructor; [done|].
      apply (list.Forall_impl _ _ _ Hx). unfold timepoint_less. intros; lia.
    + rewrite (proj2 (Z.ltb_lt _ _)) by lia. destruct IH as [IHs IHp]; [intros y Hy; apply Hne; by constructor|].
      split; [|by rewrite IHp, Permutation_swap]. constructor; [done|].
      rewrite Forall_forall in Hx |- *. intros y Hy. apply list_elem_of_In in Hy. rewrite IHp in Hy.
      apply elem_of_cons in Hy as [->|Hy]; [unfold timepoint_less; lia|]. by apply Hx, list_elem_of_In.
Qed.

Lemma list_insert_equal h r l :
  StronglySorted (timepoint_less h) l -> (exists x, x ∈ l /\ wakeup_time h x = wakeup_time h r) ->
  list_insert_timed h r l = l.
Proof.
  intros Hs (x & Hx & Hxr). induction Hs as [|y l Hs IH Hy]; simpl; [by apply elem_of_nil in Hx|].
  apply elem_of_cons in Hx as [->|Hx].
  - by rewrite !(proj2 (Z.ltb_ge _ _)) by lia.
  - rewrite Forall_forall in Hy. specialize (Hy x (proj1 (list_elem_of_In _ _) Hx)). unfold timepoint_less in Hy.
    rewrite (proj2 (Z.ltb_ge _ _)) by lia. rewrite (proj2 (Z.ltb_lt _ _)) by lia. by rewrite IH.
Qed.

#[export] Program Instance list_timed_set_spec : timed_set_spec (list Z).
Next Obligation. done. Qed.
Next Obligation. done. Qed.
Next Obligation. intros. by apply list_insert_equal. Qed.
Next Obligation. intros. by apply list_insert_new. Qed.

(** ** class local_sleep_queue *)
Module SleepQueue.
Section sleep_queue.
Context {S : Type} `{timed_set S}.

Record local_sleep_queue := mk_lsq { lsq_queue : S; lsq_next_item : Z }.

Definition lsq_new : local_sleep_queue := mk_lsq ts_empty tp_max.

Definition enqueue (h : wakeups) (q : local_sleep_queue) (when : Z) (r : option Z)
    : outcome (wakeups * local_sleep_queue) :=
  match r with
  | None => Abort
  | Some r =>
      let next := if lsq_next_item q >? when then when else lsq_next_item q in
      let h := set_wakeup_time h r when in
      Ret (h, mk_lsq (ts_insert h r (lsq_queue q)) next)
  end.

(** The loop of [dequeue_into] over the elements [l] from the iterator on. *)
Fixpoint drain (l : list Z) (h : wakeups) (s : S) (wq : worker_queue) (cutoff : Z)
    : outcome (wakeups * local_sleep_queue * worker_queue) :=
  match l with
  | [] => Ret (h, mk_lsq s tp_max, wq)
  | i :: l =>
      if wakeup_time h i >? cutoff then Ret (h, mk_lsq s (wakeup_time h i), wq)
      else
        let h := set_wakeup_time h i tp_max in
        do wq <- WorkerQueue.enqueue wq (Some i);;
        drain l h (ts_pop s) wq cutoff
  end.

Definition dequeue_into (h : wakeups) (q : local_sleep_queue) (wq : worker_queue) (cutoff : Z)
    : outcome (wakeups * local_sleep_queue * worker_queue) :=
  if lsq_next_item q >? cutoff then Ret (h, q, wq)
  else drain (ts_elements (lsq_queue q)) h (lsq_queue q) wq cutoff.

Definition is_empty (q : local_sleep_queue) : bool := WorkerQueue.is_empty (ts_elements (lsq_queue q)).
Definition next_item (q : local_sleep_queue) : Z := lsq_next_item q.
End sleep_queue.
Arguments local_sleep_queue : clear implicits.
End SleepQueue.
Abbreviation local_sleep_queue := SleepQueue.local_sleep_queue.

(** ** class shared_sleep_queue

    [enqueue] and [dequeue_into] hold the lock, each is one step; [is_empty] and
    [next_item] read without it. *)
Module SharedSleepQueue.
Section shared_sleep_queue.
Context {S : Type} `{timed_set S}.

Record shared_sleep_queue := mk_ssq { ssq_queue : local_sleep_queue S }.

Definition enqueue (h : wakeups) (q : shared_sleep_queue) (when : Z) (r : option Z)
    : outcome (wakeups * shared_sleep_queue) :=
  assertO (match r with Some _ => true | None => false end) (
  do '(h, l) <- SleepQueue.enqueue h (ssq_queue q) when r;; Ret (h, mk_ssq l)).

Definition dequeue_into (h : wakeups) (q : shared_sleep_queue) (wq : worker_queue) (cutoff : Z)
    : outcome (wakeups * shared_sleep_queue * worker_queue) :=
  do '(h, l, wq) <- SleepQueue.dequeue_into h (ssq_queue q) wq cutoff;; Ret (h, mk_ssq l, wq).

Definition is_empty (q : shared_sleep_queue) : bool := SleepQueue.is_empty (ssq_queue q).
Definition next_item (q : shared_sleep_queue) : Z := SleepQueue.next_item (ssq_queue q).
End shared_sleep_queue.
Arguments shared_sleep_queue : clear implicits.
End SharedSleepQueue.

(** ** class shared_queue

    A builder is named by a number too; [build b] is the resumable that
    [resumable_builder::build()] makes. *)
Module SharedQueue.
Section shared_queue.
Context (build : Z -> Z).
Definition shared_queue : Type := list Z.
Definition enqueue (q : shared_queue) (b : option Z) : outcome shared_queue :=
  match b with None => Abort | Some b => Ret (q ++ [b]) end.
Definition is_empty (q : shared_queue) : bool := WorkerQueue.is_empty q.

(** The loop over [range::to(n)], [left] rounds before its end. *)
Fixpoint dequeue_loop (left : nat) (n : Z) (q : shared_queue) (wq : worker_queue)
    : outcome (shared_queue * worker_queue * Z) :=
  match left with
  | O => Ret (q, wq, n)
  | S left' =>
      match q with
      | [] => Ret (q, wq, n - Z.of_nat left)
      | b :: q => do wq <- WorkerQueue.enqueue wq (Some (build b));; dequeue_loop left' n q wq
      end
  end.

Definition dequeue_into (q : shared_queue) (wq : worker_queue) (n : Z) : outcome (shared_queue * worker_queue * Z) :=
  dequeue_loop (Z.to_nat n) n q wq.

Lemma dequeue_loop_ok left n q wq : Z.of_nat left <= n ->
  dequeue_loop left n q wq =
    Ret (drop left q, wq ++ (build <$> take left q), n - Z.of_nat left + Z.min (Z.of_nat left) (zlen q)).
Proof.
  revert q wq. induction left as [|left IH]; intros q wq Hn; cbn [dequeue_loop].
  - rewrite drop_0, take_0, app_nil_r. do 2 f_equal. pose proof (zlen_nonneg (A := Z) q). lia.
  - destruct q as [|b q].
    + rewrite drop_nil, take_nil, app_nil_r, (zlen_nil (A := Z)). do 2 f_equal. lia.
    + cbn [WorkerQueue.enqueue bindO]. rewrite IH by lia. rewrite (zlen_cons (A := Z)). simpl drop. simpl take.
      rewrite fmap_cons, <- app_assoc. do 2 f_equal. lia.
Qed.

Lemma dequeue_into_ok q wq n : 0 <= n ->
  dequeue_into q wq n = Ret (zdrop n q, wq ++ (build <$> ztake n q), Z.min n (zlen q)).
Proof. intros. unfold dequeue_into, zdrop, ztake. rewrite dequeue_loop_ok by lia. do 2 f_equal. lia. Qed.
End shared_queue.
End SharedQueue.
Abbreviation shared_queue := SharedQueue.shared_queue.

(** ** class execution_budget: the clock [rdtsc] is an argument *)
Module Budget.
Record execution_budget := mk_budget { allocated : Z; jitter : Z; start_tsc : Z; curr_tsc : Z }.
Definition make (a jitter tsc : Z) : execution_budget := mk_budget a jitter tsc tsc.
Definition is_expended (b : execution_budget) : bool := u64 (u64 (curr_tsc b + jitter b) - start_tsc b) >=? allocated b.
Definition remainder (b : execution_budget) : Z := u64 (u64 (u64 (curr_tsc b + jitter b) - start_tsc b) - allocated b).
Definition adjust_spent (b : execution_budget) (tsc : Z) : execution_budget * bool :=
  let b := mk_budget (allocated b) (jitter b) (start_tsc b) tsc in (b, negb (is_expended b)).
Definition sub_budget (b : execution_budget) (a tsc : Z) : execution_budget :=
  mk_budget (Z.min (remainder b) a) (jitter b) (start_tsc b) tsc.
End Budget.
Abbreviation execution_budget := Budget.execution_budget.

(** ** The sleep queue *)
Section sleep_queue.
Context {S : Type} `{timed_set_spec S}.
Implicit Types (h : wakeups) (q : local_sleep_queue S) (l : list Z).
Import SleepQueue.

(** The earliest wakeup time of a list. *)
Definition earliest h l : Z := foldr (fun x m => Z.min (wakeup_time h x) m) tp_max l.

Record lsq_ok h q : Prop := {
  lsq_sorted : StronglySorted (timepoint_less h) (ts_elements (lsq_queue q));
  lsq_next : lsq_next_item q = earliest h (ts_elements (lsq_queue q))
}.

Lemma wakeup_time_set h r when x :
  wakeup_time (set_wakeup_time h r when) x = if decide (x = r) then when else wakeup_time h x.
Proof.
  unfold wakeup_time, set_wakeup_time. rewrite lookup_insert. by repeat case_decide; subst.
Qed.

Lemma wakeup_time_set_eq h r when : wakeup_time (set_wakeup_time h r when) r = when.
Proof. rewrite wakeup_time_set. by case_decide. Qed.

Lemma sorted_ext h h' l : (forall x, x ∈ l -> wakeup_time h' x = wakeup_time h x) ->
  StronglySorted (timepoint_less h) l -> StronglySorted (timepoint_less h') l.
Proof.
  intros He Hs. induction Hs as [|x l Hs IH Hx]; [constructor|]. constructor; [apply IH; intros; apply He; by constructor|].
  rewrite Forall_forall in Hx |- *. intros y Hy. specialize (Hx y Hy). apply list_elem_of_In in Hy.
  unfold timepoint_less in *. rewrite !He by (by constructor). done.
Qed.

Lemma earliest_ext h h' l : (forall x, x ∈ l -> wakeup_time h' x = wakeup_time h x) -> earliest h' l = earliest h l.
Proof.
  induction l as [|x l IH]; intros He; [done|]. simpl. rewrite He, IH by (intros; try apply He; by constructor). done.
Qed.

Lemma earliest_perm h l k : l ≡ₚ k -> earliest h l = earliest h k.
Proof. induction 1; simpl; lia. Qed.

Lemma earliest_le h x l : x ∈ l -> earliest h l <= wakeup_time h x.
Proof. induction 1; simpl; lia. Qed.

Lemma sorted_head h x l : StronglySorted (timepoint_less h) (x :: l) -> x ∉ l /\ forall y, y ∈ l -> wakeup_time h x < wakeup_time h y.
Proof.
  intros Hs. inversion Hs as [|? ? _ Hx]; subst. rewrite Forall_forall in Hx.
  assert (forall y, y ∈ l -> wakeup_time h x < wakeup_time h y) as Hlt by (intros y Hy; by apply Hx, list_elem_of_In).
  split; [|done]. intros Hin. specialize (Hlt x Hin). lia.
Qed.

Lemma earliest_head h x l : wakeup_time h x <= tp_max -> StronglySorted (timepoint_less h) (x :: l) ->
  earliest h (x :: l) = wakeup_time h x.
Proof.
  intros Hm Hs. apply sorted_head in Hs as [_ Hs]. simpl. revert Hs. induction l as [|y l IH]; intros Hs; simpl; [lia|].
  pose proof (Hs y (list_elem_of_here y l)). rewrite Z.min_comm, <- Z.min_assoc, (Z.min_comm (earliest h l)), IH; [lia|].
  intros z Hz. apply Hs. by constructor.
Qed.

Lemma enqueue_new h q when r :
  lsq_ok h q -> r ∉ ts_elements (lsq_queue q) ->
  (forall x, x ∈ ts_elements (lsq_queue q) -> wakeup_time h x <> when) ->
  exists h' q', enqueue h q when (Some r) = Ret (h', q') /\ lsq_ok h' q' /\
    ts_elements (lsq_queue q') ≡ₚ r :: ts_elements (lsq_queue q) /\
    wakeup_time h' r = when /\ (forall x, x <> r -> wakeup_time h' x = wakeup_time h x).
Proof.
  intros [Hs Hn] Hr Hne. cbn [enqueue]. set (h' := set_wakeup_time h r when).
  assert (forall x, x <> r -> wakeup_time h' x = wakeup_time h x) as He.
  { intros x Hx. unfold h'. rewrite wakeup_time_set. by case_decide. }
  assert (wakeup_time h' r = when) as Hrw by apply wakeup_time_set_eq.
  assert (forall x, x ∈ ts_elements (lsq_queue q) -> wakeup_time h' x = wakeup_time h x) as Hel by (intros; apply He; set_solver).
  destruct (ts_insert_new h' r (lsq_queue q)) as [Hs' Hp].
  { by apply (sorted_ext h). }
  { intros x Hx. rewrite Hrw, Hel by done. by apply Hne. }
  eexists _, _. split; [reflexivity|]. split; [|by split].
  constructor; cbn [lsq_queue lsq_next_item]; [done|]. rewrite (earliest_perm _ _ _ Hp). simpl.
  rewrite Hrw, (earliest_ext h) by done. rewrite Hn, Z.gtb_ltb. case_if; lia.
Qed.

Lemma sleep_queue_equal h q x r :
  lsq_ok h q -> x ∈ ts_elements (lsq_queue q) -> r ∉ ts_elements (lsq_queue q) ->
  enqueue h q (wakeup_time h x) (Some r) = Ret (set_wakeup_time h r (wakeup_time h x), q) /\
  lsq_ok (set_wakeup_time h r (wakeup_time h x)) q /\
  (forall y, y ∈ ts_elements (lsq_queue q) -> wakeup_time (set_wakeup_time h r (wakeup_time h x)) y = wakeup_time h y).
Proof.
  intros [Hs Hn] Hx Hr. set (h1 := set_wakeup_time h r (wakeup_time h x)).
  assert (forall y, y ∈ ts_elements (lsq_queue q) -> wakeup_time h1 y = wakeup_time h y) as He.
  { intros y Hy. unfold h1. rewrite wakeup_time_set, decide_False; [done|]. by intros ->. }
  assert (StronglySorted (timepoint_less h1) (ts_elements (lsq_queue q))) as Hs1 by by apply (sorted_ext h).
  split; [|split; [|done]].
  - cbn [enqueue]. fold h1. rewrite ts_insert_equal; [|done|exists x; split; [done|]].
    + rewrite Hn, Z.gtb_ltb, (proj2 (Z.ltb_ge _ _)) by (by apply earliest_le). rewrite <- Hn. by destruct q.
    + rewrite He by done. symmetry. apply wakeup_time_set_eq.
  - constructor; [done|]. rewrite Hn. symmetry. by apply earliest_ext.
Qed.

Lemma drain_ok h s l wq cutoff :
  ts_elements s = l -> StronglySorted (timepoint_less h) l -> (forall x, x ∈ l -> wakeup_time h x <= tp_max) ->
  exists h' q', drain l h s wq cutoff = Ret (h', q', wq ++ filter (fun x => wakeup_time h x <= cutoff) l) /\
    lsq_ok h' q' /\ ts_elements (lsq_queue q') = filter (fun x => ~ wakeup_time h x <= cutoff) l /\
    (forall x, wakeup_time h' x = if decide (x ∈ l /\ wakeup_time h x <= cutoff) then tp_max else wakeup_time h x).
Proof.
  revert h s wq. induction l as [|i l IH]; intros h s wq El Hs Hm; cbn [drain].
  - eexists _, _. rewrite filter_nil, app_nil_r. split; [reflexivity|]. cbn [lsq_queue]. split; [|split; [done|]].
    + constructor; cbn [lsq_queue lsq_next_item]; by rewrite El.
    + intros x. rewrite decide_False; [done|]. set_solver.
  - pose proof (sorted_head h i l Hs) as [Hni Hlt]. assert (StronglySorted (timepoint_less h) l) as Hsl by by inversion Hs.
    rewrite Z.gtb_ltb. case_if.
    + assert (forall x, x ∈ i :: l -> ~ wakeup_time h x <= cutoff) as Hno.
      { intros x Hx. apply elem_of_cons in Hx as [->|Hx]; [lia|]. specialize (Hlt x Hx). lia. }
      eexists _, _. split; [|split; [|split]].
      * rewrite (filter_none _ (i :: l)); [by rewrite app_nil_r|]. exact Hno.
      * constructor; cbn [lsq_queue lsq_next_item]; rewrite El; [done|]. by rewrite (earliest_head h i l) by (done || apply Hm; constructor).
      * cbn [lsq_queue]. rewrite El, filter_all; [done|]. exact Hno.
      * intros x. rewrite decide_False; [done|]. intros [Hx Hle]. by apply (Hno x).
    + set (h1 := set_wakeup_time h i tp_max). cbn [WorkerQueue.enqueue bindO].
      assert (forall x, x ∈ l -> wakeup_time h1 x = wakeup_time h x) as He.
      { intros x Hx. unfold h1. rewrite wakeup_time_set. rewrite decide_False; [done|]. by intros ->. }
      destruct (IH h1 (ts_pop s) (wq ++ [i])) as (h' & q' & Ed & Hok & Eq & Ht).
      { by rewrite ts_pop_ok, El. } { by apply (sorted_ext h). } { intros x Hx. rewrite He by done. apply Hm. by constructor. }
      exists h', q'.
      assert (filter (fun x => wakeup_time h1 x <= cutoff) l = filter (fun x => wakeup_time h x <= cutoff) l) as Ef.
      { apply filter_ext_in. intros x Hx. by rewrite He. }
      assert (filter (fun x => ~ wakeup_time h1 x <= cutoff) l = filter (fun x => ~ wakeup_time h x <= cutoff) l) as Ef'.
      { apply filter_ext_in. intros x Hx. by rewrite He. }
      rewrite (filter_cons_True _ i l) by lia. rewrite (filter_cons_False (fun x => ~ wakeup_time h x <= cutoff) i l) by lia.
      split; [rewrite Ed, Ef, <- app_assoc; done|]. split; [done|]. split; [by rewrite Eq, Ef'|].
      intros x. rewrite Ht. destruct (decide (x = i)) as [->|Hxi].
      * rewrite decide_False by (by intros []). rewrite (decide_True (P := i ∈ i :: l /\ _)) by (split; [constructor|lia]).
        apply wakeup_time_set_eq.
      * unfold h1. rewrite wakeup_time_set, (decide_False (P := x = i)) by done.
        apply decide_ext. rewrite elem_of_cons. naive_solver.
Qed.
End sleep_queue.

(** Resumables put to sleep one after another: pairs of a wakeup time and a
    resumable. *)
Fixpoint enqueue_all {S : Type} `{timed_set S} (h : wakeups) (q : local_sleep_queue S) (items : list (Z * Z))
    : outcome (wakeups * local_sleep_queue S) :=
  match items with
  | [] => Ret (h, q)
  | (when, r) :: items => do '(h, q) <- SleepQueue.enqueue h q when (Some r);; enqueue_all h q items
  end.

Section sleep_queue_theorems.
Context {S : Type} `{timed_set_spec S}.
Implicit Types (h : wakeups) (q : local_sleep_queue S) (items : list (Z * Z)).
Import SleepQueue.

Lemma enqueue_all_ok items h q :
  lsq_ok h q -> NoDup (items.*2 ++ ts_elements (lsq_queue q)) ->
  NoDup (items.*1 ++ (wakeup_time h <$> ts_elements (lsq_queue q))) ->
  exists h' q', enqueue_all h q items = Ret (h', q') /\ lsq_ok h' q' /\
    ts_elements (lsq_queue q') ≡ₚ items.*2 ++ ts_elements (lsq_queue q) /\
    (forall when r, (when, r) ∈ items -> wakeup_time h' r = when) /\
    (forall x, x ∉ items.*2 -> wakeup_time h' x = wakeup_time h x).
Proof.
  revert h q. induction items as [|[when r] items IH]; intros h q Hok Hr Hw; cbn [enqueue_all].
  - eexists _, _. split; [reflexivity|]. split; [done|]. split; [done|]. split; [|done]. intros ? ? Hin. by apply elem_of_nil in Hin.
  - rewrite !fmap_cons in Hr, Hw. cbn [fst snd app] in Hr, Hw. apply list.NoDup_cons in Hr as [Hr1 Hr], Hw as [Hw1 Hw].
    rewrite elem_of_app in Hr1, Hw1.
    destruct (enqueue_new h q when r Hok) as (h1 & q1 & E & Hok1 & Hp & Et & Ho); [tauto| |].
    { intros x Hx Hxw. apply Hw1. right. apply list_elem_of_fmap. by exists x. }
    rewrite E. cbn [bindO].
    destruct (IH h1 q1 Hok1) as (h2 & q2 & E2 & Hok2 & Hp2 & Ht2 & Ho2).
    { rewrite Hp. rewrite <- Permutation_middle. apply list.NoDup_cons. rewrite elem_of_app. by split. }
    { rewrite (fmap_Permutation (wakeup_time h1) _ _ Hp), fmap_cons, Et.
      assert ((wakeup_time h1 <$> ts_elements (lsq_queue q)) = (wakeup_time h <$> ts_elements (lsq_queue q))) as ->.
      { apply list_fmap_ext. intros i x Hx. apply Ho. intros ->. apply Hr1. right. by apply (list_elem_of_lookup_2 _ i). }
      rewrite <- Permutation_middle. apply list.NoDup_cons. rewrite elem_of_app. by split. }
    exists h2, q2. split; [done|]. split; [done|]. split; [|split].
    + rewrite Hp2, Hp, fmap_cons. cbn [snd app]. by rewrite <- Permutation_middle.
    + intros w x Hin. apply elem_of_cons in Hin as [[= -> ->]|Hin]; [|by apply Ht2].
      rewrite Ho2; [done|]. tauto.
    + intros x Hx. rewrite fmap_cons in Hx. cbn [snd] in Hx. apply not_elem_of_cons in Hx as [Hxr Hx].
      rewrite Ho2 by done. by apply Ho.
Qed.

Lemma sorted_filter h (P : Z -> Prop) `{!forall x, Decision (P x)} (l : list Z) :
  StronglySorted (timepoint_less h) l -> StronglySorted (timepoint_less h) (filter P l).
Proof.
  induction 1 as [|x l Hs IH Hx]; [constructor|]. rewrite filter_cons. case_decide; [|done]. constructor; [done|].
  rewrite Forall_forall in Hx |- *. intros y Hy. apply Hx. apply list_elem_of_In in Hy. apply list_elem_of_filter in Hy as [_ Hy].
  by apply list_elem_of_In.
Qed.

Lemma lsq_new_ok : lsq_ok ∅ lsq_new.
Proof. constructor; cbn [lsq_new lsq_queue lsq_next_item]; rewrite ts_empty_ok; [constructor|done]. Qed.

(** C36: resumables put to sleep with pairwise different wakeup times are woken
    by [dequeue_into] exactly when their time is not after the cutoff, in the
    order of their times; the others stay, and [next_item] is the earliest
    time among them (the end of time when none is left). *)
Theorem sleep_queue_wakes_in_order (items : list (Z * Z)) (wq : worker_queue) (cutoff : Z) :
  NoDup items.*1 -> NoDup items.*2 -> Forall (fun w => w <= tp_max) items.*1 ->
  exists h q h' q' out,
    enqueue_all ∅ (lsq_new (S := S)) items = Ret (h, q) /\ dequeue_into h q wq cutoff = Ret (h', q', wq ++ out) /\
    StronglySorted (timepoint_less h) out /\
    out ≡ₚ (filter (fun i => i.1 <= cutoff) items).*2 /\
    ts_elements (lsq_queue q') ≡ₚ (filter (fun i => ~ i.1 <= cutoff) items).*2 /\
    next_item q' = foldr Z.min tp_max (filter (fun i => ~ i.1 <= cutoff) items).*1.
Proof.
  intros Hw Hr Hm.
  destruct (enqueue_all_ok items ∅ lsq_new lsq_new_ok) as (h & q & E & Hok & Hp & Ht & _);
    [cbn [lsq_new lsq_queue]; by rewrite ts_empty_ok, app_nil_r..|].
  assert (Hel : ts_elements (lsq_queue q) ≡ₚ items.*2) by (by rewrite Hp; cbn [lsq_new lsq_queue]; rewrite ts_empty_ok, app_nil_r).
  assert (Hf : forall (P : Z -> Prop) `{!forall x, Decision (P x)},
    filter (fun x => P (wakeup_time h x)) (ts_elements (lsq_queue q)) ≡ₚ (filter (fun i => P i.1) items).*2).
  { intros P ?. rewrite Hel. clear -Ht. induction items as [|[w r] items IH]; [done|].
    rewrite fmap_cons, !filter_cons. cbn [fst snd]. rewrite (Ht w r) by constructor.
    assert (IH' := IH (fun when r H => Ht when r (list_elem_of_further _ _ _ H))).
    case_decide; [|done]. rewrite fmap_cons. by constructor. }
  assert (Hmax : forall x, x ∈ ts_elements (lsq_queue q) -> wakeup_time h x <= tp_max).
  { intros x. rewrite Hel. intros Hx. apply list_elem_of_fmap in Hx as ([w y] & -> & Hy). cbn [snd]. rewrite (Ht w y Hy).
    rewrite Forall_forall in Hm. apply Hm, list_elem_of_In, list_elem_of_fmap. by exists (w, y). }
  assert (Hearly : forall h', (forall x, ~ wakeup_time h x <= cutoff -> wakeup_time h' x = wakeup_time h x) ->
    earliest h' (filter (fun i => ~ i.1 <= cutoff) items).*2 = foldr Z.min tp_max (filter (fun i => ~ i.1 <= cutoff) items).*1).
  { intros h' Hh'. clear -Ht Hh'. induction items as [|[w r] items IH]; [done|].
    rewrite !filter_cons. cbn [fst]. pose proof (Ht w r (list_elem_of_here _ _)) as Hwr.
    assert (IH' := IH (fun when r H => Ht when r (list_elem_of_further _ _ _ H))). clear IH.
    case_decide as Hd; [|done]. rewrite !fmap_cons. simpl. rewrite Hh' by (by rewrite Hwr). by rewrite Hwr, <- IH'. }
  assert (Hle := Hf (fun t => t <= cutoff) _). assert (Hgt := Hf (fun t => ~ t <= cutoff) _). cbv beta in Hle, Hgt.
  exists h, q. unfold dequeue_into. rewrite (lsq_next _ _ Hok), Z.gtb_ltb. case_if.
  - assert (Hno : forall x, x ∈ ts_elements (lsq_queue q) -> ~ wakeup_time h x <= cutoff).
    { intros x Hx. pose proof (earliest_le h x _ Hx). lia. }
    eexists h, q, []. rewrite app_nil_r. split; [exact E|]. split; [reflexivity|]. split; [constructor|].
    rewrite filter_none in Hle by done. rewrite filter_all in Hgt by done. do 2 (split; [done|]).
    unfold next_item. rewrite (lsq_next _ _ Hok), <- (Hearly h) by done. by apply earliest_perm.
  - destruct (drain_ok h (lsq_queue q) _ wq cutoff eq_refl (lsq_sorted _ _ Hok) Hmax) as (h' & q' & E1 & Hok' & Eq & Ht').
    exists h', q', (filter (fun x => wakeup_time h x <= cutoff) (ts_elements (lsq_queue q))).
    split; [exact E|]. split; [exact E1|]. split; [|split; [|split]].
    + apply sorted_filter, Hok.
    + exact Hle.
    + by rewrite Eq.
    + unfold next_item. rewrite (lsq_next _ _ Hok'), Eq, <- (Hearly h').
      * by apply earliest_perm.
      * intros x Hx. rewrite Ht'. rewrite decide_False; [done|]. tauto.
Qed.

(** The sleep queue keeps one resumable per wakeup time: putting a second
    one to sleep until the same instant only changes its wakeup time, the set
    refuses it, and since the queue has taken its ownership no later
    [dequeue_into] will ever wake it. *)
Theorem sleep_queue_drops_equal (h : wakeups) (q : local_sleep_queue S) (x r : Z) :
  lsq_ok h q -> x ∈ ts_elements (lsq_queue q) -> r ∉ ts_elements (lsq_queue q) ->
  (forall y, y ∈ ts_elements (lsq_queue q) -> wakeup_time h y <= tp_max) ->
  enqueue h q (wakeup_time h x) (Some r) = Ret (set_wakeup_time h r (wakeup_time h x), q) /\
  forall wq cutoff, exists h' q' out,
    dequeue_into (set_wakeup_time h r (wakeup_time h x)) q wq cutoff = Ret (h', q', wq ++ out) /\
    r ∉ out /\ r ∉ ts_elements (lsq_queue q').
Proof.
  intros Hok Hx Hr Hm. destruct (sleep_queue_equal h q x r Hok Hx Hr) as (E & [Hs1 _] & He).
  set (h1 := set_wakeup_time h r (wakeup_time h x)) in *. split; [done|].
  intros wq cutoff. unfold dequeue_into. case_if.
    + exists h1, q, []. rewrite app_nil_r. split; [done|]. split; [set_solver|done].
    + destruct (drain_ok h1 (lsq_queue q) _ wq cutoff eq_refl Hs1) as (h' & q' & E1 & _ & Eq & _).
      { intros y Hy. rewrite He by done. by apply Hm. }
      eexists h', q', _. split; [exact E1|]. rewrite Eq, !list_elem_of_filter. tauto.
Qed.
End sleep_queue_theorems.

Lemma sleep_queue_wakes_in_order_witness :
  exists h q h' q' out,
    enqueue_all ∅ (SleepQueue.lsq_new (S := list Z)) [(30, 1); (10, 2); (50, 3); (20, 4)] = Ret (h, q) /\
    SleepQueue.dequeue_into h q [9] 30 = Ret (h', q', [9] ++ out) /\ out ≡ₚ [1; 2; 4].
Proof.
  destruct (sleep_queue_wakes_in_order (S := list Z) [(30, 1); (10, 2); (50, 3); (20, 4)] [9] 30)
    as (h & q & h' & q' & out & E1 & E2 & _ & Hp & _).
  - by apply (bool_decide_unpack _).
  - by apply (bool_decide_unpack _).
  - by apply (bool_decide_unpack _).
  - exists h, q, h', q', out. split; [exact E1|]. split; [exact E2|]. exact Hp.
Defined.

Definition ex_asleep : outcome (wakeups * local_sleep_queue (list Z)) :=
  enqueue_all ∅ SleepQueue.lsq_new [(30, 1); (10, 2)].

Lemma sleep_queue_drops_equal_witness :
  exists h q, ex_asleep = Ret (h, q) /\
    SleepQueue.enqueue h q 30 (Some 3) = Ret (set_wakeup_time h 3 30, q).
Proof.
  eexists _, _. split; [reflexivity|].
  refine (proj1 (sleep_queue_drops_equal (<[2 := 10]> (<[1 := 30]> ∅)) (SleepQueue.mk_lsq ([2; 1] : list Z) 10) 1 3 _ _ _ _)).
  - constructor; [|reflexivity]. cbn [ts_elements list_timed_set SleepQueue.lsq_queue].
    repeat constructor.
  - by apply (bool_decide_unpack _).
  - by apply (bool_decide_unpack _).
  - cbn [ts_elements list_timed_set SleepQueue.lsq_queue]. intros y Hy. apply elem_of_cons in Hy as [->|Hy]; [done|].
    apply list_elem_of_singleton in Hy as ->. done.
Defined.
