(* ===== verification/Worker.v ===== *)
(** * Worker: a thread of the v2 scheduler (src/core/worker.cpp,
      xi/core/worker2.h, src/core/netpoller.cpp, xi/core/generic_resumable.h)

    [worker::run] is a loop over labels; [run_step] executes it from one label
    to the next.  What a step reads from outside is its argument [env]: the
    clocks, what [epoll_wait] and [epoll_ctl] returned.  The coroutine of a
    resumable is the list of results its [call()] will yield before it returns.
    A resumable handed to epoll is remembered in [w_armed] until it is
    reported. *)
From Stdlib Require Import Sorting.Sorted.
From S2P Require Import Prelude Queues.

(** ** Resumables *)

Inductive port_type := READ | WRITE.

(** [resumable::result]. *)
Inductive result : Type :=
  | blocked_port (fd : Z) (type : port_type)
  | blocked_sleep (duration : Z)
  | reschedule
  | done_.

Module Generic.
Record generic_resumable := mk_generic { gr_is_running : bool; gr_result : result; gr_body : list result }.

(** [generic_resumable()] around a [call()] that yields [body]. *)
Definition make (body : list result) : generic_resumable := mk_generic false reschedule body.

Definition yield (g : generic_resumable) (r : result) : generic_resumable :=
  if gr_is_running g then mk_generic false r (gr_body g) else g.

(** Runs the coroutine to its next [yield], or to the end of [call()]. *)
Definition resume (g : generic_resumable) : generic_resumable * result :=
  if negb (gr_is_running g) then
    match gr_body g with
    | r :: body =>
        let g := yield (mk_generic true (gr_result g) body) r in
        (g, gr_result g)
    | [] => (mk_generic true done_ [], done_)
    end
  else (g, reschedule).
End Generic.
Abbreviation generic_resumable := Generic.generic_resumable.

(** ** class netpoller *)
Module Netpoller.
Definition ENOENT : Z := 2.
Definition EEXIST : Z := 17.
Definition EPOLLIN : Z := 0x1.
Definition EPOLLOUT : Z := 0x4.
Definition EPOLLONESHOT : Z := Z.shiftl 1 30.
Definition EPOLLET : Z := Z.shiftl 1 31.
Definition MAX_EVENTS : Z := 1024.

(** What two calls of [epoll_ctl] return: [None], or [-1] and an [errno]. *)
Record ctl := mk_ctl { ctl_mod : option Z; ctl_add : option Z }.

(** Whether epoll now holds the event: [exit] ends the program. *)
Definition await_events (c : ctl) : outcome bool :=
  match ctl_mod c with
  | Some e =>
      if e =? ENOENT then
        match ctl_add c with
        | Some e => if e =? EEXIST then Ret false else Abort
        | None => Ret true
        end
      else Ret false
  | None => Ret true
  end.

(** The event registered and whether it was. *)
Definition await_readable (c : ctl) (r : option Z) : outcome (Z * option Z * bool) :=
  do armed <- await_events c;; Ret (Z.lor (Z.lor EPOLLIN EPOLLET) EPOLLONESHOT, r, armed).
Definition await_writable (c : ctl) (r : option Z) : outcome (Z * option Z * bool) :=
  do armed <- await_events c;; Ret (Z.lor (Z.lor EPOLLOUT EPOLLET) EPOLLONESHOT, r, armed).

(** An event carries 64 bits of data; [data.fd] is their low half. *)
Definition data_fd (d : Z) : Z := i32 d.

(** The loop over the reported events: the queue, and whether the wakeup
    descriptor was read. *)
Fixpoint collect (wakeup_fd : Z) (events : list Z) (q : worker_queue) (woken : bool) : outcome (worker_queue * bool) :=
  match events with
  | [] => Ret (q, woken)
  | d :: events =>
      if data_fd d =? wakeup_fd then collect wakeup_fd events q true
      else do q <- WorkerQueue.enqueue q (Some d);; collect wakeup_fd events q woken
  end.

(** What [epoll_wait] returns: events, or [-1] and an [errno]. *)
Inductive wait_result := w_events (events : list Z) | w_errno (e : Z).
Definition EINTR : Z := 4.

(** [poll_into(q, n, block)]; [wait] is [epoll_wait], given the number of events
    it may report and whether it blocks. *)
Definition poll_into (wakeup_fd : Z) (wait : Z -> bool -> wait_result) (q : worker_queue) (n : Z) (block : bool)
    : outcome (worker_queue * bool * Z) :=
  match wait (Z.min n MAX_EVENTS) block with
  | w_errno e => if e =? EINTR then Ret (q, false, 0) else Abort
  | w_events events => do '(q, woken) <- collect wakeup_fd events q false;; Ret (q, woken, zlen events)
  end.
End Netpoller.

(** ** class worker *)

Record config := mk_config {
  netpoll_max : Z;
  scheduler_dequeue_max : Z;
  loop_budget_allocation : Z;
  max_loop_budget_allocation : Z;
  isolation_budget_allocation : Z;
  nr_spins_before_idle : Z;
  upper_bound_ready_queue : Z;
  upper_bound_fast_queue : Z
}.

Definition DEFAULT_CONFIG : config := mk_config usize_max 100 1000000 5000000 10000000 1000 50000 100000000.

(** The labels of [run()]. *)
Inductive label := at_central | at_poll | at_ports | at_ready | at_carry.

Record worker {S : Type} := mk_worker {
  w_label : label;
  w_port : worker_queue;
  w_ready : worker_queue;
  w_sleep : local_sleep_queue S;
  w_input : shared_queue;
  w_times : wakeups;
  w_tasks : gmap Z generic_resumable;
  w_armed : list Z;
  w_alloc : Z;
  w_spins : Z;
  w_isol : execution_budget;
  w_loop : execution_budget
}.
Arguments worker : clear implicits.

(** What a step observes: two readings of [rdtsc], [steady_clock::now()], the
    events of [epoll_wait], the results of [epoll_ctl]. *)
Record env := mk_env { e_tsc : Z; e_tsc2 : Z; e_now : Z; e_wait : Z -> bool -> Netpoller.wait_result; e_ctl : Netpoller.ctl }.

Module Worker.
Section worker.
Context {S : Type} `{timed_set S}.
Context (cfg : config) (wakeup_fd : Z) (body : Z -> list result).
Implicit Types (w : worker S) (e : env).

Definition set_label w l : worker S :=
  mk_worker S l (w_port w) (w_ready w) (w_sleep w) (w_input w) (w_times w) (w_tasks w) (w_armed w) (w_alloc w) (w_spins w)
    (w_isol w) (w_loop w).
Definition set_spins w n : worker S :=
  mk_worker S (w_label w) (w_port w) (w_ready w) (w_sleep w) (w_input w) (w_times w) (w_tasks w) (w_armed w) (w_alloc w) n
    (w_isol w) (w_loop w).
Definition set_budgets w alloc isol loop : worker S :=
  mk_worker S (w_label w) (w_port w) (w_ready w) (w_sleep w) (w_input w) (w_times w) (w_tasks w) (w_armed w) alloc
    (w_spins w) isol loop.
Definition set_queues w port ready : worker S :=
  mk_worker S (w_label w) port ready (w_sleep w) (w_input w) (w_times w) (w_tasks w) (w_armed w) (w_alloc w)
    (w_spins w) (w_isol w) (w_loop w).
Definition set_sleep w times sleep ready : worker S :=
  mk_worker S (w_label w) (w_port w) ready sleep (w_input w) times (w_tasks w) (w_armed w) (w_alloc w)
    (w_spins w) (w_isol w) (w_loop w).
Definition set_input w input ready tasks : worker S :=
  mk_worker S (w_label w) (w_port w) ready (w_sleep w) input (w_times w) tasks (w_armed w) (w_alloc w)
    (w_spins w) (w_isol w) (w_loop w).
Definition set_tasks w tasks armed : worker S :=
  mk_worker S (w_label w) (w_port w) (w_ready w) (w_sleep w) (w_input w) (w_times w) tasks armed (w_alloc w)
    (w_spins w) (w_isol w) (w_loop w).

Definition make (tsc : Z) : worker S :=
  mk_worker S at_central [] [] SleepQueue.lsq_new [] ∅ ∅ [] (loop_budget_allocation cfg) 0
    (Budget.make 0 0 tsc) (Budget.make 0 0 tsc).

(** The resumables built by the builders [bs]. *)
Definition build_all (tasks : gmap Z generic_resumable) (bs : list Z) : gmap Z generic_resumable :=
  foldl (fun t b => <[b := Generic.make (body b)]> t) tasks bs.

(** [_netpoller->poll_into(&_port_queue, n)] and [blocking_poll_into]. *)
Definition poll_netpoller w e (n : Z) (block : bool) : outcome (worker S) :=
  do '(port, _, _) <- Netpoller.poll_into wakeup_fd (e_wait e) (w_port w) n block;;
  let reported := match e_wait e (Z.min n Netpoller.MAX_EVENTS) block with Netpoller.w_events ev => ev | _ => [] end in
  Ret (set_tasks (set_queues w port (w_ready w)) (w_tasks w) (filter (fun r => r ∉ reported) (w_armed w))).

Definition block_resumable_on_sleep w (r : option Z) (ns now : Z) : outcome (worker S) :=
  if ns <? upper_bound_ready_queue cfg then
    do ready <- WorkerQueue.enqueue (w_ready w) r;; Ret (set_queues w (w_port w) ready)
  else if now + ns >? tp_max then Undef
  else
    do '(times, sleep) <- SleepQueue.enqueue (w_times w) (w_sleep w) (now + ns) r;;
    Ret (set_sleep w times sleep (w_ready w)).

(** The visitor of [_run_task_from_queue]. *)
Definition apply_result w (r : Z) (res : result) e : outcome (worker S) :=
  match res with
  | done_ => Ret (set_tasks w (delete r (w_tasks w)) (w_armed w))
  | reschedule => do ready <- WorkerQueue.enqueue (w_ready w) (Some r);; Ret (set_queues w (w_port w) ready)
  | blocked_sleep d => block_resumable_on_sleep w (Some r) d (e_now e)
  | blocked_port _ t =>
      do '(_, d, armed) <-
        match t with
        | READ => Netpoller.await_readable (e_ctl e) (Some r)
        | WRITE => Netpoller.await_writable (e_ctl e) (Some r)
        end;;
      Ret (if armed : bool then set_tasks w (w_tasks w) (w_armed w ++ [r]) else w)
  end.

(** [_current_task = q->dequeue().unwrap()], then [resume] and the visitor; [w]
    already has the shortened queue. *)
Definition run_task w (r : option Z) e : outcome (worker S) :=
  match r with
  | None => Throw optional_panic
  | Some r =>
      do g <- derefO (w_tasks w !! r);;
      let '(g, res) := Generic.resume g in
      apply_result (set_tasks w (<[r := g]> (w_tasks w)) (w_armed w)) r res e
  end.

Definition central w e : outcome (worker S) :=
  do '(input, ready, cnt) <- SharedQueue.dequeue_into id (w_input w) (w_ready w) (scheduler_dequeue_max cfg);;
  let w := set_input w input ready (build_all (w_tasks w) (ztake cnt (w_input w))) in
  let nothing := (cnt =? 0) && SleepQueue.is_empty (w_sleep w) in
  let spins := if nothing then u64 (w_spins w + 1) else w_spins w in
  if nothing && (spins >? nr_spins_before_idle cfg) then
    (* _scheduler->idle_worker(this) *)
    poll_netpoller (set_spins w 0) e 1 true
  else
    Ret (set_label (set_budgets (set_spins w spins) (w_alloc w)
           (Budget.make (isolation_budget_allocation cfg) 0 (e_tsc e)) (w_loop w)) at_poll).

Definition poll w e : outcome (worker S) :=
  let '(isol, more) := Budget.adjust_spent (w_isol w) (e_tsc e) in
  let w := set_budgets w (w_alloc w) isol (w_loop w) in
  if negb more then Ret (set_label w at_central)
  else
    do w <- poll_netpoller w e (netpoll_max cfg) false;;
    do '(times, sleep, ready) <- SleepQueue.dequeue_into (w_times w) (w_sleep w) (w_ready w) (e_now e);;
    let w := set_sleep w times sleep ready in
    let w := set_budgets w (w_alloc w) (w_isol w) (Budget.make (w_alloc w) 0 (e_tsc2 e)) in
    let w := if negb (WorkerQueue.is_empty (w_port w)) || negb (WorkerQueue.is_empty (w_ready w)) then set_spins w 0 else w in
    Ret (set_label w at_ports).

(** [if (!loop_budget.adjust_spent()) goto poll]. *)
Definition spend w e : worker S :=
  let '(loop, more) := Budget.adjust_spent (w_loop w) (e_tsc e) in
  let w := set_budgets w (w_alloc w) (w_isol w) loop in
  if negb more then set_label w at_poll else w.

Definition ports w e : outcome (worker S) :=
  if WorkerQueue.is_empty (w_port w) then Ret (set_label w at_ready)
  else
    let w := set_spins w 0 in
    let '(port, r) := WorkerQueue.dequeue (w_port w) in
    do w <- run_task (set_queues w port (w_ready w)) r e;;
    Ret (spend w e).

Definition ready w e : outcome (worker S) :=
  if WorkerQueue.is_empty (w_ready w) then Ret (set_label w at_carry)
  else
    let '(ready, r) := WorkerQueue.dequeue (w_ready w) in
    do w <- run_task (set_queues w (w_port w) ready) r e;;
    Ret (spend w e).

Definition carry w : worker S :=
  if negb (Budget.is_expended (w_loop w)) then
    set_label (set_budgets w
      (Z.max (max_loop_budget_allocation cfg) (u64 (w_alloc w + Budget.remainder (w_loop w)))) (w_isol w) (w_loop w)) at_central
  else set_label (set_budgets w (loop_budget_allocation cfg) (w_isol w) (w_loop w)) at_poll.

(** [run()] from one label to the next. *)
Definition run_step w e : outcome (worker S) :=
  match w_label w with
  | at_central => central w e
  | at_poll => poll w e
  | at_ports => ports w e
  | at_ready => ready w e
  | at_carry => Ret (carry w)
  end.

(** Executions: [run()] steps, and other threads put builders of new
    resumables into the input queue.  epoll reports what was handed to it and
    not reported yet, each once; a resumable is not at an address whose low half is
    the wakeup descriptor. *)
Definition env_ok w e : Prop :=
  (forall n block ev, e_wait e n block = Netpoller.w_events ev ->
     NoDup ev /\ forall d, d ∈ ev -> Netpoller.data_fd d = wakeup_fd \/ d ∈ w_armed w) /\
  e_now e <= 2 ^ 62.

Inductive step (used : gset Z) w : gset Z -> worker S -> Prop :=
  | step_run e w' : env_ok w e -> run_step w e = Ret w' -> step used w used w'
  | step_arrive b input :
      b ∉ used -> Netpoller.data_fd b <> wakeup_fd -> SharedQueue.enqueue (w_input w) (Some b) = Ret input ->
      step used w (used ∪ {[b]}) (set_input w input (w_ready w) (w_tasks w)).

Inductive reachable (tsc : Z) : gset Z -> worker S -> Prop :=
  | reach_init : reachable tsc ∅ (make tsc)
  | reach_step used w used' w' : reachable tsc used w -> step used w used' w' -> reachable tsc used' w'.
End worker.
End Worker.

(** ** Ownership *)
Section ownership.
Context {S : Type} `{timed_set_spec S}.
Context (cfg : config) (wakeup_fd : Z) (body : Z -> list result).
Implicit Types (w : worker S) (e : env).

(** Sleeps are short enough for the clock not to overflow. *)
Definition short (r : result) : Prop := match r with blocked_sleep d => d < 2 ^ 62 | _ => True end.

(** What is known of the resumables [l] the worker owns, the builders
    [input] that wait for it, and the live resumables [tasks]. *)
Record owns (used : gset Z) (l input : list Z) (tasks : gmap Z generic_resumable) : Prop := {
  own_nodup : NoDup (l ++ input);
  own_live r : r ∈ l -> exists g, tasks !! r = Some g /\ Generic.gr_is_running g = false;
  own_input b : b ∈ input -> tasks !! b = None;
  own_used r : r ∈ input \/ is_Some (tasks !! r) -> r ∈ used;
  own_fd r : r ∈ used -> Netpoller.data_fd r <> wakeup_fd;
  own_short r g : tasks !! r = Some g -> Forall short (Generic.gr_body g)
}.

Definition owned w : list Z := w_port w ++ w_ready w ++ ts_elements (SleepQueue.lsq_queue (w_sleep w)) ++ w_armed w.

Record worker_ok (used : gset Z) (held : list Z) w : Prop := {
  wok_owns : owns used (held ++ owned w) (w_input w) (w_tasks w);
  wok_sleep : lsq_ok (w_times w) (w_sleep w);
  wok_times x : x ∈ ts_elements (SleepQueue.lsq_queue (w_sleep w)) -> wakeup_time (w_times w) x <= tp_max
}.

(** Outcomes that keep the invariant: the program may also end at a failed
    system call. *)
Definition safe (used : gset Z) (m : outcome (worker S)) : Prop :=
  match m with Ret w => worker_ok used [] w | Abort => True | _ => False end.

Lemma owns_perm used l l' input tasks : l ≡ₚ l' -> owns used l input tasks -> owns used l' input tasks.
Proof. intros Hp [H1 H2 H3 H4 H5 H6]. constructor; try done. - by rewrite <- Hp. - intros r Hr. apply H2. by rewrite Hp. Qed.

Lemma owns_drop used r l input tasks : owns used (r :: l) input tasks -> owns used l input tasks.
Proof.
  intros [H1 H2 H3 H4 H5 H6]. constructor; try done.
  - by inversion H1.
  - intros x Hx. apply H2. by constructor.
Qed.

(** Destroying a resumable that has left every queue. *)
Lemma owns_delete used r l input tasks : owns used (r :: l) input tasks -> owns used l input (delete r tasks).
Proof.
  intros [H1 H2 H3 H4 H5 H6]. inversion H1 as [|? ? Hr Hn]; subst. rewrite elem_of_app in Hr. constructor; try done.
  - intros x Hx. rewrite lookup_delete_ne by (intros ->; tauto). apply H2. by constructor.
  - intros b Hb. rewrite lookup_delete_ne by (intros ->; tauto). by apply H3.
  - intros x [Hx|[g Hx]]; apply H4; [by left|]. apply lookup_delete_Some in Hx as [_ Hx]. right. by exists g.
  - intros x g Hx. apply lookup_delete_Some in Hx as [_ Hx]. by apply H6 in Hx.
Qed.

(** Updating a resumable that is still not running. *)
Lemma owns_update used r l input tasks g :
  owns used (r :: l) input tasks -> Generic.gr_is_running g = false -> Forall short (Generic.gr_body g) ->
  owns used (r :: l) input (<[r := g]> tasks).
Proof.
  intros [H1 H2 H3 H4 H5 H6] Hg Hs. destruct (H2 r) as (g0 & Hg0 & _); [constructor|].
  constructor; try done.
  - intros x Hx. destruct (decide (x = r)) as [->|Hne]; [exists g; by rewrite lookup_insert_eq|].
    rewrite lookup_insert_ne by done. by apply H2.
  - intros b Hb. rewrite lookup_insert_ne; [by apply H3|]. intros ->. rewrite (H3 b Hb) in Hg0. done.
  - intros x [Hx|Hx]; apply H4; [by left|]. right. destruct (decide (x = r)) as [->|Hne]; [by exists g0|].
    by rewrite lookup_insert_ne in Hx.
  - intros x g' Hx. destruct (decide (x = r)) as [->|Hne]; [rewrite lookup_insert_eq in Hx; by injection Hx as <-|].
    rewrite lookup_insert_ne in Hx by done. by apply H6 in Hx.
Qed.

(** Resumables built from the front of the input queue. *)
Lemma owns_build used l bs input tasks :
  Forall (fun b => Forall short (body b)) bs ->
  owns used l (bs ++ input) tasks -> owns used (l ++ bs) input (Worker.build_all body tasks bs).
Proof.
  intros Hs Ho. revert l tasks Ho. induction Hs as [|b bs Hb Hs IH]; intros l tasks Ho; [by rewrite app_nil_r|].
  assert ((l ++ b :: bs) = ((l ++ [b]) ++ bs)) as -> by by rewrite <- app_assoc.
  unfold Worker.build_all. cbn [foldl]. apply IH. destruct Ho as [H1 H2 H3 H4 H5 H6]. cbn [app] in *.
  assert (NoDup (b :: l ++ bs ++ input)) as Hnd by by rewrite Permutation_middle.
  apply list.NoDup_cons in Hnd as [Hnb Hnd]. rewrite !elem_of_app in Hnb.
  constructor; try done.
  - by rewrite <- app_assoc.
  - intros x Hx. apply elem_of_app in Hx as [Hx|Hx].
    + rewrite lookup_insert_ne by (intros ->; tauto). by apply H2.
    + apply list_elem_of_singleton in Hx as ->. eexists. by rewrite lookup_insert_eq.
  - intros x Hx. rewrite lookup_insert_ne; [apply H3; by constructor|]. intros <-. apply elem_of_app in Hx. tauto.
  - intros x [Hx|Hx]; apply H4; [left; by constructor|]. destruct (decide (x = b)) as [->|Hne]; [left; constructor|].
    rewrite lookup_insert_ne in Hx by done. by right.
  - intros x g Hx. destruct (decide (x = b)) as [->|Hne]; [rewrite lookup_insert_eq in Hx; by injection Hx as <-|].
    rewrite lookup_insert_ne in Hx by done. by apply H6 in Hx.
Qed.
End ownership.

Section worker_safety.
Context {S : Type} `{timed_set_spec S}.
Context (cfg : config) (wakeup_fd : Z) (body : Z -> list result).
Context (body_short : forall b, Forall short (body b)).
Implicit Types (w : worker S) (e : env).
Local Abbreviation worker_ok := (worker_ok wakeup_fd).
Local Abbreviation owns := (owns wakeup_fd).
Local Abbreviation safe := (safe wakeup_fd).
Import Worker.

Lemma resume_ok g : Generic.gr_is_running g = false -> Forall short (Generic.gr_body g) ->
  let '(g', r) := Generic.resume g in
  short r /\ Forall short (Generic.gr_body g') /\ (r = done_ \/ Generic.gr_is_running g' = false).
Proof.
  intros Hg Hs. unfold Generic.resume. rewrite Hg. cbn [negb].
  destruct (Generic.gr_body g) as [|r bd] eqn:Eb; [repeat split; [done|]; by left|].
  apply Forall_cons_iff in Hs as [Hr Hs]. unfold Generic.yield. cbn. split; [done|]. split; [done|]. by right.
Qed.

Lemma push_ready_ok used r w : worker_ok used [r] w -> worker_ok used [] (set_queues w (w_port w) (w_ready w ++ [r])).
Proof.
  intros [Ho Hs Ht]. constructor; [|done..]. apply (owns_perm _ _ ([r] ++ owned w)); [|done].
  unfold owned. cbn. permute.
Qed.

Lemma drop_ok used r w : worker_ok used [r] w -> worker_ok used [] w.
Proof. intros [Ho Hs Ht]. constructor; [|done..]. by apply owns_drop in Ho. Qed.

Lemma sleep_ok used r w d now :
  worker_ok used [r] w -> d < 2 ^ 62 -> now <= 2 ^ 62 -> safe used (block_resumable_on_sleep cfg w (Some r) d now).
Proof.
  intros Hok Hd Hnow. unfold block_resumable_on_sleep. case_if; [by apply push_ready_ok|].
  assert (2 ^ 62 + 2 ^ 62 = 2 ^ 63) as H63 by reflexivity. rewrite pow2_63 in H63.
  rewrite Z.gtb_ltb, (proj2 (Z.ltb_ge _ _)) by (unfold tp_max; rewrite pow2_63; lia).
  assert (now + d <= tp_max) as Hle by (unfold tp_max; rewrite pow2_63; lia).
  destruct Hok as [Ho Hs Ht]. set (l := ts_elements (SleepQueue.lsq_queue (w_sleep w))) in *.
  assert (r ∉ l) as Hr.
  { pose proof (own_nodup _ _ _ _ _ Ho) as Hn. unfold owned in Hn. fold l in Hn. apply list.NoDup_app in Hn as [Hn _].
    cbn [app] in Hn. apply list.NoDup_cons in Hn as [Hn _]. rewrite !elem_of_app in Hn. tauto. }
  destruct (decide (Exists (fun x => wakeup_time (w_times w) x = now + d) l)) as [Heq|Hne].
  - apply Exists_exists in Heq as (x & Hx & Hxw). apply list_elem_of_In in Hx.
    destruct (sleep_queue_equal (w_times w) (w_sleep w) x r Hs Hx Hr) as (Eq & Hs' & Hl). rewrite <- Hxw, Eq. cbn [bindO safe].
    constructor; [|done|].
    + by apply owns_drop in Ho.
    + intros y Hy. cbn in Hy |- *. rewrite Hl by done. by apply Ht.
  - assert (forall x, x ∈ l -> wakeup_time (w_times w) x <> now + d) as Hne'.
    { intros x Hx Hxw. apply Hne, Exists_exists. exists x. by rewrite <- list_elem_of_In. }
    destruct (enqueue_new (w_times w) (w_sleep w) (now + d) r Hs Hr Hne') as (h' & q' & Eq & Hs' & Hp & Hrw & Hl).
    rewrite Eq. cbn [bindO safe]. constructor; cbn; [|done|].
    + apply (owns_perm _ _ ([r] ++ owned w)); [|done]. unfold owned. cbn. rewrite Hp. permute.
    + intros y. rewrite Hp. intros Hy. apply elem_of_cons in Hy as [->|Hy]; [by rewrite Hrw|].
      rewrite Hl by (by intros ->). by apply Ht.
Qed.

Lemma run_task_ok used r w e : worker_ok used [r] w -> e_now e <= 2 ^ 62 -> safe used (run_task cfg w (Some r) e).
Proof.
  intros Hok Hnow. cbn [run_task]. destruct (own_live _ _ _ _ _ (wok_owns _ _ _ _ Hok) r) as (g & Hg & Hrun); [constructor|].
  rewrite Hg. cbn [derefO bindO].
  pose proof (resume_ok g Hrun (own_short _ _ _ _ _ (wok_owns _ _ _ _ Hok) r g Hg)) as Hres.
  destruct (Generic.resume g) as [g' res]. destruct Hres as (Hsh & Hbd & Hdone). set (w1 := set_tasks w _ _).
  assert (res <> done_ -> worker_ok used [r] w1) as Hw1.
  { intros Hnd. destruct Hok as [Ho Hs Ht]. constructor; [|done..]. apply owns_update; [done| |done]. tauto. }
  destruct res as [fd t|d| |]; cbn [apply_result].
  - specialize (Hw1 ltac:(done)).
    assert (forall c d t, match t with READ => Netpoller.await_readable c d | WRITE => Netpoller.await_writable c d end = Abort \/
      exists x y b, match t with READ => Netpoller.await_readable c d | WRITE => Netpoller.await_writable c d end = Ret (x, y, b)) as Ha.
    { intros c d t'. unfold Netpoller.await_readable, Netpoller.await_writable.
      assert (Netpoller.await_events c = Abort \/ exists b, Netpoller.await_events c = Ret b) as [->|[b ->]].
      { unfold Netpoller.await_events. destruct (Netpoller.ctl_mod c); [|by right; eexists]. case_if; [|by right; eexists].
        destruct (Netpoller.ctl_add c); [|by right; eexists]. case_if; [by right; eexists|by left]. }
      - left. by destruct t'.
      - right. destruct t'; by eexists _, _, _. }
    destruct (Ha (e_ctl e) (Some r) t) as [->|(x & y & b & ->)]; [done|]. cbn [bindO safe].
    destruct b; [|by apply (drop_ok _ r)].
    destruct Hw1 as [Ho Hs Ht]. constructor; [|done..]. apply (owns_perm _ _ ([r] ++ owned w1)); [|done].
    unfold owned. cbn. permute.
  - apply sleep_ok; [by apply Hw1| |done]. exact Hsh.
  - by apply push_ready_ok, Hw1.
  - cbn [safe]. destruct Hok as [Ho Hs Ht]. constructor; [|done..]. cbn.
    unfold w1, owned. cbn. rewrite delete_insert_eq. by apply owns_delete.
Qed.

Lemma collect_ok ev q woken : exists woken',
  Netpoller.collect wakeup_fd ev q woken = Ret (q ++ filter (fun d => Netpoller.data_fd d <> wakeup_fd) ev, woken').
Proof.
  revert q woken. induction ev as [|d ev IH]; intros q woken; cbn [Netpoller.collect].
  - eexists. by rewrite filter_nil, app_nil_r.
  - case_if.
    + rewrite filter_cons_False by tauto. apply IH.
    + cbn [WorkerQueue.enqueue bindO]. destruct (IH (q ++ [d]) woken) as [woken' ->]. eexists.
      by rewrite filter_cons_True, <- app_assoc by done.
Qed.

Lemma poll_netpoller_ok used w e n block :
  worker_ok used [] w -> env_ok wakeup_fd w e -> safe used (poll_netpoller wakeup_fd w e n block).
Proof.
  intros [Ho Hs Ht] [Hev _]. unfold poll_netpoller, Netpoller.poll_into.
  destruct (e_wait e _ block) as [ev|er] eqn:Ew.
  - destruct (collect_ok ev (w_port w) false) as [wk ->]. cbn [bindO safe]. destruct (Hev _ _ _ Ew) as [Hnd Hin].
    constructor; [|done..]. apply (owns_perm _ _ (owned w)); [|done]. unfold owned. cbn.
    assert (w_armed w ≡ₚ filter (fun d => Netpoller.data_fd d <> wakeup_fd) ev ++ filter (fun r => r ∉ ev) (w_armed w)) as Hp.
    { rewrite (filter_split (fun r => r ∈ ev) (w_armed w)) at 1. apply Permutation_app_tail.
      pose proof (own_nodup _ _ _ _ _ Ho) as Hn. unfold owned in Hn. cbn [app] in Hn.
      apply list.NoDup_app in Hn as [Hn _]. rewrite !app_assoc in Hn. apply list.NoDup_app in Hn as (_ & _ & Hn).
      apply list.NoDup_Permutation; [by apply list.NoDup_filter..|]. intros d. rewrite !list_elem_of_filter. split.
      - intros [Hd Ha]. split; [|done]. apply (own_fd _ _ _ _ _ Ho), (own_used _ _ _ _ _ Ho). right.
        destruct (own_live _ _ _ _ _ Ho d) as (g & Hg & _); [|by exists g]. unfold owned. rewrite !elem_of_app. tauto.
      - intros [Hd He]. destruct (Hin d He); [done|]. by split. }
    rewrite Hp at 1. permute.
  - case_if; [|done]. cbn [bindO safe]. constructor; [|done..]. apply (owns_perm _ _ (owned w)); [|done]. unfold owned. cbn.
    rewrite filter_all; [permute|]. set_solver.
Qed.

Lemma central_ok used w e :
  0 <= scheduler_dequeue_max cfg -> worker_ok used [] w -> env_ok wakeup_fd w e -> safe used (central cfg wakeup_fd body w e).
Proof.
  intros Hmax [Ho Hs Ht] He. unfold central. rewrite SharedQueue.dequeue_into_ok by done. cbn [bindO].
  set (n := scheduler_dequeue_max cfg) in *.
  assert (ztake (Z.min n (zlen (A := Z) (w_input w))) (w_input w) = ztake n (w_input w)) as ->.
  { destruct (Z.le_ge_cases n (zlen (A := Z) (w_input w))); [by rewrite Z.min_l|].
    rewrite Z.min_r by done. by rewrite !ztake_ge by (done || lia). }
  rewrite list_fmap_id. set (w1 := set_input w _ _ _).
  assert (worker_ok used [] w1) as Hok1.
  { constructor; [|done..]. cbn.
    apply (owns_perm _ _ (owned w ++ ztake n (w_input w))); [unfold owned; cbn; permute|].
    apply owns_build; [by apply Forall_forall|]. by rewrite ztake_zdrop. }
  case_if.
  - apply poll_netpoller_ok; [|done]. destruct Hok1. by constructor.
  - destruct Hok1. by constructor.
Qed.

Lemma poll_ok used w e : worker_ok used [] w -> env_ok wakeup_fd w e -> safe used (poll cfg wakeup_fd w e).
Proof.
  intros Hok He. unfold poll. destruct (Budget.adjust_spent (w_isol w) (e_tsc e)) as [isol more].
  destruct more; cbn [negb]; [|destruct Hok; by constructor].
  set (w1 := set_budgets w _ _ _). assert (worker_ok used [] w1) as Hok1 by (destruct Hok; by constructor).
  pose proof (poll_netpoller_ok used w1 e (netpoll_max cfg) false Hok1 He) as Hs2.
  destruct (poll_netpoller wakeup_fd w1 e (netpoll_max cfg) false) as [w2| | | |]; try done. cbn [bindO safe] in *.
  destruct Hs2 as [Ho Hs Ht]. unfold SleepQueue.dequeue_into. case_if; cbn [bindO].
  - case_if; by constructor.
  - destruct (drain_ok (w_times w2) (SleepQueue.lsq_queue (w_sleep w2)) _ (w_ready w2) (e_now e) eq_refl (lsq_sorted _ _ Hs) Ht)
      as (h' & q' & Ed & Hs' & Eq & Htm). rewrite Ed. cbn [bindO].
    assert (worker_ok used [] (set_label (set_budgets (set_sleep w2 h' q'
      (w_ready w2 ++ filter (fun x => wakeup_time (w_times w2) x <= e_now e) (ts_elements (SleepQueue.lsq_queue (w_sleep w2)))))
      (w_alloc w2) (w_isol w2) (Budget.make (w_alloc w2) 0 (e_tsc2 e))) at_ports)) as Hok3.
    { constructor; [|done|].
      - apply (owns_perm _ _ (owned w2)); [|done]. unfold owned. cbn. rewrite Eq.
        rewrite (filter_split (fun x => wakeup_time (w_times w2) x <= e_now e) (ts_elements _)) at 1. permute.
      - cbn. intros x. rewrite Eq, list_elem_of_filter. intros [Hgt Hx]. rewrite Htm, decide_False by tauto. by apply Ht. }
    case_if; [|exact Hok3]. destruct Hok3. by constructor.
Qed.

Lemma spend_ok used w e : worker_ok used [] w -> worker_ok used [] (spend w e).
Proof.
  intros [Ho Hs Ht]. unfold spend. destruct (Budget.adjust_spent (w_loop w) (e_tsc e)) as [loop more].
  case_if; by constructor.
Qed.

Lemma run_step_ok used w e :
  0 <= scheduler_dequeue_max cfg -> worker_ok used [] w -> env_ok wakeup_fd w e -> safe used (run_step cfg wakeup_fd body w e).
Proof.
  intros Hmax Hok He. unfold run_step. destruct (w_label w).
  - by apply central_ok.
  - by apply poll_ok.
  - unfold ports. case_if; [destruct Hok; by constructor|]. cbn [set_spins w_port].
    destruct (w_port w) as [|r port] eqn:Ep; [done|]. cbn [WorkerQueue.dequeue].
    pose proof (run_task_ok used r (set_queues (set_spins w 0) port (w_ready (set_spins w 0))) e) as Hr.
    destruct (run_task cfg _ (Some r) e); cbn [bindO safe]; try by (apply Hr; [|apply He]; destruct Hok as [Ho Hs Ht];
      constructor; [|done..]; unfold owned in *; rewrite Ep in Ho).
    apply spend_ok, Hr; [|apply He]. destruct Hok as [Ho Hs Ht]. constructor; [|done..]. unfold owned in *. by rewrite Ep in Ho.
  - unfold ready. case_if; [destruct Hok; by constructor|].
    destruct (w_ready w) as [|r rd] eqn:Ep; [done|]. cbn [WorkerQueue.dequeue].
    assert (worker_ok used [r] (set_queues w (w_port w) rd)) as Hok1.
    { destruct Hok as [Ho Hs Ht]. constructor; [|done..]. unfold owned in *. rewrite Ep in Ho.
      eapply owns_perm; [|exact Ho]. cbn. permute. }
    pose proof (run_task_ok used r _ e Hok1 (proj2 He)) as Hr.
    destruct (run_task cfg _ (Some r) e); cbn [bindO safe]; try done. by apply spend_ok.
  - unfold carry. case_if; destruct Hok; by constructor.
Qed.

Lemma make_ok tsc : worker_ok ∅ [] (make (S := S) cfg tsc).
Proof.
  constructor; [|by apply lsq_new_ok|].
  - unfold owned. cbn. rewrite ts_empty_ok. cbn. constructor; cbn.
    + constructor.
    + intros r Hr. by apply elem_of_nil in Hr.
    + intros r Hr. by apply elem_of_nil in Hr.
    + intros r [Hr|[g Hr]]; [by apply elem_of_nil in Hr|]. by rewrite lookup_empty in Hr.
    + set_solver.
    + intros r g Hr. by rewrite lookup_empty in Hr.
  - cbn. rewrite ts_empty_ok. intros x Hx. by apply elem_of_nil in Hx.
Qed.

Lemma arrive_ok used w b input : worker_ok used [] w -> b ∉ used -> Netpoller.data_fd b <> wakeup_fd ->
  SharedQueue.enqueue (w_input w) (Some b) = Ret input ->
  worker_ok (used ∪ {[b]}) [] (set_input w input (w_ready w) (w_tasks w)).
Proof.
  intros [Ho Hs Ht] Hb Hfd E. cbn [SharedQueue.enqueue] in E. injection E as <-. constructor; [|done..].
  unfold owned in *. cbn [set_input w_port w_ready w_sleep w_armed w_input w_tasks app] in *.
  destruct Ho as [H1 H2 H3 H4 H5 H6]. constructor; try done.
  - rewrite app_assoc. apply list.NoDup_app. split; [done|]. split; [|apply NoDup_singleton].
    intros x Hx Hxb. apply list_elem_of_singleton in Hxb as ->. apply Hb, H4. apply elem_of_app in Hx as [Hx|Hx]; [|by left].
    right. destruct (H2 b Hx) as (g & Hg & _). by exists g.
  - intros x Hx. apply elem_of_app in Hx as [Hx|Hx]; [by apply H3|]. apply list_elem_of_singleton in Hx as ->.
    destruct (w_tasks w !! b) eqn:Eb; [|done]. exfalso. apply Hb, H4. right. by eexists.
  - intros x [Hx|Hx]; apply elem_of_union; [apply elem_of_app in Hx as [Hx|Hx]|].
    + left. apply H4. by left.
    + right. set_solver.
    + left. apply H4. by right.
  - intros x Hx. apply elem_of_union in Hx as [Hx|Hx]; [by apply H5|]. apply elem_of_singleton in Hx as ->. done.
Qed.

Lemma reachable_ok tsc used w :
  0 <= scheduler_dequeue_max cfg -> reachable cfg wakeup_fd body tsc used w -> worker_ok used [] w.
Proof.
  intros Hmax Hr. induction Hr as [|used w used' w' _ IH Hst]; [apply make_ok|].
  destruct Hst as [e w' He E|b input Hb Hfd E]; [|by apply arrive_ok].
  pose proof (run_step_ok used w e Hmax IH He) as Hs. by rewrite E in Hs.
Qed.
End worker_safety.

(** ** Turns and budgets *)
Section worker_turns.
Context {S : Type} `{timed_set_spec S}.
Context (cfg : config) (wakeup_fd : Z) (body : Z -> list result).
Implicit Types (w : worker S) (e : env) (g : generic_resumable).
Import Worker.

Fixpoint run_steps w (es : list env) : outcome (worker S) :=
  match es with
  | [] => Ret w
  | e :: es => do w <- run_step cfg wakeup_fd body w e;; run_steps w es
  end.

(** A suspended resumable that will yield its turn or return. *)
Definition takes_turn g : Prop :=
  Generic.gr_is_running g = false /\ (Generic.gr_body g = [] \/ exists b, Generic.gr_body g = reschedule :: b).

Definition more_turns (tasks : gmap Z generic_resumable) (r : Z) : bool :=
  match tasks !! r with Some g => match Generic.gr_body g with [] => false | _ => true end | None => false end.

(** The resumable after its turn: destroyed when it returned. *)
Definition after_turn (o : option generic_resumable) : option generic_resumable :=
  match o with
  | Some g => match Generic.gr_body g with [] => None | _ => Some (fst (Generic.resume g)) end
  | None => None
  end.

Definition within_budget w e : Prop := snd (Budget.adjust_spent (w_loop w) (e_tsc e)) = true.

Lemma one_turn w e r rest g :
  w_label w = at_ready -> w_ready w = r :: rest -> w_tasks w !! r = Some g -> takes_turn g -> within_budget w e ->
  exists w', run_step cfg wakeup_fd body w e = Ret w' /\ w_label w' = at_ready /\
    w_ready w' = rest ++ (if more_turns (w_tasks w) r then [r] else []) /\ w_port w' = w_port w /\ w_sleep w' = w_sleep w /\
    (forall e', within_budget w e' -> within_budget w' e') /\
    w_tasks w' = partial_alter (fun _ => after_turn (Some g)) r (w_tasks w).
Proof.
  intros Hl Hr Hg [Hrun Hb] Hbud. unfold run_step. rewrite Hl. unfold ready. rewrite Hr.
  cbn [WorkerQueue.is_empty WorkerQueue.dequeue run_task set_queues w_tasks]. rewrite Hg. cbn [derefO bindO].
  unfold more_turns, after_turn. rewrite Hg. unfold Generic.resume. rewrite Hrun. cbn [negb].
  unfold within_budget, Budget.adjust_spent in *. cbn [snd] in *.
  destruct Hb as [Hb|[b Hb]]; rewrite Hb; cbn [Generic.yield Generic.gr_is_running Generic.gr_result Generic.gr_body fst
    apply_result bindO WorkerQueue.enqueue set_tasks set_queues w_ready w_port w_tasks w_armed]; eexists; (split; [reflexivity|]);
    unfold spend, Budget.adjust_spent; cbn [set_tasks set_queues set_budgets w_loop w_isol w_alloc]; rewrite Hbud; cbn [negb];
    cbn [set_budgets w_label w_ready w_port w_sleep w_tasks w_loop w_sleep Budget.allocated Budget.jitter Budget.start_tsc].
  - split; [done|]. rewrite app_nil_r. do 4 (split; [done|]). apply map_eq. intros x. cbn [set_tasks set_queues w_tasks].
    rewrite lookup_delete, lookup_partial_alter, lookup_insert. by repeat case_decide.
  - do 5 (split; [done|]). apply map_eq. intros x. cbn [set_tasks set_queues w_tasks]. rewrite lookup_insert, lookup_partial_alter. by repeat case_decide.
Qed.

Lemma turns es : forall w rs acc,
  w_label w = at_ready -> w_ready w = rs ++ acc -> NoDup rs ->
  (forall r, r ∈ rs -> exists g, w_tasks w !! r = Some g /\ takes_turn g) ->
  length es = length rs -> Forall (within_budget w) es ->
  exists w', run_steps w es = Ret w' /\ w_label w' = at_ready /\
    w_ready w' = acc ++ filter (fun r => more_turns (w_tasks w) r = true) rs /\
    w_port w' = w_port w /\ w_sleep w' = w_sleep w /\
    (forall r, w_tasks w' !! r = if decide (r ∈ rs) then after_turn (w_tasks w !! r) else w_tasks w !! r).
Proof.
  induction es as [|e es IH]; intros w rs acc Hl Hr Hnd Ht Hlen Hb; (destruct rs as [|r rs]; [|try done]); [|by cbn in Hlen|].
  - exists w. cbn [run_steps]. split; [done|]. split; [done|]. rewrite filter_nil, app_nil_r. split; [done|].
    do 2 (split; [done|]). intros r. rewrite decide_False; [done|]. apply not_elem_of_nil.
  - apply list.NoDup_cons in Hnd as [Hnr Hnd]. apply Forall_cons_iff in Hb as [Hb1 Hb].
    destruct (Ht r) as (g & Hg & Hturn); [constructor|].
    destruct (one_turn w e r (rs ++ acc) g Hl Hr Hg Hturn Hb1) as (w1 & E1 & Hl1 & Hr1 & Hp1 & Hs1 & Hb1' & Ht1).
    assert (forall x, x <> r -> w_tasks w1 !! x = w_tasks w !! x) as Hne.
    { intros x Hx. rewrite Ht1. by rewrite lookup_partial_alter_ne by done. }
    assert (forall x, x ∈ rs -> more_turns (w_tasks w1) x = more_turns (w_tasks w) x) as Hmore.
    { intros x Hx. unfold more_turns. rewrite Hne; [done|]. by intros ->. }
    destruct (IH w1 rs (acc ++ (if more_turns (w_tasks w) r then [r] else []))) as (w2 & E2 & Hl2 & Hr2 & Hp2 & Hs2 & Ht2).
    + done. + by rewrite Hr1, <- app_assoc. + done.
    + intros x Hx. rewrite Hne by (by intros ->). apply Ht. by constructor.
    + cbn in Hlen. lia.
    + apply (list.Forall_impl _ _ _ Hb), Hb1'.
    + exists w2. cbn [run_steps]. rewrite E1. cbn [bindO]. split; [done|]. split; [done|]. split; [|split; [congruence|split; [congruence|]]].
      * rewrite Hr2, <- app_assoc. f_equal. rewrite filter_cons.
        rewrite (filter_ext_in _ (fun r => more_turns (w_tasks w) r = true) rs) by (intros x Hx; by rewrite Hmore).
        by destruct (more_turns (w_tasks w) r).
      * intros x. rewrite Ht2. destruct (decide (x = r)) as [->|Hx].
        { rewrite decide_False by done. rewrite decide_True by constructor. rewrite Ht1, lookup_partial_alter_eq. by rewrite Hg. }
        rewrite Hne by done. apply decide_ext. rewrite elem_of_cons. naive_solver.
Qed.

(** The budget the hot loop will get next is either configured value. *)
Record budget_ok w : Prop := {
  bud_alloc : w_alloc w = loop_budget_allocation cfg \/ w_alloc w = max_loop_budget_allocation cfg;
  bud_loop : w_label w = at_ports \/ w_label w = at_ready \/ w_label w = at_carry ->
    Budget.allocated (w_loop w) = w_alloc w /\ Budget.is_expended (w_loop w) = false
}.

Lemma carry_max w :
  0 < loop_budget_allocation cfg <= max_loop_budget_allocation cfg -> max_loop_budget_allocation cfg < 2 ^ 63 ->
  budget_ok w -> w_label w = at_carry ->
  w_label (carry cfg w) = at_central /\ w_alloc (carry cfg w) = max_loop_budget_allocation cfg.
Proof.
  intros Hc Hm [Ha Hl] Hlab. destruct Hl as [Hal He]; [tauto|]. unfold carry. rewrite He. cbn [negb].
  split; [done|]. cbn [set_label set_budgets w_alloc]. unfold Budget.is_expended, Budget.remainder in *. rewrite Z.geb_leb in He. zbool.
  set (el := u64 (u64 _ - _)) in *. assert (0 <= el) by apply u64_range.
  apply Z.max_l. transitivity el; [|lia]. unfold u64, wrap at 1. rewrite <- Zplus_mod_idemp_r.
  rewrite Hal in *. unfold u64, wrap. rewrite Zmod_mod, Zplus_mod_idemp_r.
  replace (w_alloc w + (el - w_alloc w)) with el by lia. rewrite Z.mod_small; [lia|]. unfold_pow2. lia.
Qed.

Lemma run_task_label w r e w' : run_task cfg w r e = Ret w' -> w_label w' = w_label w /\ w_alloc w' = w_alloc w /\ w_loop w' = w_loop w.
Proof.
  destruct r as [r|]; [|done]. cbn [run_task]. intros E. inv_ret. destruct (Generic.resume _) as [g res].
  destruct res; cbn [apply_result] in E.
  - apply bindO_ret in E as ([[? ?] b] & _ & E). injection E as <-. by destruct b.
  - unfold block_resumable_on_sleep in E. destruct (duration <? _); [inv_ret; done|]. destruct (_ >? tp_max); [done|].
    apply bindO_ret in E as ([? ?] & _ & E). by injection E as <-.
  - inv_ret. done.
  - inv_ret. done.
Qed.

Lemma poll_netpoller_label w e n b w' : poll_netpoller wakeup_fd w e n b = Ret w' ->
  w_label w' = w_label w /\ w_alloc w' = w_alloc w /\ w_loop w' = w_loop w.
Proof. unfold poll_netpoller. intros E. apply bindO_ret in E as ([[? ?] ?] & _ & E). by injection E as <-. Qed.

(** Only the carry-over changes the allocation. *)
Lemma run_step_alloc w e w' : run_step cfg wakeup_fd body w e = Ret w' ->
  w_alloc w' = w_alloc w \/ (w_label w = at_carry /\ w' = carry cfg w).
Proof.
  intros E. unfold run_step in E. destruct (w_label w) eqn:Elab; [left..|right; by injection E].
  - unfold central in E. apply bindO_ret in E as ([[? ?] cnt] & _ & E). destruct (_ && _).
    + apply poll_netpoller_label in E as (_ & Eal & _). by rewrite Eal.
    + by injection E as <-.
  - unfold poll in E. destruct (Budget.adjust_spent _ _) as [isol more]. destruct more; cbn [negb] in E; [|by injection E as <-].
    apply bindO_ret in E as (w1 & E1 & E). apply poll_netpoller_label in E1 as (_ & Eal & _).
    apply bindO_ret in E as ([[? ?] ?] & _ & E). injection E as <-. destruct (_ || _); cbn; by rewrite Eal.
  - unfold ports in E. destruct (WorkerQueue.is_empty (w_port w)); [by injection E as <-|].
    cbn [set_spins w_port] in E. destruct (WorkerQueue.dequeue _) as [? r]. apply bindO_ret in E as (w1 & E1 & E). injection E as <-.
    apply run_task_label in E1 as (_ & Ea1 & _). unfold spend. destruct (Budget.adjust_spent _ _) as [? []]; by cbn; rewrite Ea1.
  - unfold ready in E. destruct (WorkerQueue.is_empty (w_ready w)); [by injection E as <-|].
    destruct (WorkerQueue.dequeue _) as [? r]. apply bindO_ret in E as (w1 & E1 & E). injection E as <-.
    apply run_task_label in E1 as (_ & Ea1 & _). unfold spend. destruct (Budget.adjust_spent _ _) as [? []]; by cbn; rewrite Ea1.
Qed.

Section budgets.
Context (Hc : 0 < loop_budget_allocation cfg <= max_loop_budget_allocation cfg) (Hm : max_loop_budget_allocation cfg < 2 ^ 63).

Lemma fresh_budget a tsc : 0 < a -> Budget.is_expended (Budget.make a 0 tsc) = false.
Proof.
  intros Ha. unfold Budget.is_expended, Budget.make. cbn. rewrite Z.add_0_r, Z.geb_leb. apply Z.leb_gt.
  assert (u64 (u64 tsc - tsc) = 0) as ->; [|done]. unfold u64, wrap. rewrite Zminus_mod_idemp_l, Z.sub_diag. done.
Qed.

Lemma spend_budget w e : Budget.allocated (w_loop w) = w_alloc w ->
  w_alloc (spend w e) = w_alloc w /\
  (w_label (spend w e) = at_poll \/
   w_label (spend w e) = w_label w /\ Budget.allocated (w_loop (spend w e)) = w_alloc w /\
   Budget.is_expended (w_loop (spend w e)) = false).
Proof.
  intros Ha. unfold spend, Budget.adjust_spent. case_if; cbn; [split; [done|]; by left|].
  split; [done|]. right. by zbool.
Qed.

Lemma budget_step w e w' : budget_ok w -> run_step cfg wakeup_fd body w e = Ret w' -> budget_ok w'.
Proof.
  intros [Ha Hl] E. unfold run_step in E. destruct (w_label w) eqn:Elab.
  - unfold central in E. apply bindO_ret in E as ([[? ?] cnt] & _ & E). destruct (_ && _).
    + apply poll_netpoller_label in E as (El & Eal & _). cbn in El, Eal. constructor; rewrite ?Eal, ?El, ?Elab; [done|].
      intros [?|[?|?]]; congruence.
    + injection E as <-. constructor; [done|]. cbn. intros [?|[?|?]]; congruence.
  - unfold poll in E. destruct (Budget.adjust_spent _ _) as [isol more]. destruct more; cbn [negb] in E.
    + apply bindO_ret in E as (w1 & E1 & E). apply poll_netpoller_label in E1 as (El & Eal & _). cbn in El, Eal.
      apply bindO_ret in E as ([[? ?] ?] & _ & E). injection E as <-.
      constructor; [destruct (_ || _); cbn; by rewrite Eal|].
      intros _. destruct (_ || _); cbn [set_label set_spins set_budgets set_sleep w_loop w_alloc];
        (split; [done|]; apply fresh_budget; rewrite Eal; destruct Ha as [-> | ->]; lia).
    + injection E as <-. constructor; [done|]. cbn. intros [?|[?|?]]; congruence.
  - destruct Hl as [Hal He]; [tauto|]. unfold ports in E. destruct (WorkerQueue.is_empty (w_port w)).
    + injection E as <-. constructor; [done|]. by split.
    + cbn [set_spins w_port] in E. destruct (WorkerQueue.dequeue _) as [? r].
      apply bindO_ret in E as (w1 & E1 & E). injection E as <-. apply run_task_label in E1 as (El1 & Ea1 & Elo1). cbn in El1, Ea1, Elo1.
      destruct (spend_budget w1 e) as (Es & [Esp|(Esl & Eal & Eex)]); [congruence| |]; constructor; rewrite ?Es, ?Ea1; try done.
      * rewrite Esp. intros [?|[?|?]]; congruence.
      * intros _. split; congruence.
  - destruct Hl as [Hal He]; [tauto|]. unfold ready in E. destruct (WorkerQueue.is_empty (w_ready w)).
    + injection E as <-. constructor; [done|]. by split.
    + destruct (WorkerQueue.dequeue _) as [? r].
      apply bindO_ret in E as (w1 & E1 & E). injection E as <-. apply run_task_label in E1 as (El1 & Ea1 & Elo1). cbn in El1, Ea1, Elo1.
      destruct (spend_budget w1 e) as (Es & [Esp|(Esl & Eal & Eex)]); [congruence| |]; constructor; rewrite ?Es, ?Ea1; try done.
      * rewrite Esp. intros [?|[?|?]]; congruence.
      * intros _. split; congruence.
  - injection E as <-. destruct (carry_max w Hc Hm) as [El Eal]; [by constructor; rewrite ?Elab|done|].
    constructor; [by right|]. rewrite El. intros [?|[?|?]]; congruence.
Qed.

Lemma reachable_budget tsc used w : reachable cfg wakeup_fd body tsc used w -> budget_ok w.
Proof.
  induction 1 as [|used w used' w' _ IH Hst].
  - constructor; [by left|]. cbn. intros [?|[?|?]]; congruence.
  - destruct Hst as [e w' _ E|b input _ _ E]; [by apply (budget_step w e)|]. destruct IH. by constructor.
Qed.
End budgets.
End worker_turns.

(** ** Properties *)
Section properties.
Context {S : Type} `{timed_set_spec S}.
Import Worker.

(** Whatever the resumables yield, whatever epoll reports and whenever
    other threads spawn, a worker never resumes a resumable that was destroyed,
    never has one in two places (port queue, ready queue, sleep queue, epoll) and
    never resumes one that is running: each step of [run()] completes, or the
    program ends at a system call that failed. *)
Theorem worker_owns_its_resumables (cfg : config) (wakeup_fd : Z) (body : Z -> list result)
    (tsc : Z) (used : gset Z) (w : worker S) (e : env) :
  0 <= scheduler_dequeue_max cfg -> (forall b, Forall short (body b)) ->
  reachable cfg wakeup_fd body tsc used w -> env_ok wakeup_fd w e ->
  NoDup (owned w) /\
  (forall r, r ∈ owned w -> exists g, w_tasks w !! r = Some g /\ Generic.gr_is_running g = false) /\
  (run_step cfg wakeup_fd body w e = Abort \/ exists w', run_step cfg wakeup_fd body w e = Ret w').
Proof.
  intros Hmax Hs Hr He. pose proof (reachable_ok cfg wakeup_fd body Hs tsc used w Hmax Hr) as Hok.
  split; [|split].
  - pose proof (own_nodup _ _ _ _ _ (wok_owns _ _ _ _ Hok)) as Hn. by apply list.NoDup_app in Hn as [Hn _].
  - intros r Hin. by apply (own_live _ _ _ _ _ (wok_owns _ _ _ _ Hok)).
  - pose proof (run_step_ok cfg wakeup_fd body Hs used w e Hmax Hok He) as Hsafe.
    destruct (run_step cfg wakeup_fd body w e); try done; [right; by eexists|by left].
Qed.

(** C37: the ready queue is served in turns: as long as the loop budget lasts,
    as many steps as it holds resumables run each of them once, in order; those
    that yield their turn are queued again in the same order, those that return
    are destroyed, and nothing else changes. *)
Theorem worker_serves_in_turns (cfg : config) (wakeup_fd : Z) (body : Z -> list result)
    (w : worker S) (es : list env) :
  w_label w = at_ready -> NoDup (w_ready w) ->
  (forall r, r ∈ w_ready w -> exists g, w_tasks w !! r = Some g /\ takes_turn g) ->
  length es = length (w_ready w) -> Forall (within_budget w) es ->
  exists w', run_steps cfg wakeup_fd body w es = Ret w' /\ w_label w' = at_ready /\
    w_ready w' = filter (fun r => more_turns (w_tasks w) r = true) (w_ready w) /\
    w_port w' = w_port w /\ w_sleep w' = w_sleep w /\
    (forall r, w_tasks w' !! r = if decide (r ∈ w_ready w) then after_turn (w_tasks w !! r) else w_tasks w !! r).
Proof.
  intros Hl Hnd Ht Hlen Hb.
  destruct (turns cfg wakeup_fd body es w (w_ready w) [] Hl (eq_sym (app_nil_r _)) Hnd Ht Hlen Hb) as (w' & E & El & Er & Hrest).
  exists w'. do 2 (split; [done|]). by split.
Qed.

(** The budget carried over is always [max_loop_budget_allocation]: when
    the queues run dry the loop budget is never expended, so the branch that
    restores the configured allocation is not taken, and what [max] is given is
    the time spent, which is below the maximum; after that the configured value
    is never used again. *)
Theorem worker_budget_carry_over (cfg : config) (wakeup_fd : Z) (body : Z -> list result)
    (tsc : Z) (used : gset Z) (w : worker S) (e : env) :
  0 < loop_budget_allocation cfg <= max_loop_budget_allocation cfg -> max_loop_budget_allocation cfg < 2 ^ 63 ->
  reachable cfg wakeup_fd body tsc used w ->
  (w_label w = at_carry -> exists w', run_step cfg wakeup_fd body w e = Ret w' /\
     w_label w' = at_central /\ w_alloc w' = max_loop_budget_allocation cfg) /\
  (forall w', w_alloc w = max_loop_budget_allocation cfg -> run_step cfg wakeup_fd body w e = Ret w' ->
     w_alloc w' = max_loop_budget_allocation cfg).
Proof.
  intros Hc Hm Hr. pose proof (reachable_budget cfg wakeup_fd body Hc Hm tsc used w Hr) as Hok. split.
  - intros Hl. unfold run_step. rewrite Hl. eexists. split; [reflexivity|]. by apply carry_max.
  - intros w' Ha E. destruct (run_step_alloc cfg wakeup_fd body w e w' E) as [->|[Hl ->]]; [done|]. by apply carry_max.
Qed.
End properties.

(** ** Witnesses *)

Definition ex_body (b : Z) : list result := if b =? 7 then [reschedule; blocked_sleep 100000] else [].
Definition ex_env (now : Z) : env := mk_env 0 0 now (fun _ _ => Netpoller.w_events []) (Netpoller.mk_ctl None None).
Definition ex_worker : worker (list Z) := Worker.set_input (Worker.make DEFAULT_CONFIG 0) [7] [] ∅.

Lemma ex_reachable : Worker.reachable DEFAULT_CONFIG 5 ex_body 0 (∅ ∪ {[7]} : gset Z) ex_worker.
Proof.
  apply (Worker.reach_step _ _ _ _ ∅ (Worker.make DEFAULT_CONFIG 0)); [constructor|].
  by apply (Worker.step_arrive _ _ _ ∅ (Worker.make DEFAULT_CONFIG 0) 7).
Qed.

Lemma ex_env_ok (w : worker (list Z)) : Worker.env_ok 5 w (ex_env 0).
Proof.
  split; [|done]. intros n b ev [= <-]. split; [constructor|]. intros d Hd. by apply elem_of_nil in Hd.
Qed.

Lemma ex_body_short b : Forall short (ex_body b).
Proof. unfold ex_body. case_if; repeat constructor. Qed.

Lemma worker_owns_its_resumables_witness : exists w', Worker.run_step DEFAULT_CONFIG 5 ex_body ex_worker (ex_env 0) = Ret w'.
Proof.
  destruct (worker_owns_its_resumables DEFAULT_CONFIG 5 ex_body 0 (∅ ∪ {[7]} : gset Z) ex_worker (ex_env 0)) as (_ & _ & [H|H]).
  - cbn. lia.
  - exact ex_body_short.
  - exact ex_reachable.
  - apply ex_env_ok.
  - discriminate H.
  - exact H.
Defined.

Definition ex_turns : worker (list Z) :=
  mk_worker _ at_ready [] [7; 8] SleepQueue.lsq_new [] ∅ (<[7 := Generic.make [reschedule]]> (<[8 := Generic.make []]> ∅)) []
    1000000 0 (Budget.make 10000000 0 0) (Budget.make 1000000 0 0).

Lemma worker_serves_in_turns_witness :
  exists w', run_steps DEFAULT_CONFIG 5 ex_body ex_turns [ex_env 0; ex_env 0] = Ret w' /\ w_ready w' = [7].
Proof.
  destruct (worker_serves_in_turns DEFAULT_CONFIG 5 ex_body ex_turns [ex_env 0; ex_env 0]) as (w' & E & _ & Er & _).
  - reflexivity.
  - by apply (bool_decide_unpack _).
  - cbn [w_ready ex_turns]. intros r Hr. apply elem_of_cons in Hr as [->|Hr].
    + exists (Generic.make [reschedule]). split; [reflexivity|]. split; [reflexivity|]. right. by exists [].
    + apply list_elem_of_singleton in Hr as ->. exists (Generic.make []). split; [reflexivity|]. split; [reflexivity|]. by left.
  - reflexivity.
  - repeat (apply Forall_cons_2; [reflexivity|]). apply Forall_nil_2.
  - exists w'. split; [exact E|]. by rewrite Er.
Defined.

(** A worker with nothing to do, at the end of its hot loop. *)
Definition ex_idle : worker (list Z) :=
  match run_steps DEFAULT_CONFIG 5 ex_body (Worker.make DEFAULT_CONFIG 0) (replicate 4 (ex_env 0)) with
  | Ret w => w | _ => ex_turns end.

Lemma ex_idle_reachable : Worker.reachable DEFAULT_CONFIG 5 ex_body 0 (∅ : gset Z) ex_idle.
Proof.
  assert (forall n w w', Worker.reachable DEFAULT_CONFIG 5 ex_body 0 (∅ : gset Z) w ->
    run_steps DEFAULT_CONFIG 5 ex_body w (replicate n (ex_env 0)) = Ret w' ->
    Worker.reachable DEFAULT_CONFIG 5 ex_body 0 (∅ : gset Z) w') as Hn.
  { induction n as [|n IH]; intros w w' Hw E; cbn [replicate run_steps] in E; [by injection E as <-|].
    apply bindO_ret in E as (w1 & E1 & E). apply (IH w1); [|done]. apply (Worker.reach_step _ _ _ _ ∅ w); [done|].
    apply (Worker.step_run _ _ _ _ _ (ex_env 0)); [apply ex_env_ok|done]. }
  apply (Hn 4%nat (Worker.make DEFAULT_CONFIG 0)); [constructor|vm_compute; reflexivity].
Qed.

Lemma worker_budget_carry_over_witness :
  exists w', Worker.run_step DEFAULT_CONFIG 5 ex_body ex_idle (ex_env 0) = Ret w' /\ w_alloc ex_idle = 1000000 /\ w_alloc w' = 5000000.
Proof.
  destruct (worker_budget_carry_over DEFAULT_CONFIG 5 ex_body 0 (∅ : gset Z) ex_idle (ex_env 0)) as [H _].
  - cbn. lia.
  - cbn. unfold_pow2. lia.
  - exact ex_idle_reachable.
  - destruct H as (w' & E & _ & Ea); [vm_compute; reflexivity|]. exists w'. split; [exact E|]. split; [vm_compute; reflexivity|exact Ea].
Defined.
