(* ===== verification/Dispatch.v ===== *)
(** * Dispatch: the central scheduler (xi/core/scheduler.h)

    Producers ([central_enqueue] on any thread) and workers ([idle_worker] and
    [_park] on theirs) share the mask of parked workers, the [state] field of
    the workers' control blocks, their input queues and their wakeup
    descriptors.  A step is one access to shared memory: [producer_step] and
    [worker_step] are the bodies of the functions cut at those accesses.
    [c_parks] and [c_claims] only count. *)
From S2P Require Import Prelude Queues.

Inductive worker_state := RUNNING | PARKED_NETPOLL | PARKED_THREAD | SPINNING.

#[export] Instance worker_state_eq_dec : EqDecision worker_state.
Proof. solve_decision. Defined.

(** Where a worker is: in its loop, or at a line of [_park]. *)
Inductive worker_pc := w_running | w_set_bit | w_set_state | w_blocked | w_reset_state | w_clear_bit.

Record control := mk_control {
  c_pc : worker_pc;
  c_state : worker_state;
  c_input : shared_queue;
  c_wakeup : bool;  (** the wakeup descriptor is readable *)
  c_parks : nat;
  c_claims : nat
}.

(** Where a producer is in [central_enqueue]. *)
Inductive producer_pc : Type :=
  | p_idle
  | p_load (job : Z)
  | p_claim (job : Z) (parked : Z) (idx : nat)
  | p_enqueue (job : Z) (idx : nat)
  | p_check (idx : nat)
  | p_unblock (idx : nat).

(** [p_rr] is the thread-local [ROUND_ROBIN]. *)
Record producer := mk_producer { p_pc : producer_pc; p_rr : Z }.

Record world := mk_world {
  parked_workers : Z;
  controls : list control;
  producers : list producer;
  submitted : list Z;
  taken : list Z
}.

Module Scheduler.
(** [1ul << idx]. *)
Definition bit (idx : nat) : Z := Z.shiftl 1 (Z.of_nat idx).
(** [fetch_and(~bit)] and [fetch_or(bit)]. *)
Definition clear_bit (m : Z) (idx : nat) : Z := Z.land m (Z.lnot (bit idx)).
Definition set_bit (m : Z) (idx : nat) : Z := Z.lor m (bit idx).

Definition set_producer (w : world) (p : nat) (x : producer) : world :=
  mk_world (parked_workers w) (controls w) (<[p := x]> (producers w)) (submitted w) (taken w).
Definition set_mask (w : world) (m : Z) : world :=
  mk_world m (controls w) (producers w) (submitted w) (taken w).
Definition set_control (w : world) (i : nat) (c : control) : world :=
  mk_world (parked_workers w) (<[i := c]> (controls w)) (producers w) (submitted w) (taken w).

(** [_least_loaded_worker]. *)
Definition least_loaded_worker (w : world) (rr : Z) : Z * nat :=
  (u64 (rr + 1), Z.to_nat (rr mod zlen (controls w))).

(** [central_enqueue] with [_worker_for_job] and [_first_parked_worker], up to
    the next access. *)
Definition producer_step (w : world) (p : nat) : outcome world :=
  do x <- derefO (producers w !! p);;
  let continue pc := set_producer w p (mk_producer pc (p_rr x)) in
  match p_pc x with
  | p_idle => Ret w
  | p_load job =>
      assertO (0 <? zlen (controls w))
        (let parked := parked_workers w in
         if parked =? 0 then
           let '(rr, idx) := least_loaded_worker w (p_rr x) in
           Ret (set_producer w p (mk_producer (p_enqueue job idx) rr))
         else Ret (continue (p_claim job parked (count_trailing_zeroes parked))))
  | p_claim job parked idx =>
      let old := parked_workers w in
      let w := set_mask w (clear_bit old idx) in
      if negb (parked =? old) then Ret (set_producer w p (mk_producer (p_load job) (p_rr x)))
      else
        match controls w !! idx with
        | None => Abort
        | Some c =>
            let w := set_control w idx (mk_control (c_pc c) (c_state c) (c_input c) (c_wakeup c) (c_parks c) (S (c_claims c))) in
            Ret (set_producer w p (mk_producer (p_enqueue job idx) (p_rr x)))
        end
  | p_enqueue job idx =>
      do c <- derefO (controls w !! idx);;
      do input <- SharedQueue.enqueue (c_input c) (Some job);;
      Ret (set_control (continue (p_check idx)) idx
             (mk_control (c_pc c) (c_state c) input (c_wakeup c) (c_parks c) (c_claims c)))
  | p_check idx =>
      do c <- derefO (controls w !! idx);;
      Ret (continue (if decide (c_state c = PARKED_NETPOLL) then p_unblock idx else p_idle))
  | p_unblock idx =>
      do c <- derefO (controls w !! idx);;
      Ret (set_control (continue p_idle) idx
             (mk_control (c_pc c) (c_state c) (c_input c) true (c_parks c) (c_claims c)))
  end.

(** A worker: a round of its loop takes what is in its input queue and polls,
    which reads the wakeup descriptor; when there was nothing it may report as
    idle ([choice]), and [_park] begins.  Blocked, it leaves [epoll_wait] with one
    event, that of another descriptor ([choice]) or the wakeup.  [None]: it blocks. *)
Definition worker_step (w : world) (i : nat) (choice : bool) : outcome (option world) :=
  do c <- derefO (controls w !! i);;
  let continue pc := mk_control pc (c_state c) (c_input c) (c_wakeup c) (c_parks c) (c_claims c) in
  match c_pc c with
  | w_running =>
      match c_input c with
      | [] =>
          Ret (Some (set_control w i
            (if choice then continue w_set_bit
             else mk_control w_running (c_state c) [] false (c_parks c) (c_claims c))))
      | jobs =>
          let c := mk_control w_running (c_state c) [] false (c_parks c) (c_claims c) in
          Ret (Some (mk_world (parked_workers w) (<[i := c]> (controls w)) (producers w) (submitted w) (taken w ++ jobs)))
      end
  | w_set_bit =>
      let c := mk_control w_set_state (c_state c) (c_input c) (c_wakeup c) (S (c_parks c)) (c_claims c) in
      Ret (Some (set_control (set_mask w (set_bit (parked_workers w) i)) i c))
  | w_set_state =>
      Ret (Some (set_control w i (mk_control w_blocked PARKED_NETPOLL (c_input c) (c_wakeup c) (c_parks c) (c_claims c))))
  | w_blocked =>
      if choice then Ret (Some (set_control w i (continue w_reset_state)))
      else if c_wakeup c then
        Ret (Some (set_control w i (mk_control w_reset_state (c_state c) (c_input c) false (c_parks c) (c_claims c))))
      else Ret None
  | w_reset_state =>
      Ret (Some (set_control w i (mk_control w_clear_bit RUNNING (c_input c) (c_wakeup c) (c_parks c) (c_claims c))))
  | w_clear_bit =>
      Ret (Some (set_control (set_mask w (clear_bit (parked_workers w) i)) i (continue w_running)))
  end.

(** [central_enqueue] is called. *)
Definition submit (w : world) (p : nat) (job : Z) : option world :=
  match producers w !! p with
  | Some (mk_producer p_idle rr) =>
      Some (mk_world (parked_workers w) (controls w) (<[p := mk_producer (p_load job) rr]> (producers w))
              (submitted w ++ [job]) (taken w))
  | _ => None
  end.

Inductive step (w : world) : world -> Prop :=
  | step_submit p job w' : submit w p job = Some w' -> step w w'
  | step_producer p w' : (p < length (producers w))%nat -> producer_step w p = Ret w' -> step w w'
  | step_worker i choice w' : (i < length (controls w))%nat -> worker_step w i choice = Ret (Some w') -> step w w'.

(** [start]: the workers and producer threads. *)
Definition init (workers threads : nat) : world :=
  mk_world 0 (replicate workers (mk_control w_running RUNNING [] false 0 0)) (replicate threads (mk_producer p_idle 0)) [] [].

Definition reachable (workers threads : nat) : world -> Prop := rtc step (init workers threads).

(** [idx = cpu - core_start] in [start], as an index of [_workers]. *)
Definition start_indices (core_start core_end : Z) : list Z :=
  (fun cpu => u64 (Z.of_nat cpu - core_start)) <$> seq 0 (Z.to_nat (core_end - core_start)).
End Scheduler.

(** ** Lists of agents *)

Lemma bind_insert {A B : Type} (f : A -> list B) (l : list A) (i : nat) (x y : A) :
  l !! i = Some x -> (<[i := y]> l ≫= f) ++ f x ≡ₚ (l ≫= f) ++ f y.
Proof.
  revert i. induction l as [|z l IH]; intros [|i] Hi; [done..| |].
  - injection Hi as ->. change (<[0%nat := y]> (x :: l)) with (y :: l). rewrite !bind_cons, <- !app_assoc.
    rewrite (Permutation_app_comm (f y)), (app_assoc (f x)). apply Permutation_app_tail, Permutation_app_comm.
  - change (<[S i := y]> (z :: l)) with (z :: <[i := y]> l). rewrite !bind_cons, <- !app_assoc. by rewrite (IH i Hi).
Qed.

Lemma bind_insert_same {A B : Type} (f : A -> list B) (l : list A) (i : nat) (x y : A) :
  l !! i = Some x -> f y = f x -> <[i := y]> l ≫= f = l ≫= f.
Proof.
  revert i. induction l as [|z l IH]; intros [|i] Hi Hf; [done..| |].
  - injection Hi as ->. change (<[0%nat := y]> (x :: l)) with (y :: l). by rewrite !bind_cons, Hf.
  - change (<[S i := y]> (z :: l)) with (z :: <[i := y]> l). by rewrite !bind_cons, (IH i Hi Hf).
Qed.

(** ** The mask *)
Section mask.
Import Scheduler.

Lemma testbit_bit i j : Z.testbit (bit i) (Z.of_nat j) = (i =? j)%nat.
Proof.
  unfold bit. rewrite Z.shiftl_1_l, Z.pow2_bits_eqb by lia. destruct (Nat.eqb_spec i j) as [->|Hne]; [apply Z.eqb_refl|].
  apply Z.eqb_neq. lia.
Qed.

Lemma testbit_clear m i j : Z.testbit (clear_bit m i) (Z.of_nat j) = Z.testbit m (Z.of_nat j) && negb (i =? j)%nat.
Proof. unfold clear_bit. rewrite Z.land_spec, Z.lnot_spec by lia. by rewrite testbit_bit. Qed.

Lemma testbit_set m i j : Z.testbit (set_bit m i) (Z.of_nat j) = Z.testbit m (Z.of_nat j) || (i =? j)%nat.
Proof. unfold set_bit. by rewrite Z.lor_spec, testbit_bit. Qed.

(** The mask of [n] workers: only their bits. *)
Definition mask_ok (n : nat) (m : Z) : Prop := 0 <= m /\ forall j, Z.testbit m (Z.of_nat j) = true -> (j < n)%nat.

Lemma ctz_ok n m : (n <= 64)%nat -> mask_ok n m -> m <> 0 -> Z.testbit m (Z.of_nat (count_trailing_zeroes m)) = true.
Proof.
  intros Hn [H0 Hm] Hne. pose proof (Z.bit_log2 m) as Hb. specialize (Hb ltac:(lia)).
  pose proof (Z.log2_nonneg m). rewrite <- (Z2Nat.id (Z.log2 m)) in Hb by lia. pose proof (Hm _ Hb).
  apply (ctz_from_ok _ _ _ (Z.to_nat (Z.log2 m))); [lia|done].
Qed.

Lemma mask_clear n m i : mask_ok n m -> mask_ok n (clear_bit m i).
Proof.
  intros [H0 Hm]. split; [apply Z.land_nonneg; by left|]. intros j. rewrite testbit_clear. intros Hj. zbool. by apply Hm.
Qed.

Lemma mask_set n m i : (i < n)%nat -> mask_ok n m -> mask_ok n (set_bit m i).
Proof.
  intros Hi [H0 Hm]. split.
  - apply Z.lor_nonneg. split; [done|]. apply Z.shiftl_nonneg. lia.
  - intros j. rewrite testbit_set. intros Hj. apply orb_true_iff in Hj as [Hj|Hj]; [by apply Hm|].
    apply Nat.eqb_eq in Hj. lia.
Qed.
End mask.

(** ** The invariant *)
Section invariant.
Import Scheduler.
Context (n : nat) (Hn : (0 < n <= 64)%nat).
Implicit Types (w : world) (c : control) (x : producer).

(** The job a producer still holds. *)
Definition pending x : list Z :=
  match p_pc x with p_load j | p_claim j _ _ | p_enqueue j _ => [j] | _ => [] end.

Definition pc_ok (pc : producer_pc) : Prop :=
  match pc with
  | p_claim _ parked idx => Z.testbit parked (Z.of_nat idx) = true
  | p_enqueue _ idx | p_check idx | p_unblock idx => (idx < n)%nat
  | _ => True
  end.

Definition state_ok c : Prop :=
  c_state c = match c_pc c with w_blocked | w_reset_state => PARKED_NETPOLL | _ => RUNNING end.

(** A claim uses up a park. *)
Definition claims_ok (m : Z) (i : nat) c : Prop :=
  (c_claims c + (if Z.testbit m (Z.of_nat i) then 1 else 0) <= c_parks c)%nat.

Record sched_ok w : Prop := {
  sok_length : length (controls w) = n;
  sok_mask : mask_ok n (parked_workers w);
  sok_producers p x : producers w !! p = Some x -> pc_ok (p_pc x);
  sok_controls i c : controls w !! i = Some c -> state_ok c /\ claims_ok (parked_workers w) i c;
  sok_jobs : submitted w ≡ₚ (producers w ≫= pending) ++ (controls w ≫= c_input) ++ taken w
}.

Lemma control_at w i : sched_ok w -> (i < n)%nat -> exists c, controls w !! i = Some c.
Proof. intros Hok Hi. apply lookup_lt_is_Some_2. by rewrite (sok_length _ Hok). Qed.

(** Steps that move a producer without touching what it holds. *)
Lemma set_producer_ok w p x y :
  sched_ok w -> producers w !! p = Some x -> pc_ok (p_pc y) -> pending y = pending x -> sched_ok (set_producer w p y).
Proof.
  intros [H1 H2 H3 H4 H5] Hx Hy Hp. constructor; cbn; try done.
  - intros q z Hz. apply list_lookup_insert_Some in Hz as [(-> & <- & _)|[_ Hz]]; [done|]. by apply (H3 q).
  - by rewrite (bind_insert_same pending _ _ _ _ Hx Hp).
Qed.

(** Steps that change a control block but not its queue. *)
Lemma set_control_ok w i c c' :
  sched_ok w -> controls w !! i = Some c -> state_ok c' -> claims_ok (parked_workers w) i c' -> c_input c' = c_input c ->
  sched_ok (set_control w i c').
Proof.
  intros [H1 H2 H3 H4 H5] Hc Hs Hcl Hi. constructor; cbn; try done.
  - by rewrite length_insert.
  - intros j d Hd. apply list_lookup_insert_Some in Hd as [(-> & <- & _)|[_ Hd]]; [done|]. by apply (H4 j).
  - by rewrite (bind_insert_same c_input _ _ _ _ Hc Hi).
Qed.

Lemma set_mask_clear_ok w i : sched_ok w -> sched_ok (set_mask w (clear_bit (parked_workers w) i)).
Proof.
  intros [H1 H2 H3 H4 H5]. constructor; cbn; try done; [by apply mask_clear|].
  intros j c Hc. destruct (H4 j c Hc) as [Hs Hcl]. split; [done|]. unfold claims_ok in *. rewrite testbit_clear.
  destruct (Z.testbit (parked_workers w) (Z.of_nat j)), (i =? j)%nat; cbn in *; lia.
Qed.

Lemma producer_step_ok w p : sched_ok w -> (p < length (producers w))%nat ->
  exists w', producer_step w p = Ret w' /\ sched_ok w'.
Proof.
  intros Hok Hp. destruct (lookup_lt_is_Some_2 _ _ Hp) as [x Hx]. unfold producer_step. rewrite Hx. cbn [derefO bindO].
  pose proof (sok_producers _ Hok p x Hx) as Hpc. destruct x as [pc rr]. destruct pc as [|j|j parked idx|j idx|idx|idx]; cbn [p_pc p_rr] in *.
  - by exists w.
  - rewrite (proj2 (Z.ltb_lt _ _)) by (unfold zlen; rewrite (sok_length _ Hok); lia). cbn [assertO].
    case_if; (eexists; split; [reflexivity|]; apply (set_producer_ok w p _ _ Hok Hx); [|done]; cbn).
    + unfold zlen. rewrite (sok_length _ Hok). apply Nat2Z.inj_lt. rewrite Z2Nat.id by (apply Z.mod_pos_bound; lia).
      apply Z.mod_pos_bound. lia.
    + apply (ctz_ok n); [lia|apply Hok|done].
  - pose proof (set_mask_clear_ok w idx Hok) as Hok1. case_if.
    + eexists. split; [reflexivity|]. by apply (set_producer_ok _ p _ _ Hok1 Hx).
    + subst parked. assert (idx < n)%nat as Hi by (by apply (sok_mask _ Hok)).
      destruct (control_at w idx Hok Hi) as [c Hc]. change (controls (set_mask _ _)) with (controls w). rewrite Hc.
      eexists. split; [reflexivity|]. destruct (sok_controls _ Hok idx c Hc) as [Hs Hcl].
      eapply (set_producer_ok _ p); [|exact Hx|exact Hi|done].
      eapply (set_control_ok _ idx c); [exact Hok1|exact Hc|exact Hs| |done].
      unfold claims_ok in *. cbn. rewrite testbit_clear, Hpc in *. rewrite Nat.eqb_refl. cbn. lia.
  - destruct (control_at w idx Hok Hpc) as [c Hc]. rewrite Hc. cbn [derefO bindO SharedQueue.enqueue].
    eexists. split; [reflexivity|]. destruct Hok as [H1 H2 H3 H4 H5]. constructor; cbn; try done.
    + by rewrite length_insert.
    + intros q z Hz. apply list_lookup_insert_Some in Hz as [(-> & <- & _)|[_ Hz]]; [done|]. by apply (H3 q).
    + intros i d Hd. apply list_lookup_insert_Some in Hd as [(-> & <- & _)|[_ Hd]]; [by apply (H4 _ c)|]. by apply (H4 i).
    + rewrite H5. pose proof (bind_insert pending _ _ _ (mk_producer (p_check idx) rr) Hx) as Hb1.
      pose proof (bind_insert c_input _ _ _ (mk_control (c_pc c) (c_state c) (c_input c ++ [j]) (c_wakeup c) (c_parks c) (c_claims c)) Hc) as Hb2.
      cbn [pending p_pc c_input] in Hb1, Hb2. rewrite app_nil_r in Hb1. rewrite <- Hb1.
      apply (Permutation_app_inv_r (c_input c)).
      transitivity ((<[p := mk_producer (p_check idx) rr]> (producers w) ≫= pending) ++
        ((controls w ≫= c_input) ++ c_input c ++ [j]) ++ taken w); [permute|]. rewrite <- Hb2. permute.
  - destruct (control_at w idx Hok Hpc) as [c Hc]. rewrite Hc. cbn [derefO bindO]. eexists. split; [reflexivity|].
    apply (set_producer_ok w p _ _ Hok Hx); [|by case_decide]. by case_decide.
  - destruct (control_at w idx Hok Hpc) as [c Hc]. rewrite Hc. cbn [derefO bindO]. eexists. split; [reflexivity|].
    destruct (sok_controls _ Hok idx c Hc) as [Hs Hcl].
    eapply (set_control_ok _ idx c); [|exact Hc|done..]. by apply (set_producer_ok w p _ _ Hok Hx).
Qed.

Lemma worker_step_ok w i idle : sched_ok w -> (i < n)%nat ->
  exists o, worker_step w i idle = Ret o /\ forall w', o = Some w' -> sched_ok w'.
Proof.
  intros Hok Hi. destruct (control_at w i Hok Hi) as [c Hc]. unfold worker_step. rewrite Hc. cbn [derefO bindO].
  destruct (sok_controls _ Hok i c Hc) as [Hs Hcl]. destruct c as [pc st inp wk pk cl].
  unfold state_ok, claims_ok in Hs, Hcl. cbn [c_pc c_state c_input c_wakeup c_parks c_claims] in *.
  destruct pc; cbn in Hs; subst st.
  - destruct inp as [|j inp].
    + eexists. split; [reflexivity|]. intros w' [= <-]. by destruct idle; apply (set_control_ok _ i _ _ Hok Hc).
    + eexists. split; [reflexivity|]. intros w' [= <-]. destruct Hok as [H1 H2 H3 H4 H5]. constructor; cbn; try done.
      * by rewrite length_insert.
      * intros k d Hd. apply list_lookup_insert_Some in Hd as [(-> & <- & _)|[_ Hd]]; [done|]. by apply (H4 k).
      * rewrite H5. pose proof (bind_insert c_input _ _ _ (mk_control w_running RUNNING [] false pk cl) Hc) as Hb.
        cbn [c_input] in Hb. rewrite app_nil_r in Hb. rewrite <- Hb. permute.
  - eexists. split; [reflexivity|]. intros w' [= <-]. destruct Hok as [H1 H2 H3 H4 H5]. constructor; cbn; try done.
    + by rewrite length_insert.
    + by apply mask_set.
    + intros k d Hd. apply list_lookup_insert_Some in Hd as [(-> & <- & _)|[Hne Hd]].
      * split; [done|]. unfold claims_ok. cbn. rewrite testbit_set, Nat.eqb_refl, orb_true_r. destruct (Z.testbit _ _); lia.
      * destruct (H4 k d Hd) as [Hs' Hcl']. split; [done|]. unfold claims_ok in *. rewrite testbit_set.
        apply Nat.eqb_neq in Hne. rewrite Hne, orb_false_r. done.
    + by rewrite (bind_insert_same c_input _ _ _ _ Hc).
  - eexists. split; [reflexivity|]. intros w' [= <-]. by apply (set_control_ok _ i _ _ Hok Hc).
  - destruct idle, wk; (eexists; split; [reflexivity|]); intros w' [= <-]; by apply (set_control_ok _ i _ _ Hok Hc).
  - eexists. split; [reflexivity|]. intros w' [= <-]. by apply (set_control_ok _ i _ _ Hok Hc).
  - eexists. split; [reflexivity|]. intros w' [= <-].
    apply (set_control_ok _ i (mk_control w_clear_bit RUNNING inp wk pk cl)); [by apply set_mask_clear_ok|done|done| |done].
    unfold claims_ok. cbn. rewrite testbit_clear. destruct (Z.testbit _ _); cbn in *; destruct (i =? i)%nat; cbn; lia.
Qed.

Lemma submit_ok w p job w' : sched_ok w -> submit w p job = Some w' -> sched_ok w'.
Proof.
  unfold submit. intros [H1 H2 H3 H4 H5]. destruct (producers w !! p) as [[pc rr]|] eqn:Hx; [|done].
  destruct pc; try done. intros [= <-]. constructor; cbn; try done.
  - intros q z Hz. apply list_lookup_insert_Some in Hz as [(-> & <- & _)|[_ Hz]]; [done|]. by apply (H3 q).
  - pose proof (bind_insert pending _ _ _ (mk_producer (p_load job) rr) Hx) as Hb. cbn [pending p_pc] in Hb.
    rewrite app_nil_r in Hb. rewrite Hb, H5. permute.
Qed.

Lemma init_ok threads : sched_ok (init n threads).
Proof.
  constructor; cbn [init controls producers parked_workers submitted taken].
  - apply length_replicate.
  - split; [done|]. intros j. by rewrite Z.bits_0.
  - intros p x Hx. by apply lookup_replicate in Hx as [-> _].
  - intros i c Hc. apply lookup_replicate in Hc as [-> _]. split; [done|]. unfold claims_ok. by rewrite Z.bits_0.
  - rewrite app_nil_r. assert (forall {A B} (f : A -> list B) (z : A) k, f z = [] -> replicate k z ≫= f = []) as Hr.
    { intros A B f z k Hf. induction k as [|k IH]; [done|]. cbn [replicate]. by rewrite bind_cons, Hf, IH. }
    by rewrite !Hr.
Qed.

Lemma step_ok w w' : step w w' -> sched_ok w -> sched_ok w'.
Proof.
  intros Hst Hok. destruct Hst as [p job w' E|p w' Hp E|i idle w' Hi E].
  - by apply (submit_ok w p job).
  - destruct (producer_step_ok w p Hok Hp) as (w1 & E1 & Hok1). rewrite E in E1. by injection E1 as ->.
  - rewrite (sok_length _ Hok) in Hi. destruct (worker_step_ok w i idle Hok Hi) as (o & E1 & Hok1). rewrite E in E1.
    injection E1 as <-. by apply Hok1.
Qed.
End invariant.

Lemma step_threads w w' : Scheduler.step w w' -> length (producers w') = length (producers w).
Proof.
  intros Hst. destruct Hst as [p job w' E|p w' Hp E|i idle w' Hi E].
  - unfold Scheduler.submit in E. destruct (producers w !! p) as [[[] rr]|]; try done. injection E as <-. cbn. by rewrite length_insert.
  - unfold Scheduler.producer_step in E. apply bindO_ret in E as (x & _ & E). destruct (p_pc x).
    + by injection E as <-.
    + apply assertO_ret in E as [_ E]. destruct (_ =? 0); injection E as <-; cbn; by rewrite length_insert.
    + destruct (negb _); [injection E as <-; cbn; by rewrite length_insert|].
      destruct (_ !! idx); [|done]. injection E as <-. cbn. by rewrite length_insert.
    + apply bindO_ret in E as (c & _ & E). apply bindO_ret in E as (inp & _ & E). injection E as <-. cbn. by rewrite length_insert.
    + apply bindO_ret in E as (c & _ & E). injection E as <-. cbn. by rewrite length_insert.
    + apply bindO_ret in E as (c & _ & E). injection E as <-. cbn. by rewrite length_insert.
  - unfold Scheduler.worker_step in E. apply bindO_ret in E as (c & _ & E). destruct (c_pc c);
      try destruct (c_input c); try destruct (c_wakeup c); try destruct idle; by inversion E; subst.
Qed.

(** ** Properties *)

(** C4: however producers and workers interleave, the scheduler's accesses are
    in bounds (no assertion of [_first_parked_worker] fails), every submitted
    job is held by one producer, in one input queue or taken by one worker, exactly
    once, and a worker that parked is claimed from the mask at most once per
    park, whatever producers race for it. *)
Theorem scheduler_dispatches_once (workers threads : nat) (w : world) :
  (0 < workers <= 64)%nat -> Scheduler.reachable workers threads w ->
  submitted w ≡ₚ (producers w ≫= pending) ++ (controls w ≫= c_input) ++ taken w /\
  Forall (fun c => (c_claims c <= c_parks c)%nat) (controls w) /\
  (forall p, (p < threads)%nat -> exists w', Scheduler.producer_step w p = Ret w') /\
  (forall i idle, (i < workers)%nat -> exists o, Scheduler.worker_step w i idle = Ret o).
Proof.
  intros Hn Hr. assert (sched_ok workers w /\ length (producers w) = threads) as [Hok Hlen].
  { revert Hr. unfold Scheduler.reachable. apply (rtc_invariant _ (fun w => sched_ok workers w /\ length (producers w) = threads)).
    - intros y y' Hst [Hy Hl]. split; [by apply (step_ok workers Hn y)|]. rewrite <- Hl. by apply step_threads.
    - split; [by apply init_ok|]. apply length_replicate. }
  split; [apply Hok|]. split; [|split].
  - apply Forall_lookup. intros i c Hc. destruct (sok_controls _ _ Hok i c Hc) as [_ Hcl]. unfold claims_ok in Hcl.
    destruct (Z.testbit _ _); lia.
  - intros p Hp. destruct (producer_step_ok workers Hn w p Hok) as (w' & E & _); [lia|]. by exists w'.
  - intros i idle Hi. destruct (worker_step_ok workers Hn w i idle Hok Hi) as (o & E & _). by exists o.
Qed.

(** The trace of a lost wakeup: the worker finds its queue empty, the producer
    takes it for running, the worker parks. *)
Definition lost_wakeup : world :=
  mk_world 1 [mk_control w_blocked PARKED_NETPOLL [42] false 1 0] [mk_producer p_idle 1] [42] [].

Lemma lost_wakeup_reachable : Scheduler.reachable 1 1 lost_wakeup.
Proof.
  unfold Scheduler.reachable.
  eapply rtc_l; [apply (Scheduler.step_worker _ 0 true); [vm_compute; lia|reflexivity]|]. cbn.
  eapply rtc_l; [apply (Scheduler.step_submit _ 0 42); reflexivity|]. cbn.
  eapply rtc_l; [apply (Scheduler.step_producer _ 0); [vm_compute; lia|reflexivity]|]. cbn.
  eapply rtc_l; [apply (Scheduler.step_producer _ 0); [vm_compute; lia|reflexivity]|]. cbn.
  eapply rtc_l; [apply (Scheduler.step_producer _ 0); [vm_compute; lia|reflexivity]|]. cbn.
  eapply rtc_l; [apply (Scheduler.step_worker _ 0 true); [vm_compute; lia|reflexivity]|]. cbn.
  eapply rtc_l; [apply (Scheduler.step_worker _ 0 true); [vm_compute; lia|reflexivity]|]. cbn.
  by apply rtc_done.
Qed.

(** [_park] does not look at the input queue again once the worker's state
    says it is parked, and [central_enqueue] only writes to the wakeup descriptor
    if it reads that state: a job can end in the queue of a worker that
    blocks, with no wakeup pending and every producer done, so that it waits
    until another job is submitted or some descriptor of that worker is ready. *)
Theorem scheduler_loses_wakeup :
  Scheduler.reachable 1 1 lost_wakeup /\
  Scheduler.worker_step lost_wakeup 0 false = Ret None /\
  Scheduler.producer_step lost_wakeup 0 = Ret lost_wakeup /\
  (controls lost_wakeup ≫= c_input) = [42] /\ taken lost_wakeup = [].
Proof.
  split; [exact lost_wakeup_reachable|done].
Qed.

(** Starting the scheduler on cores that do not begin at 0 gives its first
    worker an index far out of range. *)
Lemma scheduler_start_index core_start core_end i : 0 < core_start < core_end -> core_end < 2 ^ 16 ->
  Scheduler.start_indices core_start core_end !! 0%nat = Some i -> core_end - core_start < i.
Proof.
  intros Hs He. unfold Scheduler.start_indices. rewrite list_lookup_fmap, lookup_seq_lt by lia. intros [= <-].
  change (2 ^ 16) with 65536 in He. unfold u64, wrap.
  rewrite <- (Z.mod_unique (Z.of_nat 0 - core_start) (2 ^ 64) (-1) (2 ^ 64 - core_start)); unfold_pow2; lia.
Qed.

(** ** Witnesses *)
Lemma scheduler_dispatches_once_witness :
  submitted lost_wakeup ≡ₚ (producers lost_wakeup ≫= pending) ++ (controls lost_wakeup ≫= c_input) ++ taken lost_wakeup.
Proof.
  refine (proj1 (scheduler_dispatches_once 1 1 lost_wakeup _ _)); [lia|]. exact lost_wakeup_reachable.
Defined.
