(* ===== verification/Signals.v ===== *)
(** * Signals: the signal poller of a shard (src/core/signals.cpp)

    [_pending_signals] is a 64-bit mask that the signal handler sets and [poll]
    drains.  A handler of [_handlers] is known by its signal number; running it
    appends the number to a log.  [at] throws on an unknown number, which ends
    the program since [poll] is noexcept. *)
From S2P Require Import Prelude.

Record signals := mk_signals { handlers : gset Z; pending_signals : Z; handled : list Z }.

Module Signals.
(** [handle(signo, handler)]: what concerns the poller. *)
Definition handle (s : signals) (signo : Z) : signals :=
  mk_signals ({[signo]} ∪ handlers s) (pending_signals s) (handled s).

(** The action installed by [sigaction]; a shift by 64 or more is undefined. *)
Definition on_signal (s : signals) (signo : Z) : outcome signals :=
  if (0 <=? signo) && (signo <? 64) then
    Ret (mk_signals (handlers s) (Z.lor (pending_signals s) (Z.shiftl 1 signo)) (handled s))
  else Undef.

(** The loop of [poll]; every turn shifts at least one bit out. *)
Fixpoint poll_loop (fuel : nat) (s : signals) (sigs : Z) : outcome (signals * Z) :=
  if sigs >? 0 then
    match fuel with
    | O => Diverge
    | S fuel =>
        let i := Z.of_nat (count_trailing_zeroes sigs) in
        if decide (i ∈ handlers s) then
          if i + 1 <? 64 then
            poll_loop fuel (mk_signals (handlers s) (pending_signals s) (handled s ++ [i])) (Z.shiftr sigs (i + 1))
          else Undef
        else Abort
    end
  else Ret (s, sigs).

Definition poll (s : signals) : outcome (signals * Z) :=
  let sigs := pending_signals s in
  if negb (sigs =? 0) then
    poll_loop 64 (mk_signals (handlers s) (Z.land (pending_signals s) (Z.lnot sigs)) (handled s)) sigs
  else Ret (s, sigs).
End Signals.

(** ** Properties *)
Section signals.
Import Signals.

Lemma ctz_lowest m i : 0 <= i < 64 -> Z.testbit m i = true -> (forall k, 0 <= k < i -> Z.testbit m k = false) ->
  Z.of_nat (count_trailing_zeroes m) = i.
Proof.
  intros Hi Hm Hk. unfold count_trailing_zeroes. rewrite (ctz_from_first 64 0 m (Z.to_nat i)).
  - lia.
  - lia.
  - by rewrite Z2Nat.id by lia.
  - intros k Hlt. apply Hk. lia.
Qed.

Lemma testbit_pow2 i k : 0 <= i -> Z.testbit (2 ^ i) k = (k =? i).
Proof. intros Hi. rewrite Z.pow2_bits_eqb by done. apply Z.eqb_sym. Qed.

Lemma pow2_pos i : 0 <= i -> 0 < 2 ^ i.
Proof. intros. apply Z.pow_pos_nonneg; lia. Qed.

Lemma ctz_pow2 i : 0 <= i < 64 -> Z.of_nat (count_trailing_zeroes (2 ^ i)) = i.
Proof.
  intros Hi. apply ctz_lowest; [done|rewrite testbit_pow2 by lia; apply Z.eqb_refl|].
  intros k Hk. rewrite testbit_pow2 by lia. apply Z.eqb_neq. lia.
Qed.

(** One turn of the loop. *)
Lemma poll_loop_turn fuel s sigs i : 0 < sigs -> Z.of_nat (count_trailing_zeroes sigs) = i -> i < 63 ->
  poll_loop (S fuel) s sigs =
    if decide (i ∈ handlers s) then
      poll_loop fuel (mk_signals (handlers s) (pending_signals s) (handled s ++ [i])) (Z.shiftr sigs (i + 1))
    else Abort.
Proof.
  intros Hs Hi Hlt. cbn [poll_loop]. rewrite Z.gtb_ltb, (proj2 (Z.ltb_lt _ _)) by done. rewrite Hi.
  case_decide; [|done]. by rewrite (proj2 (Z.ltb_lt _ _)) by lia.
Qed.

Lemma poll_loop_end fuel s : poll_loop fuel s 0 = Ret (s, 0).
Proof. by destruct fuel. Qed.

Lemma poll_loop_one fuel s i : 0 <= i < 63 ->
  poll_loop (S fuel) s (2 ^ i) =
    if decide (i ∈ handlers s) then Ret (mk_signals (handlers s) (pending_signals s) (handled s ++ [i]), 0) else Abort.
Proof.
  intros Hi. rewrite (poll_loop_turn fuel s (2 ^ i) i) by (apply pow2_pos || apply ctz_pow2 || idtac; lia).
  rewrite Z.shiftr_div_pow2 by lia.
  rewrite Z.div_small by (split; [pose proof (pow2_pos i); lia|apply Z.pow_lt_mono_r; lia]). by rewrite poll_loop_end.
Qed.

(** Two bits, and what is left of them after the first turn. *)
Lemma two_bits i j k : 0 <= i -> i < j -> Z.testbit (Z.lor (2 ^ i) (2 ^ j)) k = (k =? i) || (k =? j).
Proof. intros. by rewrite Z.lor_spec, !testbit_pow2 by lia. Qed.

Lemma two_bits_pos i j : 0 <= i -> i < j -> 0 < Z.lor (2 ^ i) (2 ^ j).
Proof.
  intros Hi Hj. pose proof (two_bits i j i Hi Hj) as Hb. rewrite Z.eqb_refl in Hb.
  pose proof (pow2_pos i Hi). pose proof (pow2_pos j). assert (0 <= Z.lor (2 ^ i) (2 ^ j)) by (apply Z.lor_nonneg; lia).
  destruct (Z.eq_dec (Z.lor (2 ^ i) (2 ^ j)) 0) as [E|]; [|lia]. rewrite E, Z.bits_0 in Hb. done.
Qed.

Lemma two_bits_shifted i j : 0 <= i -> i < j -> Z.shiftr (Z.lor (2 ^ i) (2 ^ j)) (i + 1) = 2 ^ (j - i - 1).
Proof.
  intros Hi Hj. apply Z.bits_inj'. intros k Hk. rewrite Z.shiftr_spec, two_bits, testbit_pow2 by lia.
  destruct (Z.eqb_spec (k + (i + 1)) i), (Z.eqb_spec (k + (i + 1)) j), (Z.eqb_spec k (j - i - 1)); lia || done.
Qed.

(** One pending signal is handled by its own handler, but when two are
    pending the shift has already dropped the bits below the second one: the
    handler of [j - i - 1] runs instead of the handler of [j], or the program
    ends when no such handler is registered. *)
Theorem signals_poll_miscounts (hs : gset Z) (log : list Z) (i j : Z) :
  0 <= i -> i < j < 63 -> i ∈ hs -> j ∈ hs ->
  poll (mk_signals hs (2 ^ i) log) = Ret (mk_signals hs 0 (log ++ [i]), 0) /\
  poll (mk_signals hs (Z.lor (2 ^ i) (2 ^ j)) log) =
    (if decide (j - i - 1 ∈ hs) then Ret (mk_signals hs 0 (log ++ [i; j - i - 1]), 0) else Abort).
Proof.
  intros Hi Hj Hin Hjn. unfold poll. cbn [pending_signals handlers handled]. rewrite !Z.land_lnot_diag.
  pose proof (pow2_pos i Hi). pose proof (two_bits_pos i j Hi ltac:(lia)).
  rewrite !(proj2 (Z.eqb_neq _ _)) by lia. change 64%nat with (S 63). split; cbn [negb].
  - rewrite poll_loop_one by lia. by rewrite decide_True.
  - rewrite (poll_loop_turn 63 _ _ i); [|done| |lia].
    + cbn [handlers handled pending_signals]. rewrite decide_True by done. rewrite two_bits_shifted by lia.
      change 63%nat with (S 62). rewrite poll_loop_one by lia. cbn [handlers handled pending_signals]. by rewrite <- app_assoc.
    + apply ctz_lowest; [lia|by rewrite two_bits, Z.eqb_refl by lia|].
      intros k Hk. rewrite two_bits by lia. apply orb_false_iff. split; apply Z.eqb_neq; lia.
Qed.
End signals.

(** SIGINT and SIGTERM pending together. *)
Lemma signals_poll_miscounts_witness :
  Signals.poll (mk_signals {[2; 15]} (Z.lor (2 ^ 2) (2 ^ 15)) []) = Abort.
Proof.
  refine (eq_trans (proj2 (signals_poll_miscounts {[2; 15]} [] 2 15 _ _ _ _)) _).
  - lia.
  - lia.
  - by apply (bool_decide_unpack _).
  - by apply (bool_decide_unpack _).
  - vm_compute. reflexivity.
Defined.
