(* ===== verification/Bus.v ===== *)
(** * Bus: the message bus between two shards (src/core/message_bus.cpp,
      xi/core/message_bus_impl.h)

    A message is a heap object named by a number; its delegate is what calling
    it does.  Boost's [spsc_queue] is a list of at most [QUEUE_CAPACITY]
    elements, of which [push] takes what fits and [pop] what there is.  The
    promise of a message is known by what [process_reply] sets it to.
    [message_count] is not initialised by the code: [bus_new] takes its value. *)
From S2P Require Import Prelude.

(** [remote_message]. *)
Record message := mk_message { m_delegate : exn + Z; m_result : option Z; m_exception : option exn }.

(** [_promise.set(val)] or [_promise.set(exception)]; [None] is a null
    [exception_ptr]. *)
Inductive reply := reply_value (v : Z) | reply_exception (e : option exn).

Record work_queue := mk_queue { backlog : list Z; messages : list Z; message_count : Z }.

(** [message_bus::impl]; [requests] and [replies] record the calls made. *)
Record bus := mk_bus {
  b_pending : work_queue;
  b_complete : work_queue;
  b_heap : gmap Z message;
  b_next : Z;
  requests : list Z;
  replies : list (Z * reply)
}.

Module Bus.
Definition QUEUE_CAPACITY : Z := 128.
Definition QUEUE_BATCH : Z := 16.

Definition process_request (m : message) : message :=
  match m_delegate m with
  | inr v => mk_message (m_delegate m) (Some v) (m_exception m)
  | inl e => mk_message (m_delegate m) (m_result m) (Some e)
  end.

Definition process_reply (m : message) : reply :=
  match m_result m with None => reply_exception (m_exception m) | Some v => reply_value v end.

Definition _flush_backlog (q : work_queue) : work_queue * Z :=
  let queue_room := u64 (QUEUE_CAPACITY - message_count q) in
  let move_count := Z.min queue_room (zlen (backlog q)) in
  if move_count =? 0 then (q, 0)
  else
    let pushed := ztake (QUEUE_CAPACITY - zlen (messages q)) (ztake move_count (backlog q)) in
    (mk_queue (zdrop move_count (backlog q)) (messages q ++ pushed) (u64 (message_count q + move_count)), move_count).

Definition set_pending (b : bus) (q : work_queue) : bus :=
  mk_bus q (b_complete b) (b_heap b) (b_next b) (requests b) (replies b).
Definition set_complete (b : bus) (q : work_queue) : bus :=
  mk_bus (b_pending b) q (b_heap b) (b_next b) (requests b) (replies b).

(** Appends to a backlog and flushes it when a batch is full. *)
Definition enqueue (q : work_queue) (msg : Z) : work_queue :=
  let q := mk_queue (backlog q ++ [msg]) (messages q) (message_count q) in
  if zlen (backlog q) >=? QUEUE_BATCH then fst (_flush_backlog q) else q.

Definition _reply (b : bus) (msg : Z) : bus := set_complete b (enqueue (b_complete b) msg).
Definition impl_submit (b : bus) (msg : Z) : bus := set_pending b (enqueue (b_pending b) msg).

(** [message_bus::submit(f)]. *)
Definition submit (b : bus) (f : exn + Z) : bus :=
  impl_submit (mk_bus (b_pending b) (b_complete b) (<[b_next b := mk_message f None None]> (b_heap b)) (b_next b + 1)
                 (requests b) (replies b)) (b_next b).

(** The function [process_pending] gives to [_process_queue]. *)
Definition on_request (b : bus) (msg : Z) : outcome bus :=
  do m <- derefO (b_heap b !! msg);;
  Ret (_reply (mk_bus (b_pending b) (b_complete b) (<[msg := process_request m]> (b_heap b)) (b_next b)
                 (requests b ++ [msg]) (replies b)) msg).

(** The one [process_complete] gives. *)
Definition on_reply (b : bus) (msg : Z) : outcome bus :=
  do m <- derefO (b_heap b !! msg);;
  Ret (mk_bus (b_pending b) (b_complete b) (delete msg (b_heap b)) (b_next b) (requests b) (replies b ++ [(msg, process_reply m)])).

Fixpoint for_each (f : bus -> Z -> outcome bus) (b : bus) (items : list Z) : outcome bus :=
  match items with
  | [] => Ret b
  | msg :: items => do b <- f b msg;; for_each f b items
  end.

(** [_process_queue(q, f)] does not use [q]. *)
Definition _process_queue (b : bus) (f : bus -> Z -> outcome bus) : outcome (bus * Z) :=
  let items := ztake QUEUE_CAPACITY (messages (b_pending b)) in
  let q := mk_queue (backlog (b_pending b)) (zdrop QUEUE_CAPACITY (messages (b_pending b))) (message_count (b_pending b)) in
  do b <- for_each f (set_pending b q) items;;
  Ret (b, zlen items).

Definition process_pending (b : bus) : outcome (bus * Z) :=
  _process_queue (set_pending b (fst (_flush_backlog (b_pending b)))) on_request.
Definition process_complete (b : bus) : outcome (bus * Z) :=
  _process_queue (set_complete b (fst (_flush_backlog (b_complete b)))) on_reply.

Definition bus_new (count : Z) : bus := mk_bus (mk_queue [] [] count) (mk_queue [] [] count) ∅ 0 [] [].

(** Calls on a bus, from either side. *)
Inductive call := call_submit (f : exn + Z) | call_pending | call_complete.

Fixpoint run (b : bus) (calls : list call) : outcome bus :=
  match calls with
  | [] => Ret b
  | c :: calls =>
      do b <- match c with
              | call_submit f => Ret (submit b f)
              | call_pending => do '(b, _) <- process_pending b;; Ret b
              | call_complete => do '(b, _) <- process_complete b;; Ret b
              end;;
      run b calls
  end.
End Bus.

(** ** The invariant *)
Section invariant.
Import Bus.
Implicit Types (b : bus) (q : work_queue).

Definition queued q : list Z := backlog q ++ messages q.

(** A queue whose count started at 0: it never takes more than it holds. *)
Record queue_ok q : Prop := {
  qok_count : zlen (messages q) <= message_count q <= QUEUE_CAPACITY
}.

(** [taken] messages have left the pending queue since. *)
Record bus_ok b : Prop := {
  bok_pending : queue_ok (b_pending b);
  bok_complete : queue_ok (b_complete b);
  bok_nodup : NoDup (queued (b_pending b) ++ queued (b_complete b));
  bok_new x : x ∈ queued (b_pending b) -> exists m, b_heap b !! x = Some m /\ m_result m = None /\ m_exception m = None;
  bok_next x : x ∈ queued (b_pending b) ++ queued (b_complete b) -> x < b_next b;
  bok_requests : requests b ≡ₚ queued (b_complete b);
  bok_replies : Forall (fun r => r.2 = reply_exception None) (replies b);
  bok_count : message_count (b_pending b) = zlen (messages (b_pending b)) + zlen (requests b) + zlen (replies b)
}.

Lemma flush_ok q : queue_ok q ->
  queue_ok (fst (_flush_backlog q)) /\ queued (fst (_flush_backlog q)) ≡ₚ queued q /\
  message_count (fst (_flush_backlog q)) - zlen (messages (fst (_flush_backlog q))) = message_count q - zlen (messages q).
Proof.
  intros [Hc]. unfold _flush_backlog. pose proof (zlen_nonneg (backlog q)). pose proof (zlen_nonneg (messages q)).
  unfold QUEUE_CAPACITY in *. unwrap64. case_if; [done|]. cbn [fst backlog messages message_count]. unfold queued; cbn [backlog messages].
  set (mc := Z.min _ _) in *.
  assert (0 <= mc <= 128 - message_count q /\ mc <= zlen (backlog q)) as Hmc by (unfold mc; lia). clearbody mc. rewrite (ztake_ge (128 - zlen (messages q))) by (rewrite zlen_take; lia).
  split; [|split].
  - constructor; cbn [messages message_count]. rewrite zlen_app, zlen_take by lia. unfold QUEUE_CAPACITY. unwrap64. lia.
  - rewrite <- (ztake_zdrop mc (backlog q)) at 3. permute.
  - rewrite zlen_app, zlen_take by lia. unwrap64. lia.
Qed.

Lemma enqueue_ok q x : queue_ok q ->
  queue_ok (enqueue q x) /\ queued (enqueue q x) ≡ₚ x :: queued q /\
  message_count (enqueue q x) - zlen (messages (enqueue q x)) = message_count q - zlen (messages q).
Proof.
  intros Hq. unfold enqueue. set (q1 := mk_queue _ _ _). assert (queue_ok q1) as Hq1 by (destruct Hq; by constructor).
  assert (queued q1 ≡ₚ x :: queued q) as Hp by (unfold queued, q1; cbn; permute).
  case_if; [|done]. destruct (flush_ok q1 Hq1) as (H1 & H2 & H3). split; [done|]. split; [by rewrite H2|]. done.
Qed.

Lemma flush_pending_ok b : bus_ok b -> bus_ok (set_pending b (fst (_flush_backlog (b_pending b)))).
Proof.
  intros [H1 H2 H3 H4 H5 H6 H7 H8]. destruct (flush_ok _ H1) as (F1 & F2 & F3). constructor; cbn; try done.
  - by rewrite F2.
  - intros x. rewrite F2. apply H4.
  - intros x. rewrite F2. apply H5.
  - lia.
Qed.

Lemma flush_complete_ok b : bus_ok b -> bus_ok (set_complete b (fst (_flush_backlog (b_complete b)))).
Proof.
  intros [H1 H2 H3 H4 H5 H6 H7 H8]. destruct (flush_ok _ H2) as (F1 & F2 & F3). constructor; cbn; try done.
  - by rewrite F2.
  - intros x. rewrite F2. apply H5.
  - by rewrite F2.
Qed.

Lemma bus_submit_ok b f : bus_ok b -> bus_ok (submit b f).
Proof.
  intros [H1 H2 H3 H4 H5 H6 H7 H8]. unfold submit, impl_submit. cbn [b_pending]. destruct (enqueue_ok _ (b_next b) H1) as (F1 & F2 & F3).
  constructor; cbn; try done.
  - rewrite F2. cbn [app]. apply list.NoDup_cons. split; [|done]. intros Hin. apply H5 in Hin. lia.
  - intros x. rewrite F2. intros Hx. destruct (decide (x = b_next b)) as [->|Hne].
    + eexists. by rewrite lookup_insert_eq.
    + rewrite lookup_insert_ne by done. apply H4. by apply elem_of_cons in Hx as [?|?].
  - intros x. rewrite F2. cbn [app]. intros Hx. apply elem_of_cons in Hx as [->|Hx]; [lia|]. apply H5 in Hx. lia.
  - lia.
Qed.

(** A bus from whose pending queue [items] were popped and not handled yet. *)
Definition popped b (items : list Z) : Prop :=
  bus_ok (set_pending b (mk_queue (backlog (b_pending b)) (items ++ messages (b_pending b)) (message_count (b_pending b)))).

Lemma on_request_ok b x items : popped b (x :: items) -> exists b', on_request b x = Ret b' /\ popped b' items.
Proof.
  intros [H1 H2 H3 H4 H5 H6 H7 H8]. cbn [set_pending b_pending b_complete b_heap b_next requests replies messages message_count] in *.
  unfold queued in *. cbn [backlog messages] in *.
  destruct (H4 x) as (m & Hm & _ & _); [set_solver|]. unfold on_request. rewrite Hm. cbn [derefO bindO]. eexists. split; [reflexivity|].
  destruct (enqueue_ok _ x H2) as (F1 & F2 & F3). unfold _reply, popped. constructor; cbn [set_pending set_complete b_pending b_complete
    b_heap b_next requests replies messages message_count backlog]; unfold queued; cbn [backlog messages]; try done.
  - destruct H1 as [Hc]. constructor. cbn in *. rewrite zlen_cons in Hc. lia.
  - unfold queued in F2. rewrite F2. eapply list.NoDup_Permutation_proper; [|exact H3]. permute.
  - intros y Hy. rewrite lookup_insert_ne; [apply H4; set_solver|]. intros <-.
    assert (NoDup (x :: backlog (b_pending b) ++ items ++ messages (b_pending b))) as Hn.
    { apply list.NoDup_app in H3 as [H3 _]. eapply list.NoDup_Permutation_proper; [|exact H3]. permute. }
    by apply list.NoDup_cons in Hn as [Hn _].
  - intros y. unfold queued in F2. rewrite F2. intros Hy. apply H5. set_solver.
  - unfold queued in F2. rewrite F2, H6. permute.
  - cbn [app] in H8. rewrite zlen_cons in H8. rewrite (zlen_app (requests b)), zlen_cons, zlen_nil. lia.
Qed.

Lemma on_reply_ok b x items : popped b (x :: items) -> exists b', on_reply b x = Ret b' /\ popped b' items.
Proof.
  intros [H1 H2 H3 H4 H5 H6 H7 H8]. cbn [set_pending b_pending b_complete b_heap b_next requests replies messages message_count] in *.
  unfold queued in *. cbn [backlog messages] in *.
  destruct (H4 x) as (m & Hm & Hr & He); [set_solver|]. unfold on_reply. rewrite Hm. cbn [derefO bindO]. eexists. split; [reflexivity|].
  assert (NoDup (x :: (backlog (b_pending b) ++ items ++ messages (b_pending b)) ++ backlog (b_complete b) ++ messages (b_complete b))) as Hn.
  { eapply list.NoDup_Permutation_proper; [|exact H3]. permute. }
  apply list.NoDup_cons in Hn as [Hn Hnd].
  unfold popped. constructor; cbn [set_pending b_pending b_complete b_heap b_next requests replies messages message_count backlog];
    unfold queued; cbn [backlog messages]; try done.
  - destruct H1 as [Hc]. constructor. cbn in *. rewrite zlen_cons in Hc. lia.
  - intros y Hy. rewrite lookup_delete_ne; [apply H4; set_solver|]. intros <-. set_solver.
  - intros y Hy. apply H5. set_solver.
  - apply Forall_app. split; [done|]. apply Forall_cons_2; [|apply Forall_nil_2]. cbn. unfold process_reply. by rewrite Hr, He.
  - cbn [app] in H8. rewrite zlen_cons in H8. rewrite (zlen_app (replies b)), zlen_cons, zlen_nil. lia.
Qed.

Lemma for_each_ok f (Hf : forall b x items, popped b (x :: items) -> exists b', f b x = Ret b' /\ popped b' items) items :
  forall b, popped b items -> exists b', for_each f b items = Ret b' /\ popped b' [].
Proof.
  induction items as [|x items IH]; intros b Hb; cbn [for_each]; [by exists b|].
  destruct (Hf b x items Hb) as (b1 & E & Hb1). rewrite E. cbn [bindO]. by apply IH.
Qed.

Lemma process_queue_ok f b (Hf : forall b x items, popped b (x :: items) -> exists b', f b x = Ret b' /\ popped b' items) :
  bus_ok b -> exists b' n, _process_queue b f = Ret (b', n) /\ bus_ok b'.
Proof.
  intros Hb. unfold _process_queue. set (q := mk_queue _ (zdrop _ _) _).
  destruct (for_each_ok f Hf (ztake QUEUE_CAPACITY (messages (b_pending b))) (set_pending b q)) as (b' & E & Hb').
  - unfold popped. cbn [set_pending b_pending q backlog messages message_count]. rewrite ztake_zdrop.
    destruct b as [[] ? ? ? ? ?]. done.
  - rewrite E. cbn [bindO]. eexists b', _. split; [reflexivity|]. unfold popped in Hb'. by destruct b' as [[] ? ? ? ? ?].
Qed.

Lemma run_ok calls : forall b, bus_ok b -> exists b', run b calls = Ret b' /\ bus_ok b'.
Proof.
  induction calls as [|c calls IH]; intros b Hb; cbn [run]; [by exists b|]. destruct c as [f| |]; cbn [bindO].
  - by apply IH, bus_submit_ok.
  - destruct (process_queue_ok on_request _ on_request_ok (flush_pending_ok b Hb)) as (b1 & k & E & Hb1).
    unfold process_pending. rewrite E. cbn [bindO]. by apply IH.
  - destruct (process_queue_ok on_reply _ on_reply_ok (flush_complete_ok b Hb)) as (b1 & k & E & Hb1).
    unfold process_complete. rewrite E. cbn [bindO]. by apply IH.
Qed.

Lemma bus_new_ok : bus_ok (bus_new 0).
Proof.
  constructor; cbn; try done; try (by constructor).
  - intros x Hx. by apply elem_of_nil in Hx.
  - intros x Hx. by apply elem_of_nil in Hx.
Qed.
End invariant.

(** ** Properties *)

(** A message bus never delivers a reply: [_process_queue] pops the pending
    queue whichever queue it is given.  Whatever is called in whatever order,
    every promise that is set gets a null [exception_ptr], for a message whose
    request was never run; every message whose request was run stays in the
    completed queue; and since [message_count] is never decreased, at most
    [QUEUE_CAPACITY] messages ever leave the backlog. *)
Theorem message_bus_never_replies (calls : list Bus.call) :
  exists b, Bus.run (Bus.bus_new 0) calls = Ret b /\
    Forall (fun r => r.2 = reply_exception None) (replies b) /\
    requests b ≡ₚ backlog (b_complete b) ++ messages (b_complete b) /\
    zlen (messages (b_pending b)) + zlen (requests b) + zlen (replies b) <= Bus.QUEUE_CAPACITY.
Proof.
  destruct (run_ok calls _ bus_new_ok) as (b & E & Hb). exists b. split; [done|]. split; [apply Hb|]. split; [apply Hb|].
  rewrite <- (bok_count _ Hb). apply Hb.
Qed.

(** One message, the reply polled before the request. *)
Example bus_replies_null :
  match Bus.run (Bus.bus_new 0) [Bus.call_submit (inr 7); Bus.call_pending; Bus.call_complete] with
  | Ret b => requests b = [0] /\ replies b = [] /\ messages (b_complete b) = [0]
  | _ => False
  end.
Proof. vm_compute. done. Qed.
