(* ===== verification/Shard.v ===== *)
(** * Shard: the event loop of a core (src/core/shard.cpp, xi/core/shard.h,
      xi/core/task_queue.h, the shutdown of src/core/bootstrap.cpp)

    A task is what running it does: it posts tasks to shards, then returns or
    throws.  Shards are named by their index.  [self] is the shard whose thread
    runs the code ([this_shard]).  What the reactor's handlers do in one turn is
    a list of tasks given to [poll]. *)
From S2P Require Import Prelude.

Inductive task : Type := mk_task (id : Z) (posts : list (nat * task)) (fails : bool).

Definition t_id (t : task) : Z := match t with mk_task i _ _ => i end.
Definition t_posts (t : task) : list (nat * task) := match t with mk_task _ p _ => p end.
Definition t_fails (t : task) : bool := match t with mk_task _ _ f => f end.

Inductive poller := reactor_poller | signals_poller | deferred_poller.

Record shard := mk_shard {
  s_pollers : list poller;
  s_tasks : list task;     (** [_task_queue] *)
  s_deferred : list task;  (** [_deferred_poller->_deferred_tasks] *)
  s_inbound : list task;   (** [_inbound.tasks] *)
  s_running : bool
}.

(** The shards, [bootstrap::_before_shutdown] ([None]: a function that was
    moved from), and the tasks run so far. *)
Record world := mk_world { shards : list shard; before_shutdown : list (option task); ran : list (nat * Z) }.

Module Shard.
Definition on_shard (w : world) (k : nat) (f : shard -> shard) : world :=
  mk_world (alter f k (shards w)) (before_shutdown w) (ran w).

(** ** task_queue *)
Definition submit (t : task) (s : shard) : shard :=
  mk_shard (s_pollers s) (s_tasks s ++ [t]) (s_deferred s) (s_inbound s) (s_running s).
Definition pop_front (s : shard) : shard :=
  mk_shard (s_pollers s) (tail (s_tasks s)) (s_deferred s) (s_inbound s) (s_running s).

(** ** Posting *)
Definition defer_push (t : task) (s : shard) : shard :=
  mk_shard (s_pollers s) (s_tasks s) (s_deferred s ++ [t]) (s_inbound s) (s_running s).
Definition push_task_to_inbound_queue (t : task) (s : shard) : shard :=
  mk_shard (s_pollers s) (s_tasks s) (s_deferred s) (s_inbound s ++ [t]) (s_running s).
Definition pop_inbound (s : shard) : shard :=
  mk_shard (s_pollers s) (s_tasks s) (s_deferred s) (tail (s_inbound s)) (s_running s).

(** [_post_task] on shard [k]. *)
Definition post (self : nat) (w : world) (k : nat) (t : task) : world :=
  if decide (k <> self) then on_shard w k (push_task_to_inbound_queue t) else on_shard w k (defer_push t).

(** [t->run()]; whether it throws is [t_fails t]. *)
Definition run_task (self : nat) (w : world) (t : task) : world :=
  foldl (fun w p => post self w (fst p) (snd p)) (mk_world (shards w) (before_shutdown w) (ran w ++ [(self, t_id t)])) (t_posts t).

(** ** Shutdown *)

Definition shutdown (s : shard) : shard :=
  mk_shard (s_pollers s) (s_tasks s) (s_deferred s) (s_inbound s) false.

(** The task that calls a function; an empty one throws. *)
Definition call_of (f : option task) : task := match f with Some t => t | None => mk_task (-1) [] true end.

(** The loop of [_initiate_shutdown] over the hooks, with [shard::dispatch] and
    [_handle_exception]: on shard 0 a hook runs at once, and one that throws
    starts another shutdown ([again]), after which the iterator is no longer valid. *)
Fixpoint shutdown_hooks (again : world -> outcome world) (self i : nat) (todo : list (option task)) (w : world) : outcome world :=
  match todo with
  | [] => Ret w
  | f :: todo =>
      let w := mk_world (shards w) (<[i := None]> (before_shutdown w)) (ran w) in
      if decide (self = 0%nat) then
        let w := run_task self w (call_of f) in
        if t_fails (call_of f) then do w <- again w;; Undef
        else shutdown_hooks again self (S i) todo w
      else shutdown_hooks again self (S i) todo (post self w 0 (call_of f))
  end.

Fixpoint initiate_shutdown (fuel : nat) (self : nat) (w : world) : outcome world :=
  match fuel with
  | O => Diverge
  | S fuel =>
      do w <- shutdown_hooks (initiate_shutdown fuel self) self 0 (before_shutdown w) w;;
      Ret (mk_world (shutdown <$> shards w) [] (ran w))
  end.

(** ** The loop *)

(** [process_tasks()] over the deque: whether a task threw. *)
Fixpoint process_tasks (self : nat) (ts : list task) (w : world) : world * bool :=
  match ts with
  | [] => (w, false)
  | t :: ts =>
      let w := on_shard (run_task self w t) self pop_front in
      if t_fails t then (w, true) else process_tasks self ts w
  end.

(** [_inbound.tasks.consume_all(...)]. *)
Fixpoint consume_all (self : nat) (ts : list task) (w : world) : world * bool :=
  match ts with
  | [] => (w, false)
  | t :: ts =>
      let w := run_task self (on_shard w self pop_inbound) t in
      if t_fails t then (w, true) else consume_all self ts w
  end.

(** [reactor_poller::poll]: the handlers up to one that throws. *)
Fixpoint poll_reactor (self : nat) (events : list task) (w : world) : world :=
  match events with
  | [] => w
  | t :: ts => let w := run_task self w t in if t_fails t then w else poll_reactor self ts w
  end.

(** [deferred_poller::poll]. *)
Definition poll_deferred (s : shard) : shard :=
  let s := foldl (fun s t => submit t s) s (s_deferred s) in
  mk_shard (s_pollers s) (s_tasks s) [] (s_inbound s) (s_running s).

Definition run_poller (fuel self : nat) (events : list task) (interrupted : bool) (w : world) (p : poller) : outcome world :=
  match p with
  | reactor_poller => Ret (poll_reactor self events w)
  | signals_poller => if interrupted then initiate_shutdown fuel self w else Ret w
  | deferred_poller => Ret (on_shard w self poll_deferred)
  end.

Fixpoint run_pollers (fuel self : nat) (events : list task) (interrupted : bool) (ps : list poller) (w : world) : outcome world :=
  match ps with
  | [] => Ret w
  | p :: ps => do w <- run_poller fuel self events interrupted w p;; run_pollers fuel self events interrupted ps w
  end.

(** [shard::poll()]. *)
Definition poll (fuel self : nat) (events : list task) (interrupted : bool) (w : world) : outcome world :=
  do s <- derefO (shards w !! self);;
  do w <- run_pollers fuel self events interrupted (s_pollers s) w;;
  do s <- derefO (shards w !! self);;
  let '(w, threw) := process_tasks self (s_tasks s) w in
  if threw : bool then initiate_shutdown fuel self w
  else
    do s <- derefO (shards w !! self);;
    let '(w, threw) := consume_all self (s_inbound s) w in
    if threw : bool then initiate_shutdown fuel self w else Ret w.

(** The loop of [shard::run()]: one turn per element of [turns], what the
    reactor's handlers do and whether the process was interrupted; [false]: the
    loop was left. *)
Fixpoint run_loop (fuel self : nat) (turns : list (list task * bool)) (w : world) : outcome (world * bool) :=
  match turns with
  | [] => Ret (w, true)
  | (events, interrupted) :: turns =>
      do w <- poll fuel self events interrupted w;;
      do s <- derefO (shards w !! self);;
      if negb (s_running s) then Ret (w, false) else run_loop fuel self turns w
  end.

Definition set_running (s : shard) : shard :=
  mk_shard (s_pollers s) (s_tasks s) (s_deferred s) (s_inbound s) true.

Definition run (fuel self : nat) (turns : list (list task * bool)) (w : world) : outcome (world * bool) :=
  run_loop fuel self turns (on_shard w self set_running).

(** [init()]. *)
Definition init_pollers : list poller := [reactor_poller; signals_poller; deferred_poller].
End Shard.

(** ** Lemmas *)
Section lemmas.
Import Shard.
Implicit Types (w : world) (s : shard) (t : task) (ts : list task).

(** The tasks that [ts] post to shard [k]. *)
Definition posts_to (k : nat) ts : list task := ts ≫= fun t => snd <$> filter (fun p => fst p = k) (t_posts t).
#[local] Arguments posts_to _ _ : simpl never.

Lemma on_shard_lookup w k f j : shards (on_shard w k f) !! j = if decide (j = k) then f <$> shards w !! j else shards w !! j.
Proof.
  cbn. case_decide as Hj; [subst; apply list_lookup_alter_eq|by apply list_lookup_alter_ne].
Qed.

(** What posting adds to each shard. *)
Definition extend (self k : nat) (new : list task) s : shard :=
  if decide (k = self) then mk_shard (s_pollers s) (s_tasks s) (s_deferred s ++ new) (s_inbound s) (s_running s)
  else mk_shard (s_pollers s) (s_tasks s) (s_deferred s) (s_inbound s ++ new) (s_running s).

Lemma extend_nil self k s : extend self k [] s = s.
Proof. unfold extend. destruct s. case_decide; cbn; by rewrite app_nil_r. Qed.

Lemma extend_app self k l1 l2 s : extend self k l2 (extend self k l1 s) = extend self k (l1 ++ l2) s.
Proof. unfold extend. case_decide; cbn; by rewrite app_assoc. Qed.

Lemma shard_run_task self w t :
  before_shutdown (run_task self w t) = before_shutdown w /\ ran (run_task self w t) = ran w ++ [(self, t_id t)] /\
  forall k, shards (run_task self w t) !! k = extend self k (posts_to k [t]) <$> shards w !! k.
Proof.
  unfold run_task. set (w0 := mk_world _ _ _).
  assert (forall (ps : list (nat * task)) w1,
    before_shutdown (foldl (fun w p => post self w (fst p) (snd p)) w1 ps) = before_shutdown w1 /\
    ran (foldl (fun w p => post self w (fst p) (snd p)) w1 ps) = ran w1 /\
    forall k, shards (foldl (fun w p => post self w (fst p) (snd p)) w1 ps) !! k =
      extend self k (snd <$> filter (fun p => fst p = k) ps) <$> shards w1 !! k) as Hps.
  { induction ps as [|[j u] ps IH]; intros w1; cbn [foldl].
    - do 2 (split; [done|]). intros k. rewrite filter_nil. cbn. destruct (shards w1 !! k); [|done]. cbn. by rewrite extend_nil.
    - destruct (IH (post self w1 j u)) as (H1 & H2 & H3). cbn [fst snd] in *. rewrite H1, H2.
      split; [unfold post; by case_decide|]. split; [unfold post; by case_decide|]. intros k. rewrite H3.
      assert (shards (post self w1 j u) !! k = extend self k (if decide (j = k) then [u] else []) <$> shards w1 !! k) as ->.
      { destruct (decide (j = k)) as [<-|Hjk]; unfold post; case_decide as Hj; rewrite on_shard_lookup.
        - rewrite decide_True by done. destruct (shards w1 !! j); [|done]. cbn. unfold extend. by rewrite decide_False.
        - rewrite decide_True by done. destruct (shards w1 !! j); [|done]. cbn. unfold extend. by rewrite decide_True.
        - rewrite decide_False by congruence. destruct (shards w1 !! k); [|done]. cbn. by rewrite extend_nil.
        - rewrite decide_False by congruence. destruct (shards w1 !! k); [|done]. cbn. by rewrite extend_nil. }
      rewrite filter_cons. cbn [fst]. destruct (shards w1 !! k); [|done]. case_decide; cbn; by rewrite extend_app. }
  destruct (Hps (t_posts t) w0) as (H1 & H2 & H3). do 2 (split; [done|]). intros k. rewrite H3.
  unfold posts_to. rewrite bind_cons. cbn [mbind list_bind]. by rewrite app_nil_r.
Qed.

Definition set_tasks ts s : shard := mk_shard (s_pollers s) ts (s_deferred s) (s_inbound s) (s_running s).
Definition set_inbound ts s : shard := mk_shard (s_pollers s) (s_tasks s) (s_deferred s) ts (s_running s).

Lemma posts_to_cons k t ts : posts_to k (t :: ts) = posts_to k [t] ++ posts_to k ts.
Proof. unfold posts_to. rewrite !bind_cons. cbn [mbind list_bind]. by rewrite app_nil_r. Qed.

Lemma poll_deferred_ok s : poll_deferred s = mk_shard (s_pollers s) (s_tasks s ++ s_deferred s) [] (s_inbound s) (s_running s).
Proof.
  unfold poll_deferred.
  assert (forall l s, foldl (fun s t => submit t s) s l = mk_shard (s_pollers s) (s_tasks s ++ l) (s_deferred s) (s_inbound s) (s_running s)) as ->.
  { induction l as [|t l IH]; intros s'; cbn [foldl]; [by rewrite app_nil_r; destruct s'|]. rewrite IH. cbn. by rewrite <- app_assoc. }
  done.
Qed.
End lemmas.

(** ** A turn, whatever its tasks do *)
Section turns.
Import Shard.
Implicit Types (w : world) (s : shard) (t : task) (ts : list task).

(** The tasks up to the first that throws, and whether one does. *)
Fixpoint until_throws ts : list task :=
  match ts with [] => [] | t :: ts => t :: if t_fails t then [] else until_throws ts end.
Definition throws ts : bool := existsb t_fails ts.

Definition tagged (self : nat) ts : list (nat * Z) := (fun t => (self, t_id t)) <$> ts.
Definition stop (b : bool) s : shard := mk_shard (s_pollers s) (s_tasks s) (s_deferred s) (s_inbound s) (s_running s && negb b).

Lemma until_throws_ok ts : throws ts = false -> until_throws ts = ts.
Proof. induction ts as [|t ts IH]; [done|]. cbn. intros Hf. apply orb_false_iff in Hf as [-> Hf]. f_equal. by apply IH. Qed.

Lemma until_throws_app ts us : until_throws (ts ++ us) = if throws ts then until_throws ts else ts ++ until_throws us.
Proof. induction ts as [|t ts IH]; [done|]. unfold throws in *. cbn. rewrite IH. destruct (t_fails t); [done|]. cbn. by destruct (existsb t_fails ts). Qed.

Lemma throws_app ts us : throws (ts ++ us) = throws ts || throws us.
Proof. apply existsb_app. Qed.

Lemma throws_returns ts : Forall (fun t => t_fails t = false) ts -> throws ts = false.
Proof. induction 1 as [|t ts Ht _ IH]; [done|]. cbn. by rewrite Ht. Qed.

Lemma until_throws_split pre t post : Forall (fun t => t_fails t = false) pre -> t_fails t = true ->
  until_throws (pre ++ t :: post) = pre ++ [t] /\ throws (pre ++ t :: post) = true.
Proof.
  intros Hf%throws_returns Ht. rewrite until_throws_app, throws_app, Hf. unfold throws. cbn. by rewrite Ht.
Qed.

Lemma until_throws_length ts : (length (until_throws ts) <= length ts)%nat.
Proof. induction ts as [|t ts IH]; [done|]. cbn. case_match; cbn; lia. Qed.

Lemma stop_false s : stop false s = s.
Proof. unfold stop. rewrite andb_true_r. by destruct s. Qed.

Lemma stop_stop b b' s : stop b' (stop b s) = stop (b || b') s.
Proof. unfold stop. cbn. by destruct b, b', (s_running s). Qed.

Lemma stop_extend b self k new s : stop b (extend self k new s) = extend self k new (stop b s).
Proof. unfold extend. by case_decide. Qed.

(** What a call of the loop does: it runs [ts], and changes its own shard by [f]. *)
Record ran_tasks (self : nat) ts (f : shard -> shard) w w' : Prop := {
  rt_hooks : before_shutdown w' = before_shutdown w;
  rt_ran : ran w' = ran w ++ tagged self ts;
  rt_shards k : shards w' !! k =
    (fun s => extend self k (posts_to k ts) (if decide (k = self) then f s else s)) <$> shards w !! k
}.

(** Tasks change a shard in front only: [f] does not depend on what is posted. *)
Definition frames (self : nat) (f : shard -> shard) : Prop := forall new s, f (extend self self new s) = extend self self new (f s).

Lemma set_tasks_frames self l : frames self (set_tasks l).
Proof. intros new s. unfold extend. by case_decide. Qed.
Lemma set_inbound_frames self l : frames self (set_inbound l).
Proof. intros new s. unfold extend. by case_decide. Qed.

Lemma ran_tasks_trans self ts us f g w w1 w2 : frames self g ->
  ran_tasks self ts f w w1 -> ran_tasks self us g w1 w2 -> ran_tasks self (ts ++ us) (fun s => g (f s)) w w2.
Proof.
  intros Hg [A1 A2 A3] [B1 B2 B3]. split; [congruence| |].
  - by rewrite B2, A2, <- app_assoc; unfold tagged; rewrite fmap_app.
  - intros k. rewrite B3, A3. destruct (shards w !! k) as [s|]; [|done]. cbn. f_equal.
    assert (posts_to k (ts ++ us) = posts_to k ts ++ posts_to k us) as -> by (unfold posts_to; by rewrite bind_app).
    case_decide as Hk; [subst k; rewrite Hg|]; by rewrite extend_app.
Qed.

Lemma run_task_ran self w t : ran_tasks self [t] id w (run_task self w t).
Proof.
  destruct (shard_run_task self w t) as (H1 & H2 & H3). split; [done..|]. intros k. rewrite H3.
  destruct (shards w !! k); [|done]. cbn. f_equal. by case_decide.
Qed.

(** A change of its own shard only. *)
Lemma on_shard_ran self f w : ran_tasks self [] f w (on_shard w self f).
Proof.
  split; [done|by rewrite app_nil_r|]. intros k. rewrite on_shard_lookup. destruct (shards w !! k); case_decide; cbn; by rewrite ?extend_nil.
Qed.

Lemma ran_tasks_ext self ts f g w w' s : shards w !! self = Some s -> f s = g s -> ran_tasks self ts f w w' -> ran_tasks self ts g w w'.
Proof.
  intros Hs Hfg [H1 H2 H3]. split; [done..|]. intros k. rewrite H3. case_decide as Hk; [|done]. subst k. rewrite Hs. cbn. by rewrite Hfg.
Qed.

Lemma ran_tasks_self self ts f w w' s : ran_tasks self ts f w w' -> shards w !! self = Some s ->
  shards w' !! self = Some (extend self self (posts_to self ts) (f s)).
Proof. intros [_ _ H] Hs. rewrite H, Hs. cbn. by rewrite decide_True. Qed.

Lemma poll_reactor_ran self events : forall w, ran_tasks self (until_throws events) id w (poll_reactor self events w).
Proof.
  assert (forall w, ran_tasks self [] id w w) as Hnil.
  { intros w. split; [done|by rewrite app_nil_r|]. intros k. destruct (shards w !! k); [|done]. cbn. rewrite extend_nil. by case_decide. }
  induction events as [|t ts IH]; intros w; [done|]. cbn [poll_reactor until_throws]. pose proof (run_task_ran self w t) as Ht.
  destruct (t_fails t); [done|]. apply (ran_tasks_trans self [t] _ id id _ _ _ ltac:(done) Ht), IH.
Qed.

Lemma process_tasks_ran self ts : forall w s, shards w !! self = Some s -> s_tasks s = ts ->
  exists w', process_tasks self ts w = (w', throws ts) /\
    ran_tasks self (until_throws ts) (set_tasks (drop (length (until_throws ts)) ts)) w w'.
Proof.
  induction ts as [|t ts IH]; intros w s Hs Ht; cbn [process_tasks until_throws].
  { exists w. split; [done|]. apply (ran_tasks_ext _ _ id _ _ _ s Hs); [destruct s; cbn in *; by subst|apply (poll_reactor_ran self [])]. }
  pose proof (ran_tasks_trans self [t] [] id pop_front w _ _ ltac:(intros new s'; unfold extend; by case_decide)
    (run_task_ran self w t) (on_shard_ran self pop_front _)) as H1. cbn [app] in H1.
  unfold throws. cbn [existsb]. fold (throws ts). destruct (t_fails t); cbn [orb length drop].
  - eexists. split; [done|]. eapply ran_tasks_ext; [exact Hs| |exact H1]. unfold pop_front, set_tasks, id. cbn. by rewrite Ht.
  - destruct (IH _ _ (ran_tasks_self _ _ _ _ _ _ H1 Hs)) as (w' & -> & H2).
    { unfold extend. rewrite decide_True by done. cbn. by rewrite Ht. }
    exists w'. split; [done|]. eapply ran_tasks_ext; [exact Hs| |exact (ran_tasks_trans self [t] _ _ _ _ _ _ (set_tasks_frames self _) H1 H2)]. done.
Qed.

Lemma consume_all_ran self ts : forall w s, shards w !! self = Some s -> s_inbound s = ts ->
  exists w', consume_all self ts w = (w', throws ts) /\
    ran_tasks self (until_throws ts) (set_inbound (drop (length (until_throws ts)) ts)) w w'.
Proof.
  induction ts as [|t ts IH]; intros w s Hs Ht; cbn [consume_all until_throws].
  { exists w. split; [done|]. apply (ran_tasks_ext _ _ id _ _ _ s Hs); [destruct s; cbn in *; by subst|apply (poll_reactor_ran self [])]. }
  pose proof (ran_tasks_trans self [] [t] pop_inbound id w _ _ ltac:(done) (on_shard_ran self pop_inbound w) (run_task_ran self _ t)) as H1.
  cbn [app] in H1. unfold throws. cbn [existsb]. fold (throws ts). destruct (t_fails t); cbn [orb length drop].
  - eexists. split; [done|]. eapply ran_tasks_ext; [exact Hs| |exact H1]. unfold pop_inbound, set_inbound. cbn. by rewrite Ht.
  - destruct (IH _ _ (ran_tasks_self _ _ _ _ _ _ H1 Hs)) as (w' & -> & H2).
    { unfold extend. rewrite decide_True by done. cbn. by rewrite Ht. }
    exists w'. split; [done|]. eapply ran_tasks_ext; [exact Hs| |exact (ran_tasks_trans self [t] _ _ _ _ _ _ (set_inbound_frames self _) H1 H2)]. done.
Qed.

(** A shutdown without hooks. *)
Lemma maybe_shutdown_ok fuel self w (b : bool) : (b = true -> before_shutdown w = [] /\ (0 < fuel)%nat) ->
  exists w', (if b then initiate_shutdown fuel self w else Ret w) = Ret w' /\ before_shutdown w' = before_shutdown w /\ ran w' = ran w /\
    forall k, shards w' !! k = stop b <$> shards w !! k.
Proof.
  intros Hb. destruct b.
  - destruct (Hb eq_refl) as [Hh Hf]. destruct fuel as [|fuel]; [lia|]. cbn [initiate_shutdown]. rewrite Hh. cbn [shutdown_hooks bindO].
    eexists. split; [done|]. do 2 (split; [done|]). intros k. cbn. rewrite list_lookup_fmap. destruct (shards w !! k) as [s|]; [|done].
    cbn. unfold stop. by rewrite andb_false_r.
  - exists w. do 3 (split; [done|]). intros k. destruct (shards w !! k); [|done]. cbn. by rewrite stop_false.
Qed.

Lemma pollers_ok fuel self events interrupted w s : shards w !! self = Some s ->
  (interrupted = true -> before_shutdown w = [] /\ (0 < fuel)%nat) ->
  let ev := until_throws events in
  exists w', run_pollers fuel self events interrupted init_pollers w = Ret w' /\ before_shutdown w' = before_shutdown w /\
    ran w' = ran w ++ tagged self ev /\
    shards w' !! self = Some (mk_shard (s_pollers s) (s_tasks s ++ s_deferred s ++ posts_to self ev) [] (s_inbound s)
                                (s_running s && negb interrupted)) /\
    forall k, k <> self -> shards w' !! k = (fun s => stop interrupted (extend self k (posts_to k ev) s)) <$> shards w !! k.
Proof.
  intros Hs Hi ev. pose proof (poll_reactor_ran self events w) as Hev. fold ev in Hev. destruct Hev as [Hh Hr Hk].
  destruct (maybe_shutdown_ok fuel self (poll_reactor self events w) interrupted) as (w2 & E2 & Hh2 & Hr2 & Hk2); [by rewrite Hh|].
  eexists. split; [cbn [run_pollers run_poller init_pollers bindO]; rewrite E2; reflexivity|].
  split; [cbn; congruence|]. split; [cbn; congruence|]. split; [|intros k Hne]; rewrite on_shard_lookup.
  - rewrite decide_True, Hk2, Hk, Hs by done. cbn. rewrite decide_True by done. unfold extend. rewrite decide_True by done.
    by rewrite poll_deferred_ok.
  - rewrite decide_False, Hk2, Hk by done. destruct (shards w !! k); [|done]. cbn. by rewrite decide_False.
Qed.

(** The task queue and the inbound queue. *)
Lemma queues_ok fuel self w s : shards w !! self = Some s ->
  let ts := s_tasks s ++ s_inbound s in let run := until_throws ts in
  (throws ts = true -> before_shutdown w = [] /\ (0 < fuel)%nat) ->
  exists w', (let '(w, threw) := process_tasks self (s_tasks s) w in
    if threw : bool then initiate_shutdown fuel self w
    else
      do s <- derefO (shards w !! self);;
      let '(w, threw) := consume_all self (s_inbound s) w in
      if threw : bool then initiate_shutdown fuel self w else Ret w) = Ret w' /\
    ran w' = ran w ++ tagged self run /\
    forall k, shards w' !! k = (fun s' => stop (throws ts) (extend self k (posts_to k run)
      (if decide (k = self) then set_inbound (drop (length run - length (s_tasks s)) (s_inbound s)) (set_tasks (drop (length run) (s_tasks s)) s)
       else s'))) <$> shards w !! k.
Proof.
  intros Hs ts run Hb. unfold run, ts in *. rewrite until_throws_app, throws_app in *.
  destruct (process_tasks_ran self (s_tasks s) w s Hs eq_refl) as (w1 & -> & H1). pose proof (ran_tasks_self _ _ _ _ _ _ H1 Hs) as Hs1.
  destruct (throws (s_tasks s)) eqn:Ht; cbn [orb].
  - destruct (maybe_shutdown_ok fuel self w1 true) as (w2 & -> & _ & Hr2 & Hk2); [rewrite (rt_hooks _ _ _ _ _ H1); auto|].
    exists w2. split; [done|]. split; [by rewrite Hr2, (rt_ran _ _ _ _ _ H1)|]. intros k. rewrite Hk2, (rt_shards _ _ _ _ _ H1).
    destruct (decide (k = self)) as [->|Hne]; [rewrite Hs; cbn|by destruct (shards w !! k)].
    pose proof (until_throws_length (s_tasks s)). rewrite (proj2 (Nat.sub_0_le _ _)) by done. done.
  - rewrite (until_throws_ok _ Ht), drop_all in *. rewrite Hs1. cbn [derefO bindO].
    assert (s_inbound (extend self self (posts_to self (s_tasks s)) (set_tasks [] s)) = s_inbound s) as Hi by (unfold extend; by case_decide).
    rewrite Hi. destruct (consume_all_ran self (s_inbound s) w1 _ Hs1 Hi) as (w2 & -> & H2).
    pose proof (ran_tasks_trans self _ _ _ _ _ _ _ (set_inbound_frames self _) H1 H2) as [H3 H4 H5].
    destruct (maybe_shutdown_ok fuel self w2 (throws (s_inbound s))) as (w3 & -> & _ & Hr3 & Hk3); [rewrite H3; auto|].
    exists w3. split; [done|]. split; [by rewrite Hr3, H4|]. intros k. rewrite Hk3, H5.
    rewrite length_app, Nat.add_comm, Nat.add_sub, (drop_ge (s_tasks s)) by lia.
    destruct (decide (k = self)) as [->|Hne]; [by rewrite Hs|by destruct (shards w !! k)].
Qed.
End turns.

(** ** Properties *)
Section properties.
Import Shard.

(** One turn of a shard, unless it shuts down with hooks registered. *)
Lemma shard_poll_ok (fuel self : nat) (events : list task) (interrupted : bool) (w : world) (s : shard) :
  let ev := until_throws events in
  let queue := s_tasks s ++ s_deferred s ++ posts_to self ev in
  let ts := until_throws (queue ++ s_inbound s) in
  let down := interrupted || throws (queue ++ s_inbound s) in
  shards w !! self = Some s -> s_pollers s = init_pollers -> (down = true -> before_shutdown w = [] /\ (0 < fuel)%nat) ->
  exists w', poll fuel self events interrupted w = Ret w' /\ ran w' = ran w ++ tagged self (ev ++ ts) /\
    shards w' !! self = Some (mk_shard (s_pollers s) (drop (length ts) queue) (posts_to self ts)
                                (drop (length ts - length queue) (s_inbound s)) (s_running s && negb down)) /\
    (forall k, k <> self -> shards w' !! k = (fun s => stop down (extend self k (posts_to k (ev ++ ts)) s)) <$> shards w !! k).
Proof.
  intros ev queue ts down Hs Hp Hd.
  destruct (pollers_ok fuel self events interrupted w s Hs) as (w1 & E1 & Hh1 & Hr1 & Hs1 & Hk1).
  { intros ->. by apply Hd. }
  fold ev in Hs1, Hr1, Hk1. fold queue in Hs1.
  destruct (queues_ok fuel self w1 _ Hs1) as (w2 & E2 & Hr2 & Hk2); cbn [s_tasks s_inbound] in *.
  { intros Ht. rewrite Hh1. apply Hd. unfold down. by rewrite Ht, orb_true_r. }
  exists w2. unfold poll. rewrite Hs. cbn [derefO bindO]. rewrite Hp, E1. cbn [bindO]. rewrite Hs1. cbn [derefO bindO s_tasks s_inbound].
  split.
  { rewrite <- E2. destruct (process_tasks self queue w1) as [w' b] eqn:Ep.
    destruct (process_tasks_ran self queue w1 _ Hs1 eq_refl) as (w'' & Ep' & Hw''). rewrite Ep in Ep'. injection Ep' as -> ->.
    destruct (throws queue); [done|]. rewrite (ran_tasks_self _ _ _ _ _ _ Hw'' Hs1). cbn [derefO bindO].
    replace (s_inbound (extend _ _ _ _)) with (s_inbound s); [done|]. unfold extend. by case_decide. }
  split; [by rewrite Hr2, Hr1, <- app_assoc; unfold tagged; rewrite fmap_app|]. split.
  - rewrite Hk2, Hs1. cbn. rewrite decide_True by done. unfold extend, stop. rewrite decide_True by done. cbn.
    unfold down. rewrite Hp. by destruct interrupted, (throws (queue ++ s_inbound s)), (s_running s).
  - intros k Hne. rewrite Hk2, Hk1 by done. destruct (shards w !! k); [|done]. cbn. rewrite decide_False by done.
    rewrite <- (stop_extend interrupted), stop_stop, extend_app. unfold posts_to. by rewrite bind_app.
Qed.

(** A quiet turn of a shard whose tasks return. *)
Lemma shard_turn_ok (fuel self : nat) (w : world) (s : shard) (ts : list task) :
  shards w !! self = Some s -> s_pollers s = init_pollers ->
  ts = s_tasks s ++ s_deferred s ++ s_inbound s -> Forall (fun t => t_fails t = false) ts ->
  exists w', poll fuel self [] false w = Ret w' /\ ran w' = ran w ++ tagged self ts /\
    shards w' !! self = Some (mk_shard (s_pollers s) [] (posts_to self ts) [] (s_running s)) /\
    (forall k, k <> self -> shards w' !! k = extend self k (posts_to k ts) <$> shards w !! k).
Proof.
  intros Hs Hp -> Hf. rewrite app_assoc in Hf |- *. pose proof (until_throws_ok _ (throws_returns _ Hf)) as Hu.
  pose proof (shard_poll_ok fuel self [] false w s) as H. cbn [until_throws app orb] in H.
  change (posts_to self []) with (@nil task) in H. rewrite app_nil_r, (throws_returns _ Hf), Hu in H.
  destruct (H Hs Hp ltac:(done)) as (w' & E & Hr & Hs' & Hk). exists w'. split; [done|]. split; [done|]. split.
  - by rewrite andb_true_r, !drop_ge in Hs' by (rewrite !length_app; lia).
  - intros k Hne. rewrite Hk by done. destruct (shards w !! k); [|done]. cbn. by rewrite stop_false.
Qed.

(** C39: one turn of a shard's loop, when no other thread pushes to its inbound
    queue while it lasts, runs, in this order and once each, what the reactor
    reports, the tasks left in its queue, those that were deferred, the ones that
    the reactor's handlers posted included, and those in the inbound queue.  What
    tasks post to their own shard waits for the next turn, so a turn always ends,
    and what they post to another shard is behind what is in its inbound queue, both
    in the order it was posted.  A handler of the reactor that throws ends the
    report only; a task that throws, and an interrupt, stop every shard, and the loop
    is left after this turn: the tasks behind the one that threw stay in their
    queues.  A turn that stops is one without shutdown hooks
    ([shard_throwing_hook_recurses]). *)
Theorem shard_turn_runs_posted (fuel self : nat) (events : list task) (interrupted : bool) (turns : list (list task * bool))
    (w : world) (s : shard) :
  let ev := until_throws events in
  let queue := s_tasks s ++ s_deferred s ++ posts_to self ev in
  let ts := until_throws (queue ++ s_inbound s) in
  let down := interrupted || throws (queue ++ s_inbound s) in
  shards w !! self = Some s -> s_pollers s = init_pollers -> s_running s = true ->
  (down = true -> before_shutdown w = [] /\ (0 < fuel)%nat) ->
  exists w', poll fuel self events interrupted w = Ret w' /\ ran w' = ran w ++ tagged self (ev ++ ts) /\
    shards w' !! self = Some (mk_shard (s_pollers s) (drop (length ts) queue) (posts_to self ts)
                                (drop (length ts - length queue) (s_inbound s)) (negb down)) /\
    (forall k, k <> self -> shards w' !! k = (fun s => stop down (extend self k (posts_to k (ev ++ ts)) s)) <$> shards w !! k) /\
    run_loop fuel self ((events, interrupted) :: turns) w = if down then Ret (w', false) else run_loop fuel self turns w'.
Proof.
  intros ev queue ts down Hs Hp Hrun Hd.
  destruct (shard_poll_ok fuel self events interrupted w s Hs Hp Hd) as (w' & E & Hr & Hs' & Hk). rewrite Hrun in Hs'.
  exists w'. do 4 (split; [done|]). cbn [run_loop]. rewrite E. cbn [bindO]. rewrite Hs'. cbn [derefO bindO s_running].
  fold ev queue. fold down. by destruct down.
Qed.

(** A task that throws ends the program's loops: when no shutdown hook is
    registered, every shard stops running, the shard leaves its loop in the same
    turn, and the tasks behind it (and the whole inbound queue) are left in
    their queues and never run. *)
Theorem shard_exception_drops_tasks (fuel self : nat) (w : world) (s : shard) (pre : list task) (t : task) (post : list task)
    (turns : list (list task * bool)) :
  shards w !! self = Some s -> s_pollers s = init_pollers -> before_shutdown w = [] ->
  s_tasks s ++ s_deferred s = pre ++ t :: post -> Forall (fun t => t_fails t = false) pre -> t_fails t = true ->
  exists w' s', run (S fuel) self (([], false) :: turns) w = Ret (w', false) /\
    ran w' = ran w ++ tagged self (pre ++ [t]) /\ Forall (fun s => s_running s = false) (shards w') /\
    shards w' !! self = Some s' /\ s_tasks s' = post /\ s_inbound s' = s_inbound s.
Proof.
  intros Hs Hp Hh Ht Hf Hft. unfold run. set (wr := on_shard w self set_running).
  assert (shards wr !! self = Some (set_running s)) as Hsr by (unfold wr; by rewrite on_shard_lookup, decide_True, Hs).
  pose proof (shard_poll_ok (S fuel) self [] false wr (set_running s) Hsr Hp) as H. cbn [until_throws app orb s_tasks s_deferred s_inbound set_running] in H.
  change (posts_to self []) with (@nil task) in H. rewrite app_nil_r, Ht, <- (app_assoc pre (t :: post)) in H. cbn [app] in H.
  destruct (until_throws_split pre t (post ++ s_inbound s) Hf Hft) as [Hu Hth]. rewrite Hu, Hth in H.
  destruct H as (w' & E & Hr & Hs' & Hk); [intros _; split; [exact Hh|lia]|]. eexists w', _. cbn [run_loop]. rewrite E. cbn [bindO]. rewrite Hs'.
  cbn [derefO bindO s_running set_running negb andb]. split; [done|]. split; [done|]. split; [|split; [done|]].
  - apply Forall_lookup. intros k sk Hsk. destruct (decide (k = self)) as [->|Hne].
    + rewrite Hs' in Hsk. by injection Hsk as <-.
    + rewrite Hk in Hsk by done. apply fmap_Some in Hsk as (s0 & _ & ->). unfold stop. cbn. by rewrite andb_false_r.
  - cbn. change (pre ++ t :: post) with (pre ++ [t] ++ post). rewrite !length_app, app_assoc, <- length_app, drop_app_length.
    split; [done|]. rewrite !length_app. cbn. by replace (_ - _)%nat with 0%nat by lia.
Qed.

(** A shutdown hook that throws on shard 0 never lets the shutdown finish:
    the exception starts another shutdown, which calls the functions the first
    one has moved away, the call of an empty function throws, and so on without end. *)
Theorem shard_throwing_hook_recurses (fuel : nat) (w : world) :
  Exists (fun f => t_fails (call_of f) = true) (before_shutdown w) -> initiate_shutdown fuel 0 w = Diverge.
Proof.
  revert w. induction fuel as [|fuel IH]; intros w Hw; [done|]. cbn [initiate_shutdown].
  assert (forall todo i w1, length (before_shutdown w1) = (i + length todo)%nat ->
    Exists (fun f => t_fails (call_of f) = true) todo ->
    shutdown_hooks (initiate_shutdown fuel 0) 0 i todo w1 = Diverge) as Hloop.
  { induction todo as [|f todo IHt]; intros i w1 Hl He; [by apply Exists_nil in He|]. cbn [shutdown_hooks].
    rewrite decide_True by done. set (w2 := mk_world _ _ _). destruct (shard_run_task 0 w2 (call_of f)) as (Hb & _ & _).
    cbn [length] in Hl. destruct (t_fails (call_of f)) eqn:Ef.
    - rewrite IH; [done|]. rewrite Hb. unfold w2. cbn [before_shutdown]. apply Exists_exists. exists None. split; [|done].
      apply list_elem_of_In, (list_elem_of_lookup_2 _ i), list_lookup_insert_eq. lia.
    - apply IHt.
      + rewrite Hb. unfold w2. cbn [before_shutdown]. rewrite length_insert. lia.
      + apply Exists_cons in He as [He|He]; [congruence|done]. }
  by rewrite (Hloop (before_shutdown w) 0%nat w).
Qed.
End properties.

(** ** Witnesses *)

Definition ex_shard : shard :=
  mk_shard Shard.init_pollers [] [mk_task 1 [(0%nat, mk_task 3 [] false); (1%nat, mk_task 4 [] false)] false] [mk_task 2 [] false] true.
Definition ex_world : world := mk_world [ex_shard; ex_shard] [] [].

(** The reactor reports a handler that posts task 7; of the queue task 2 throws. *)
Definition ex_events : list task := [mk_task 6 [(0%nat, mk_task 7 [] false)] false].
Definition ex_throwing : shard :=
  mk_shard Shard.init_pollers [] [mk_task 1 [(0%nat, mk_task 3 [] false); (1%nat, mk_task 4 [] false)] false; mk_task 2 [] true]
    [mk_task 5 [] false] true.

Lemma shard_turn_runs_posted_witness :
  exists w', Shard.run_loop 1 0 [(ex_events, false); ([], false)] (mk_world [ex_throwing; ex_shard] [] []) = Ret (w', false) /\
    ran w' = [(0%nat, 6); (0%nat, 1); (0%nat, 2)] /\
    shards w' !! 0%nat = Some (mk_shard Shard.init_pollers [mk_task 7 [] false] [mk_task 3 [] false] [mk_task 5 [] false] false).
Proof.
  destruct (shard_turn_runs_posted 1 0 ex_events false [([], false)] (mk_world [ex_throwing; ex_shard] [] []) ex_throwing)
    as (w' & _ & Er & Es & _ & El).
  - reflexivity.
  - reflexivity.
  - reflexivity.
  - intros _. split; [reflexivity|exact (le_n 1)].
  - exists w'. split; [exact El|]. split; [exact Er|exact Es].
Defined.

Definition ex_failing : shard :=
  mk_shard Shard.init_pollers [mk_task 1 [] false; mk_task 2 [] true; mk_task 3 [] false] [] [mk_task 4 [] false] true.

Lemma shard_exception_drops_tasks_witness :
  exists w' s', Shard.run 1 0 [([], false)] (mk_world [ex_failing] [] []) = Ret (w', false) /\
    ran w' = [(0%nat, 1); (0%nat, 2)] /\ shards w' !! 0%nat = Some s' /\ s_tasks s' = [mk_task 3 [] false].
Proof.
  destruct (shard_exception_drops_tasks 0 0 (mk_world [ex_failing] [] []) ex_failing [mk_task 1 [] false] (mk_task 2 [] true)
    [mk_task 3 [] false] []) as (w' & s' & E & Er & _ & Es & Et & _).
  - reflexivity.
  - reflexivity.
  - reflexivity.
  - reflexivity.
  - apply Forall_cons_2; [reflexivity|apply Forall_nil_2].
  - reflexivity.
  - exists w', s'. split; [exact E|]. split; [exact Er|]. split; [exact Es|exact Et].
Defined.

Lemma shard_throwing_hook_recurses_witness :
  Shard.initiate_shutdown 100 0 (mk_world [ex_shard] [Some (mk_task 1 [] false); Some (mk_task 2 [] true)] []) = Diverge.
Proof.
  refine (shard_throwing_hook_recurses 100 (mk_world [ex_shard] [Some (mk_task 1 [] false); Some (mk_task 2 [] true)] []) _).
  apply Exists_cons_tl, Exists_cons_hd. reflexivity.
Defined.
