(* ===== verification/PageList.v ===== *)
(** * The page array of the memory allocator: free lists of spans and size classes

    src/core/memory/memory.cpp: [page], [page_list] and the arithmetic of size
    classes.  The array of [page] records is a map from page numbers to
    records, where a number outside the array is [Undef]; a list is linked
    through the [link] fields by page numbers, page 0 being the null link.
    [dseg] is the representation of a doubly linked segment, [is_list] of a
    whole list, and [links_only] is the frame: nothing but the links of the
    given pages changes. *)
From S2P Require Import Prelude.

Record page := Page {
  p_free : bool;
  offset_in_span : Z;
  nr_small_alloc : Z;
  span_size : Z;
  link_prev : Z;
  link_next : Z;
  pool : option nat;
  freelist : Z
}.

Abbreviation pages := (gmap Z page).

Definition set_prev (i : Z) (p : page) : page :=
  Page (p_free p) (offset_in_span p) (nr_small_alloc p) (span_size p) i (link_next p) (pool p) (freelist p).
Definition set_next (i : Z) (p : page) : page :=
  Page (p_free p) (offset_in_span p) (nr_small_alloc p) (span_size p) (link_prev p) i (pool p) (freelist p).
Definition set_free (b : bool) (p : page) : page :=
  Page b (offset_in_span p) (nr_small_alloc p) (span_size p) (link_prev p) (link_next p) (pool p) (freelist p).
Definition set_span_size (n : Z) (p : page) : page :=
  Page (p_free p) (offset_in_span p) (nr_small_alloc p) n (link_prev p) (link_next p) (pool p) (freelist p).
Definition set_pool (o : option nat) (p : page) : page :=
  Page (p_free p) (offset_in_span p) (nr_small_alloc p) (span_size p) (link_prev p) (link_next p) o (freelist p).
Definition set_offset (n : Z) (p : page) : page :=
  Page (p_free p) n (nr_small_alloc p) (span_size p) (link_prev p) (link_next p) (pool p) (freelist p).
Definition set_nr_small_alloc (n : Z) (p : page) : page :=
  Page (p_free p) (offset_in_span p) n (span_size p) (link_prev p) (link_next p) (pool p) (freelist p).
Definition set_freelist (a : Z) (p : page) : page :=
  Page (p_free p) (offset_in_span p) (nr_small_alloc p) (span_size p) (link_prev p) (link_next p) (pool p) a.

(** Writing a field of [ary[i]]. *)
Definition upd (ary : pages) (i : Z) (f : page -> page) : outcome pages :=
  do p <- derefO (ary !! i);; Ret (<[i := f p]> ary).

(** Everything of a page but its links. *)
Definition nolink (p : page) : page := set_prev 0 (set_next 0 p).

Lemma upd_some ary i p f : ary !! i = Some p -> upd ary i f = Ret (<[i := f p]> ary).
Proof. unfold upd. by intros ->. Qed.

Module PageList.

Record page_list := MkList { front : Z; back : Z }.

Definition new : page_list := MkList 0 0.

Definition empty (l : page_list) : bool := front l =? 0.

Definition erase (ary : pages) (l : page_list) (span : Z) : outcome (pages * page_list) :=
  do s <- derefO (ary !! span);;
  do '(ary, l) <-
    (if negb (link_next s =? 0)
     then do ary <- upd ary (link_next s) (set_prev (link_prev s));; Ret (ary, l)
     else Ret (ary, MkList (front l) (link_prev s)));;
  do s <- derefO (ary !! span);;
  if negb (link_prev s =? 0)
  then do ary <- upd ary (link_prev s) (set_next (link_next s));; Ret (ary, l)
  else Ret (ary, MkList (link_next s) (back l)).

Definition push_front (ary : pages) (l : page_list) (span : Z) : outcome (pages * page_list) :=
  let idx := span in
  do '(ary, l) <-
    (if negb (front l =? 0)
     then do ary <- upd ary (front l) (set_prev idx);; Ret (ary, l)
     else Ret (ary, MkList (front l) idx));;
  do ary <- upd ary span (set_next (front l));;
  do ary <- upd ary span (set_prev 0);;
  Ret (ary, MkList idx (back l)).

Definition pop_front (ary : pages) (l : page_list) : outcome (pages * page_list) :=
  do f <- derefO (ary !! front l);;
  do '(ary, l) <-
    (if negb (link_next f =? 0)
     then do ary <- upd ary (link_next f) (set_prev 0);; Ret (ary, l)
     else Ret (ary, MkList (front l) 0));;
  do f <- derefO (ary !! front l);;
  Ret (ary, MkList (link_next f) (back l)).

(** The loop of [find]; [None] is [nullptr]. *)
Fixpoint find_loop (fuel : nat) (ary : pages) (n_pages n : Z) : outcome (option Z) :=
  match fuel with
  | O => Diverge
  | S fuel =>
      if n =? 0 then Ret None
      else
        do p <- derefO (ary !! n);;
        if span_size p <? n_pages then find_loop fuel ary n_pages (link_next p)
        else Ret (Some n)
  end.

Definition find (ary : pages) (l : page_list) (n_pages : Z) : outcome (option Z) :=
  find_loop (S (size ary)) ary n_pages (front l).

(** ** Representation *)

Fixpoint dseg (ary : pages) (pp p : Z) (l : list Z) (q qn : Z) : Prop :=
  match l with
  | [] => p = qn /\ pp = q
  | i :: l =>
      p = i /\ i <> 0 /\
      exists pg, ary !! i = Some pg /\ link_prev pg = pp /\ dseg ary i (link_next pg) l q qn
  end.

Definition is_list (ary : pages) (pl : page_list) (l : list Z) : Prop :=
  dseg ary 0 (front pl) l (back pl) 0 /\ NoDup l.

Definition links_only (l : list Z) (ary ary' : pages) : Prop :=
  forall i, (i ∉ l -> ary' !! i = ary !! i) /\ nolink <$> ary' !! i = nolink <$> ary !! i.

Lemma dseg_app ary pp p l1 l2 q qn :
  dseg ary pp p (l1 ++ l2) q qn <-> exists j jn, dseg ary pp p l1 j jn /\ dseg ary j jn l2 q qn.
Proof.
  revert pp p. induction l1 as [|i l1 IH]; intros pp p; cbn [dseg app].
  - split; [intros H; exists pp, p; done|]. by intros (j & jn & [<- <-] & H).
  - split.
    + intros (-> & Hi & pg & Hl & Hp & H). apply IH in H as (j & jn & H1 & H2).
      exists j, jn. split; [|done]. split; [done|]. split; [done|]. by exists pg.
    + intros (j & jn & (-> & Hi & pg & Hl & Hp & H1) & H2). split; [done|]. split; [done|].
      exists pg. split; [done|]. split; [done|]. apply IH. by exists j, jn.
Qed.

(** A segment only depends on the links of its pages. *)
Definition same_links (ary ary' : pages) (i : Z) : Prop :=
  forall p, ary !! i = Some p ->
  exists p', ary' !! i = Some p' /\ link_prev p' = link_prev p /\ link_next p' = link_next p.

Lemma same_links_eq ary ary' i : ary' !! i = ary !! i -> same_links ary ary' i.
Proof. intros E p Hp. exists p. by rewrite E. Qed.

Lemma dseg_frame ary ary' pp p l q qn :
  (forall i, i ∈ l -> same_links ary ary' i) ->
  dseg ary pp p l q qn -> dseg ary' pp p l q qn.
Proof.
  revert pp p. induction l as [|i l IH]; intros pp p Hs; [done|]. cbn [dseg].
  intros (-> & Hi & pg & Hl & Hp & H). split; [done|]. split; [done|].
  destruct (Hs i ltac:(constructor) pg Hl) as (pg' & Hl' & Hp' & Hn').
  exists pg'. split; [done|]. split; [congruence|]. rewrite Hn'. apply IH; [|done].
  intros j Hj. apply Hs. by constructor.
Qed.

Lemma dseg_in ary pp p l q qn i : dseg ary pp p l q qn -> i ∈ l -> i <> 0 /\ is_Some (ary !! i).
Proof.
  revert pp p. induction l as [|j l IH]; intros pp p; [by intros _ ?%elem_of_nil|]. cbn [dseg].
  intros (-> & Hj & pg & Hl & _ & H) [->|Hin]%elem_of_cons; [eauto|]. eapply IH; eauto.
Qed.

(** The last page of a segment that is not empty is the one before its end. *)
Lemma dseg_snoc ary pp p l i q qn :
  dseg ary pp p (l ++ [i]) q qn <->
  q = i /\ i <> 0 /\ exists pg j, ary !! i = Some pg /\ link_prev pg = j /\ link_next pg = qn /\
    dseg ary pp p l j i.
Proof.
  rewrite dseg_app. cbn [dseg]. split.
  - intros (j & jn & H1 & -> & Hi & pg & Hl & Hp & Hn & <-). split; [done|]. split; [done|].
    exists pg, j. done.
  - intros (-> & Hi & pg & j & Hl & Hp & Hn & H). exists j, i. split; [done|]. split; [done|].
    split; [done|]. exists pg. done.
Qed.

Lemma is_list_empty ary pl l : is_list ary pl l -> empty pl = true <-> l = [].
Proof.
  intros [H _]. unfold empty. destruct l as [|i l]; cbn [dseg] in H.
  - destruct H as [-> _]. split; [done|]. by rewrite Z.eqb_refl.
  - destruct H as (-> & Hi & _). split; [intros E; zbool; done|discriminate].
Qed.

Lemma is_list_new ary : is_list ary new [].
Proof. split; [by split|constructor]. Qed.

Lemma is_list_frame ary ary' pl l :
  (forall i, i ∈ l -> same_links ary ary' i) -> is_list ary pl l -> is_list ary' pl l.
Proof. intros Hs [H ?]. split; [|done]. by eapply dseg_frame. Qed.

(** Lists are finite: no list is longer than the array. *)
Lemma is_list_size ary pl l : is_list ary pl l -> (length l <= size ary)%nat.
Proof.
  intros [H Hnd]. rewrite <- (size_dom (D := gset Z)).
  rewrite <- (size_list_to_set (C := gset Z) l Hnd). apply subseteq_size.
  intros i Hi%elem_of_list_to_set. apply elem_of_dom. by eapply dseg_in.
Qed.

(** ** Frames *)

Lemma links_only_refl l ary : links_only l ary ary.
Proof. by intros i. Qed.

Lemma links_only_trans l ary1 ary2 ary3 :
  links_only l ary1 ary2 -> links_only l ary2 ary3 -> links_only l ary1 ary3.
Proof.
  intros H1 H2 i. destruct (H1 i) as [A1 B1], (H2 i) as [A2 B2]. split.
  - intros Hi. rewrite A2, A1 by done. done.
  - by rewrite B2, B1.
Qed.

Lemma links_only_mono l k ary ary' : l ⊆ k -> links_only l ary ary' -> links_only k ary ary'.
Proof. intros Hs H i. destruct (H i) as [A B]. split; [|done]. intros Hi. apply A. intros Hl. apply Hi, Hs, Hl. Qed.

Lemma links_only_insert l ary i p p' :
  ary !! i = Some p -> nolink p' = nolink p -> i ∈ l -> links_only l ary (<[i := p']> ary).
Proof.
  intros Hp Hn Hi j. destruct (decide (j = i)) as [->|Hne].
  - rewrite lookup_insert_eq, Hp. simpl. split; [done|]. by rewrite Hn.
  - by rewrite lookup_insert_ne by done.
Qed.

Lemma links_only_some l ary ary' i p :
  links_only l ary ary' -> ary !! i = Some p -> exists p', ary' !! i = Some p' /\ nolink p' = nolink p.
Proof.
  intros H Hp. destruct (H i) as [_ B]. rewrite Hp in B. simpl in B.
  destruct (ary' !! i) as [p'|]; [|discriminate]. exists p'. split; [done|]. exact (inj Some _ _ B).
Qed.

Lemma links_only_same_links l ary ary' i : links_only l ary ary' -> i ∉ l -> same_links ary ary' i.
Proof. intros H Hi. apply same_links_eq. by apply H. Qed.

Lemma same_links_insert ary i p p' j :
  ary !! i = Some p -> link_prev p' = link_prev p -> link_next p' = link_next p ->
  same_links ary (<[i := p']> ary) j.
Proof.
  intros Hp H1 H2 q Hq. destruct (decide (j = i)) as [->|Hne].
  - rewrite lookup_insert_eq. exists p'. by simplify_eq.
  - rewrite lookup_insert_ne by done. by exists q.
Qed.

Lemma same_links_other ary i p' j : j <> i -> same_links ary (<[i := p']> ary) j.
Proof. intros. apply same_links_eq. by apply lookup_insert_ne. Qed.

#[local] Hint Resolve links_only_refl same_links_other : xi.

(** Changing the predecessor of the first page of a segment. *)
Lemma dseg_reprev ary i nx l q j :
  dseg ary i nx l q 0 -> NoDup l ->
  match l with
  | [] => nx = 0 /\ i = q
  | k :: _ => nx = k /\ k <> 0 /\ exists pk, ary !! k = Some pk /\
      dseg (<[k := set_prev j pk]> ary) j k l q 0
  end.
Proof.
  destruct l as [|k l]; cbn [dseg]; intros H Hnd; [done|].
  destruct H as (-> & Hk & pk & Hl & Hp & H). split; [done|]. split; [done|]. exists pk.
  split; [done|]. split; [done|]. split; [done|]. exists (set_prev j pk).
  rewrite lookup_insert_eq. split; [done|]. split; [done|]. cbn [link_next set_prev].
  apply list.NoDup_cons in Hnd as [Hk' _]. eapply dseg_frame; [|exact H]. intros x Hx.
  apply same_links_other. by intros ->.
Qed.

(** Changing the successor of the last page of a segment. *)
Lemma dseg_renext ary f l j i nx :
  dseg ary 0 f l j i -> NoDup l ->
  (l = [] /\ f = i /\ j = 0) \/
  (j ∈ l /\ j <> 0 /\ exists pj, ary !! j = Some pj /\ dseg (<[j := set_next nx pj]> ary) 0 f l j nx).
Proof.
  destruct l as [|k l _] using rev_ind; cbn [dseg]; intros H Hnd; [by left; destruct H|].
  right. apply dseg_snoc in H as (-> & Hk & pk & jj & Hl & Hp & Hn & H).
  split; [set_solver|]. split; [done|]. exists pk. split; [done|]. apply dseg_snoc.
  split; [done|]. split; [done|]. exists (set_next nx pk), jj. rewrite lookup_insert_eq.
  repeat (split; [done|]). eapply dseg_frame; [|exact H]. intros x Hx.
  apply list.NoDup_app in Hnd as (_ & Hd & _). apply same_links_other. intros ->.
  by apply (Hd k Hx), list_elem_of_singleton.
Qed.

Lemma push_front_spec ary pl l i :
  is_list ary pl l -> i ∉ l -> i <> 0 -> is_Some (ary !! i) ->
  exists ary' pl', push_front ary pl i = Ret (ary', pl') /\ is_list ary' pl' (i :: l) /\
    links_only (i :: l) ary ary'.
Proof.
  intros [H Hnd] Hi Hi0 [p Hp]. pose proof (dseg_reprev _ _ _ _ _ i H Hnd) as Hr.
  unfold push_front. destruct l as [|k l].
  - destruct Hr as [Hf Hb]. rewrite Hf. simpl.
    rewrite (upd_some _ _ p) by done. simpl.
    rewrite (upd_some _ _ (set_next 0 p)) by apply lookup_insert_eq. simpl.
    rewrite insert_insert_eq. eexists _, _. split; [done|]. split.
    + split; [|apply NoDup_singleton]. cbn [dseg front back]. split; [done|]. split; [done|].
      eexists. rewrite lookup_insert_eq. done.
    + apply links_only_insert with p; [done|done|]. constructor.
  - destruct Hr as (Hf & Hk & pk & Hl & Hd). rewrite Hf.
    rewrite (proj2 (Z.eqb_neq k 0) Hk). simpl.
    assert (i <> k) as Hik by (intros ->; apply Hi; constructor).
    rewrite (upd_some _ _ pk) by done. cbn [bindO front back].
    rewrite (upd_some _ _ p) by (by rewrite lookup_insert_ne). cbn [bindO front back].
    rewrite (upd_some _ _ (set_next (front pl) p)) by apply lookup_insert_eq. cbn [bindO].
    rewrite insert_insert_eq, Hf. eexists _, _. split; [done|]. split.
    + split; [|by apply list.NoDup_cons]. cbn [dseg front back]. split; [done|]. split; [done|].
      eexists. rewrite lookup_insert_eq. split; [done|]. split; [done|].
      eapply (dseg_frame (<[k:=set_prev i pk]> ary) _ i k (k :: l)); [|exact Hd].
      intros x Hx. apply same_links_other. by intros ->.
    + apply (links_only_trans _ _ (<[k:=set_prev i pk]> ary)).
      * apply links_only_insert with pk; [done|done|set_solver].
      * apply links_only_insert with p; [by rewrite lookup_insert_ne|done|constructor].
Qed.

Lemma erase_spec ary pl l1 i l2 :
  is_list ary pl (l1 ++ i :: l2) ->
  exists ary' pl', erase ary pl i = Ret (ary', pl') /\ is_list ary' pl' (l1 ++ l2) /\
    links_only (l1 ++ i :: l2) ary ary' /\ ary' !! i = ary !! i.
Proof.
  intros [H Hnd]. pose proof Hnd as (Hnd1 & Hdis & Hnd2)%list.NoDup_app.
  pose proof Hnd2 as [Hi2 Hnd2']%list.NoDup_cons.
  assert (i ∉ l1) as Hi1 by (intros Hi; apply (Hdis i Hi); constructor).
  assert (NoDup (l1 ++ l2)) as Hnd'.
  { apply list.NoDup_app. split; [done|]. split; [|done]. intros x Hx Hx2. apply (Hdis x Hx). by constructor. }
  apply dseg_app in H as (j & jn & H1 & H2). cbn [dseg] in H2.
  destruct H2 as (-> & Hi & pg & Hl & Hp & H2).
  unfold erase. rewrite Hl. cbn [derefO bindO].
  assert (exists ary1 q,
    (if negb (link_next pg =? 0)
     then do ary' <- upd ary (link_next pg) (set_prev (link_prev pg));; Ret (ary', pl)
     else Ret (ary, MkList (front pl) (link_prev pg))) = Ret (ary1, MkList (front pl) q) /\
    dseg ary1 j (link_next pg) l2 q 0 /\ links_only l2 ary ary1) as (ary1 & q & -> & H2' & HF).
  { pose proof (dseg_reprev _ _ _ _ _ j H2 Hnd2') as Hr. destruct l2 as [|k l2].
    - destruct Hr as [-> Hq]. exists ary, j. simpl. rewrite Hp. split; [done|]. auto with xi.
    - destruct Hr as (Hn & Hk & pk & Hlk & Hd). rewrite Hn in *.
      rewrite (proj2 (Z.eqb_neq k 0) Hk). cbn [negb]. rewrite (upd_some _ _ pk) by done. cbn [bindO].
      rewrite Hp. exists (<[k:=set_prev j pk]> ary), (back pl). split; [by destruct pl|].
      split; [done|]. apply links_only_insert with pk; [done|done|constructor]. }
  cbn [bindO front back]. rewrite (proj1 (HF i) Hi2), Hl. cbn [derefO bindO].
  assert (dseg ary1 0 (front pl) l1 j i) as H1'.
  { eapply dseg_frame; [|exact H1]. intros x Hx. apply links_only_same_links with l2; [done|].
    intros Hx2. apply (Hdis x Hx). by constructor. }
  assert (link_prev pg = j) as -> by done.
  destruct (dseg_renext _ _ _ _ _ (link_next pg) H1' Hnd1) as [(-> & Hf & ->)|(Hj & Hj0 & pj & Hlj & Hd)].
  - simpl. eexists _, _. split; [done|]. split; [split; [exact H2'|done]|].
    split; [eapply links_only_mono; [|exact HF]; set_solver|]. by rewrite (proj1 (HF i) Hi2).
  - rewrite (proj2 (Z.eqb_neq j 0) Hj0). cbn [negb]. rewrite (upd_some _ _ pj) by done. cbn [bindO].
    eexists _, _. split; [done|]. split; [split; [|done]|split].
    + apply dseg_app. exists j, (link_next pg). split; [done|]. eapply dseg_frame; [|exact H2'].
      intros x Hx. apply same_links_other. intros ->. apply (Hdis j Hj). by constructor.
    + eapply links_only_trans; [eapply links_only_mono; [|exact HF]; set_solver|].
      apply links_only_insert with pj; [done|done|set_solver].
    + rewrite lookup_insert_ne by (by intros ->). by rewrite (proj1 (HF i) Hi2).
Qed.

(** Popping is erasing the first page. *)
Lemma pop_front_erase ary pl i l :
  is_list ary pl (i :: l) -> pop_front ary pl = erase ary pl i.
Proof.
  intros [H Hnd]. cbn [dseg] in H. destruct H as (Hf & Hi & pg & Hl & Hp & H).
  apply list.NoDup_cons in Hnd as [Hil Hnd].
  unfold pop_front, erase. rewrite Hf, Hl. cbn [derefO bindO]. rewrite Hp.
  pose proof (dseg_reprev _ _ _ _ _ 0 H Hnd) as Hr. destruct l as [|k l].
  - destruct Hr as [-> _]. cbn [negb Z.eqb bindO front back]. rewrite Hl. cbn [derefO bindO].
    by rewrite Hp.
  - destruct Hr as (Hn & Hk & pk & Hlk & _). rewrite Hn, (proj2 (Z.eqb_neq k 0) Hk). cbn [negb].
    rewrite (upd_some _ _ pk) by done. cbn [bindO]. rewrite Hf.
    rewrite lookup_insert_ne by (intros ->; apply Hil; constructor). rewrite Hl. cbn [derefO bindO].
    by rewrite Hp.
Qed.

Lemma pop_front_spec ary pl i l :
  is_list ary pl (i :: l) ->
  exists ary' pl', pop_front ary pl = Ret (ary', pl') /\ is_list ary' pl' l /\
    links_only (i :: l) ary ary' /\ ary' !! i = ary !! i.
Proof. intros H. rewrite (pop_front_erase _ _ _ _ H). by apply (erase_spec ary pl [] i l). Qed.

(** The pages a search accepts. *)
Definition fits (ary : pages) (n : Z) (i : Z) : bool :=
  match ary !! i with Some p => n <=? span_size p | None => false end.

Lemma find_loop_spec ary n fuel pp p l q :
  dseg ary pp p l q 0 -> (length l < fuel)%nat ->
  find_loop fuel ary n p = Ret (List.find (fits ary n) l).
Proof.
  revert pp p fuel. induction l as [|i l IH]; intros pp p fuel H Hf;
    (destruct fuel as [|fuel]; [simpl in Hf; lia|]); cbn [dseg] in H; cbn [find_loop List.find].
  - by destruct H as [-> _].
  - destruct H as (-> & Hi & pg & Hl & _ & H). rewrite (proj2 (Z.eqb_neq i 0) Hi).
    unfold fits at 1. rewrite Hl. cbn [derefO bindO]. rewrite Z.leb_antisym.
    destruct (span_size pg <? n); cbn [negb]; [|done]. eapply IH; [exact H|]. simpl in Hf. lia.
Qed.

(** The search of a list is the search of the pages it holds. *)
Lemma page_find_spec ary pl l n : is_list ary pl l -> find ary pl n = Ret (List.find (fits ary n) l).
Proof.
  intros H. pose proof (is_list_size _ _ _ H). destruct H as [H _].
  eapply find_loop_spec; [exact H|lia].
Qed.

End PageList.

(** ** Size classes

    [count_leading_zeroes] is [__builtin_clz] on 32 bits; the callers never
    pass 0 where the result matters ([clz 0] is 32 here). *)

Module SizeClass.

Fixpoint clz_from (n : nat) (x : Z) : Z :=
  match n with
  | O => 0
  | S n => if Z.testbit x (Z.of_nat n) then 0 else 1 + clz_from n x
  end.
Definition count_leading_zeroes (x : Z) : Z := clz_from 32 x.

Definition page_bits : Z := 12.
Definition page_size : Z := Z.shiftl 1 page_bits.
Definition huge_page_size : Z := 512 * page_size.
Definition idx_frac_bits : Z := 2.

Definition log2ceil (n : Z) : Z := u32 (32 - count_leading_zeroes (u32 (n - 1))).
Definition log2floor (n : Z) : Z := u32 (32 - count_leading_zeroes n - 1).

Definition idx_to_size (idx : Z) : Z :=
  Z.shiftr
    (u32 (Z.shiftl
       (Z.lor (Z.shiftl 1 idx_frac_bits) (Z.land idx (Z.shiftl 1 idx_frac_bits - 1)))
       (Z.shiftr idx idx_frac_bits)))
    idx_frac_bits.

(** [size >> (log2floor(size) - idx_frac_bits)] is undefined below 4. *)
Definition usizeo_idx (size : Z) : outcome Z :=
  if log2floor size <? idx_frac_bits then Undef
  else
    Ret (u32 (u32 (Z.shiftl (log2floor size) idx_frac_bits - (Z.shiftl 1 idx_frac_bits - 1)) +
              Z.shiftr (u32 (size - 1)) (log2floor size - idx_frac_bits))).

(** [usizeo_idx(4 * page_size) + 1]. *)
Definition nr_small_pools : Z := 57.
Definition max_small_allocation : Z := idx_to_size (nr_small_pools - 1).

Definition nr_span_lists : nat := 32.

Definition index_of (pages : Z) : Z := u32 (32 - count_leading_zeroes pages - 1).
Definition index_of_conservative (pages : Z) : Z :=
  if pages =? 1 then 0 else u32 (32 - count_leading_zeroes (u32 (pages - 1))).

Example nr_small_pools_ok : usizeo_idx (4 * page_size) = Ret (nr_small_pools - 1).
Proof. reflexivity. Qed.
Example max_small_allocation_ok : max_small_allocation = 16384.
Proof. reflexivity. Qed.

Lemma clz_from_log2 n x : 0 < x < 2 ^ Z.of_nat n -> clz_from n x = Z.of_nat n - 1 - Z.log2 x.
Proof.
  induction n as [|n IH]; intros Hx; [lia|]. cbn [clz_from].
  destruct (Z.testbit x (Z.of_nat n)) eqn:E.
  - assert (2 ^ Z.of_nat n <= x).
    { destruct (Z.lt_ge_cases x (2 ^ Z.of_nat n)) as [Hlt|]; [|done].
      rewrite <- (Z.mod_small x (2 ^ Z.of_nat n)) in E by lia.
      rewrite Z.mod_pow2_bits_high in E by lia. discriminate. }
    rewrite (Z.log2_unique x (Z.of_nat n)); [lia|lia|].
    rewrite <- Nat2Z.inj_succ. lia.
  - rewrite IH; [lia|]. split; [lia|].
    destruct (Z.lt_ge_cases x (2 ^ Z.of_nat n)) as [|Hge]; [done|].
    assert (Z.log2 x = Z.of_nat n) as Hlog.
    { apply Z.log2_unique; [lia|]. split; [done|].
      rewrite <- Nat2Z.inj_succ. lia. }
    pose proof (Z.bit_log2 x) as Hb. rewrite Hlog, E in Hb. specialize (Hb ltac:(lia)). discriminate.
Qed.

Lemma clz_log2 x : 0 < x < 2 ^ 32 -> count_leading_zeroes x = 31 - Z.log2 x.
Proof. intros. unfold count_leading_zeroes. rewrite clz_from_log2 by (simpl; lia). lia. Qed.

Lemma log2_bound x : 0 < x < 2 ^ 32 -> 0 <= Z.log2 x < 32.
Proof. intros. split; [apply Z.log2_nonneg|]. apply Z.log2_lt_pow2; lia. Qed.

(** Free spans are kept under the logarithm of their size, rounded down. *)
Lemma index_of_log2 n : 0 < n < 2 ^ 32 -> index_of n = Z.log2 n.
Proof.
  intros Hn. pose proof (log2_bound n Hn). unfold index_of. rewrite clz_log2 by done.
  rewrite u32_id by (unfold_pow2; lia). lia.
Qed.

Lemma index_of_conservative_log2 n : 0 < n < 2 ^ 32 -> index_of_conservative n = Z.log2_up n.
Proof.
  intros Hn. unfold index_of_conservative. case_if; [by subst|].
  pose proof (log2_bound (n - 1) ltac:(lia)).
  rewrite (u32_id (n - 1)) by lia. rewrite clz_log2 by lia.
  rewrite u32_id by (unfold_pow2; lia). unfold Z.log2_up.
  destruct (Z.compare_spec 1 n); [lia|rewrite <- Z.sub_1_r; lia|lia].
Qed.

(** Bounded quantification over the sizes a small allocation can have. *)
Fixpoint all_from (p : Z -> bool) (i : Z) (n : nat) : bool :=
  match n with
  | O => true
  | S n => p i && all_from p (i + 1) n
  end.

Lemma all_from_spec p i n x : all_from p i n = true -> i <= x < i + Z.of_nat n -> p x = true.
Proof.
  revert i. induction n as [|n IH]; intros i H Hx; [lia|]. cbn [all_from] in H.
  apply andb_true_iff in H as [H1 H2]. destruct (decide (x = i)) as [->|]; [done|].
  apply (IH (i + 1)); [done|lia].
Qed.

Definition class_ok (size : Z) : bool :=
  match usizeo_idx size with
  | Ret idx =>
      (8 <=? idx) && (idx <? nr_small_pools) && (size <=? idx_to_size idx) &&
      (idx_to_size (idx - 1) <? size)
  | _ => false
  end.

Lemma classes_ok : all_from class_ok 4 (Z.to_nat 16381) = true.
Proof. vm_compute. reflexivity. Qed.

(** Every small size has the smallest class that holds it. *)
Lemma usizeo_idx_ok size :
  4 <= size <= max_small_allocation ->
  exists idx, usizeo_idx size = Ret idx /\ 8 <= idx < nr_small_pools /\
    idx_to_size (idx - 1) < size <= idx_to_size idx.
Proof.
  intros Hs. rewrite max_small_allocation_ok in Hs.
  pose proof (all_from_spec _ _ _ size classes_ok ltac:(rewrite Z2Nat.id; lia)) as H. unfold class_ok in H.
  destruct (usizeo_idx size) as [idx| | | |]; try discriminate. exists idx. split; [done|]. zbool. lia.
Qed.

Definition snug (size : Z) : bool :=
  match usizeo_idx size with
  | Ret idx =>
      (4 * idx_to_size idx <=? 5 * size) &&
      match usizeo_idx (size + 1) with Ret idx' => (idx <=? idx') && (size + 1 <=? idx_to_size idx') | _ => false end
  | _ => false
  end.

Lemma classes_snug : all_from snug 4 (Z.to_nat 16380) = true.
Proof. vm_compute. reflexivity. Qed.

Lemma snug_below size : 4 <= size < max_small_allocation -> snug size = true.
Proof.
  intros Hs. rewrite max_small_allocation_ok in Hs. apply (all_from_spec _ _ _ size classes_snug). rewrite Z2Nat.id; lia.
Qed.

(** Larger sizes do not get smaller classes. *)
Lemma usizeo_idx_mono n : forall size i j, 4 <= size -> size + Z.of_nat n <= max_small_allocation ->
  usizeo_idx size = Ret i -> usizeo_idx (size + Z.of_nat n) = Ret j -> i <= j.
Proof.
  induction n as [|n IH]; intros size i j H1 H2 Hi Hj; [rewrite Z.add_0_r in Hj; rewrite Hi in Hj; injection Hj as <-; lia|].
  pose proof (snug_below size ltac:(lia)) as Hs. unfold snug in Hs. rewrite Hi in Hs.
  destruct (usizeo_idx (size + 1)) as [k| | | |] eqn:Ek; [|by rewrite andb_false_r in Hs..]. zbool.
  assert (k <= j); [|lia]. apply (IH (size + 1)); [lia|lia|done|]. by replace (size + 1 + Z.of_nat n) with (size + Z.of_nat (S n)) by lia.
Qed.

(** C40: The size class of a small allocation is in the array of pools, is the
    smallest that holds the size and wastes at most a fifth of the object; the
    32-bit arithmetic does not wrap around, and a larger size never gets a smaller
    class.  Below 4 bytes the shift is undefined, so [malloc] rounds up first. *)
Theorem small_classes_bounded (size size' : Z) :
  4 <= size <= size' -> size' <= max_small_allocation ->
  exists i j, usizeo_idx size = Ret i /\ usizeo_idx size' = Ret j /\ 8 <= i <= j /\ j < nr_small_pools /\
    idx_to_size (i - 1) < size <= idx_to_size i /\ 4 * idx_to_size i <= 5 * size.
Proof.
  intros Hs Hs'. destruct (usizeo_idx_ok size ltac:(lia)) as (i & Ei & Hi & Hsz). destruct (usizeo_idx_ok size' ltac:(lia)) as (j & Ej & Hj & _).
  exists i, j. split; [done|]. split; [done|]. assert (i <= j) as Hij.
  { apply (usizeo_idx_mono (Z.to_nat (size' - size)) size); [lia|lia|done|]. rewrite Z2Nat.id by lia. by replace (size + (size' - size)) with size' by lia. }
  split; [lia|]. split; [lia|]. split; [done|]. destruct (Z.eq_dec size max_small_allocation) as [->|Hne].
  - rewrite max_small_allocation_ok in *. change (usizeo_idx 16384) with (Ret 56) in Ei. injection Ei as <-. done.
  - pose proof (snug_below size ltac:(lia)) as H. unfold snug in H. rewrite Ei in H. destruct (usizeo_idx (size + 1)); [|by rewrite andb_false_r in H..]. zbool. lia.
Qed.

Lemma small_classes_bounded_witness : exists i j, usizeo_idx 100 = Ret i /\ usizeo_idx 5000 = Ret j /\ 8 <= i <= j.
Proof.
  destruct (small_classes_bounded 100 5000) as (i & j & H1 & H2 & H3 & _).
  - split; discriminate.
  - discriminate.
  - exists i, j. split; [exact H1|]. split; [exact H2|exact H3].
Defined.

End SizeClass.
