(* ===== verification/PageAlloc.v ===== *)
(** * The page allocator: spans of pages of one cpu

    src/core/memory/memory.cpp, [struct cpu_pages].  A run of pages is
    described by the records of its first and last page; free runs are linked
    into [free_spans] by the logarithm of their size.  The abstract state is
    the [tile] list: what every run of pages between page 1 and the sentinel
    page is used for.  [wf] ties the two together, [inv] adds that free runs
    never touch (freeing coalesces) and that [nr_free_pages] is their sum.  A
    [Held] tile is a run that belongs to no list, of which nothing else is
    known: the operations go through it, one short lemma for each move. *)
From S2P Require Import Prelude PageList.
Import PageList.PageList SizeClass.

Record cpu_pages := Cpu {
  memory : Z;
  ary : pages;
  nr_pages : Z;
  nr_free_pages : Z;
  current_min_free_pages : Z;
  cpu_id : Z;
  free_spans : list page_list
}.

Definition with_ary (a : pages) (c : cpu_pages) : cpu_pages :=
  Cpu (memory c) a (nr_pages c) (nr_free_pages c) (current_min_free_pages c) (cpu_id c) (free_spans c).
Definition with_nr_free (n : Z) (c : cpu_pages) : cpu_pages :=
  Cpu (memory c) (ary c) (nr_pages c) n (current_min_free_pages c) (cpu_id c) (free_spans c).
Definition with_min_free (n : Z) (c : cpu_pages) : cpu_pages :=
  Cpu (memory c) (ary c) (nr_pages c) (nr_free_pages c) n (cpu_id c) (free_spans c).
Definition with_spans (l : list page_list) (c : cpu_pages) : cpu_pages :=
  Cpu (memory c) (ary c) (nr_pages c) (nr_free_pages c) (current_min_free_pages c) (cpu_id c) l.

Module Pages.

Definition cpu_id_shift : Z := 36.
Definition max_cpus : Z := 256.
Definition min_free_pages : Z := 20000000 / page_size.
Definition sizeof_page : Z := 32.

(** The state of a thread that has not allocated yet. *)
Definition new : cpu_pages := Cpu 0 ∅ 0 0 0 (2 ^ 32 - 1) (replicate nr_span_lists PageList.new).

Definition object_cpu_id (ptr : Z) : Z := Z.land (Z.shiftr ptr cpu_id_shift) 0xff.

Definition is_initialized (c : cpu_pages) : bool := negb (nr_pages c =? 0).

Definition unlink (c : cpu_pages) (idx span : Z) : outcome cpu_pages :=
  do list <- derefO (znth (free_spans c) idx);;
  do '(a, list) <- erase (ary c) list span;;
  Ret (with_spans (<[Z.to_nat idx := list]> (free_spans c)) (with_ary a c)).

Definition link (c : cpu_pages) (idx span : Z) : outcome cpu_pages :=
  do list <- derefO (znth (free_spans c) idx);;
  do '(a, list) <- push_front (ary c) list span;;
  Ret (with_spans (<[Z.to_nat idx := list]> (free_spans c)) (with_ary a c)).

(** [span->field = span_end->field = v]. *)
Definition set_ends (c : cpu_pages) (span span_end : Z) (f : page -> page) : outcome cpu_pages :=
  do a <- upd (ary c) span_end f;;
  do a <- upd a span f;;
  Ret (with_ary a c).

Definition free_span_no_merge (c : cpu_pages) (span_start n : Z) : outcome cpu_pages :=
  assertO (negb (n =? 0)) (
  let c := with_nr_free (u32 (nr_free_pages c + n)) c in
  let span := span_start in
  let span_end := u32 (span_start + n - 1) in
  do c <- set_ends c span span_end (set_free true);;
  do c <- set_ends c span span_end (set_span_size n);;
  link c (index_of n) span).

(** The two halves of [free_span]: absorbing a free run that ends just before,
    and one that starts just after. *)
Definition merge_before (c : cpu_pages) (span_start n : Z) : outcome (cpu_pages * Z * Z) :=
  let before := u32 (span_start - 1) in
  do p <- derefO (ary c !! before);;
  if p_free p then
    let b_size := span_size p in
    assertO (negb (b_size =? 0)) (
    let c := with_nr_free (u32 (nr_free_pages c - b_size)) c in
    do c <- unlink c (index_of b_size) (before - (b_size - 1));;
    Ret (c, u32 (span_start - b_size), u32 (n + b_size)))
  else Ret (c, span_start, n).

Definition merge_after (c : cpu_pages) (span_start n : Z) : outcome (cpu_pages * Z) :=
  let after := u32 (span_start + n) in
  do p <- derefO (ary c !! after);;
  if p_free p then
    let a_size := span_size p in
    assertO (negb (a_size =? 0)) (
    let c := with_nr_free (u32 (nr_free_pages c - a_size)) c in
    do c <- unlink c (index_of a_size) after;;
    Ret (c, u32 (n + a_size)))
  else Ret (c, n).

Definition free_span (c : cpu_pages) (span_start n : Z) : outcome cpu_pages :=
  do '(c, span_start, n) <- merge_before c span_start n;;
  do '(c, n) <- merge_after c span_start n;;
  free_span_no_merge c span_start n.

Section system.
(** What the system gives: the base of the address space the pools share, the
    number [fetch_add] returns, and whether [mmap] succeeds. *)
Context (mem_base next_cpu_id : Z) (mmap_ok : Z -> Z -> bool).

(** Memory fresh from [mmap] is zero. *)
Definition zero_page : page := Page false 0 0 0 0 0 None 0.
Definition zeroed (n : Z) : pages := list_to_map ((fun i => (i, zero_page)) <$> seqZ 0 n).

Definition initial_size : Z := Z.shiftl 32 20.

Fixpoint clear_free (a : pages) (i : Z) (n : nat) : outcome pages :=
  match n with
  | O => Ret a
  | S n => do a <- upd a i (set_free false);; clear_free a (i + 1) n
  end.

(** The pages of the array itself are taken, the others are one free span. *)
Definition first_span (base nr_pages cpu_id : Z) (pages : pages) (c : cpu_pages) : outcome (cpu_pages * bool) :=
  let reserved := align_up (sizeof_page * (nr_pages + 1)) page_size / page_size in
  do pages <- clear_free pages 0 (Z.to_nat reserved);;
  do pages <- upd pages nr_pages (set_free false);;
  let c := Cpu base pages nr_pages (nr_free_pages c) (current_min_free_pages c) cpu_id (free_spans c) in
  do c <- free_span_no_merge c reserved (nr_pages - reserved);;
  Ret (c, true).

Definition base_of (id : Z) : Z := mem_base + Z.shiftl id cpu_id_shift.

Definition initialize (c : cpu_pages) : outcome (cpu_pages * bool) :=
  if is_initialized c then Ret (c, false)
  else
    assertO (next_cpu_id <? max_cpus) (
    assertO (mmap_ok (base_of next_cpu_id) initial_size) (
    first_span (base_of next_cpu_id) (initial_size / page_size) next_cpu_id
      (zeroed (initial_size / page_size + 1)) c)).

(** [while (idx < nr_span_lists && fsu.free_spans[idx].empty()) ++idx] *)
Fixpoint skip_empty (ls : list page_list) (idx : Z) : Z :=
  match ls with
  | [] => idx
  | l :: ls => if empty l then skip_empty ls (idx + 1) else idx
  end.

(** [list.find] followed by [unlink]. *)
Definition find_and_unlink_in (c : cpu_pages) (idx n_pages : Z) : outcome (cpu_pages * option Z) :=
  do list <- derefO (znth (free_spans c) idx);;
  do span <- find (ary c) list n_pages;;
  match span with
  | None => Ret (c, None)
  | Some span => do c <- unlink c idx span;; Ret (c, Some span)
  end.

(** [initialize] succeeds at most once: two levels of recursion. *)
Fixpoint find_and_unlink_span_fuel (fuel : nat) (c : cpu_pages) (n_pages : Z) :
    outcome (cpu_pages * option Z) :=
  match fuel with
  | O => Diverge
  | S fuel =>
      let orig_idx := index_of_conservative n_pages in
      if Z.of_nat nr_span_lists <=? orig_idx then Undef
      else if u32 (Z.shiftl 2 orig_idx) <=? n_pages then Throw bad_alloc
      else
        let idx := skip_empty (zdrop orig_idx (free_spans c)) orig_idx in
        if idx =? Z.of_nat nr_span_lists then
          do '(c, initialized) <- initialize c;;
          if initialized then find_and_unlink_span_fuel fuel c n_pages
          else
            let idx := index_of n_pages in
            if idx =? orig_idx then Ret (c, None)
            else find_and_unlink_in c idx n_pages
        else find_and_unlink_in c idx n_pages
  end.
Definition find_and_unlink_span : cpu_pages -> Z -> outcome (cpu_pages * option Z) :=
  find_and_unlink_span_fuel 2.
End system.

Record trim := Trim { offset : Z; trim_pages : Z }.

(** What the two callers of [allocate_large_and_trim] cut out of a span. *)
Definition trim_large (n_pages : Z) (idx n : Z) : trim := Trim 0 (Z.min n n_pages).
Definition trim_aligned (align_pages n_pages : Z) (idx n : Z) : trim :=
  Trim (u32 (align_up32 idx align_pages - idx)) n_pages.

(** [allocate_large_and_trim] once it has a span. *)
Definition trim_span (c : cpu_pages) (span_idx : Z) (trimmer : Z -> Z -> trim) :
    outcome (cpu_pages * Z) :=
  do span <- derefO (ary c !! span_idx);;
  let size := span_size span in
  let c := with_nr_free (u32 (nr_free_pages c - size)) c in
  let t := trimmer span_idx (nr_pages c) in
  do '(c, span_idx, size) <-
    (if negb (offset t =? 0) then
       do c <- free_span_no_merge c span_idx (offset t);;
       Ret (c, span_idx + offset t, u32 (size - offset t))
     else Ret (c, span_idx, size));;
  do c <-
    (if trim_pages t <? size
     then free_span_no_merge c (span_idx + trim_pages t) (u32 (size - trim_pages t))
     else Ret c);;
  let span_end := span_idx + trim_pages t - 1 in
  do c <- set_ends c span_idx span_end (set_free false);;
  do c <- set_ends c span_idx span_end (set_span_size (trim_pages t));;
  do a <- upd (ary c) span_idx (set_pool None);;
  Ret (with_ary a c, span_idx).

Definition to_page (c : cpu_pages) (ptr : Z) : Z := u64 (ptr - memory c) / page_size.
Definition address_of (c : cpu_pages) (idx : Z) : Z := memory c + idx * page_size.

Definition free_large (c : cpu_pages) (ptr : Z) : outcome cpu_pages :=
  let idx := u32 (to_page c ptr) in
  do span <- derefO (ary c !! idx);;
  free_span c idx (span_size span).

(** [shrink] on a span that belongs to no small pool. *)
Definition shrink_large (c : cpu_pages) (ptr new_size : Z) : outcome cpu_pages :=
  let idx := to_page c ptr in
  do span <- derefO (ary c !! idx);;
  let new_size_pages := align_up new_size page_size / page_size in
  let old_size_pages := span_size span in
  assertO (new_size_pages <=? old_size_pages) (
  if new_size_pages =? old_size_pages then Ret c
  else
    do a <- upd (ary c) idx (set_span_size new_size_pages);;
    do a <- upd a (idx + (new_size_pages - 1)) (set_free false);;
    do a <- upd a (idx + (new_size_pages - 1)) (set_span_size new_size_pages);;
    free_span (with_ary a c) (u32 (idx + new_size_pages)) (u32 (old_size_pages - new_size_pages))).

(** ** Tiles *)

Inductive tile_kind : Type := Free | Used | Reserved | Held.

#[export] Instance tile_kind_eq_dec : EqDecision tile_kind.
Proof. solve_decision. Defined.

Record tile := Tile { t_start : Z; t_len : Z; t_kind : tile_kind }.

#[export] Instance tile_eq_dec : EqDecision tile.
Proof. solve_decision. Defined.

Definition is_free (t : tile) : bool := bool_decide (t_kind t = Free).
Definition is_used (t : tile) : bool := bool_decide (t_kind t = Used \/ t_kind t = Reserved).
Definition covers (t : tile) (i : Z) : Prop := t_start t <= i < t_start t + t_len t.

(** The runs in use, and the number of free pages. *)
Definition used (ts : list tile) : list tile := List.filter is_used ts.
Definition free_sum (ts : list tile) : Z := zsum (fun t => if is_free t then t_len t else 0) ts.

Fixpoint contiguous (i : Z) (ts : list tile) (e : Z) : Prop :=
  match ts with
  | [] => i = e
  | t :: ts => t_start t = i /\ 0 < t_len t /\ contiguous (i + t_len t) ts e
  end.

(** No two free runs touch. *)
Fixpoint maximal (ts : list tile) : Prop :=
  match ts with
  | [] => True
  | t :: ts =>
      match ts with
      | [] => True
      | u :: _ => ~ (is_free t = true /\ is_free u = true)
      end /\ maximal ts
  end.

Lemma contiguous_app i t1 t2 e :
  contiguous i (t1 ++ t2) e <-> exists j, contiguous i t1 j /\ contiguous j t2 e.
Proof.
  revert i. induction t1 as [|t t1 IH]; intros i; cbn [contiguous app].
  - split; [eauto|]. by intros (j & -> & H).
  - rewrite IH. naive_solver.
Qed.

Lemma contiguous_le i ts e : contiguous i ts e -> i <= e.
Proof.
  revert i. induction ts as [|t ts IH]; intros i; cbn [contiguous]; [lia|].
  intros (Hs & Hl & H). apply IH in H. lia.
Qed.

Lemma contiguous_in i ts e t : contiguous i ts e -> t ∈ ts -> i <= t_start t /\ 0 < t_len t /\ t_start t + t_len t <= e.
Proof.
  revert i. induction ts as [|u ts IH]; intros i; cbn [contiguous]; [by intros _ ?%elem_of_nil|].
  intros (Hs & Hl & H) [->|Hin]%elem_of_cons.
  - apply contiguous_le in H. lia.
  - specialize (IH _ H Hin). lia.
Qed.

Lemma contiguous_covers i ts e t u x :
  contiguous i ts e -> t ∈ ts -> u ∈ ts -> covers t x -> covers u x -> t = u.
Proof.
  unfold covers. revert i. induction ts as [|v ts IH]; intros i; cbn [contiguous]; [by intros _ ?%elem_of_nil|].
  intros (Hs & Hl & H) [->|Ht]%elem_of_cons [->|Hu]%elem_of_cons Hct Hcu; [done| | |by eapply IH].
  - pose proof (contiguous_in _ _ _ _ H Hu). lia.
  - pose proof (contiguous_in _ _ _ _ H Ht). lia.
Qed.

Lemma free_sum_app t1 t2 : free_sum (t1 ++ t2) = free_sum t1 + free_sum t2.
Proof. apply zsum_app. Qed.

Lemma free_sum_bound i ts e : contiguous i ts e -> 0 <= free_sum ts <= e - i.
Proof.
  revert i. induction ts as [|t ts IH]; intros i; cbn [contiguous]; [unfold free_sum; simpl; lia|].
  intros (Hs & Hl & H). apply IH in H. unfold free_sum in *. cbn [zsum]. destruct (is_free t); lia.
Qed.

Lemma used_app t1 t2 : used (t1 ++ t2) = used t1 ++ used t2.
Proof. apply List.filter_app. Qed.

Lemma maximal_app t1 t t2 : maximal (t1 ++ t :: t2) <-> maximal (t1 ++ [t]) /\ maximal (t :: t2).
Proof.
  induction t1 as [|u t1 IH]; [simpl; tauto|]. cbn [app]. cbn [maximal] in *.
  destruct t1 as [|v t1]; cbn [app] in *; [simpl; tauto|]. rewrite IH. tauto.
Qed.

Lemma maximal_nonfree t1 t t2 :
  is_free t = false -> maximal t1 -> maximal t2 -> maximal (t1 ++ t :: t2).
Proof.
  intros Ht H1 H2. apply maximal_app. split.
  - induction t1 as [|u t1 IH]; [done|]. cbn [app]. destruct t1 as [|v t1]; cbn [app maximal] in *.
    + rewrite Ht. split; [intros [_ E]; discriminate E|done].
    + split; [apply H1|]. apply IH, H1.
  - cbn [maximal]. split; [|done]. destruct t2; [done|]. rewrite Ht. by intros [].
Qed.

Lemma maximal_tail t ts : maximal (t :: ts) -> maximal ts.
Proof. cbn [maximal]. tauto. Qed.

Lemma maximal_app_inv t1 t2 : maximal (t1 ++ t2) -> maximal t1 /\ maximal t2.
Proof.
  induction t1 as [|u t1 IH]; [done|]. cbn [app maximal]. intros [H1 H2]. apply IH in H2 as [H2 H3].
  split; [|done]. split; [|done]. destruct t1; [done|exact H1].
Qed.

Lemma used_in t ts : t ∈ used ts <-> t ∈ ts /\ is_used t = true.
Proof. unfold used. rewrite !list_elem_of_In. apply List.filter_In. Qed.

Lemma kind_cases t : t_kind t <> Held -> is_used t = negb (is_free t).
Proof. unfold is_used, is_free. by destruct (t_kind t). Qed.

(** The first tile of a tiling that may start with a gap. *)
Lemma used_nil_single i e a ts :
  is_free a = true -> (forall t, t ∈ a :: ts -> t_kind t <> Held) ->
  contiguous i (a :: ts) e -> maximal (a :: ts) ->
  match used ts with
  | [] => t_len a = e - i
  | u :: _ => t_len a = t_start u - i
  end.
Proof.
  intros Ha Hh (Hs & Hl & Hc) Hm. destruct ts as [|u ts]; cbn [contiguous] in Hc; [simpl; lia|].
  destruct Hc as (Hu & _). cbn [maximal] in Hm. destruct Hm as [Hm _].
  unfold used. cbn [List.filter]. rewrite kind_cases by (apply Hh; set_solver).
  destruct (is_free u); [tauto|]. simpl. lia.
Qed.

Lemma used_cons t ts : used (t :: ts) = if is_used t then t :: used ts else used ts.
Proof. reflexivity. Qed.

(** A tiling without touching free runs is determined by the runs in use: the
    free runs are the gaps between them. *)
Lemma tiling_canonical i t1 t2 e :
  contiguous i t1 e -> contiguous i t2 e -> maximal t1 -> maximal t2 ->
  (forall t, t ∈ t1 ++ t2 -> t_kind t <> Held) -> used t1 = used t2 -> t1 = t2.
Proof.
  revert i t2. induction t1 as [|a t1 IH]; intros i t2 H1 H2 M1 M2 Hh Hu.
  - destruct t2 as [|b t2]; [done|]. cbn [contiguous] in *. destruct H2 as (_ & Hl & H2).
    apply contiguous_le in H2. lia.
  - destruct t2 as [|b t2].
    { cbn [contiguous] in *. destruct H1 as (_ & Hl & H1). apply contiguous_le in H1. lia. }
    assert (t_kind a <> Held /\ t_kind b <> Held) as [Ka Kb] by (split; apply Hh; set_solver).
    pose proof (kind_cases a Ka) as Ua. pose proof (kind_cases b Kb) as Ub.
    pose proof H1 as (Hs1 & Hl1 & H1'). pose proof H2 as (Hs2 & Hl2 & H2').
    assert (a = b) as ->.
    { rewrite !used_cons, Ua, Ub in Hu. destruct (is_free a) eqn:Fa, (is_free b) eqn:Fb; simpl in Hu.
      - pose proof (used_nil_single i e a t1 Fa ltac:(set_solver) H1 M1) as L1.
        pose proof (used_nil_single i e b t2 Fb ltac:(set_solver) H2 M2) as L2. rewrite Hu in L1.
        unfold is_free in *. destruct a, b; simpl in *. apply bool_decide_eq_true in Fa, Fb.
        destruct (used t2); simplify_eq; f_equal; lia.
      - assert (b ∈ used t1) as Hb by (rewrite Hu; constructor). apply used_in in Hb as [Hb _].
        pose proof (contiguous_in _ _ _ _ H1' Hb). lia.
      - assert (a ∈ used t2) as Hb by (rewrite <- Hu; constructor). apply used_in in Hb as [Hb _].
        pose proof (contiguous_in _ _ _ _ H2' Hb). lia.
      - by simplify_eq. }
    f_equal. apply (IH (i + t_len b)); eauto using maximal_tail.
    + intros t Ht. apply Hh. set_solver.
    + rewrite !used_cons in Hu. destruct (is_used b); by simplify_eq.
Qed.

(** ** The invariant *)

Definition at_page (a : pages) (i : Z) (P : page -> Prop) : Prop := exists p, a !! i = Some p /\ P p.

(** The records at both ends of a run. *)
Definition end_ok (k : tile_kind) (n : Z) (p : page) : Prop :=
  p_free p = bool_decide (k = Free) /\ (k <> Reserved -> span_size p = n).

Definition tile_ok (a : pages) (t : tile) : Prop :=
  t_kind t <> Held ->
  at_page a (t_start t) (end_ok (t_kind t) (t_len t)) /\
  at_page a (t_start t + t_len t - 1) (end_ok (t_kind t) (t_len t)).

Record wf (c : cpu_pages) (ts : list tile) : Prop := {
  wf_nr : 0 < nr_pages c < 2 ^ 32;
  wf_spans : length (free_spans c) = nr_span_lists;
  wf_dom : forall i, 0 <= i <= nr_pages c -> is_Some (ary c !! i);
  wf_first : at_page (ary c) 0 (fun p => p_free p = false);
  wf_last : at_page (ary c) (nr_pages c) (fun p => p_free p = false);
  wf_cont : contiguous 1 ts (nr_pages c);
  wf_tiles : forall t, t ∈ ts -> tile_ok (ary c) t;
  wf_lists : forall idx pl, free_spans c !! idx = Some pl ->
    exists l, is_list (ary c) pl l /\
      forall s, s ∈ l <-> exists n, Tile s n Free ∈ ts /\ Z.to_nat (Z.log2 n) = idx
}.

Definition acct (c : cpu_pages) (ts : list tile) : Prop := nr_free_pages c = free_sum ts.

Definition no_held (ts : list tile) : Prop := forall t, t ∈ ts -> t_kind t <> Held.

Definition inv (c : cpu_pages) (ts : list tile) : Prop :=
  wf c ts /\ acct c ts /\ maximal ts /\ no_held ts.

(** What an operation leaves alone: the geometry, and the pages of runs in use. *)
Definition frame (us : list tile) (c c' : cpu_pages) : Prop :=
  memory c' = memory c /\ nr_pages c' = nr_pages c /\ cpu_id c' = cpu_id c /\
  current_min_free_pages c' = current_min_free_pages c /\
  forall t i, t ∈ us -> covers t i -> ary c' !! i = ary c !! i.

Lemma frame_refl us c : frame us c c.
Proof. by repeat split. Qed.

Lemma frame_trans us c1 c2 c3 : frame us c1 c2 -> frame us c2 c3 -> frame us c1 c3.
Proof.
  intros (A1 & A2 & A3 & A4 & A5) (B1 & B2 & B3 & B4 & B5). repeat split; try congruence.
  intros t i Ht Hi. rewrite (B5 t i), (A5 t i) by done. done.
Qed.

Lemma at_page_imp a i (P Q : page -> Prop) : (forall p, P p -> Q p) -> at_page a i P -> at_page a i Q.
Proof. intros H (p & Hp & HP). exists p. auto. Qed.

(** Conditions that do not look at links survive changes of links. *)
Lemma at_page_links l a a' i (P : page -> Prop) :
  (forall p p', nolink p' = nolink p -> P p -> P p') -> links_only l a a' -> at_page a i P -> at_page a' i P.
Proof.
  intros HP Hl (p & Hp & H). destruct (links_only_some _ _ _ _ _ Hl Hp) as (p' & Hp' & Hn).
  exists p'. split; [done|]. by apply (HP p).
Qed.

Lemma nolink_end_ok k n p p' : nolink p' = nolink p -> end_ok k n p -> end_ok k n p'.
Proof. destruct p, p'. unfold nolink, end_ok. simpl. intros [=]. by subst. Qed.

Lemma nolink_span_size n p p' : nolink p' = nolink p -> span_size p = n -> span_size p' = n.
Proof. destruct p, p'. unfold nolink. simpl. intros [=]. by subst. Qed.

Lemma nolink_free b p p' : nolink p' = nolink p -> p_free p = b -> p_free p' = b.
Proof. destruct p, p'. unfold nolink. simpl. intros [=]. by subst. Qed.

(** A tile met at a page of another tile is that tile. *)
Lemma wf_covers c ts t u i :
  wf c ts -> t ∈ ts -> u ∈ ts -> covers t i -> covers u i -> t = u.
Proof. intros W. apply (contiguous_covers _ _ _ _ _ _ (wf_cont _ _ W)). Qed.

Lemma wf_bounds c ts t : wf c ts -> t ∈ ts -> 1 <= t_start t /\ 0 < t_len t /\ t_start t + t_len t <= nr_pages c.
Proof. intros W. apply (contiguous_in _ _ _ _ (wf_cont _ _ W)). Qed.

Lemma covers_ends t : 0 < t_len t -> covers t (t_start t) /\ covers t (t_start t + t_len t - 1).
Proof. unfold covers. lia. Qed.

Lemma contiguous_middle i t1 s n k k' t2 e :
  contiguous i (t1 ++ Tile s n k :: t2) e -> contiguous i (t1 ++ Tile s n k' :: t2) e.
Proof. rewrite !contiguous_app. cbn [contiguous t_start t_len]. done. Qed.

Lemma wf_nodup c t1 t t2 u : wf c (t1 ++ t :: t2) -> u ∈ t1 ++ t2 -> forall i, covers t i -> ~ covers u i.
Proof.
  intros W Hu i Ht Hi. pose proof (wf_cont _ _ W) as Hc. apply contiguous_app in Hc as (j & H1 & H2).
  cbn [contiguous] in H2. destruct H2 as (Hs & Hl & H2). unfold covers in *.
  apply elem_of_app in Hu as [Hu|Hu].
  - pose proof (contiguous_in _ _ _ _ H1 Hu). lia.
  - pose proof (contiguous_in _ _ _ _ H2 Hu). lia.
Qed.

(** Any page of a held run may be written. *)
Lemma wf_write c t1 s n t2 i p :
  wf c (t1 ++ Tile s n Held :: t2) -> s <= i < s + n ->
  let c' := with_ary (<[i := p]> (ary c)) c in
  wf c' (t1 ++ Tile s n Held :: t2) /\ frame (used t1 ++ used t2) c c'.
Proof.
  intros W Hi c'. pose proof (wf_bounds _ _ (Tile s n Held) W ltac:(set_solver)) as (B1 & B2 & B3). simpl in B1, B2, B3.
  assert (forall t j, t ∈ t1 ++ t2 -> covers t j -> j <> i) as Hne.
  { intros t j Ht Hj ->. apply (wf_nodup _ _ _ _ _ W Ht i); [exact Hi|done]. }
  split; [split; cbn [c' with_ary nr_pages free_spans ary]; try apply W|].
  - intros j Hj. destruct (decide (j = i)) as [->|]; [rewrite lookup_insert_eq; eauto|].
    rewrite lookup_insert_ne by done. by apply W.
  - unfold at_page. rewrite lookup_insert_ne by lia. apply W.
  - unfold at_page. rewrite lookup_insert_ne by lia. apply W.
  - intros t [->|Ht]%elem_of_middle; [by intros []|]. intros Hk.
    pose proof (wf_bounds _ _ t W ltac:(set_solver)) as (_ & Hl & _). destruct (covers_ends t Hl) as [C1 C2].
    unfold at_page. rewrite !lookup_insert_ne by (apply not_eq_sym; eapply Hne; eauto).
    apply (wf_tiles _ _ W); set_solver.
  - intros idx pl Hpl. destruct (wf_lists _ _ W idx pl Hpl) as (l & Hl & Hin). exists l.
    split; [|done]. apply (is_list_frame (ary c)); [|done]. intros j Hj.
    apply Hin in Hj as (m & Hm & _). apply same_links_other.
    apply elem_of_middle in Hm as [|Hm]; [discriminate|]. eapply Hne; [exact Hm|].
    apply (covers_ends (Tile j m Free)). eapply wf_bounds; [exact W|set_solver].
  - repeat split. intros t j Ht Hj. apply lookup_insert_ne. apply not_eq_sym. eapply Hne; [|exact Hj].
    apply elem_of_app in Ht as [Ht|Ht]; apply used_in in Ht as [Ht _]; set_solver.
Qed.

Definition class (n : Z) : nat := Z.to_nat (Z.log2 n).

Lemma znth_class c ts n : wf c ts -> 0 < n < 2 ^ 32 ->
  exists pl, znth (free_spans c) (index_of n) = Some pl /\ free_spans c !! class n = Some pl /\
    Z.to_nat (index_of n) = class n.
Proof.
  intros W Hn. pose proof (log2_bound n Hn). rewrite index_of_log2 by done. unfold znth, class.
  rewrite (proj2 (Z.ltb_ge _ _)) by lia.
  destruct (lookup_lt_is_Some_2 (free_spans c) (Z.to_nat (Z.log2 n))) as [pl Hpl].
  { rewrite (wf_spans _ _ W). unfold nr_span_lists. lia. }
  eauto.
Qed.

(** Moving one run in or out of the list of its class. *)
Lemma wf_relink c t1 s n k k' t2 l a' pl' l' :
  wf c (t1 ++ Tile s n k :: t2) ->
  links_only l (ary c) a' ->
  (forall j, j ∈ l -> j = s \/ exists m, Tile j m Free ∈ t1 ++ t2 /\ class m = class n) ->
  is_list a' pl' l' ->
  (forall j, j ∈ l' <-> exists m, Tile j m Free ∈ t1 ++ Tile s n k' :: t2 /\ class m = class n) ->
  is_used (Tile s n k) = false -> tile_ok a' (Tile s n k') ->
  let c' := with_spans (<[class n := pl']> (free_spans c)) (with_ary a' c) in
  wf c' (t1 ++ Tile s n k' :: t2) /\ frame (used t1 ++ used t2) c c'.
Proof.
  intros W HL Hl Hpl' Hin' Hk Hok c'.
  assert (forall j, j ∈ l -> exists m k0, Tile j m k0 ∈ t1 ++ Tile s n k :: t2 /\ class m = class n /\ is_used (Tile j m k0) = false) as Hl'.
  { intros j [->|(m & Hm & Hc)]%Hl; [exists n, k; set_solver|]. exists m, Free. set_solver. }
  assert (forall t j, t ∈ t1 ++ t2 -> is_used t = true -> covers t j -> j ∉ l) as Hfr.
  { intros t j Ht Hu Hj (m & k0 & Hm & Hc & Hf)%Hl'.
    assert (t = Tile j m k0) as ->; [|congruence].
    apply (wf_covers _ _ _ _ j W); [set_solver|done|done|].
    apply (covers_ends (Tile j m k0)). eapply wf_bounds; eauto. }
  split; [split; cbn [c' with_spans with_ary nr_pages free_spans ary]; try apply W|].
  - rewrite length_insert. apply W.
  - intros i Hi. destruct (wf_dom _ _ W i Hi) as [p Hp].
    destruct (links_only_some _ _ _ _ _ HL Hp) as (p' & Hp' & _). eauto.
  - eapply (at_page_links _ (ary c)); [|exact HL|apply W]. intros; eapply nolink_free; eauto.
  - eapply (at_page_links _ (ary c)); [|exact HL|apply W]. intros; eapply nolink_free; eauto.
  - eapply contiguous_middle. apply W.
  - intros t [->|Ht]%elem_of_middle; [done|]. intros Hh.
    destruct (wf_tiles _ _ W t ltac:(set_solver) Hh) as [E1 E2].
    split; (eapply at_page_links; [|exact HL|eassumption]); apply nolink_end_ok.
  - intros idx pl Hpl. destruct (decide (idx = class n)) as [->|Hne].
    { rewrite list_lookup_insert_eq in Hpl.
      - exists l'. simplify_eq. split; [done|]. exact Hin'.
      - rewrite list_lookup_insert_Some in Hpl. by destruct Hpl as [(_ & _ & ?)|[? _]]. }
    rewrite list_lookup_insert_ne in Hpl by done.
    destruct (wf_lists _ _ W idx pl Hpl) as (l0 & Hl0 & Hin0). exists l0. split.
    + apply (is_list_frame (ary c)); [|done]. intros j Hj. eapply links_only_same_links; [exact HL|].
      intros (m & k0 & Hm & Hc & _)%Hl'. apply Hin0 in Hj as (m' & Hm' & Hc').
      assert (Tile j m k0 = Tile j m' Free) as E; [|injection E as -> ->; unfold class in *; congruence].
      apply (wf_covers _ _ _ _ j W); [done|done| |].
      * apply (covers_ends (Tile j m k0)). eapply wf_bounds; eauto.
      * apply (covers_ends (Tile j m' Free)). eapply wf_bounds; eauto.
    + intros j. rewrite Hin0. apply exist_proper. intros m. unfold class in Hne. rewrite !elem_of_middle.
      split; intros [[E|Hm] Hc]; try (injection E as -> -> _; done); eauto.
  - repeat split. intros t i Ht Hi. apply HL. apply elem_of_app in Ht as [Ht|Ht]; apply used_in in Ht as [Ht Hu];
      (eapply Hfr; [|exact Hu|exact Hi]; set_solver).
Qed.

Lemma wf_unlink c t1 s n t2 :
  wf c (t1 ++ Tile s n Free :: t2) ->
  exists c', unlink c (index_of n) s = Ret c' /\ wf c' (t1 ++ Tile s n Held :: t2) /\
    frame (used t1 ++ used t2) c c' /\ nr_free_pages c' = nr_free_pages c /\
    forall i P, (forall p p', nolink p' = nolink p -> P p -> P p') -> at_page (ary c) i P -> at_page (ary c') i P.
Proof.
  intros W. pose proof (wf_bounds _ _ (Tile s n Free) W ltac:(set_solver)) as (B1 & B2 & B3). simpl in B1, B2, B3.
  pose proof (wf_nr _ _ W) as Hnr.
  destruct (znth_class _ _ n W ltac:(lia)) as (pl & Hz & Hpl & Hidx).
  destruct (wf_lists _ _ W _ _ Hpl) as (l & Hl & Hin).
  assert (s ∈ l) as (l1 & l2 & ->)%list_elem_of_split by (apply Hin; exists n; set_solver).
  destruct (erase_spec _ _ _ _ _ Hl) as (a' & pl' & He & Hl' & HL & _).
  unfold unlink. rewrite Hz. cbn [derefO bindO]. rewrite He. cbn [bindO]. rewrite Hidx.
  assert (forall m, Tile s m Free ∈ t1 ++ t2 -> False) as Hs.
  { intros m Hm. apply (wf_nodup _ _ _ _ _ W Hm s); [unfold covers; simpl; lia|].
    apply (covers_ends (Tile s m Free)). eapply wf_bounds; [exact W|set_solver]. }
  destruct (wf_relink c t1 s n Free Held t2 (l1 ++ s :: l2) a' pl' (l1 ++ l2) W HL) as [W' HF]; [|done| |done|by intros []|].
  - intros j (m & Hm & Hc)%Hin. apply elem_of_middle in Hm as [[= <- ->]|Hm]; [by left|]. right. eauto.
  - intros j. rewrite (NoDup_middle _ _ _ _ (proj2 Hl)), Hin. split.
    + intros [Hne (m & [[= -> ->]|Hm]%elem_of_middle & Hc)]; [done|]. exists m. split; [|done].
      apply elem_of_middle. by right.
    + intros (m & [|Hm]%elem_of_middle & Hc); [discriminate|]. split; [intros ->; by eapply Hs|].
      exists m. split; [|done]. apply elem_of_middle. by right.
  - eexists. split; [reflexivity|]. split; [exact W'|]. split; [exact HF|]. split; [done|].
    intros i P HP. eapply at_page_links; [exact HP|exact HL].
Qed.

Lemma wf_link c t1 s n t2 :
  wf c (t1 ++ Tile s n Held :: t2) ->
  at_page (ary c) s (end_ok Free n) -> at_page (ary c) (s + n - 1) (end_ok Free n) ->
  exists c', link c (index_of n) s = Ret c' /\ wf c' (t1 ++ Tile s n Free :: t2) /\
    frame (used t1 ++ used t2) c c' /\ nr_free_pages c' = nr_free_pages c.
Proof.
  intros W E1 E2. pose proof (wf_bounds _ _ (Tile s n Held) W ltac:(set_solver)) as (B1 & B2 & B3). simpl in B1, B2, B3.
  pose proof (wf_nr _ _ W) as Hnr.
  destruct (znth_class _ _ n W ltac:(lia)) as (pl & Hz & Hpl & Hidx).
  destruct (wf_lists _ _ W _ _ Hpl) as (l & Hl & Hin).
  assert (forall m, Tile s m Free ∈ t1 ++ t2 -> False) as Hs.
  { intros m Hm. apply (wf_nodup _ _ _ _ _ W Hm s); [unfold covers; simpl; lia|].
    apply (covers_ends (Tile s m Free)). eapply wf_bounds; [exact W|set_solver]. }
  assert (s ∉ l) as Hsl.
  { intros (m & [|Hm]%elem_of_middle & _)%Hin; [discriminate|]. by eapply Hs. }
  destruct (push_front_spec (ary c) pl l s Hl Hsl ltac:(lia)) as (a' & pl' & He & Hl' & HL).
  { apply (wf_dom _ _ W). lia. }
  unfold link. rewrite Hz. cbn [derefO bindO]. rewrite He. cbn [bindO]. rewrite Hidx.
  destruct (wf_relink c t1 s n Held Free t2 (s :: l) a' pl' (s :: l) W HL) as [W' HF]; [|done| |done| |].
  - intros j [->|(m & [|Hm]%elem_of_middle & Hc)%Hin]%elem_of_cons; [by left|discriminate|]. right. eauto.
  - intros j. rewrite elem_of_cons, Hin. split.
    + intros [->|(m & [|Hm]%elem_of_middle & Hc)]; [exists n; set_solver|discriminate|].
      exists m. split; [|done]. apply elem_of_middle. by right.
    + intros (m & [[= -> ->]|Hm]%elem_of_middle & Hc); [by left|]. right. exists m. split; [|done].
      apply elem_of_middle. by right.
  - intros _. simpl. split; (eapply at_page_links; [|exact HL|eassumption]); apply nolink_end_ok.
  - eexists. split; [reflexivity|]. split; [exact W'|]. by split.
Qed.

(** Giving a held run a meaning, or taking it away, when it is in no list. *)
Lemma wf_retag c t1 s n k k' t2 :
  k <> Free -> k' <> Free -> tile_ok (ary c) (Tile s n k') ->
  wf c (t1 ++ Tile s n k :: t2) -> wf c (t1 ++ Tile s n k' :: t2).
Proof.
  intros Hk Hk' Hok W. split; try apply W.
  - eapply contiguous_middle. apply W.
  - intros t [->|Ht]%elem_of_middle; [done|]. apply (wf_tiles _ _ W). apply elem_of_middle. by right.
  - intros idx pl Hpl. destruct (wf_lists _ _ W idx pl Hpl) as (l & Hl & Hin). exists l. split; [done|].
    intros j. rewrite Hin. apply exist_proper. intros m. rewrite !elem_of_middle.
    split; intros [[E|Hm] Hc]; try (injection E as -> -> <-; done); eauto.
Qed.

Lemma wf_hold c t1 s n k t2 :
  k <> Free -> wf c (t1 ++ Tile s n k :: t2) -> wf c (t1 ++ Tile s n Held :: t2).
Proof. intros Hk. apply wf_retag; [done|done|by intros []]. Qed.

(** Neighbouring held runs are one held run. *)
Lemma wf_join c t1 s n m t2 :
  0 < n -> 0 < m ->
  wf c (t1 ++ Tile s n Held :: Tile (s + n) m Held :: t2) <-> wf c (t1 ++ Tile s (n + m) Held :: t2).
Proof.
  intros Hn Hm. split; intros W; split; try apply W.
  - pose proof (wf_cont _ _ W) as Hc. rewrite contiguous_app in *. cbn [contiguous t_start t_len] in *.
    destruct Hc as (j & H1 & -> & _ & _ & _ & H2). exists j. rewrite Z.add_assoc. repeat split; [done|lia|done].
  - intros t [->|Ht]%elem_of_middle; [by intros []|]. apply (wf_tiles _ _ W). set_solver.
  - intros idx pl Hpl. destruct (wf_lists _ _ W idx pl Hpl) as (l & Hl & Hin). exists l. split; [done|].
    intros j. rewrite Hin. apply exist_proper. intros p. set_solver.
  - pose proof (wf_cont _ _ W) as Hc. rewrite contiguous_app in *. cbn [contiguous t_start t_len] in *.
    destruct Hc as (j & H1 & -> & _ & H2). exists j. rewrite Z.add_assoc in H2. repeat split; done.
  - intros t [->|[->|Ht]%elem_of_middle]%(elem_of_middle t1 (Tile (s + n) m Held :: t2)); [by intros []|by intros []|].
    apply (wf_tiles _ _ W). set_solver.
  - intros idx pl Hpl. destruct (wf_lists _ _ W idx pl Hpl) as (l & Hl & Hin). exists l. split; [done|].
    intros j. rewrite Hin. apply exist_proper. intros p. set_solver.
Qed.

(** ** The operations *)

(** Writing a field of the first and the last page of a held run. *)
Lemma wf_set_ends c t1 s n t2 f (P Q : page -> Prop) :
  wf c (t1 ++ Tile s n Held :: t2) ->
  at_page (ary c) s P -> at_page (ary c) (s + n - 1) P ->
  (forall p, P p -> Q (f p)) -> (forall p, Q p -> Q (f p)) ->
  exists c', set_ends c s (s + n - 1) f = Ret c' /\ wf c' (t1 ++ Tile s n Held :: t2) /\
    frame (used t1 ++ used t2) c c' /\ nr_free_pages c' = nr_free_pages c /\
    at_page (ary c') s Q /\ at_page (ary c') (s + n - 1) Q.
Proof.
  intros W (ps & Hs & HPs) (pe & He & HPe) HPQ HQQ.
  pose proof (wf_bounds _ _ (Tile s n Held) W ltac:(set_solver)) as (B1 & B2 & B3). simpl in B1, B2, B3.
  unfold set_ends. rewrite (upd_some _ _ pe) by done. cbn [bindO].
  destruct (wf_write _ _ _ _ _ (s + n - 1) (f pe) W ltac:(lia)) as [W1 F1].
  destruct (decide (s = s + n - 1)) as [E|E].
  - rewrite <- E in *. rewrite (upd_some _ _ (f pe)) by apply lookup_insert_eq. cbn [bindO].
    destruct (wf_write _ _ _ _ _ s (f (f pe)) W1 ltac:(lia)) as [W2 F2]. cbn [ary with_ary] in *.
    eexists. split; [reflexivity|]. split; [exact W2|]. split; [by eapply frame_trans|]. split; [done|].
    cbn [ary with_ary]. split; exists (f (f pe)); rewrite lookup_insert_eq; auto.
  - rewrite (upd_some _ _ ps) by (by rewrite lookup_insert_ne). cbn [bindO].
    destruct (wf_write _ _ _ _ _ s (f ps) W1 ltac:(lia)) as [W2 F2]. cbn [ary with_ary] in *.
    eexists. split; [reflexivity|]. split; [exact W2|]. split; [by eapply frame_trans|]. split; [done|].
    cbn [ary with_ary]. split; [exists (f ps); rewrite lookup_insert_eq; auto|].
    exists (f pe). rewrite lookup_insert_ne, lookup_insert_eq by done. auto.
Qed.

Lemma wf_at_page c ts i : wf c ts -> 0 <= i <= nr_pages c -> at_page (ary c) i (fun _ => True).
Proof. intros W Hi. destruct (wf_dom _ _ W i Hi) as [p Hp]. by exists p. Qed.

Lemma wf_with_nr_free c ts n : wf c ts -> wf (with_nr_free n c) ts.
Proof. intros W. split; apply W. Qed.

Lemma free_sum_wf c ts : wf c ts -> 0 <= free_sum ts < 2 ^ 32.
Proof. intros W. pose proof (free_sum_bound _ _ _ (wf_cont _ _ W)). pose proof (wf_nr _ _ W). lia. Qed.

Lemma free_sum_mid t1 t t2 :
  free_sum (t1 ++ t :: t2) = free_sum (t1 ++ t2) + (if is_free t then t_len t else 0).
Proof. rewrite !free_sum_app. unfold free_sum. simpl. lia. Qed.

Lemma free_span_no_merge_spec c t1 s n t2 :
  wf c (t1 ++ Tile s n Held :: t2) -> nr_free_pages c = free_sum (t1 ++ t2) ->
  exists c', free_span_no_merge c s n = Ret c' /\ wf c' (t1 ++ Tile s n Free :: t2) /\
    frame (used t1 ++ used t2) c c' /\ acct c' (t1 ++ Tile s n Free :: t2).
Proof.
  intros W Ha. pose proof (wf_bounds _ _ (Tile s n Held) W ltac:(set_solver)) as (B1 & B2 & B3). simpl in B1, B2, B3.
  pose proof (wf_nr _ _ W) as Hnr. unfold free_span_no_merge.
  rewrite (proj2 (Z.eqb_neq n 0)) by lia. cbn [negb assertO].
  rewrite (u32_id (s + n - 1)) by lia.
  set (c0 := with_nr_free _ c). pose proof (wf_with_nr_free _ _ (u32 (nr_free_pages c + n)) W) as W0. fold c0 in W0.
  destruct (wf_set_ends c0 t1 s n t2 (set_free true) (fun _ => True) (fun p => p_free p = true) W0)
    as (c1 & -> & W1 & F1 & N1 & A1 & A1'); [eapply wf_at_page; [exact W0|simpl; lia]..|done|done|].
  cbn [bindO].
  destruct (wf_set_ends c1 t1 s n t2 (set_span_size n) (fun p => p_free p = true) (end_ok Free n) W1)
    as (c2 & -> & W2 & F2 & N2 & A2 & A2'); [done|done|by intros p Hp; split|by intros p [Hp _]; split|].
  cbn [bindO].
  destruct (wf_link c2 t1 s n t2 W2 A2 A2') as (c3 & -> & W3 & F3 & N3).
  exists c3. split; [done|]. split; [exact W3|]. split.
  - eapply frame_trans; [|exact F3]. by eapply frame_trans.
  - pose proof (free_sum_wf _ _ W3) as Hf. unfold acct. rewrite N3, N2, N1, free_sum_mid in *.
    change (is_free (Tile s n Free)) with true in *. cbn [c0 with_nr_free nr_free_pages t_len] in *.
    rewrite Ha. by apply u32_id.
Qed.

Lemma at_page_det a i (P Q : page -> Prop) p : at_page a i P -> a !! i = Some p -> P p.
Proof. intros (p' & Hp' & H) Hp. by simplify_eq. Qed.

(** What [free_span] sees just before and just after a run. *)
Lemma wf_before c t1 t t2 :
  wf c (t1 ++ t :: t2) -> no_held t1 ->
  exists p, ary c !! (t_start t - 1) = Some p /\
    ((p_free p = true /\ exists t1' b, t1 = t1' ++ [Tile (t_start t - b) b Free] /\ span_size p = b /\ 0 < b) \/
     (p_free p = false /\ forall t1' u, t1 = t1' ++ [u] -> is_free u = false)).
Proof.
  intros W Hh. pose proof (wf_cont _ _ W) as Hc. apply contiguous_app in Hc as (j & H1 & H2).
  cbn [contiguous] in H2. destruct H2 as (-> & Hl & H2).
  destruct t1 as [|u t1 _] using rev_ind.
  - cbn [contiguous] in H1. subst j. destruct (wf_first _ _ W) as (p & Hp & Hf). exists p.
    split; [done|]. right. split; [done|]. intros t1' u E. by destruct t1'.
  - apply contiguous_app in H1 as (i & H1 & Hs & Hlu & Hj). cbn [contiguous] in Hj.
    destruct (wf_tiles _ _ W u ltac:(set_solver) (Hh u ltac:(set_solver))) as [_ (p & Hp & Hf & Hsz)].
    exists p. replace (t_start u + t_len u - 1) with (j - 1) in Hp by lia. split; [done|].
    destruct u as [su lu ku]; simpl in *. subst su. destruct (decide (ku = Free)) as [->|Hk].
    + left. rewrite bool_decide_true in Hf by done. split; [done|]. exists t1, lu.
      split; [do 2 f_equal; f_equal; lia|]. split; [by apply Hsz|done].
    + right. rewrite bool_decide_false in Hf by done. split; [done|]. intros t1' u E.
      apply app_inj_tail in E as [_ <-]. unfold is_free. by rewrite bool_decide_false.
Qed.

Lemma wf_after c t1 t t2 :
  wf c (t1 ++ t :: t2) -> no_held t2 ->
  exists p, ary c !! (t_start t + t_len t) = Some p /\
    ((p_free p = true /\ exists t2' a, t2 = Tile (t_start t + t_len t) a Free :: t2' /\ span_size p = a /\ 0 < a) \/
     (p_free p = false /\ forall t2' u, t2 = u :: t2' -> is_free u = false)).
Proof.
  intros W Hh. pose proof (wf_cont _ _ W) as Hc. apply contiguous_app in Hc as (j & H1 & H2).
  cbn [contiguous] in H2. destruct H2 as (-> & Hl & H2). destruct t2 as [|u t2]; cbn [contiguous] in H2.
  - destruct (wf_last _ _ W) as (p & Hp & Hf). exists p. rewrite H2. split; [done|]. by right.
  - destruct H2 as (Hs & Hlu & _).
    destruct (wf_tiles _ _ W u ltac:(set_solver) (Hh u ltac:(set_solver))) as [(p & Hp & Hf & Hsz) _].
    exists p. rewrite Hs in Hp. split; [done|]. destruct u as [su lu ku]; simpl in *. subst su.
    destruct (decide (ku = Free)) as [->|Hk].
    + left. rewrite bool_decide_true in Hf by done. split; [done|]. exists t2, lu.
      split; [done|]. split; [by apply Hsz|done].
    + right. rewrite bool_decide_false in Hf by done. split; [done|]. intros t2' u [= <- _].
      unfold is_free. by rewrite bool_decide_false.
Qed.

Lemma free_free s n : is_free (Tile s n Free) = true.
Proof. reflexivity. Qed.

Lemma free_used s n : is_free (Tile s n Used) = false.
Proof. reflexivity. Qed.

Lemma used_free t1 s n : used (t1 ++ [Tile s n Free]) = used t1.
Proof. rewrite used_app. apply app_nil_r. Qed.

Lemma no_held_app t1 t2 : no_held (t1 ++ t2) <-> no_held t1 /\ no_held t2.
Proof. unfold no_held. setoid_rewrite elem_of_app. naive_solver. Qed.

Lemma merge_before_spec c t1 s n t2 :
  wf c (t1 ++ Tile s n Held :: t2) -> no_held t1 -> maximal t1 ->
  nr_free_pages c = free_sum (t1 ++ t2) ->
  exists c' t1' s' n', merge_before c s n = Ret (c', s', n') /\
    wf c' (t1' ++ Tile s' n' Held :: t2) /\ frame (used t1 ++ used t2) c c' /\
    nr_free_pages c' = free_sum (t1' ++ t2) /\ free_sum t1' + n' = free_sum t1 + n /\
    used t1' = used t1 /\ no_held t1' /\ maximal t1' /\
    (forall l u, t1' = l ++ [u] -> is_free u = false).
Proof.
  intros W Hh Hm Ha. pose proof (wf_bounds _ _ (Tile s n Held) W ltac:(set_solver)) as (B1 & B2 & B3). simpl in B1, B2, B3.
  pose proof (wf_nr _ _ W) as Hnr. unfold merge_before. rewrite (u32_id (s - 1)) by lia.
  destruct (wf_before _ _ _ _ W Hh) as (p & Hp & [(Hf & t1' & b & -> & Hb & Hb0)|(Hf & Hl)]); simpl in Hp;
    rewrite Hp; cbn [derefO bindO]; rewrite Hf.
  2:{ exists c, t1, s, n. repeat (split; [by try apply frame_refl|]). exact Hl. }
  simpl t_start in *. rewrite Hb, (proj2 (Z.eqb_neq b 0)) by lia. cbn [negb assertO].
  replace (s - 1 - (b - 1)) with (s - b) by lia. rewrite <- app_assoc in W. simpl in W.
  pose proof (wf_bounds _ _ (Tile (s - b) b Free) W ltac:(set_solver)) as (B4 & _ & _). simpl in B4.
  set (c0 := with_nr_free _ c).
  destruct (wf_unlink c0 t1' (s - b) b (Tile s n Held :: t2) (wf_with_nr_free _ _ _ W))
    as (c1 & -> & W1 & F1 & N1 & _). cbn [bindO].
  rewrite (u32_id (s - b)), (u32_id (n + b)) by lia.
  replace s with (s - b + b) in W1 at 2 by lia. apply wf_join in W1; [|lia..].
  rewrite (Z.add_comm b n) in W1. apply no_held_app in Hh as [Hh _].
  pose proof (maximal_app_inv _ _ Hm) as [Hm' _].
  exists c1, t1', (s - b), (n + b). split; [done|]. split; [exact W1|].
  rewrite used_free. split; [exact F1|].
  pose proof (free_sum_wf _ _ W1) as Hs. rewrite !free_sum_app in *. unfold free_sum in *.
  simpl in *. unfold is_free in *. simpl in *. split; [|split; [lia|]].
  - rewrite N1. cbn [c0 with_nr_free nr_free_pages]. rewrite Ha, u32_id; lia.
  - split; [done|]. split; [done|]. split; [done|]. intros l u ->. rewrite <- app_assoc in Hm.
    apply maximal_app in Hm as [_ Hm]. simpl in Hm. unfold is_free in *. simpl in Hm.
    destruct (bool_decide (t_kind u = Free)); [|done]. tauto.
Qed.

Lemma merge_after_spec c t1 s n t2 :
  wf c (t1 ++ Tile s n Held :: t2) -> no_held t2 -> maximal t2 ->
  nr_free_pages c = free_sum (t1 ++ t2) ->
  exists c' t2' n', merge_after c s n = Ret (c', n') /\
    wf c' (t1 ++ Tile s n' Held :: t2') /\ frame (used t1 ++ used t2) c c' /\
    nr_free_pages c' = free_sum (t1 ++ t2') /\ free_sum t2' + n' = free_sum t2 + n /\
    used t2' = used t2 /\ no_held t2' /\ maximal t2' /\
    (forall l u, t2' = u :: l -> is_free u = false).
Proof.
  intros W Hh Hm Ha. pose proof (wf_bounds _ _ (Tile s n Held) W ltac:(set_solver)) as (B1 & B2 & B3). simpl in B1, B2, B3.
  pose proof (wf_nr _ _ W) as Hnr. unfold merge_after. rewrite (u32_id (s + n)) by lia.
  destruct (wf_after _ _ _ _ W Hh) as (p & Hp & [(Hf & t2' & a & -> & Hb & Hb0)|(Hf & Hl)]); simpl in Hp;
    rewrite Hp; cbn [derefO bindO]; rewrite Hf.
  2:{ exists c, t2, n. repeat (split; [by try apply frame_refl|]). exact Hl. }
  simpl t_start in *. simpl t_len in *. rewrite Hb, (proj2 (Z.eqb_neq a 0)) by lia. cbn [negb assertO].
  pose proof (wf_bounds _ _ (Tile (s + n) a Free) W ltac:(set_solver)) as (_ & _ & B4). simpl in B4.
  set (c0 := with_nr_free _ c).
  pose proof (wf_with_nr_free _ _ (u32 (nr_free_pages c - a)) W) as W0. fold c0 in W0.
  rewrite (cons_middle (Tile s n Held)), app_assoc in W0.
  destruct (wf_unlink c0 (t1 ++ [Tile s n Held]) (s + n) a t2' W0) as (c1 & -> & W1 & F1 & N1 & _).
  cbn [bindO]. rewrite (u32_id (n + a)) by lia. rewrite <- app_assoc in W1. simpl in W1.
  apply wf_join in W1; [|lia..]. apply no_held_app with (t1 := [_]) in Hh as [_ Hh].
  exists c1, t2', (n + a). split; [done|]. split; [exact W1|].
  assert (used (Tile (s + n) a Free :: t2') = used t2') as Hu by done. rewrite Hu.
  rewrite used_app, <- app_assoc in F1. split; [exact F1|].
  pose proof (free_sum_wf _ _ W1) as Hs. rewrite !free_sum_app in *. unfold free_sum in *.
  simpl in *. unfold is_free in *. simpl in *. split; [|split; [lia|]].
  - rewrite N1. cbn [c0 with_nr_free nr_free_pages]. rewrite Ha, u32_id; lia.
  - split; [done|]. split; [done|]. destruct Hm as [Hm Hm']. split; [done|]. intros l u ->. unfold is_free in *.
    destruct (bool_decide (t_kind u = Free)); [|done]. tauto.
Qed.

(** A free run next to none is maximal. *)
Lemma maximal_free t1 t t2 :
  maximal t1 -> maximal t2 ->
  (forall l u, t1 = l ++ [u] -> is_free u = false) -> (forall l u, t2 = u :: l -> is_free u = false) ->
  maximal (t1 ++ t :: t2).
Proof.
  intros H1 H2 L1 L2. apply maximal_app. split.
  - destruct t1 as [|u t1 _] using rev_ind; [done|]. rewrite <- app_assoc. simpl. apply maximal_app.
    split; [done|]. simpl. rewrite (L1 t1 u) by done. split; [by intros []|done].
  - cbn [maximal]. split; [|done]. destruct t2 as [|u t2]; [done|]. rewrite (L2 t2 u) by done. by intros [].
Qed.

(** Freeing a run coalesces it with the free runs around it. *)
Lemma free_span_spec c t1 s n t2 :
  wf c (t1 ++ Tile s n Held :: t2) -> no_held t1 -> no_held t2 -> maximal t1 -> maximal t2 ->
  nr_free_pages c = free_sum (t1 ++ t2) ->
  exists c' ts', free_span c s n = Ret c' /\ inv c' ts' /\ used ts' = used t1 ++ used t2 /\
    frame (used t1 ++ used t2) c c' /\ free_sum ts' = free_sum (t1 ++ t2) + n.
Proof.
  intros W H1 H2 M1 M2 Ha. unfold free_span.
  destruct (merge_before_spec c t1 s n t2 W H1 M1 Ha)
    as (c1 & u1 & s1 & n1 & -> & W1 & F1 & N1 & E1 & U1 & Hh1 & Mu1 & L1). cbn [bindO].
  destruct (merge_after_spec c1 u1 s1 n1 t2 W1 H2 M2 N1)
    as (c2 & u2 & n2 & -> & W2 & F2 & N2 & E2 & U2 & Hh2 & Mu2 & L2). cbn [bindO].
  destruct (free_span_no_merge_spec c2 u1 s1 n2 u2 W2 N2) as (c3 & -> & W3 & F3 & N3).
  exists c3, (u1 ++ Tile s1 n2 Free :: u2). rewrite U1, U2 in *. split; [done|]. split; [|split; [|split]].
  - split; [done|]. split; [done|]. split; [by apply maximal_free|].
    intros t [->|Ht]%elem_of_middle; [done|]. apply elem_of_app in Ht as [Ht|Ht]; auto.
  - rewrite used_app, used_cons. simpl. by rewrite U1, U2.
  - eapply frame_trans; [|exact F3]. by eapply frame_trans.
  - rewrite free_sum_mid, free_free, !free_sum_app in *. simpl. lia.
Qed.

(** ** Finding a span *)

Lemma skip_empty_spec ls idx :
  let j := skip_empty ls idx in
  idx <= j <= idx + zlen ls /\
  (forall k pl, 0 <= k < j - idx -> ls !! Z.to_nat k = Some pl -> empty pl = true) /\
  (j < idx + zlen ls -> exists pl, ls !! Z.to_nat (j - idx) = Some pl /\ empty pl = false).
Proof.
  revert idx. induction ls as [|l ls IH]; intros idx; cbn [skip_empty]; [unfold zlen; simpl; split; [lia|split; lia]|].
  rewrite zlen_cons. pose proof (zlen_nonneg ls). destruct (empty l) eqn:E.
  - destruct (IH (idx + 1)) as (H1 & H2 & H3). cbv zeta. set (j := skip_empty _ _) in *. clearbody j.
    split; [lia|]. split.
    + intros k pl Hk. destruct (decide (k = 0)) as [->|]; [simpl; congruence|].
      replace (Z.to_nat k) with (S (Z.to_nat (k - 1))) by lia. simpl. apply H2. lia.
    + intros Hj. destruct H3 as (pl & Hpl & He); [lia|]. exists pl.
      by replace (Z.to_nat (j - idx)) with (S (Z.to_nat (j - (idx + 1)))) by lia.
  - cbv zeta. split; [lia|]. split; [intros; lia|]. intros _. exists l. by rewrite Z.sub_diag.
Qed.

(** The search result [r] for [n] pages among the free runs of the classes [P]. *)
Definition found (c : cpu_pages) (ts : list tile) (n : Z) (P : nat -> Prop) (c' : cpu_pages) (r : option Z) : Prop :=
  match r with
  | None => c' = c /\ forall s m, Tile s m Free ∈ ts -> P (class m) -> m < n
  | Some s =>
      exists t1 m t2, ts = t1 ++ Tile s m Free :: t2 /\ n <= m /\
        wf c' (t1 ++ Tile s m Held :: t2) /\ frame (used t1 ++ used t2) c c' /\
        nr_free_pages c' = nr_free_pages c /\ at_page (ary c') s (fun p => span_size p = m)
  end.

Lemma class_list c ts idx : wf c ts -> 0 <= idx < 32 ->
  exists pl l, znth (free_spans c) idx = Some pl /\ free_spans c !! Z.to_nat idx = Some pl /\
    is_list (ary c) pl l /\
    forall s, s ∈ l <-> exists m, Tile s m Free ∈ ts /\ class m = Z.to_nat idx.
Proof.
  intros W Hi. destruct (lookup_lt_is_Some_2 (free_spans c) (Z.to_nat idx)) as [pl Hpl].
  { rewrite (wf_spans _ _ W). unfold nr_span_lists. lia. }
  destruct (wf_lists _ _ W _ _ Hpl) as (l & Hl & Hin). exists pl, l. unfold znth.
  rewrite (proj2 (Z.ltb_ge _ _)) by lia. done.
Qed.

Lemma free_size c ts s m : wf c ts -> Tile s m Free ∈ ts ->
  0 < m < 2 ^ 32 /\ exists p, ary c !! s = Some p /\ p_free p = true /\ span_size p = m.
Proof.
  intros W Ht. destruct (wf_bounds _ _ _ W Ht) as (B1 & B2 & B3). simpl in *. pose proof (wf_nr _ _ W).
  split; [lia|]. destruct (wf_tiles _ _ W _ Ht) as [(p & Hp & Hf & Hs) _]; [done|]. exists p. simpl in *.
  split; [done|]. split; [done|]. by apply Hs.
Qed.

Lemma find_and_unlink_in_spec c ts idx n :
  wf c ts -> 0 <= idx < 32 ->
  exists c' r, find_and_unlink_in c idx n = Ret (c', r) /\ found c ts n (fun k => k = Z.to_nat idx) c' r.
Proof.
  intros W Hi. destruct (class_list c ts idx W Hi) as (pl & l & Hz & Hpl & Hl & Hin).
  unfold find_and_unlink_in. rewrite Hz. cbn [derefO bindO]. rewrite (page_find_spec _ _ _ _ Hl). cbn [bindO].
  destruct (List.find (fits (ary c) n) l) as [s|] eqn:E.
  - apply List.find_some in E as [Hs Hfit]. apply list_elem_of_In, Hin in Hs as (m & Hm & Hc).
    destruct (free_size _ _ _ _ W Hm) as (Hb & p & Hp & Hf & Hsz).
    unfold fits in Hfit. rewrite Hp, Hsz in Hfit. zbool.
    apply list_elem_of_split in Hm as (t1 & t2 & ->).
    assert (idx = index_of m) as ->.
    { rewrite index_of_log2 by done. unfold class in Hc. pose proof (log2_bound m Hb). lia. }
    destruct (wf_unlink _ _ _ _ _ W) as (c' & -> & W' & F' & N' & L'). cbn [bindO].
    exists c', (Some s). split; [done|]. exists t1, m, t2. repeat (split; [done|]).
    apply L'; [|exists p; done]. intros q q' Hq. by apply nolink_span_size.
  - exists c, None. split; [done|]. split; [done|]. intros s m Hm Hc.
    destruct (free_size _ _ _ _ W Hm) as (Hb & p & Hp & Hf & Hsz).
    assert (In s l) as Hs by (apply list_elem_of_In, Hin; eauto).
    pose proof (List.find_none _ _ E s Hs) as Hfit. unfold fits in Hfit. rewrite Hp, Hsz in Hfit. zbool. lia.
Qed.

Lemma log2_up_pow n : 0 < n -> n <= 2 ^ Z.log2_up n.
Proof. intros. destruct (decide (n = 1)) as [->|]; [done|]. apply Z.log2_up_spec. lia. Qed.

(** No list at or above [orig] holds a run when the scan reaches the end. *)
Lemma skip_empty_end c ts orig s m :
  wf c ts -> 0 <= orig <= 32 -> skip_empty (zdrop orig (free_spans c)) orig = 32 ->
  Tile s m Free ∈ ts -> Z.log2 m < orig.
Proof.
  intros W Ho Hskip Hm. destruct (free_size _ _ _ _ W Hm) as (Hb & _).
  destruct (Z.lt_ge_cases (Z.log2 m) orig) as [|Hge]; [done|exfalso].
  pose proof (log2_bound m Hb). destruct (class_list c ts (Z.log2 m) W) as (pl & l & _ & Hpl & Hl & Hin); [lia|].
  destruct (skip_empty_spec (zdrop orig (free_spans c)) orig) as (_ & He & _). rewrite Hskip in He.
  specialize (He (Z.log2 m - orig) pl ltac:(lia)). unfold zdrop in He. rewrite lookup_drop in He.
  replace (Z.to_nat orig + Z.to_nat (Z.log2 m - orig))%nat with (Z.to_nat (Z.log2 m)) in He by lia.
  apply He in Hpl. apply (is_list_empty _ _ _ Hl) in Hpl as ->.
  assert (s ∈ []) as Hs by (apply Hin; eauto). by apply elem_of_nil in Hs.
Qed.

Lemma double_pow k : 0 <= k -> Z.shiftl 2 k = 2 ^ (k + 1).
Proof. intros. rewrite Z.shiftl_mul_pow2 by done. rewrite Z.pow_add_r by lia. lia. Qed.

Lemma wf_initialized c ts b i m : wf c ts -> initialize b i m c = Ret (c, false).
Proof.
  intros W. unfold initialize, is_initialized. pose proof (wf_nr _ _ W).
  by rewrite (proj2 (Z.eqb_neq (nr_pages c) 0)) by lia.
Qed.

(** A span is found exactly when some free run is long enough. *)
Lemma find_and_unlink_span_spec b i m c ts n :
  wf c ts -> 0 < n <= 2 ^ 30 ->
  exists c' r, find_and_unlink_span b i m c n = Ret (c', r) /\ found c ts n (fun _ => True) c' r.
Proof.
  intros W Hn. unfold find_and_unlink_span. cbn [find_and_unlink_span_fuel].
  rewrite index_of_conservative_log2, index_of_log2 by lia.
  assert (0 <= Z.log2_up n <= 30) as Ho.
  { split; [apply Z.log2_up_nonneg|]. apply Z.log2_up_le_pow2; lia. }
  set (o := Z.log2_up n) in *. change (Z.of_nat nr_span_lists) with 32.
  rewrite (proj2 (Z.leb_gt 32 o)) by lia.
  rewrite double_pow by lia. pose proof (log2_up_pow n ltac:(lia)) as Hno. fold o in Hno.
  assert (2 ^ o < 2 ^ (o + 1) <= 2 ^ 31) as Hp by (split; [apply Z.pow_lt_mono_r|apply Z.pow_le_mono_r]; lia).
  rewrite u32_id by lia. rewrite (proj2 (Z.leb_gt _ _)) by lia.
  assert (zlen (zdrop o (free_spans c)) = 32 - o) as Hlen.
  { rewrite zlen_drop by lia. unfold zlen. rewrite (wf_spans _ _ W). unfold nr_span_lists. lia. }
  pose proof (skip_empty_end c ts o) as Hend.
  destruct (skip_empty_spec (zdrop o (free_spans c)) o) as (Hj & _ & Hne). rewrite Hlen in *.
  set (j := skip_empty _ o) in *. clearbody j.
  destruct (j =? 32) eqn:Ej; zbool.
  - rewrite (wf_initialized _ ts) by done. cbn [bindO].
    assert (forall s q, Tile s q Free ∈ ts -> Z.log2 q < o) as Hlt by (intros; eapply Hend; eauto; lia).
    destruct (Z.log2 n =? o) eqn:Eo; zbool.
    + exists c, None. split; [done|]. split; [done|]. intros s q Hq _.
      destruct (Z.lt_ge_cases q n) as [|Hge]; [done|]. pose proof (Z.log2_le_mono _ _ Hge). specialize (Hlt _ _ Hq). lia.
    + destruct (find_and_unlink_in_spec c ts (Z.log2 n) n W) as (c' & r & Hr & Hf); [pose proof (log2_bound n ltac:(lia)); lia|].
      exists c', r. split; [done|]. destruct r as [s|]; [exact Hf|]. destruct Hf as [-> Hf]. split; [done|].
      intros s q Hq _. destruct (Z.lt_ge_cases q n) as [|Hge]; [done|]. apply (Hf s q Hq).
      pose proof (Z.log2_le_mono _ _ Hge). specialize (Hlt _ _ Hq). pose proof (Z.le_log2_up_succ_log2 n) as Hs. fold o in Hs. unfold class. f_equal. lia.
  - assert (j < 32) as Hj' by lia.
    destruct (find_and_unlink_in_spec c ts j n W ltac:(lia)) as (c' & r & Hr & Hf).
    exists c', r. split; [done|]. destruct r as [s|]; [exact Hf|exfalso]. destruct Hf as [-> Hf].
    destruct (class_list c ts j W ltac:(lia)) as (pl & l & _ & Hpl & Hl & Hin).
    destruct (Hne ltac:(lia)) as (pl' & Hpl' & He). unfold zdrop in Hpl'. rewrite lookup_drop in Hpl'.
    replace (Z.to_nat o + Z.to_nat (j - o))%nat with (Z.to_nat j) in Hpl' by lia. simplify_eq.
    destruct l as [|s l]; [rewrite (proj2 (is_list_empty _ _ _ Hl) eq_refl) in He; discriminate|].
    destruct (proj1 (Hin s) ltac:(constructor)) as (q & Hq & Hc).
    pose proof (Hf s q Hq Hc). destruct (free_size _ _ _ _ W Hq) as [Hb _]. pose proof (log2_bound q Hb).
    assert (Z.log2 q = j) by (unfold class in Hc; lia).
    pose proof (Z.log2_spec q ltac:(lia)). assert (2 ^ o <= 2 ^ Z.log2 q) by (apply Z.pow_le_mono_r; lia). lia.
Qed.

(** ** Cutting a span *)

Definition gap (s n : Z) : list tile := if n =? 0 then [] else [Tile s n Free].

Lemma gap_0 s : gap s 0 = [].
Proof. reflexivity. Qed.

Lemma gap_pos s n : n <> 0 -> gap s n = [Tile s n Free].
Proof. intros. unfold gap. by rewrite (proj2 (Z.eqb_neq n 0)). Qed.

Lemma used_gap s n : used (gap s n) = [].
Proof. unfold gap. by destruct (n =? 0). Qed.

Lemma free_sum_gap s n : free_sum (gap s n) = n.
Proof.
  unfold gap. destruct (n =? 0) eqn:E; zbool; [by subst|]. unfold free_sum. cbn [zsum]. rewrite free_free. simpl. lia.
Qed.

Lemma no_held_gap s n : no_held (gap s n).
Proof. unfold gap. destruct (n =? 0); intros t Ht; [by apply elem_of_nil in Ht|]. by apply list_elem_of_singleton in Ht as ->. Qed.

Lemma maximal_free_inv t1 t t2 :
  is_free t = true -> maximal (t1 ++ t :: t2) ->
  maximal t1 /\ maximal t2 /\ (forall l u, t1 = l ++ [u] -> is_free u = false) /\
  (forall l u, t2 = u :: l -> is_free u = false).
Proof.
  intros Ht Hm. pose proof (maximal_app_inv _ _ Hm) as [H1 H2]. split; [done|]. split; [by eapply maximal_tail|]. split.
  - intros l u ->. rewrite <- app_assoc in Hm. apply maximal_app in Hm as [_ Hm]. simpl in Hm. rewrite Ht in Hm.
    destruct (is_free u); tauto.
  - intros l u ->. simpl in H2. rewrite Ht in H2. destruct (is_free u); tauto.
Qed.

Lemma maximal_gap_l t1 s n : maximal t1 -> (forall l u, t1 = l ++ [u] -> is_free u = false) -> maximal (t1 ++ gap s n).
Proof.
  intros H L. unfold gap. destruct (n =? 0); [by rewrite app_nil_r|]. by apply maximal_free.
Qed.

Lemma maximal_gap_r t2 s n : maximal t2 -> (forall l u, t2 = u :: l -> is_free u = false) -> maximal (gap s n ++ t2).
Proof.
  intros H L. unfold gap. destruct (n =? 0); [done|]. apply (maximal_free [] _ t2); try done. intros [] u; discriminate.
Qed.

Lemma cut_prefix c t1 s m t2 off :
  wf c (t1 ++ Tile s m Held :: t2) -> nr_free_pages c = free_sum (t1 ++ t2) -> 0 <= off < m ->
  exists c', (if negb (off =? 0)
    then do c <- free_span_no_merge c s off;; Ret (c, s + off, u32 (m - off))
    else Ret (c, s, m)) = Ret (c', s + off, m - off) /\
    wf c' ((t1 ++ gap s off) ++ Tile (s + off) (m - off) Held :: t2) /\
    nr_free_pages c' = free_sum ((t1 ++ gap s off) ++ t2) /\ frame (used t1 ++ used t2) c c'.
Proof.
  intros W Ha Ho. destruct (off =? 0) eqn:E; zbool; simpl.
  - subst. exists c. rewrite Z.add_0_r, Z.sub_0_r, gap_0, app_nil_r. repeat (split; [done|]). apply frame_refl.
  - pose proof (wf_bounds _ _ _ W ltac:(apply elem_of_middle; by left)) as B. simpl in B. pose proof (wf_nr _ _ W).
    replace m with (off + (m - off)) in W by lia. apply wf_join in W; [|lia..].
    destruct (free_span_no_merge_spec c t1 s off _ W) as (c' & -> & W' & F & N).
    { rewrite Ha, !free_sum_app. unfold free_sum. simpl. lia. }
    cbn [bindO]. exists c'. rewrite u32_id by lia. split; [done|]. rewrite gap_pos by done.
    rewrite <- app_assoc. split; [exact W'|]. split; [|exact F].
    rewrite N, !free_sum_app. unfold free_sum. simpl. lia.
Qed.

Lemma cut_suffix c t1 s m t2 n :
  wf c (t1 ++ Tile s m Held :: t2) -> nr_free_pages c = free_sum (t1 ++ t2) -> 0 < n <= m ->
  exists c', (if n <? m then free_span_no_merge c (s + n) (u32 (m - n)) else Ret c) = Ret c' /\
    wf c' (t1 ++ Tile s n Held :: gap (s + n) (m - n) ++ t2) /\
    nr_free_pages c' = free_sum (t1 ++ gap (s + n) (m - n) ++ t2) /\ frame (used t1 ++ used t2) c c'.
Proof.
  intros W Ha Hn. destruct (n <? m) eqn:E; zbool.
  - pose proof (wf_bounds _ _ _ W ltac:(apply elem_of_middle; by left)) as B. simpl in B. pose proof (wf_nr _ _ W).
    replace m with (n + (m - n)) in W by lia. apply wf_join in W; [|lia..].
    rewrite (cons_middle (Tile s n Held)), app_assoc in W.
    destruct (free_span_no_merge_spec c _ _ _ _ W) as (c' & Hc & W' & F & N).
    { rewrite Ha, !free_sum_app. unfold free_sum. simpl. lia. }
    rewrite u32_id by lia. exists c'. split; [exact Hc|]. rewrite gap_pos by lia.
    rewrite <- app_assoc in W', N. split; [exact W'|]. rewrite used_app, <- app_assoc in F. split; [|exact F].
    rewrite N, !free_sum_app. unfold free_sum. simpl. lia.
  - assert (n = m) as -> by lia. exists c. rewrite Z.sub_diag, gap_0. repeat (split; [done|]). apply frame_refl.
Qed.

Lemma mark_used c t1 s n t2 :
  wf c (t1 ++ Tile s n Held :: t2) ->
  exists c', (do c <- set_ends c s (s + n - 1) (set_free false);;
    do c <- set_ends c s (s + n - 1) (set_span_size n);;
    do a <- upd (ary c) s (set_pool None);; Ret (with_ary a c, s)) = Ret (c', s) /\
    wf c' (t1 ++ Tile s n Used :: t2) /\ frame (used t1 ++ used t2) c c' /\
    nr_free_pages c' = nr_free_pages c /\
    at_page (ary c') s (fun p => end_ok Used n p /\ pool p = None).
Proof.
  intros W. pose proof (wf_bounds _ _ _ W ltac:(apply elem_of_middle; by left)) as B. simpl in B.
  destruct (wf_set_ends c t1 s n t2 (set_free false) (fun _ => True) (fun p => p_free p = false) W)
    as (c1 & -> & W1 & F1 & N1 & A1 & A1'); [eapply wf_at_page; [exact W|lia]..|done|done|]. cbn [bindO].
  destruct (wf_set_ends c1 t1 s n t2 (set_span_size n) (fun p => p_free p = false) (end_ok Used n) W1)
    as (c2 & -> & W2 & F2 & N2 & A2 & A2'); [done|done|by intros p Hp; split|by intros p [Hp _]; split|]. cbn [bindO].
  destruct A2 as (p & Hp & Hok). rewrite (upd_some _ _ p) by done. cbn [bindO].
  destruct (wf_write c2 t1 s n t2 s (set_pool None p) W2 ltac:(lia)) as [W3 F3].
  eexists. split; [reflexivity|].
  assert (at_page (<[s:=set_pool None p]> (ary c2)) s (fun p => end_ok Used n p /\ pool p = None)) as A3.
  { eexists. rewrite lookup_insert_eq. done. }
  split; [|split; [by do 2 (eapply frame_trans; [done|])|split; [by rewrite <- N1, <- N2|exact A3]]].
  apply (wf_retag _ _ _ _ Held Used); [done|done| |exact W3]. intros _. simpl. split.
  - eapply at_page_imp; [|exact A3]. tauto.
  - destruct (decide (s + n - 1 = s)) as [->|]; [eapply at_page_imp; [|exact A3]; tauto|].
    unfold at_page. by rewrite lookup_insert_ne by done.
Qed.

(** Cutting [trim_pages] pages out of a span gives back what is left of it. *)
Lemma trim_span_spec c t1 s m t2 tr :
  wf c (t1 ++ Tile s m Held :: t2) -> at_page (ary c) s (fun p => span_size p = m) ->
  nr_free_pages c = free_sum (t1 ++ t2) + m -> no_held (t1 ++ t2) -> maximal (t1 ++ Tile s m Free :: t2) ->
  let off := offset (tr s (nr_pages c)) in
  let n := trim_pages (tr s (nr_pages c)) in
  0 <= off -> 0 < n -> off + n <= m ->
  exists c', trim_span c s tr = Ret (c', s + off) /\
    let ts' := (t1 ++ gap s off) ++ Tile (s + off) n Used :: gap (s + off + n) (m - off - n) ++ t2 in
    inv c' ts' /\ frame (used t1 ++ used t2) c c' /\ nr_free_pages c' = nr_free_pages c - n /\
    at_page (ary c') (s + off) (fun p => pool p = None).
Proof.
  intros W (p & Hp & Hsz) Ha Hh Hm off n Ho Hn Hle. unfold trim_span. rewrite Hp. cbn [derefO bindO]. rewrite Hsz.
  set (c0 := with_nr_free _ c). change (nr_pages c0) with (nr_pages c). fold off. fold n.
  pose proof (wf_with_nr_free _ _ (u32 (nr_free_pages c - m)) W) as W0. fold c0 in W0.
  assert (nr_free_pages c0 = free_sum (t1 ++ t2)) as Ha0.
  { cbn [c0 with_nr_free nr_free_pages]. pose proof (free_sum_wf _ _ W) as B. rewrite free_sum_mid in B.
    change (is_free (Tile s m Held)) with false in B. rewrite Ha, u32_id; lia. }
  destruct (cut_prefix c0 t1 s m t2 off W0 Ha0 ltac:(lia)) as (c1 & -> & W1 & N1 & F1). cbn [bindO].
  destruct (cut_suffix c1 _ (s + off) (m - off) t2 n W1 N1 ltac:(lia)) as (c2 & -> & W2 & N2 & F2). cbn [bindO].
  rewrite used_app, used_gap, app_nil_r in F2.
  destruct (mark_used c2 _ (s + off) n _ W2) as (c3 & Hc3 & W3 & F3 & N3 & A3).
  rewrite Hc3. exists c3. split; [done|]. apply maximal_free_inv in Hm as (M1 & M2 & L1 & L2); [|done].
  rewrite !used_app, !used_gap, app_nil_r in F3. cbn [app] in F3. cbv zeta.
  apply no_held_app in Hh as [Hh1 Hh2]. split; [split; [exact W3|split; [|split]]|split; [|split]].
  - unfold acct. rewrite N3, N2, free_sum_mid, free_used. by rewrite Z.add_0_r.
  - apply maximal_nonfree; [done|by apply maximal_gap_l|by apply maximal_gap_r].
  - intros t [->|Ht]%elem_of_middle; [done|]. rewrite !elem_of_app in Ht.
    destruct Ht as [[Ht|Ht]|[Ht|Ht]]; [by apply Hh1|by eapply no_held_gap|by eapply no_held_gap|by apply Hh2].
  - eapply frame_trans; [|exact F3]. eapply frame_trans; [|exact F2]. exact F1.
  - rewrite N3, N2, Ha, !free_sum_app, !free_sum_gap. lia.
  - eapply at_page_imp; [|exact A3]. by intros q [_ Hq].
Qed.

(** ** Freeing and shrinking by address *)

Definition geometry (c : cpu_pages) : Prop :=
  0 <= memory c /\ memory c + nr_pages c * page_size < 2 ^ 64.

Lemma page_size_eq : page_size = 4096.
Proof. reflexivity. Qed.

Lemma to_page_address c i d : geometry c -> 0 <= i <= nr_pages c -> 0 <= d < page_size -> 
  i < nr_pages c \/ d = 0 -> to_page c (address_of c i + d) = i.
Proof.
  unfold geometry, to_page, address_of. rewrite page_size_eq. intros [G1 G2] Hi Hd Hlt.
  replace (memory c + i * 4096 + d - memory c) with (d + i * 4096) by lia. rewrite u64_id by (unfold_pow2; lia).
  rewrite Z.div_add, (Z.div_small d) by lia. done.
Qed.

Lemma inv_hold c t1 s n k t2 : k <> Free -> k <> Held -> inv c (t1 ++ Tile s n k :: t2) ->
  wf c (t1 ++ Tile s n Held :: t2) /\ no_held t1 /\ no_held t2 /\ maximal t1 /\ maximal t2 /\
  nr_free_pages c = free_sum (t1 ++ t2).
Proof.
  intros Hk Hk' (W & Ha & Hm & Hh). split; [by eapply wf_hold|]. apply no_held_app in Hh as [Hh1 Hh2].
  split; [done|]. split; [intros t Ht; apply Hh2; by constructor|].
  apply maximal_app_inv in Hm as [M1 M2]. split; [done|]. split; [by eapply maximal_tail|].
  rewrite Ha, free_sum_mid. unfold is_free. simpl. rewrite bool_decide_false by done. lia.
Qed.

Lemma used_end c t1 s n t2 : inv c (t1 ++ Tile s n Used :: t2) ->
  at_page (ary c) s (end_ok Used n) /\ 1 <= s /\ 0 < n /\ s + n <= nr_pages c < 2 ^ 32.
Proof.
  intros (W & _). pose proof (wf_bounds _ _ (Tile s n Used) W ltac:(set_solver)) as B. simpl in B.
  destruct (wf_tiles _ _ W (Tile s n Used) ltac:(set_solver)) as [A _]; [done|]. simpl in A.
  pose proof (wf_nr _ _ W). split; [done|lia].
Qed.

Lemma free_large_spec c t1 s n t2 :
  inv c (t1 ++ Tile s n Used :: t2) -> geometry c ->
  exists c' ts', free_large c (address_of c s) = Ret c' /\ inv c' ts' /\ used ts' = used t1 ++ used t2 /\
    frame (used t1 ++ used t2) c c' /\ nr_free_pages c' = nr_free_pages c + n.
Proof.
  intros I G. pose proof (used_end _ _ _ _ _ I) as ((p & Hp & Hf & Hsz) & B).
  destruct (inv_hold _ _ _ _ Used _ ltac:(done) ltac:(done) I) as (W & H1 & H2 & M1 & M2 & Ha).
  unfold free_large. rewrite <- (Z.add_0_r (address_of c s)), to_page_address; [|done|lia|rewrite page_size_eq; lia|by right].
  rewrite u32_id by lia. rewrite Hp. cbn [derefO bindO]. rewrite Hsz by done.
  destruct (free_span_spec c t1 s n t2 W H1 H2 M1 M2 Ha) as (c' & ts' & -> & I' & U' & F' & S').
  exists c', ts'. split; [done|]. split; [done|]. split; [done|]. split; [done|].
  destruct I' as (_ & Ha' & _). unfold acct in Ha'. lia.
Qed.

Lemma align_up_pages x : 0 <= x < 2 ^ 63 -> align_up x page_size / page_size = (x + 4095) / 4096.
Proof.
  intros Hx. unfold align_up. change page_size with (2 ^ 12). rewrite land_lnot_ones by lia.
  rewrite Z.div_mul by lia. unwrap64. f_equal. lia.
Qed.

(** The marks [shrink] leaves on the pages it keeps. *)
Lemma shrink_marks c t1 s n t2 k p :
  wf c (t1 ++ Tile s n Held :: t2) -> 1 <= k < n -> ary c !! s = Some p -> p_free p = false ->
  exists a, (forall K : pages -> outcome cpu_pages,
    (do a <- upd (ary c) s (set_span_size k);;
     do a <- upd a (s + (k - 1)) (set_free false);;
     do a <- upd a (s + (k - 1)) (set_span_size k);; K a) = K a) /\
    wf (with_ary a c) (t1 ++ Tile s k Used :: Tile (s + k) (n - k) Held :: t2) /\
    frame (used t1 ++ used t2) c (with_ary a c).
Proof.
  intros W Hk Hp Hf. replace n with (k + (n - k)) in W by lia. apply wf_join in W; [|lia..].
  pose proof (wf_bounds _ _ _ W ltac:(apply elem_of_middle; by left)) as B. simpl in B.
  pose proof (wf_bounds _ _ (Tile (s + k) (n - k) Held) W ltac:(set_solver)) as B'. simpl in B'.
  destruct (wf_write _ _ _ _ _ s (set_span_size k p) W ltac:(lia)) as [W1 F1].
  destruct (wf_dom _ _ W1 (s + (k - 1))) as [q Hq]; [simpl; lia|]. cbn [ary with_ary] in Hq.
  destruct (wf_write _ _ _ _ _ (s + (k - 1)) (set_free false q) W1 ltac:(lia)) as [W2 F2].
  destruct (wf_write _ _ _ _ _ (s + (k - 1)) (set_span_size k (set_free false q)) W2 ltac:(lia)) as [W3 F3].
  cbn [ary with_ary] in W3. match type of W3 with wf (with_ary ?x _) _ => exists x end.
  split; [|split; [|by do 2 (eapply frame_trans; [eassumption|])]].
  { intros K. rewrite (upd_some _ _ p) by done. cbn [bindO]. rewrite (upd_some _ _ q) by done. cbn [bindO].
    by rewrite (upd_some _ _ (set_free false q)) by apply lookup_insert_eq. }
  apply (wf_retag _ _ _ _ Held Used); [done|done| |exact W3].
  intros _. cbn [with_ary ary t_start t_len t_kind]. split.
  - destruct (decide (s = s + (k - 1))) as [Es|Es].
    + rewrite <- Es in *. rewrite lookup_insert_eq in Hq. simplify_eq. eexists. rewrite lookup_insert_eq. done.
    + exists (set_span_size k p). rewrite !lookup_insert_ne, lookup_insert_eq by done. done.
  - replace (s + k - 1) with (s + (k - 1)) by lia. eexists. rewrite lookup_insert_eq. done.
Qed.

(** [shrink] keeps the first pages of the span and frees the others. *)
Lemma shrink_large_spec c t1 s n t2 new_size :
  inv c (t1 ++ Tile s n Used :: t2) -> geometry c -> 0 < new_size <= n * page_size ->
  let k := (new_size + 4095) / 4096 in
  exists c' ts', shrink_large c (address_of c s) new_size = Ret c' /\ inv c' ts' /\
    used ts' = used t1 ++ Tile s k Used :: used t2 /\ frame (used t1 ++ used t2) c c' /\
    nr_free_pages c' = nr_free_pages c + (n - k).
Proof.
  intros I G Hsz k. pose proof (used_end _ _ _ _ _ I) as ((p & Hp & Hf & Hn) & B). specialize (Hn ltac:(done)).
  unfold shrink_large. rewrite <- (Z.add_0_r (address_of c s)), to_page_address; [|done|lia|rewrite page_size_eq; lia|by right].
  rewrite Hp. cbn [derefO bindO]. rewrite Hn. rewrite page_size_eq in Hsz.
  rewrite align_up_pages by (unfold_pow2; lia). fold k.
  assert (1 <= k <= n) as Hk.
  { unfold k. split; [apply Z.div_le_lower_bound; lia|]. apply Z.lt_succ_r, Z.div_lt_upper_bound; lia. }
  rewrite (proj2 (Z.leb_le k n)) by lia. cbn [assertO]. case_if.
  { exists c, (t1 ++ Tile s n Used :: t2). rewrite E. split; [done|]. split; [done|].
    split; [by rewrite used_app|]. split; [apply frame_refl|lia]. }
  destruct (inv_hold _ _ _ _ Used _ ltac:(done) ltac:(done) I) as (W & H1 & H2 & M1 & M2 & Ha).
  clearbody k. destruct (shrink_marks c t1 s n t2 k p W ltac:(lia) Hp Hf) as (a & -> & W3 & F3).
  rewrite u32_id, (u32_id (n - k)) by lia. rewrite (cons_middle (Tile s k Used)), app_assoc in W3.
  assert (free_sum [Tile s k Used] = 0) as Z0 by done.
  destruct (free_span_spec (with_ary a c) (t1 ++ [Tile s k Used]) (s + k) (n - k) t2 W3) as (c' & ts' & Hc' & I' & U' & F' & S').
  - apply no_held_app. split; [done|]. intros t Ht. by apply list_elem_of_singleton in Ht as ->.
  - done.
  - by apply maximal_nonfree.
  - done.
  - cbn [with_ary nr_free_pages]. rewrite Ha, !free_sum_app. lia.
  - exists c', ts'. rewrite used_app, <- app_assoc in U', F'. split; [exact Hc'|]. split; [done|]. split; [exact U'|].
    destruct I' as (_ & Ha' & _). unfold acct in Ha'. rewrite !free_sum_app in *. split; [|lia].
    eapply frame_trans; [exact F3|]. destruct F' as (G1 & G2 & G3 & G4 & G5). repeat split; try done.
    intros t i Ht. apply G5. simpl. set_solver.
Qed.

(** ** The first allocation of a thread *)

Lemma zeroed_lookup n i : 0 <= i < n -> zeroed n !! i = Some zero_page.
Proof.
  intros Hi. unfold zeroed. apply elem_of_list_to_map_1.
  - rewrite <- list_fmap_compose. rewrite (list_fmap_ext _ id), list_fmap_id; [apply NoDup_seqZ|done].
  - apply list_elem_of_fmap. exists i. split; [done|]. apply elem_of_seqZ. lia.
Qed.

Lemma clear_free_zero a i n :
  (forall j, i <= j < i + Z.of_nat n -> a !! j = Some zero_page) -> clear_free a i n = Ret a.
Proof.
  revert i. induction n as [|n IH]; intros i Ha; [done|]. cbn [clear_free].
  rewrite (upd_some _ _ zero_page) by (apply Ha; lia). cbn [bindO]. rewrite insert_id by (apply Ha; lia).
  apply IH. intros j Hj. apply Ha. lia.
Qed.

(** The pool before its first free span is made. *)
Lemma wf_zero a base i :
  (forall j, 0 <= j <= 8192 -> a !! j = Some zero_page) ->
  wf (Cpu base a 8192 0 0 i (free_spans new)) ([Tile 1 64 Reserved] ++ Tile 65 8127 Held :: []).
Proof.
  intros Hz. split; cbn [nr_pages ary free_spans].
  - lia.
  - reflexivity.
  - eauto.
  - exists zero_page. split; [apply Hz; lia|reflexivity].
  - exists zero_page. split; [apply Hz; lia|reflexivity].
  - repeat split.
  - intros t Ht. apply elem_of_cons in Ht as [->|Ht]; [|apply list_elem_of_singleton in Ht as ->; by intros []].
    intros _. split; (exists zero_page; split; [apply Hz; simpl; lia|split; [reflexivity|by intros []]]).
  - intros idx pl Hpl. exists []. apply lookup_replicate in Hpl as [-> _]. split; [apply is_list_new|].
    intros s. split; [by intros ?%elem_of_nil|]. intros (n & Hn & _). set_solver.
Qed.

Lemma initial_pages : initial_size / page_size = 8192.
Proof. reflexivity. Qed.

Lemma initial_reserved : align_up (sizeof_page * (8192 + 1)) page_size / page_size = 65.
Proof. reflexivity. Qed.

Lemma first_span_spec a base i :
  (forall j, 0 <= j <= 8192 -> a !! j = Some zero_page) ->
  exists c, first_span base 8192 i a new = Ret (c, true) /\
    inv c [Tile 1 64 Reserved; Tile 65 8127 Free] /\ nr_pages c = 8192 /\
    memory c = base /\ cpu_id c = i /\ nr_free_pages c = 8127 /\ current_min_free_pages c = 0.
Proof.
  intros Hz. unfold first_span. rewrite initial_reserved.
  cbv zeta. rewrite clear_free_zero by (intros j Hj; apply Hz; rewrite Z2Nat.id in Hj; lia). cbn [bindO].
  rewrite (upd_some _ _ zero_page) by (apply Hz; lia). cbn [bindO].
  rewrite insert_id by (apply Hz; lia). change (8192 - 65) with 8127.
  cbn [nr_free_pages current_min_free_pages new].
  destruct (free_span_no_merge_spec _ _ _ _ _ (wf_zero a base i Hz)) as (c' & -> & W' & F & N); [reflexivity|]. cbn [bindO].
  exists c'. split; [reflexivity|]. destruct F as (G1 & G2 & G3 & G4 & _). rewrite G1, G2, G3, G4, N.
  split; [|repeat split; reflexivity]. split; [exact W'|]. split; [exact N|]. split.
  - cbn [maximal]. split; [by intros [? _]|]. split; [exact I|exact I].
  - intros t Ht. apply elem_of_cons in Ht as [->|Ht]; [|apply list_elem_of_singleton in Ht as ->]; discriminate.
Qed.

(** 32 MiB: 8192 pages, 65 of them for the page array. *)
Lemma initialize_spec b i (m : Z -> Z -> bool) :
  0 <= i < max_cpus -> m (base_of b i) initial_size = true ->
  exists c, initialize b i m new = Ret (c, true) /\
    inv c [Tile 1 64 Reserved; Tile 65 8127 Free] /\ nr_pages c = 8192 /\
    memory c = base_of b i /\ cpu_id c = i /\ nr_free_pages c = 8127 /\ current_min_free_pages c = 0.
Proof.
  intros Hi Hm. unfold initialize. rewrite (proj2 (Z.ltb_lt i max_cpus)), Hm by lia. cbn [assertO].
  rewrite initial_pages. apply first_span_spec. intros j Hj. apply zeroed_lookup. lia.
Qed.

End Pages.
