(* ===== verification/Malloc.v ===== *)
(** * The memory allocator: small pools, reclaim, cross-cpu frees and the C API

    src/core/memory/memory.cpp above the page allocator of PageAlloc: objects
    of up to 16 KiB come from the [small_pool] of their size class, a pool
    takes its spans from the page allocator, and everything else is a span.
    [words] holds what the allocator writes into memory it owns, the [next]
    fields of free objects.  Reclaimers and the reclaim hook are callbacks of
    the program: parameters.  Loops that callbacks may keep going take a
    [fuel]. *)
From S2P Require Import Prelude PageList PageAlloc.
Import PageList.PageList SizeClass Pages.

Record small_pool := Pool {
  object_size_ : Z;
  span_pages : Z;              (* _span_size *)
  free_ : Z;                   (* _free; 0 is nullptr *)
  free_count : Z;
  min_free : Z;
  max_free : Z;
  spans_in_use : Z;
  span_list : page_list
}.

Inductive reclaimer_scope : Type := async | sync.

Record statistics := Stats { g_allocs : Z; g_frees : Z; g_cross_cpu_frees : Z; g_reclaims : Z }.

(** The allocator of one cpu; [outbox] is what it has pushed onto the lists of
    other cpus, [pending] the reclaims handed to the hook. *)
Record store := Store {
  cpu : cpu_pages;
  small_pools : list small_pool;
  words : gmap Z Z;
  xcpu_freelist : Z;
  reclaimers : list (Z * reclaimer_scope);
  reclaim_hook : bool;
  pending : nat;
  outbox : list (Z * Z);
  counters : statistics
}.

Definition with_cpu (c : cpu_pages) (st : store) : store :=
  Store c (small_pools st) (words st) (xcpu_freelist st) (reclaimers st) (reclaim_hook st) (pending st) (outbox st) (counters st).
Definition with_pools (l : list small_pool) (st : store) : store :=
  Store (cpu st) l (words st) (xcpu_freelist st) (reclaimers st) (reclaim_hook st) (pending st) (outbox st) (counters st).
Definition with_words (w : gmap Z Z) (st : store) : store :=
  Store (cpu st) (small_pools st) w (xcpu_freelist st) (reclaimers st) (reclaim_hook st) (pending st) (outbox st) (counters st).
Definition with_xcpu (p : Z) (st : store) : store :=
  Store (cpu st) (small_pools st) (words st) p (reclaimers st) (reclaim_hook st) (pending st) (outbox st) (counters st).
Definition with_pending (n : nat) (st : store) : store :=
  Store (cpu st) (small_pools st) (words st) (xcpu_freelist st) (reclaimers st) (reclaim_hook st) n (outbox st) (counters st).
Definition with_outbox (l : list (Z * Z)) (st : store) : store :=
  Store (cpu st) (small_pools st) (words st) (xcpu_freelist st) (reclaimers st) (reclaim_hook st) (pending st) l (counters st).
Definition with_counters (s : statistics) (st : store) : store :=
  Store (cpu st) (small_pools st) (words st) (xcpu_freelist st) (reclaimers st) (reclaim_hook st) (pending st) (outbox st) s.

Definition count_alloc (st : store) : store :=
  let s := counters st in
  with_counters (Stats (u64 (g_allocs s + 1)) (g_frees s) (g_cross_cpu_frees s) (g_reclaims s)) st.
Definition count_free (st : store) : store :=
  let s := counters st in
  with_counters (Stats (g_allocs s) (u64 (g_frees s + 1)) (g_cross_cpu_frees s) (g_reclaims s)) st.
Definition count_cross (st : store) : store :=
  let s := counters st in
  with_counters (Stats (g_allocs s) (g_frees s) (u64 (g_cross_cpu_frees s + 1)) (g_reclaims s)) st.
Definition count_reclaim (st : store) : store :=
  let s := counters st in
  with_counters (Stats (g_allocs s) (g_frees s) (g_cross_cpu_frees s) (u64 (g_reclaims s + 1))) st.

Module Malloc.

(** ** Pools *)

Definition span_bytes (span_pages : Z) : Z := u64 (span_pages * page_size).

(** [waste() > 0.05]: the quotient has a power of two below it, so it is exact. *)
Definition wasteful (span_pages object_size : Z) : bool :=
  span_bytes span_pages <? 20 * (span_bytes span_pages mod object_size).

Fixpoint grow_span (fuel : nat) (object_size span_pages : Z) : outcome Z :=
  match fuel with
  | O => Diverge
  | S fuel =>
      if (span_bytes span_pages <? object_size) ||
         ((span_pages <? 32) && wasteful span_pages object_size) ||
         (span_bytes span_pages / object_size <? 32)
      then grow_span fuel object_size (u32 (span_pages * 2))
      else Ret span_pages
  end.

(** [small_pool::small_pool]; the loop doubles the span at most 32 times. *)
Definition pool_new (object_size : Z) : outcome small_pool :=
  do n <- grow_span 32 object_size 1;;
  let max_free := Z.max 100 (u32 (span_bytes n * 2 / object_size)) in
  Ret (Pool object_size n 0 0 (max_free / 2) max_free 0 PageList.new).

Fixpoint pools_new (i : Z) (n : nat) : outcome (list small_pool) :=
  match n with
  | O => Ret []
  | S n =>
      do p <- pool_new (idx_to_size i);;
      do ps <- pools_new (i + 1) n;;
      Ret (p :: ps)
  end.

(** [small_pool_array::u::u]. *)
Definition small_pool_array : outcome (list small_pool) := pools_new 0 (Z.to_nat nr_small_pools).

Definition goal (p : small_pool) : Z := (min_free p + max_free p) / 2.

Definition with_free (f n : Z) (p : small_pool) : small_pool :=
  Pool (object_size_ p) (span_pages p) f n (min_free p) (max_free p) (spans_in_use p) (span_list p).
Definition with_span_list (l : page_list) (p : small_pool) : small_pool :=
  Pool (object_size_ p) (span_pages p) (free_ p) (free_count p) (min_free p) (max_free p) (spans_in_use p) l.
Definition with_spans_in_use (n : Z) (p : small_pool) : small_pool :=
  Pool (object_size_ p) (span_pages p) (free_ p) (free_count p) (min_free p) (max_free p) n (span_list p).

Definition pool_at (st : store) (k : nat) : outcome small_pool := derefO (small_pools st !! k).
Definition set_pool_at (k : nat) (p : small_pool) (st : store) : store :=
  with_pools (<[k := p]> (small_pools st)) st.

Definition span_at (st : store) (i : Z) : outcome page := derefO (ary (cpu st) !! i).
Definition upd_page (st : store) (i : Z) (f : page -> page) : outcome store :=
  do a <- upd (ary (cpu st)) i f;; Ret (with_cpu (with_ary a (cpu st)) st).

Definition next_of (st : store) (obj : Z) : outcome Z := derefO (words st !! obj).
Definition set_word (obj v : Z) (st : store) : store := with_words (<[obj := v]> (words st)) st.

(** [_free = _free->next; --_free_count]. *)
Definition pop_free (st : store) (k : nat) : outcome (store * Z) :=
  do p <- pool_at st k;;
  do nx <- next_of st (free_ p);;
  Ret (set_pool_at k (with_free nx (u64 (free_count p - 1)) p) st, free_ p).

(** [obj->next = _free; _free = obj; ++_free_count]. *)
Definition push_free (st : store) (k : nat) (obj : Z) : outcome store :=
  do p <- pool_at st k;;
  Ret (set_pool_at k (with_free obj (u64 (free_count p + 1)) p) (set_word obj (free_ p) st)).

(** ** Giving objects back *)

(** One turn of [trim_free_list]. *)
Definition trim_one (st : store) (k : nat) : outcome store :=
  do '(st, obj) <- pop_free st k;;
  let i := to_page (cpu st) obj in
  do pg <- span_at st i;;
  let s := i - offset_in_span pg in
  do span <- span_at st s;;
  do st <-
    (if freelist span =? 0 then
       do st <- upd_page st s (fun q => set_prev 0 (set_next 0 q));;
       do p <- pool_at st k;;
       do '(a, l) <- push_front (ary (cpu st)) (span_list p) s;;
       Ret (set_pool_at k (with_span_list l p) (with_cpu (with_ary a (cpu st)) st))
     else Ret st);;
  let st := set_word obj (freelist span) st in
  do st <- upd_page st s (set_freelist obj);;
  let nr := u16 (nr_small_alloc span - 1) in
  do st <- upd_page st s (set_nr_small_alloc nr);;
  if nr =? 0 then
    do p <- pool_at st k;;
    do '(a, l) <- erase (ary (cpu st)) (span_list p) s;;
    let st := set_pool_at k (with_span_list l p) (with_cpu (with_ary a (cpu st)) st) in
    do c <- free_span (cpu st) s (span_size span);;
    do p <- pool_at st k;;
    Ret (set_pool_at k (with_spans_in_use (u32 (spans_in_use p - 1)) p) (with_cpu c st))
  else Ret st.

Fixpoint trim_loop (fuel : nat) (st : store) (k : nat) : outcome store :=
  match fuel with
  | O => Diverge
  | S fuel =>
      do p <- pool_at st k;;
      if negb (free_ p =? 0) && (goal p <? free_count p)
      then do st <- trim_one st k;; trim_loop fuel st k
      else Ret st
  end.

(** Every turn takes one object off the list. *)
Definition trim_free_list (st : store) (k : nat) : outcome store :=
  do p <- pool_at st k;;
  trim_loop (S (Z.to_nat (free_count p))) st k.

Definition pool_deallocate (st : store) (k : nat) (object : Z) : outcome store :=
  do st <- push_free st k object;;
  do p <- pool_at st k;;
  if max_free p <=? free_count p then trim_free_list st k else Ret st.

Section system.
Context (mem_base next_cpu_id : Z) (mmap_ok : Z -> Z -> bool).
(** Which cpus still run, and what a reclaimer does when it is called. *)
Context (live : Z -> bool) (do_reclaim : Z -> store -> outcome (store * bool)).

Definition free_cross_cpu (st : store) (id ptr : Z) : store :=
  if negb (live id) then st else count_cross (with_outbox ((id, ptr) :: outbox st) st).

(** [cpu_pages::free] without a size. *)
Definition cpu_free (st : store) (ptr : Z) : outcome store :=
  let obj_cpu := object_cpu_id ptr in
  if negb (obj_cpu =? cpu_id (cpu st)) then Ret (free_cross_cpu st obj_cpu ptr)
  else
    do span <- span_at st (to_page (cpu st) ptr);;
    match pool span with
    | Some k => pool_deallocate st k ptr
    | None => do c <- free_large (cpu st) ptr;; Ret (with_cpu c st)
    end.

Definition sizeof_free_object : Z := 8.

(** [cpu_pages::free] with a size. *)
Definition cpu_free_sized (st : store) (ptr size : Z) : outcome store :=
  let size := if size <=? sizeof_free_object then sizeof_free_object else size in
  let obj_cpu := object_cpu_id ptr in
  if negb (obj_cpu =? cpu_id (cpu st)) then Ret (free_cross_cpu st obj_cpu ptr)
  else if size <=? max_small_allocation then
    do k <- usizeo_idx size;; pool_deallocate st (Z.to_nat k) ptr
  else do c <- free_large (cpu st) ptr;; Ret (with_cpu c st).

Fixpoint drain_loop (fuel : nat) (st : store) (p : Z) : outcome store :=
  match fuel with
  | O => Diverge
  | S fuel =>
      if p =? 0 then Ret st
      else
        do n <- next_of st p;;
        do st <- cpu_free st p;;
        drain_loop fuel st n
  end.

(** The list that other cpus pushed, in memory of this cpu. *)
Definition drain_cross_cpu_freelist (st : store) : outcome (store * bool) :=
  if xcpu_freelist st =? 0 then Ret (st, false)
  else
    do st <- drain_loop (S (size (words st))) (with_xcpu 0 st) (xcpu_freelist st);;
    Ret (st, true).

(** ** Reclaiming *)

Definition scope_le (a b : reclaimer_scope) : bool :=
  match a, b with sync, async => false | _, _ => true end.

(** One pass over the reclaimers: has one made progress? *)
Fixpoint reclaim_pass (rs : list (Z * reclaimer_scope)) (scope : reclaimer_scope) (st : store) (made : bool) :
    outcome (store * bool) :=
  match rs with
  | [] => Ret (st, made)
  | (r, sc) :: rs =>
      if scope_le scope sc then
        do '(st, something) <- do_reclaim r st;;
        reclaim_pass rs scope st (made || something)
      else reclaim_pass rs scope st made
  end.

Fixpoint reclaim_loop (fuel : nat) (scope : reclaimer_scope) (target : Z) (st : store) (result : bool) :
    outcome (store * bool) :=
  match fuel with
  | O => Diverge
  | S fuel =>
      if nr_free_pages (cpu st) <? target then
        do '(st, made_progress) <- reclaim_pass (reclaimers st) scope (count_reclaim st) false;;
        if negb made_progress then Ret (st, result)
        else reclaim_loop fuel scope target st true
      else Ret (st, result)
  end.

(** [true] is [reclaimed_something]. *)
Definition run_reclaimers (fuel : nat) (scope : reclaimer_scope) (st : store) : outcome (store * bool) :=
  let target := Z.max (u32 (nr_free_pages (cpu st) + 1)) min_free_pages in
  reclaim_loop fuel scope target st false.

(** [schedule_reclaim]; calling an empty [std::function] throws. *)
Definition schedule_reclaim (st : store) : outcome store :=
  let st := with_cpu (with_min_free 0 (cpu st)) st in
  if reclaim_hook st then Ret (with_pending (S (pending st)) st) else Throw (user_exception 0).

(** What the hook was given, when it is called. *)
Definition scheduled_reclaim (fuel : nat) (st : store) : outcome store :=
  do st <-
    (if nr_free_pages (cpu st) <? min_free_pages
     then do '(st, _) <- run_reclaimers fuel async st;; Ret st
     else Ret st);;
  Ret (with_cpu (with_min_free min_free_pages (cpu st)) st).

Definition set_reclaim_hook (st : store) : store :=
  let st := with_cpu (with_min_free min_free_pages (cpu st)) st in
  Store (cpu st) (small_pools st) (words st) (xcpu_freelist st) (reclaimers st) true (pending st) (outbox st) (counters st).

(** [reclaimer::reclaimer] and [reclaimer::~reclaimer]. *)
Definition with_reclaimers (l : list (Z * reclaimer_scope)) (st : store) : store :=
  Store (cpu st) (small_pools st) (words st) (xcpu_freelist st) l (reclaim_hook st) (pending st) (outbox st) (counters st).
Definition reclaimer_new (r : Z) (scope : reclaimer_scope) (st : store) : store :=
  with_reclaimers (reclaimers st ++ [(r, scope)]) st.
Fixpoint erase_first (r : Z) (l : list (Z * reclaimer_scope)) : outcome (list (Z * reclaimer_scope)) :=
  match l with
  | [] => Undef
  | (r', sc) :: l => if r' =? r then Ret l else do l <- erase_first r l;; Ret ((r', sc) :: l)
  end.
Definition reclaimer_destroy (r : Z) (st : store) : outcome store :=
  do l <- erase_first r (reclaimers st);; Ret (with_reclaimers l st).

(** ** Allocating spans *)

Fixpoint find_and_unlink_span_reclaiming (fuel : nat) (st : store) (n_pages : Z) : outcome (store * option Z) :=
  match fuel with
  | O => Diverge
  | S fuel' =>
      do '(c, span) <- find_and_unlink_span mem_base next_cpu_id mmap_ok (cpu st) n_pages;;
      let st := with_cpu c st in
      match span with
      | Some span => Ret (st, Some span)
      | None =>
          do '(st, reclaimed) <- run_reclaimers fuel' sync st;;
          if reclaimed then find_and_unlink_span_reclaiming fuel' st n_pages else Ret (st, None)
      end
  end.

(** The end of [allocate_large_and_trim]: what to do when few pages are left. *)
Definition low_memory (fuel : nat) (st : store) : outcome store :=
  if nr_free_pages (cpu st) <? current_min_free_pages (cpu st) then
    do '(st, _) <- drain_cross_cpu_freelist st;;
    do '(st, _) <- run_reclaimers fuel sync st;;
    if nr_free_pages (cpu st) <? current_min_free_pages (cpu st) then schedule_reclaim st else Ret st
  else Ret st.

Definition allocate_large_and_trim (fuel : nat) (st : store) (n_pages : Z) (trimmer : Z -> Z -> trim) :
    outcome (store * option Z) :=
  do '(st, span) <- find_and_unlink_span_reclaiming fuel st n_pages;;
  match span with
  | None => Ret (st, None)
  | Some span =>
      do '(c, span_idx) <- trim_span (cpu st) span trimmer;;
      do st <- low_memory fuel (with_cpu c st);;
      Ret (st, Some (address_of (cpu st) span_idx))
  end.

Definition cpu_allocate_large (fuel : nat) (st : store) (n_pages : Z) : outcome (store * option Z) :=
  allocate_large_and_trim fuel st n_pages (trim_large n_pages).

Definition cpu_allocate_large_aligned (fuel : nat) (st : store) (align_pages n_pages : Z) : outcome (store * option Z) :=
  allocate_large_and_trim fuel st (u32 (u32 (n_pages + align_pages) - 1)) (trim_aligned align_pages n_pages).
End system.

(** ** Small objects *)

(** Taking back the objects of a span that lie on its own free list. *)
Fixpoint take_span_objects (fuel : nat) (st : store) (k : nat) (s : Z) : outcome store :=
  match fuel with
  | O => Diverge
  | S fuel =>
      do span <- span_at st s;;
      if freelist span =? 0 then Ret st
      else
        let obj := freelist span in
        do nx <- next_of st obj;;
        do st <- upd_page st s (set_freelist nx);;
        do st <- push_free st k obj;;
        do st <- upd_page st s (set_nr_small_alloc (u16 (nr_small_alloc span + 1)));;
        take_span_objects fuel st k s
  end.

Fixpoint reuse_spans (fuel : nat) (st : store) (k : nat) : outcome store :=
  match fuel with
  | O => Diverge
  | S fuel =>
      do p <- pool_at st k;;
      if negb (empty (span_list p)) && (free_count p <? goal p) then
        let s := front (span_list p) in
        do '(a, l) <- pop_front (ary (cpu st)) (span_list p);;
        let st := set_pool_at k (with_span_list l p) (with_cpu (with_ary a (cpu st)) st) in
        do st <- take_span_objects (S (size (words st))) st k s;;
        reuse_spans fuel st k
      else Ret st
  end.

(** Marking the pages of a new span: [n] pages from the [i]-th on. *)
Fixpoint claim_pages (st : store) (k : nat) (s i : Z) (n : nat) : outcome store :=
  match n with
  | O => Ret st
  | S n =>
      do st <- upd_page st (s + i) (set_offset (u8 i));;
      do st <- upd_page st (s + i) (set_pool (Some k));;
      claim_pages st k s (i + 1) n
  end.

(** Cutting a new span into objects: [n] objects from [offset] on. *)
Fixpoint carve (st : store) (k : nat) (s data offset : Z) (n : nat) : outcome store :=
  match n with
  | O => Ret st
  | S n =>
      do st <- push_free st k (data + offset);;
      do span <- span_at st s;;
      do st <- upd_page st s (set_nr_small_alloc (u16 (nr_small_alloc span + 1)));;
      do p <- pool_at st k;;
      carve st k s data (u32 (offset + object_size_ p)) n
  end.

Definition new_span (st : store) (k : nat) (data : Z) : outcome store :=
  do p <- pool_at st k;;
  let st := set_pool_at k (with_spans_in_use (u32 (spans_in_use p + 1)) p) st in
  let s := to_page (cpu st) data in
  do st <- claim_pages st k s 0 (Z.to_nat (span_pages p));;
  do st <- upd_page st s (set_nr_small_alloc 0);;
  do st <- upd_page st s (set_freelist 0);;
  carve st k s data 0 (Z.to_nat ((span_bytes (span_pages p) - object_size_ p) / object_size_ p + 1)).

Section system.
Context (mem_base next_cpu_id : Z) (mmap_ok : Z -> Z -> bool).
Context (live : Z -> bool) (do_reclaim : Z -> store -> outcome (store * bool)).

Abbreviation cpu_allocate_large := (cpu_allocate_large mem_base next_cpu_id mmap_ok live do_reclaim).
Abbreviation cpu_allocate_large_aligned := (cpu_allocate_large_aligned mem_base next_cpu_id mmap_ok live do_reclaim).

Fixpoint add_spans (fuel : nat) (st : store) (k : nat) (goal : Z) : outcome store :=
  match fuel with
  | O => Diverge
  | S fuel =>
      do p <- pool_at st k;;
      if free_count p <? goal then
        do '(st, data) <- cpu_allocate_large fuel st (span_pages p);;
        match data with
        | None => Ret st
        | Some data => do st <- new_span st k data;; add_spans fuel st k goal
        end
      else Ret st
  end.

Definition add_more_objects (fuel : nat) (st : store) (k : nat) : outcome store :=
  do p <- pool_at st k;;
  do st <- reuse_spans fuel st k;;
  add_spans fuel st k (goal p).

Definition pool_allocate (fuel : nat) (st : store) (k : nat) : outcome (store * option Z) :=
  do p <- pool_at st k;;
  do st <- (if free_ p =? 0 then add_more_objects fuel st k else Ret st);;
  do p <- pool_at st k;;
  if free_ p =? 0 then Ret (st, None)
  else do '(st, obj) <- pop_free st k;; Ret (st, Some obj).

Definition allocate_small (fuel : nat) (st : store) (size : Z) : outcome (store * option Z) :=
  do idx <- usizeo_idx size;;
  do p <- pool_at st (Z.to_nat idx);;
  assertO (size <=? object_size_ p) (pool_allocate fuel st (Z.to_nat idx)).

(** ** The functions of [xi::core::memory] *)

(** [abort_on_underflow] and the rounding of a size to pages. *)
Definition size_in_pages (size : Z) : Z := u32 (Z.shiftr (u64 (size + page_size - 1)) page_bits).

Definition allocate_large (fuel : nat) (st : store) (size : Z) : outcome (store * option Z) :=
  assertO (signed_nonneg size) (
  assertO (size <=? Z.shiftl (size_in_pages size) page_bits) (
  cpu_allocate_large fuel st (size_in_pages size))).

Definition allocate_large_aligned (fuel : nat) (st : store) (align size : Z) : outcome (store * option Z) :=
  assertO (signed_nonneg size) (
  cpu_allocate_large_aligned fuel st (u32 (Z.shiftr (Z.max align page_size) page_bits)) (size_in_pages size)).

Definition allocate (fuel : nat) (st : store) (size : Z) : outcome (store * option Z) :=
  let st := count_alloc st in
  let size := if size <=? sizeof_free_object then sizeof_free_object else size in
  if size <=? max_small_allocation then allocate_small fuel st size
  else allocate_large fuel st size.

Definition allocate_aligned (fuel : nat) (st : store) (align size : Z) : outcome (store * option Z) :=
  let st := count_alloc st in
  let size := Z.max size align in
  let size := if size <=? sizeof_free_object then sizeof_free_object else size in
  if (size <=? max_small_allocation) && (align <=? page_size)
  then allocate_small fuel st (Z.shiftl 1 (log2ceil (u32 size)))
  else allocate_large_aligned fuel st align size.

Definition free (st : store) (obj : Z) : outcome store := cpu_free live (count_free st) obj.
Definition free_sized (st : store) (obj size : Z) : outcome store := cpu_free_sized live (count_free st) obj size.

(** [object_size] of an object of this cpu. *)
Definition object_size (st : store) (ptr : Z) : outcome Z :=
  do span <- span_at st (u32 (to_page (cpu st) ptr));;
  match pool span with
  | Some k => do p <- pool_at st k;; Ret (object_size_ p)
  | None => Ret (span_size span * page_size)
  end.

Definition shrink (st : store) (obj new_size : Z) : outcome store :=
  let st := count_alloc (count_free st) in
  assertO (object_cpu_id obj =? cpu_id (cpu st)) (
  do span <- span_at st (to_page (cpu st) obj);;
  match pool span with
  | Some _ => Ret st
  | None => do c <- shrink_large (cpu st) obj new_size;; Ret (with_cpu c st)
  end).

Definition stats (st : store) : Z * Z * Z * Z * Z * Z :=
  let s := counters st in
  (g_allocs s, g_frees s, g_cross_cpu_frees s, u64 (nr_pages (cpu st) * page_size),
   u64 (nr_free_pages (cpu st) * page_size), g_reclaims s).

Definition get_memory_layout (st : store) : outcome (Z * Z) :=
  assertO (is_initialized (cpu st)) (
  Ret (memory (cpu st), memory (cpu st) + nr_pages (cpu st) * page_size)).

(** ** The C and C++ interface; [None] is a null pointer *)

(** [try { m } catch (std::bad_alloc&) { return on_error; }] *)
Definition catch_bad_alloc {A : Type} (m : outcome A) (on_error : A) : outcome A :=
  match m with Throw bad_alloc => Ret on_error | m => m end.

Definition malloc (fuel : nat) (st : store) (n : Z) : outcome (store * option Z) :=
  if n =? 0 then Ret (st, None)
  else catch_bad_alloc (allocate fuel st n) (count_alloc st, None).

Definition c_free (st : store) (ptr : option Z) : outcome store :=
  match ptr with Some ptr => free st ptr | None => Ret st end.

(** [fill] is [memset(p, 0, s)], [copy] is [memcpy]: contents of client
    memory, which the allocator never reads. *)
Context (contents : Type) (fill : Z -> Z -> contents -> contents) (copy : Z -> Z -> Z -> contents -> contents).

Definition calloc (fuel : nat) (st : store) (h : contents) (nmemb size : Z) : outcome (store * contents * option Z) :=
  let s1 := nmemb * size in
  assertO (s1 =? u64 s1) (
  do '(st, p) <- malloc fuel st (u64 s1);;
  match p with
  | Some p => Ret (st, fill p (u64 s1) h, Some p)
  | None => Ret (st, h, None)
  end).

Definition realloc (fuel : nat) (st : store) (h : contents) (ptr : option Z) (size : Z) :
    outcome (store * contents * option Z) :=
  do old_size <- match ptr with Some p => object_size st p | None => Ret 0 end;;
  if size =? old_size then Ret (st, h, ptr)
  else if size =? 0 then do st <- c_free st ptr;; Ret (st, h, None)
  else
    match ptr with
    | Some p =>
        if size <? old_size then do st <- shrink st p size;; Ret (st, h, Some p)
        else
          do '(st, nptr) <- malloc fuel st size;;
          match nptr with
          | None => Ret (st, h, None)
          | Some q => do st <- free st p;; Ret (st, copy q p (Z.min size old_size) h, Some q)
          end
    | None => do '(st, nptr) <- malloc fuel st size;; Ret (st, h, nptr)
    end.

Definition ENOMEM : Z := 12.

Definition posix_memalign (fuel : nat) (st : store) (align size : Z) : outcome (store * option Z * Z) :=
  catch_bad_alloc
    (do '(st, p) <- allocate_aligned fuel st align size;;
     Ret (st, p, if p then 0 else ENOMEM))
    (count_alloc st, None, ENOMEM).

Definition memalign (fuel : nat) (st : store) (align size : Z) : outcome (store * option Z) :=
  catch_bad_alloc (allocate_aligned fuel st align size) (count_alloc st, None).

Definition malloc_usable_size (st : store) (obj : Z) : outcome Z := object_size st obj.

Definition throw_if_null (r : store * option Z) : outcome (store * Z) :=
  match r with (st, Some p) => Ret (st, p) | (_, None) => Throw bad_alloc end.

Definition operator_new (fuel : nat) (st : store) (size : Z) : outcome (store * Z) :=
  do r <- allocate fuel st (if size =? 0 then 1 else size);; throw_if_null r.

(** [operator new] with [std::nothrow_t]. *)
Definition operator_new_nothrow (fuel : nat) (st : store) (size : Z) : outcome (store * option Z) :=
  match allocate fuel st (if size =? 0 then 1 else size) with
  | Throw _ => Ret (count_alloc st, None)
  | m => m
  end.

Definition operator_delete (st : store) (ptr : option Z) : outcome store :=
  match ptr with Some ptr => free st ptr | None => Ret st end.
Definition operator_delete_sized (st : store) (ptr : option Z) (size : Z) : outcome store :=
  match ptr with Some ptr => free_sized st ptr size | None => Ret st end.

(** The array forms, and those of [delete] that match a [new] with [std::nothrow_t]. *)
Definition operator_new_array (fuel : nat) (st : store) (size : Z) : outcome (store * Z) := operator_new fuel st size.
Definition operator_new_array_nothrow (fuel : nat) (st : store) (size : Z) : outcome (store * option Z) :=
  operator_new_nothrow fuel st size.
Definition operator_delete_array (st : store) (ptr : option Z) : outcome store := operator_delete st ptr.
Definition operator_delete_array_sized (st : store) (ptr : option Z) (size : Z) : outcome store := operator_delete_sized st ptr size.
Definition operator_delete_nothrow (st : store) (ptr : option Z) : outcome store := operator_delete st ptr.
Definition operator_delete_sized_nothrow (st : store) (ptr : option Z) (size : Z) : outcome store := operator_delete_sized st ptr size.
Definition operator_delete_array_nothrow (st : store) (ptr : option Z) : outcome store := operator_delete_array st ptr.
Definition operator_delete_array_sized_nothrow (st : store) (ptr : option Z) (size : Z) : outcome store :=
  operator_delete_array_sized st ptr size.

Definition aligned_alloc (fuel : nat) (st : store) (align size : Z) : outcome (store * option Z) :=
  catch_bad_alloc (allocate_aligned fuel st align size) (count_alloc st, None).
Definition cfree (st : store) (obj : option Z) : outcome store := c_free st obj.
Definition malloc_trim (st : store) (pad : Z) : store * Z := (st, 0).

(** [small_pool::~small_pool]. *)
Definition with_bounds (lo hi : Z) (p : small_pool) : small_pool :=
  Pool (object_size_ p) (span_pages p) (free_ p) (free_count p) lo hi (spans_in_use p) (span_list p).
Definition pool_destroy (st : store) (k : nat) : outcome store :=
  do p <- pool_at st k;;
  trim_free_list (set_pool_at k (with_bounds 0 0 p) st) k.

(** ** Growing the pool *)

(** [alloc_sys_mem(where, size)] may throw; [garbage] is what the memory of
    the new page array held. *)
Context (alloc_sys_mem : Z -> Z -> outcome unit) (garbage : Z -> page).

(** [std::copy] of the old records over the new array. *)
Fixpoint copy_pages (old : pages) (a : pages) (i : Z) (n : nat) : outcome pages :=
  match n with
  | O => Ret a
  | S n => do p <- derefO (old !! i);; copy_pages old (<[i := p]> a) (i + 1) n
  end.

Definition fresh_pages (n : Z) : pages := list_to_map ((fun i => (i, garbage i)) <$> seqZ 0 n).

(** The page array starts at page [array] of the pool; the result has its new place. *)
Definition do_resize (fuel : nat) (st : store) (array new_size : Z) : outcome (store * Z) :=
  let new_pages := new_size / page_size in
  if new_pages <=? nr_pages (cpu st) then Ret (st, array)
  else
    let old_size := nr_pages (cpu st) * page_size in
    do _ <- alloc_sys_mem (memory (cpu st) + old_size) (new_size - old_size);;
    let new_page_array_pages := align_up (sizeof_page * (new_pages + 1)) page_size / page_size in
    do '(st, new_page_array) <- cpu_allocate_large fuel st (u32 new_page_array_pages);;
    match new_page_array with
    | None => Throw bad_alloc
    | Some new_page_array =>
        let c := cpu st in
        do a <- copy_pages (ary c) (fresh_pages (new_pages + 1)) 0 (Z.to_nat (nr_pages c));;
        do a <- upd a new_pages (set_free false);;
        let old_nr_pages := nr_pages c in
        let old_pages_size := align_up (sizeof_page * (nr_pages c + 1)) page_size in
        let c := Cpu (memory c) a (u32 new_pages) (nr_free_pages c) (current_min_free_pages c) (cpu_id c) (free_spans c) in
        let '(start, old_pages_size) :=
          if array =? 0 then (1, old_pages_size - page_size) else (array, old_pages_size) in
        do c <- free_span c start (old_pages_size / page_size);;
        do c <- free_span c old_nr_pages (new_pages - old_nr_pages);;
        Ret (with_cpu c st, to_page c new_page_array)
    end.

Fixpoint resize_loop (fuel : nat) (st : store) (array new_size : Z) : outcome (store * Z) :=
  match fuel with
  | O => Diverge
  | S fuel =>
      if nr_pages (cpu st) * page_size <? new_size then
        let tmp_size := Z.min new_size (u32 (4 * nr_pages (cpu st)) * page_size) in
        do '(st, array) <- do_resize fuel st array tmp_size;;
        resize_loop fuel st array new_size
      else Ret (st, array)
  end.

(** [cpu_pages::resize]. *)
Definition resize (fuel : nat) (st : store) (array new_size : Z) : outcome (store * Z) :=
  resize_loop fuel st array (align_down new_size huge_page_size).

(** [configure]: the pool grows to the sum of the resources. *)
Definition configure (fuel : nat) (st : store) (array : Z) (resources : list Z) : outcome (store * Z) :=
  resize fuel st array (u64 (zsum id resources)).
End system.

(** ** Geometry of the pools *)

(** The objects of a span. *)
Definition objects_per_span (p : small_pool) : Z := span_bytes (span_pages p) / object_size_ p.

Definition pool_ok (p : small_pool) : bool :=
  (1 <=? object_size_ p) && (object_size_ p <=? max_small_allocation) &&
  (1 <=? span_pages p) && (span_pages p <=? 128) &&
  (32 <=? objects_per_span p) && (objects_per_span p <? 2 ^ 16) &&
  (100 <=? max_free p) && (max_free p <? 2 ^ 31) && (min_free p =? max_free p / 2) &&
  negb ((span_pages p <? 32) && wasteful (span_pages p) (object_size_ p)).

Lemma small_pool_array_ok : exists ps, small_pool_array = Ret ps /\ length ps = 57%nat /\
  forallb pool_ok ps = true /\ map object_size_ ps = map (fun i => idx_to_size (Z.of_nat i)) (seq 0 57).
Proof.
  exists (match small_pool_array with Ret ps => ps | _ => [] end).
  split; [|split; [|split]]; vm_compute; reflexivity.
Qed.

Lemma pool_ok_spec p : pool_ok p = true ->
  1 <= object_size_ p <= max_small_allocation /\ 1 <= span_pages p <= 128 /\
  32 <= objects_per_span p < 2 ^ 16 /\ 100 <= max_free p < 2 ^ 31 /\ min_free p = max_free p / 2 /\
  (span_pages p < 32 -> 20 * (span_bytes (span_pages p) mod object_size_ p) <= span_bytes (span_pages p)).
Proof.
  unfold pool_ok. intros H. zbool. unfold wasteful in *.
  repeat match goal with H : negb _ = true |- _ => apply negb_true_iff in H end.
  repeat (split; [lia|]). intros Hs.
  match goal with H : (_ && _) = false |- _ => rewrite (proj2 (Z.ltb_lt _ _) Hs) in H; simpl in H; zbool; lia end.
Qed.

(** Every pool of the array has spans of at least 32 objects that lose at most
    a twentieth of their bytes unless they are 32 pages or more; page offsets
    fit the 8 bits and object counts the 16 bits of their fields. *)
Lemma pool_geometry k : 0 <= k < nr_small_pools ->
  exists ps p, small_pool_array = Ret ps /\ ps !! Z.to_nat k = Some p /\ object_size_ p = idx_to_size k /\
    1 <= span_pages p <= 128 /\ 32 <= objects_per_span p < 2 ^ 16 /\
    (span_pages p < 32 -> 20 * (span_bytes (span_pages p) mod object_size_ p) <= span_bytes (span_pages p)).
Proof.
  intros Hk. destruct small_pool_array_ok as (ps & Hps & Hlen & Hok & Hsz).
  destruct (lookup_lt_is_Some_2 ps (Z.to_nat k)) as [p Hp]; [unfold nr_small_pools in Hk; lia|].
  exists ps, p. split; [done|]. split; [done|]. split.
  - assert (map object_size_ ps !! Z.to_nat k = Some (object_size_ p)) as E.
    { change (map object_size_ ps) with (object_size_ <$> ps). by rewrite list_lookup_fmap, Hp. }
    rewrite Hsz in E. change (map ?f ?l) with (f <$> l) in E. rewrite list_lookup_fmap, lookup_seq_lt in E by (unfold nr_small_pools in Hk; lia).
    cbn [fmap option_fmap option_map Nat.add] in E. rewrite Z2Nat.id in E by lia.
    exact (inj Some _ _ (eq_sym E)).
  - rewrite forallb_forall in Hok. apply list_elem_of_lookup_2, list_elem_of_In, Hok in Hp.
    apply pool_ok_spec in Hp. tauto.
Qed.

(** [operator new] of nothing allocates a byte, and never returns null: it throws
    where the form with [std::nothrow_t] returns null; deleting null does nothing. *)
Lemma operator_new_throws b i m live do_reclaim fuel st size :
  match allocate b i m live do_reclaim fuel st (if size =? 0 then 1 else size) with
  | Ret (st', Some p) =>
      operator_new b i m live do_reclaim fuel st size = Ret (st', p) /\
      operator_new_nothrow b i m live do_reclaim fuel st size = Ret (st', Some p)
  | Ret (st', None) =>
      operator_new b i m live do_reclaim fuel st size = Throw bad_alloc /\
      operator_new_nothrow b i m live do_reclaim fuel st size = Ret (st', None)
  | Throw e =>
      operator_new b i m live do_reclaim fuel st size = Throw e /\
      operator_new_nothrow b i m live do_reclaim fuel st size = Ret (count_alloc st, None)
  | r => True
  end.
Proof.
  unfold operator_new, operator_new_nothrow.
  by destruct (allocate b i m live do_reclaim fuel st (if size =? 0 then 1 else size)) as [[st' [p|]]| | | |].
Qed.

(** ** Functional behaviour *)

Lemma set_pool_at_same st k p q :
  small_pools st !! k = Some p -> set_pool_at k p (set_pool_at k q st) = st.
Proof.
  intros Hp. unfold set_pool_at, with_pools. destruct st. simpl in *. by rewrite list_insert_insert_eq, list_insert_id.
Qed.

(** An object given back to its pool is the next one the pool hands out,
    and the pool is then as it was. *)
Theorem small_free_then_allocate b i m live do_reclaim fuel st k p obj :
  small_pools st !! k = Some p -> obj <> 0 -> 0 <= free_count p -> free_count p + 1 < max_free p < 2 ^ 32 ->
  exists st1 st2,
    pool_deallocate st k obj = Ret st1 /\
    pool_allocate b i m live do_reclaim fuel st1 k = Ret (st2, Some obj) /\
    small_pools st2 = small_pools st /\ cpu st2 = cpu st /\
    forall a, a <> obj -> words st2 !! a = words st !! a.
Proof.
  intros Hp Hobj Hc Hmax. set (p1 := with_free obj (free_count p + 1) p).
  set (st1 := set_pool_at k p1 (set_word obj (free_ p) st)).
  assert (small_pools st1 !! k = Some p1) as Hp1.
  { apply list_lookup_insert_eq. by eapply lookup_lt_Some. }
  exists st1, (set_word obj (free_ p) st). split.
  { unfold pool_deallocate, push_free, pool_at. rewrite Hp. cbn [derefO bindO].
    rewrite u64_id by (unfold_pow2; lia). fold p1. fold st1. rewrite Hp1. cbn [derefO bindO].
    cbn [p1 with_free free_count max_free]. by rewrite (proj2 (Z.leb_gt _ _)) by lia. }
  split; [|split; [done|split; [done|]]].
  - unfold pool_allocate, pop_free, pool_at, next_of. rewrite Hp1. cbn [derefO bindO p1 with_free free_].
    rewrite (proj2 (Z.eqb_neq obj 0)) by done. cbn [bindO]. rewrite Hp1. cbn [derefO bindO p1 with_free free_].
    rewrite (proj2 (Z.eqb_neq obj 0)) by done.
    cbn [st1 set_pool_at with_pools words set_word with_words]. rewrite lookup_insert_eq. cbn [derefO bindO free_count p1 with_free].
    rewrite Z.add_simpl_r, u64_id by (unfold_pow2; lia).
    assert (with_free (free_ p) (free_count p) p1 = p) as Ep by (by destruct p).
    change (with_free (free_ p) (free_count p) (with_free obj (free_count p + 1) p)) with (with_free (free_ p) (free_count p) p1).
    rewrite Ep. unfold st1. rewrite set_pool_at_same; [done|exact Hp].
  - intros a Ha. cbn [set_word with_words words]. by apply lookup_insert_ne.
Qed.

Lemma small_free_then_allocate_witness :
  exists st1 st2,
    pool_deallocate (Store new [Pool 8 1 0 0 50 100 0 PageList.new] ∅ 0 [] false 0 [] (Stats 0 0 0 0)) 0 4096 = Ret st1 /\
    pool_allocate 0 0 (fun _ _ => true) (fun _ => true) (fun _ st => Ret (st, false)) 1 st1 0 = Ret (st2, Some 4096).
Proof.
  destruct (small_free_then_allocate 0 0 (fun _ _ => true) (fun _ => true) (fun _ st => Ret (st, false)) 1
    (Store new [Pool 8 1 0 0 50 100 0 PageList.new] ∅ 0 [] false 0 [] (Stats 0 0 0 0)) 0
    (Pool 8 1 0 0 50 100 0 PageList.new) 4096) as (st1 & st2 & H1 & H2 & _);
    [reflexivity|discriminate|simpl; lia|simpl; lia|].
  exists st1, st2. split; [exact H1|exact H2].
Defined.

(** Growing a pool that does not exist yet never ends: four times nothing is nothing. *)
Lemma resize_uninitialised_spins b i m live do_reclaim alloc_sys_mem garbage fuel st array new_size :
  nr_pages (cpu st) = 0 -> 0 < new_size ->
  resize_loop b i m live do_reclaim alloc_sys_mem garbage fuel st array new_size = Diverge.
Proof.
  intros Hn Hs. induction fuel as [|fuel IH]; [done|]. cbn [resize_loop]. rewrite Hn.
  rewrite (proj2 (Z.ltb_lt _ _)) by lia. change (u32 (4 * 0) * page_size) with 0.
  rewrite Z.min_r by lia. unfold do_resize. rewrite Hn, (proj2 (Z.leb_le _ _)) by done. cbn [bindO]. exact IH.
Qed.

End Malloc.

(** ** What is compiled with DEFAULT_ALLOCATOR defined *)
Module DefaultAllocator.
Definition reclaimer_new (st : store) : store := st.
Definition reclaimer_destroy (st : store) : store := st.
Definition set_reclaim_hook (st : store) : store := st.
Definition configure (resources : list Z) (st : store) : store := st.
Definition stats : Z * Z * Z * Z * Z * Z := (0, 0, 0, Z.shiftl 1 30, 0, 0).
Definition drain_cross_cpu_freelist (st : store) : store * bool := (st, false).
End DefaultAllocator.
