(* ===== verification/AllocSpec.v ===== *)
(** * What the page allocator promises

    An abstract allocator is a set of runs of pages in use: an allocation adds
    a run that overlaps none, and fails only when no such run exists; freeing
    removes a run; shrinking keeps its first pages.  [allocator_refines_runs]
    shows that the functions of PageAlloc and Malloc implement it, [tiles]
    being the link; the lemmas before it describe each function alone. *)
From S2P Require Import Prelude PageList PageAlloc Malloc.
Import PageList.PageList SizeClass Pages Malloc.

(** ** Tiles and runs *)

Definition overlaps (t : tile) (s n : Z) : Prop := exists i, covers t i /\ s <= i < s + n.

(** [n] pages from [s] on, between page 1 and the sentinel [e], none of a run in use. *)
Definition room (us : list tile) (e s n : Z) : Prop :=
  1 <= s /\ s + n <= e /\ forall t, t ∈ us -> ~ overlaps t s n.

Lemma contiguous_cover i ts e x : contiguous i ts e -> i <= x < e -> exists t, t ∈ ts /\ covers t x.
Proof.
  revert i. induction ts as [|t ts IH]; intros i; cbn [contiguous]; [lia|].
  intros (Hs & Hl & H) Hx. destruct (Z.lt_ge_cases x (i + t_len t)).
  - exists t. split; [constructor|]. unfold covers. lia.
  - destruct (IH _ H ltac:(lia)) as (u & Hu & Hc). exists u. split; [by constructor|done].
Qed.

(** Pages that no run in use covers lie in one free run. *)
Lemma room_in_free c ts s n :
  inv c ts -> 0 < n -> room (used ts) (nr_pages c) s n ->
  exists s' m, Tile s' m Free ∈ ts /\ s' <= s /\ s + n <= s' + m.
Proof.
  intros (W & _ & Hm & Hh) Hn (H1 & H2 & Hroom).
  assert (forall t i, t ∈ ts -> covers t i -> s <= i < s + n -> is_free t = true) as Hfree.
  { intros t i Ht Hc Hi. destruct (is_free t) eqn:E; [done|]. destruct (Hroom t).
    - apply used_in. split; [done|]. by rewrite kind_cases, E by auto.
    - by exists i. }
  destruct (contiguous_cover _ _ _ s (wf_cont _ _ W)) as ([s' m k] & Ht & Hc); [lia|].
  pose proof (Hfree _ s Ht Hc ltac:(lia)) as Hk. unfold is_free in Hk. apply bool_decide_eq_true in Hk.
  simpl in Hk. subst k. exists s', m. split; [done|]. unfold covers in Hc. simpl in Hc. split; [lia|].
  destruct (Z.le_gt_cases (s + n) (s' + m)) as [|Hgt]; [done|exfalso].
  apply list_elem_of_split in Ht as (t1 & t2 & ->).
  pose proof (wf_cont _ _ W) as HC. apply contiguous_app in HC as (j & _ & Hs' & Hl & HC).
  simpl in Hs', HC. apply maximal_app_inv in Hm as [_ Hm]. destruct t2 as [|u t2]; cbn [contiguous] in HC; [lia|].
  destruct HC as (Hu & Hlu & _). destruct Hm as [Hm _]. rewrite free_free in Hm. apply Hm. split; [done|].
  apply (Hfree u (s' + m)); [set_solver| |lia]. unfold covers. lia.
Qed.

(** ** Allocation *)

Section alloc.
Context (mem_base next_cpu_id : Z) (mmap_ok : Z -> Z -> bool).
Context (live : Z -> bool) (do_reclaim : Z -> store -> outcome (store * bool)).

Abbreviation alloc := (cpu_allocate_large mem_base next_cpu_id mmap_ok live do_reclaim).
Abbreviation alloc_aligned := (cpu_allocate_large_aligned mem_base next_cpu_id mmap_ok live do_reclaim).

Lemma low_memory_no (fuel : nat) st :
  current_min_free_pages (cpu st) <= nr_free_pages (cpu st) -> low_memory live do_reclaim fuel st = Ret st.
Proof. intros H. unfold low_memory. by rewrite (proj2 (Z.ltb_ge _ _) H). Qed.

(** A span of at least [need] pages out of which [tr] cuts [n] at [off]. *)
Lemma allocate_and_trim_found fuel st ts need tr s m :
  inv (cpu st) ts -> 0 < need <= 2 ^ 30 -> Tile s m Free ∈ ts -> need <= m ->
  (forall x y, Tile x y Free ∈ ts -> need <= y ->
    let t := tr x (nr_pages (cpu st)) in
    0 <= offset t /\ 0 < trim_pages t /\ offset t + trim_pages t <= y /\
    current_min_free_pages (cpu st) <= nr_free_pages (cpu st) - trim_pages t) ->
  exists c' t1 x y t2, let t := tr x (nr_pages (cpu st)) in
    allocate_large_and_trim mem_base next_cpu_id mmap_ok live do_reclaim (S fuel) st need tr =
      Ret (with_cpu c' st, Some (address_of (cpu st) (x + offset t))) /\
    ts = t1 ++ Tile x y Free :: t2 /\ need <= y /\
    let ts' := (t1 ++ gap x (offset t)) ++ Tile (x + offset t) (trim_pages t) Used ::
      gap (x + offset t + trim_pages t) (y - offset t - trim_pages t) ++ t2 in
    inv c' ts' /\ frame (used t1 ++ used t2) (cpu st) c' /\
    nr_free_pages c' = nr_free_pages (cpu st) - trim_pages t /\
    at_page (ary c') (x + offset t) (fun p => pool p = None).
Proof.
  intros (W & Ha & Hm & Hh) Hn Hin Hle Htr. unfold allocate_large_and_trim. cbn [find_and_unlink_span_reclaiming].
  destruct (find_and_unlink_span_spec mem_base next_cpu_id mmap_ok _ _ _ W Hn) as (c1 & r & -> & Hf).
  cbn [bindO]. destruct r as [x|]; cycle 1.
  { destruct Hf as [_ Hf]. specialize (Hf _ _ Hin I). lia. }
  destruct Hf as (t1 & y & t2 & -> & Hy & W1 & F1 & N1 & A1). cbn [bindO cpu with_cpu].
  assert (nr_free_pages c1 = free_sum (t1 ++ t2) + y) as Ha1.
  { rewrite N1, Ha, free_sum_mid, free_free. simpl. lia. }
  destruct F1 as (G1 & G2 & G3 & G4 & G5). apply no_held_app in Hh as Hh'.
  destruct (Htr x y ltac:(set_solver) Hy) as (T1 & T2 & T3 & T4). rewrite <- G2 in *.
  destruct (trim_span_spec c1 t1 x y t2 tr W1 A1 Ha1) as (c2 & -> & I2 & F2 & N2 & A2); [|done..|].
  { intros t Ht. apply Hh. set_solver. }
  cbn [bindO]. destruct F2 as (K1 & K2 & K3 & K4 & K5).
  rewrite low_memory_no by (cbn [cpu with_cpu]; lia). cbn [bindO]. unfold address_of.
  cbn [cpu with_cpu]. rewrite K1, G1.
  exists c2, t1, x, y, t2. cbv zeta. split; [done|]. split; [done|]. split; [done|]. split; [exact I2|].
  split; [|split; [lia|exact A2]]. split; [congruence|]. split; [congruence|]. split; [congruence|].
  split; [congruence|]. intros t i Ht Hi. rewrite (K5 t), (G5 t) by done. done.
Qed.

(** Nothing long enough and nobody to reclaim: a null pointer, and nothing has changed. *)
Lemma allocate_and_trim_none fuel st ts need tr :
  inv (cpu st) ts -> 0 < need <= 2 ^ 30 -> (forall s m, Tile s m Free ∈ ts -> m < need) ->
  reclaimers st = [] ->
  exists st', allocate_large_and_trim mem_base next_cpu_id mmap_ok live do_reclaim (S (S fuel)) st need tr = Ret (st', None) /\
    cpu st' = cpu st /\ reclaimers st' = [].
Proof.
  intros (W & _) Hn Hlt Hr. unfold allocate_large_and_trim. cbn [find_and_unlink_span_reclaiming].
  destruct (find_and_unlink_span_spec mem_base next_cpu_id mmap_ok _ _ _ W Hn) as (c1 & r & -> & Hf).
  cbn [bindO]. destruct r as [x|].
  { destruct Hf as (t1 & y & t2 & -> & Hy & _). specialize (Hlt x y ltac:(set_solver)). lia. }
  destruct Hf as [-> _]. unfold run_reclaimers. cbn [reclaim_loop].
  destruct (nr_free_pages (cpu (with_cpu (cpu st) st)) <? _).
  - change (reclaimers (with_cpu (cpu st) st)) with (reclaimers st). rewrite Hr. cbn [reclaim_pass bindO negb].
    eexists. split; [reflexivity|]. done.
  - cbn [bindO]. eexists. split; [reflexivity|]. done.
Qed.
End alloc.

(** The large trimmer takes the front of the span. *)
Lemma trim_large_ok c ts n s m :
  inv c ts -> 0 < n -> Tile s m Free ∈ ts -> n <= m ->
  trim_large n s (nr_pages c) = Trim 0 n.
Proof.
  intros (W & _) Hn Ht Hle. pose proof (wf_bounds _ _ _ W Ht) as B. simpl in B. unfold trim_large. f_equal. lia.
Qed.

Lemma used_perm_cons t1 t2 s n : used t1 ++ Tile s n Used :: used t2 ≡ₚ Tile s n Used :: used t1 ++ used t2.
Proof. symmetry. apply Permutation_middle. Qed.

Lemma free_no_room c ts s m t : inv c ts -> Tile s m Free ∈ ts -> t ∈ used ts ->
  forall x y, s <= x -> x + y <= s + m -> ~ overlaps t x y.
Proof.
  intros (W & _) Hs Ht x y Hx Hy (i & Hi & Hxi). apply used_in in Ht as [Ht Hu].
  rewrite (wf_covers _ _ _ (Tile s m Free) i W Ht Hs Hi) in Hu; [done|]. unfold covers. simpl. lia.
Qed.

Lemma free_is_room c t1 s m t2 x n :
  inv c (t1 ++ Tile s m Free :: t2) -> s <= x -> x + n <= s + m -> room (used t1 ++ used t2) (nr_pages c) x n.
Proof.
  intros I Hx Hn. pose proof I as (W & _).
  pose proof (wf_bounds _ _ (Tile s m Free) W ltac:(set_solver)) as B. simpl in B. split; [lia|]. split; [lia|].
  intros t Ht. eapply free_no_room; [exact I| | |exact Hx|exact Hn]; [set_solver|].
  rewrite used_app, used_cons. exact Ht.
Qed.

Lemma used_found t1 x y t2 : used (t1 ++ Tile x y Free :: t2) = used t1 ++ used t2.
Proof. by rewrite used_app, used_cons. Qed.

Lemma used_cut t1 t2 s n x y z w :
  used ((t1 ++ gap x y) ++ Tile s n Used :: gap z w ++ t2) = used t1 ++ Tile s n Used :: used t2.
Proof. rewrite !used_app, used_cons, used_app, !used_gap, app_nil_r. done. Qed.

Section runs.
Context (mem_base next_cpu_id : Z) (mmap_ok : Z -> Z -> bool).
Context (live : Z -> bool) (do_reclaim : Z -> store -> outcome (store * bool)).

Abbreviation alloc := (cpu_allocate_large mem_base next_cpu_id mmap_ok live do_reclaim).
Abbreviation alloc_aligned := (cpu_allocate_large_aligned mem_base next_cpu_id mmap_ok live do_reclaim).

(** What one allocation does to the pool. *)
Lemma alloc_ok fuel st ts n s m :
  inv (cpu st) ts -> 0 < n <= 2 ^ 30 -> Tile s m Free ∈ ts -> n <= m ->
  current_min_free_pages (cpu st) <= nr_free_pages (cpu st) - n ->
  exists c' t1 x y t2,
    alloc (S fuel) st n = Ret (with_cpu c' st, Some (address_of (cpu st) x)) /\
    ts = t1 ++ Tile x y Free :: t2 /\ n <= y /\
    inv c' (t1 ++ Tile x n Used :: gap (x + n) (y - n) ++ t2) /\
    frame (used t1 ++ used t2) (cpu st) c' /\ nr_free_pages c' = nr_free_pages (cpu st) - n /\
    at_page (ary c') x (fun p => pool p = None).
Proof.
  intros I Hn Hin Hle Hmin.
  destruct (allocate_and_trim_found mem_base next_cpu_id mmap_ok live do_reclaim fuel st ts n (trim_large n) s m I Hn Hin Hle)
    as (c' & t1 & x & y & t2 & HH).
  { intros x y Hx Hy. rewrite (trim_large_ok _ ts n x y) by (done || lia). simpl. lia. }
  cbv zeta in HH. destruct HH as (Ha & E & Hy & HH).
  assert (Tile x y Free ∈ ts) as Hx by (subst; set_solver).
  rewrite (trim_large_ok _ ts n x y) in Ha, HH by (done || lia). cbn [offset trim_pages] in Ha, HH.
  rewrite gap_0, app_nil_r, !Z.add_0_r, Z.sub_0_r in *. exists c', t1, x, y, t2. split; [exact Ha|]. done.
Qed.

(** Two tilings of a pool with the same runs in use are the same. *)
Lemma inv_canonical c c' ts ts' :
  inv c ts -> inv c' ts' -> nr_pages c' = nr_pages c -> used ts' = used ts -> ts' = ts.
Proof.
  intros (W & _ & M & H) (W' & _ & M' & H') Hn Hu.
  apply (tiling_canonical 1 ts' ts (nr_pages c)); [rewrite <- Hn; apply W'|apply W|done|done| |done].
  intros t [Ht|Ht]%elem_of_app; auto.
Qed.

(** C14: [allocate_large] hands out pages no run in use covers, inside the pool,
    and leaves every run in use alone; it does so whenever such pages exist. *)
Theorem allocate_large_fresh fuel st ts n x :
  inv (cpu st) ts -> 0 < n <= 2 ^ 30 -> room (used ts) (nr_pages (cpu st)) x n ->
  current_min_free_pages (cpu st) <= nr_free_pages (cpu st) - n ->
  exists c' s ts',
    alloc (S fuel) st n = Ret (with_cpu c' st, Some (address_of (cpu st) s)) /\
    room (used ts) (nr_pages (cpu st)) s n /\
    inv c' ts' /\ used ts' ≡ₚ Tile s n Used :: used ts /\
    nr_free_pages c' = nr_free_pages (cpu st) - n /\ frame (used ts) (cpu st) c'.
Proof.
  intros I Hn Hroom Hmin. destruct (room_in_free _ _ _ _ I (proj1 Hn) Hroom) as (s0 & m & Hin & H1 & H2).
  destruct (alloc_ok fuel st ts n s0 m I Hn Hin ltac:(lia) Hmin) as (c' & t1 & s & y & t2 & Ha & -> & Hy & I' & F & N & _).
  exists c', s, (t1 ++ Tile s n Used :: gap (s + n) (y - n) ++ t2).
  rewrite used_found. split; [exact Ha|]. split; [by apply (free_is_room _ _ s y); [|lia..]|].
  split; [exact I'|]. split; [|done].
  rewrite used_app, used_cons, used_app, used_gap. simpl. by rewrite <- Permutation_middle.
Qed.

Lemma free_sum_ge c ts s m : inv c ts -> Tile s m Free ∈ ts -> m <= nr_free_pages c.
Proof.
  intros (W & Ha & _) Hin. apply list_elem_of_split in Hin as (u1 & u2 & ->).
  rewrite Ha, free_sum_mid, free_free. simpl. pose proof (wf_cont _ _ W) as HC.
  apply contiguous_app in HC as (j & HC1 & _ & _ & HC2). rewrite free_sum_app.
  pose proof (free_sum_bound _ _ _ HC1). pose proof (free_sum_bound _ _ _ HC2). lia.
Qed.

(** Either some free run is long enough, or there is no room at all. *)
Lemma room_or_not c ts n : inv c ts -> 0 < n ->
  (exists s m, Tile s m Free ∈ ts /\ n <= m) \/
  ((forall s m, Tile s m Free ∈ ts -> m < n) /\ ~ exists s, room (used ts) (nr_pages c) s n).
Proof.
  intros I Hn. destruct (decide (Exists (fun t => t_kind t = Free /\ n <= t_len t) ts)) as [H|H].
  - left. apply list.Exists_exists in H as ([s m k] & Hin & Hk & Hle). simpl in *. subst. eauto.
  - right. assert (forall s m, Tile s m Free ∈ ts -> m < n) as Hlt.
    { intros s m Hin. destruct (Z.lt_ge_cases m n) as [|Hge]; [done|]. destruct H. apply list.Exists_exists. eauto. }
    split; [done|]. intros (s & Hr). destruct (room_in_free _ _ _ _ I Hn Hr) as (s0 & m & Hin & H1 & H2).
    specialize (Hlt _ _ Hin). lia.
Qed.

(** Without reclaimers, [allocate_large] returns a null pointer exactly when
    no [n] consecutive pages are unused: coalescing leaves no fragmentation
    of its own. *)
Theorem allocate_large_null_iff fuel st ts n :
  inv (cpu st) ts -> 0 < n <= 2 ^ 30 -> reclaimers st = [] -> current_min_free_pages (cpu st) = 0 ->
  (exists st', alloc (S (S fuel)) st n = Ret (st', None)) <->
  ~ exists x, room (used ts) (nr_pages (cpu st)) x n.
Proof.
  intros I Hn Hr Hmin. destruct (room_or_not _ _ n I (proj1 Hn)) as [(s & m & Hin & Hle)|[Hlt Hno]].
  - pose proof (free_sum_ge _ _ _ _ I Hin).
    destruct (alloc_ok (S fuel) st ts n s m I Hn Hin Hle ltac:(lia)) as (c' & t1 & x & y & t2 & Ha & E & Hy & _).
    split; [intros (st' & Ha'); congruence|]. intros Hno. destruct Hno. exists x.
    rewrite E in I. rewrite E, used_found. by apply (free_is_room _ _ x y); [|lia..].
  - split; [done|]. intros _.
    destruct (allocate_and_trim_none mem_base next_cpu_id mmap_ok live do_reclaim fuel st ts n (trim_large n) I Hn Hlt Hr)
      as (st' & Ha & _). by exists st'.
Qed.

(** C16: Freeing what was just allocated restores the pool: the same runs, free
    and in use, and the same number of free pages. *)
Theorem allocate_then_free_restores fuel st ts n x :
  inv (cpu st) ts -> geometry (cpu st) -> 0 < n <= 2 ^ 30 -> room (used ts) (nr_pages (cpu st)) x n ->
  current_min_free_pages (cpu st) <= nr_free_pages (cpu st) - n ->
  exists c' ptr c'',
    alloc (S fuel) st n = Ret (with_cpu c' st, Some ptr) /\ free_large c' ptr = Ret c'' /\
    inv c'' ts /\ nr_free_pages c'' = nr_free_pages (cpu st).
Proof.
  intros I G Hn Hroom Hmin. destruct (room_in_free _ _ _ _ I (proj1 Hn) Hroom) as (s0 & m & Hin & H1 & H2).
  destruct (alloc_ok fuel st ts n s0 m I Hn Hin ltac:(lia) Hmin) as (c' & t1 & s & y & t2 & Ha & -> & Hy & I' & F & N & _).
  destruct F as (K1 & K2 & K3 & K4 & K5).
  assert (geometry c') as G' by (unfold geometry in *; rewrite K1, K2; done).
  destruct (free_large_spec _ _ _ _ _ I' G') as (c'' & ts'' & Hf & I'' & U'' & F'' & N'').
  exists c', (address_of (cpu st) s), c''. split; [exact Ha|].
  assert (address_of c' s = address_of (cpu st) s) as E by (unfold address_of; by rewrite K1). rewrite E in Hf.
  split; [exact Hf|]. split; [|lia].
  rewrite <- (inv_canonical (cpu st) c'' _ ts'' I I''); [done| |].
  - destruct F'' as (_ & F'' & _). congruence.
  - by rewrite U'', used_app, used_gap, used_found.
Qed.

Lemma align_up32_ok v k : 0 <= v -> 0 <= k -> v + 2 ^ k < 2 ^ 32 ->
  v <= align_up32 v (2 ^ k) < v + 2 ^ k /\ (2 ^ k | align_up32 v (2 ^ k)).
Proof.
  intros Hv Hk Hb. pose proof (Z.pow_pos_nonneg 2 k ltac:(lia) Hk) as Hp. unfold align_up32.
  rewrite land_lnot_ones, (u32_id (v + 2 ^ k)), u32_id by lia. split; [|apply Z.divide_factor_r].
  pose proof (Z.div_mod (v + 2 ^ k - 1) (2 ^ k) ltac:(lia)). pose proof (Z.mod_pos_bound (v + 2 ^ k - 1) (2 ^ k) Hp). lia.
Qed.

(** An aligned allocation gives pages whose address is a multiple of the
    alignment, inside the unused pages, and keeps the pool well-formed. *)
Theorem allocate_large_aligned_ok fuel st ts k n s m :
  inv (cpu st) ts -> 0 <= k <= 24 -> 0 < n -> n + 2 ^ k - 1 <= 2 ^ 30 ->
  Tile s m Free ∈ ts -> n + 2 ^ k - 1 <= m -> nr_pages (cpu st) < 2 ^ 31 ->
  (2 ^ k * page_size | memory (cpu st)) ->
  current_min_free_pages (cpu st) <= nr_free_pages (cpu st) - n ->
  exists c' i ts',
    alloc_aligned (S fuel) st (2 ^ k) n = Ret (with_cpu c' st, Some (address_of (cpu st) i)) /\
    (2 ^ k * page_size | address_of (cpu st) i) /\ room (used ts) (nr_pages (cpu st)) i n /\
    inv c' ts' /\ used ts' ≡ₚ Tile i n Used :: used ts.
Proof.
  intros I Hk Hn Hle Hin Hm Hnr Hmem Hmin. pose proof (Z.pow_pos_nonneg 2 k ltac:(lia) ltac:(lia)) as Hp.
  assert (2 ^ k <= 2 ^ 24) as Hk' by (apply Z.pow_le_mono_r; lia).
  assert (forall x y, Tile x y Free ∈ ts -> n + 2 ^ k - 1 <= y ->
    x <= align_up32 x (2 ^ k) < x + 2 ^ k /\ (2 ^ k | align_up32 x (2 ^ k)) /\
    offset (trim_aligned (2 ^ k) n x (nr_pages (cpu st))) = align_up32 x (2 ^ k) - x) as Hal.
  { intros x y Hx Hy. pose proof I as (W & _). pose proof (wf_bounds _ _ _ W Hx) as B. simpl in B.
    destruct (align_up32_ok x k) as [A1 A2]; [lia..|]. split; [done|]. split; [done|]. simpl. apply u32_id. lia. }
  unfold cpu_allocate_large_aligned. rewrite (u32_id (n + 2 ^ k)), u32_id by lia.
  destruct (allocate_and_trim_found mem_base next_cpu_id mmap_ok live do_reclaim fuel st ts (n + 2 ^ k - 1)
    (trim_aligned (2 ^ k) n) s m I ltac:(lia) Hin Hm) as (c' & t1 & x & y & t2 & HH).
  { intros x y Hx Hy. destruct (Hal x y Hx Hy) as (A1 & A2 & A3). cbv zeta. rewrite A3. simpl. lia. }
  cbv zeta in HH. destruct HH as (Ha & -> & Hy & I' & _).
  destruct (Hal x y ltac:(set_solver) Hy) as (A1 & A2 & A3). rewrite A3 in *. cbn [trim_pages trim_aligned] in *.
  replace (x + (align_up32 x (2 ^ k) - x)) with (align_up32 x (2 ^ k)) in * by lia.
  exists c', (align_up32 x (2 ^ k)). eexists. split; [exact Ha|]. split.
  - unfold address_of. apply Z.divide_add_r; [done|]. by apply Z.mul_divide_mono_r.
  - rewrite used_found. split; [by apply (free_is_room _ _ x y); [|lia..]|]. split; [exact I'|].
    rewrite used_cut. apply used_perm_cons.
Qed.

(** ** The abstract allocator *)

Inductive request : Type :=
  | Alloc (n : Z)
  | Release (ptr : Z)
  | Shrink (ptr new_size : Z).

Definition serve (fuel : nat) (st : store) (r : request) : outcome (store * option Z) :=
  match r with
  | Alloc n => alloc fuel st n
  | Release ptr => do c <- free_large (cpu st) ptr;; Ret (with_cpu c st, None)
  | Shrink ptr new_size => do c <- shrink_large (cpu st) ptr new_size;; Ret (with_cpu c st, None)
  end.

(** One request in a pool of the pages [1..e) at [base]; [us] are the runs in
    use, whose order does not matter. *)
Inductive spec_step (base e : Z) : list tile -> request -> option Z -> list tile -> Prop :=
  | spec_alloc us n s us' : room us e s n -> us' ≡ₚ Tile s n Used :: us ->
      spec_step base e us (Alloc n) (Some (base + s * page_size)) us'
  | spec_alloc_null us n us' : (~ exists s, room us e s n) -> us' ≡ₚ us ->
      spec_step base e us (Alloc n) None us'
  | spec_release us s n us' : us ≡ₚ Tile s n Used :: us' ->
      spec_step base e us (Release (base + s * page_size)) None us'
  | spec_shrink us s n k us0 us' : us ≡ₚ Tile s n Used :: us0 ->
      us' ≡ₚ Tile s ((k + 4095) / 4096) Used :: us0 ->
      spec_step base e us (Shrink (base + s * page_size) k) None us'.

(** What a client may ask for. *)
Definition enabled (base : Z) (us : list tile) (r : request) : Prop :=
  match r with
  | Alloc n => 0 < n <= 2 ^ 30
  | Release ptr => exists s n, Tile s n Used ∈ us /\ ptr = base + s * page_size
  | Shrink ptr k => exists s n, Tile s n Used ∈ us /\ ptr = base + s * page_size /\ 0 < k <= n * page_size
  end.

Definition implements (base e : Z) (st : store) (us : list tile) : Prop :=
  memory (cpu st) = base /\ nr_pages (cpu st) = e /\ geometry (cpu st) /\
  reclaimers st = [] /\ current_min_free_pages (cpu st) = 0 /\
  exists ts, inv (cpu st) ts /\ used ts ≡ₚ us.

Lemma implements_frame base e st us c' ts' us' fr :
  implements base e st us -> frame fr (cpu st) c' -> inv c' ts' -> used ts' ≡ₚ us' ->
  implements base e (with_cpu c' st) us'.
Proof.
  intros (M & N & (G1 & G2) & R & C & _) (F1 & F2 & F3 & F4 & _) I U. unfold implements, geometry.
  cbn [cpu with_cpu reclaimers]. rewrite F1, F2, F4. repeat (split; [done|]). by exists ts'.
Qed.

Lemma room_perm us us' e s n : us ≡ₚ us' -> room us e s n -> room us' e s n.
Proof. intros Hp (H1 & H2 & H3). repeat (split; [done|]). intros t Ht. apply H3. by rewrite Hp. Qed.

Lemma used_split ts us s n : used ts ≡ₚ us -> Tile s n Used ∈ us ->
  exists t1 t2, ts = t1 ++ Tile s n Used :: t2 /\ us ≡ₚ Tile s n Used :: used t1 ++ used t2.
Proof.
  intros Hp Hin. rewrite <- Hp in Hin. apply used_in in Hin as [Hin _].
  apply list_elem_of_split in Hin as (t1 & t2 & ->). exists t1, t2. split; [done|].
  rewrite <- Hp, used_app, used_cons. simpl. by rewrite <- Permutation_middle.
Qed.

(** C3: Every request the abstract allocator allows is served, with a result
    and a next state the abstract allocator allows. *)
Theorem allocator_refines_runs fuel base e st us r :
  implements base e st us -> enabled base us r ->
  exists st' res us', serve (S (S fuel)) st r = Ret (st', res) /\
    spec_step base e us r res us' /\ implements base e st' us'.
Proof.
  intros Himp Hen. pose proof Himp as (HM & HN & G & HR & HC & ts & I & U). destruct r as [n|ptr|ptr k]; simpl in Hen.
  - destruct (room_or_not _ _ n I (proj1 Hen)) as [(s & m & Hin & Hle)|[Hlt Hno]].
    + pose proof (free_sum_ge _ _ _ _ I Hin).
      destruct (alloc_ok (S fuel) st ts n s m I Hen Hin Hle ltac:(lia)) as (c' & t1 & x & y & t2 & Ha & E & Hy & I' & F & _).
      subst ts. rewrite used_found in U.
      exists (with_cpu c' st), (Some (address_of (cpu st) x)), (Tile x n Used :: us). split; [exact Ha|].
      unfold address_of. rewrite HM. split.
      * apply spec_alloc with (us := us); [|done]. rewrite <- HN. apply (room_perm (used t1 ++ used t2)); [done|].
        by apply (free_is_room _ _ x y); [|lia..].
      * eapply implements_frame; [exact Himp|exact F|exact I'|].
        rewrite used_app, used_cons, used_app, used_gap. cbn [app is_used]. simpl.
        rewrite <- Permutation_middle. by constructor.
    + destruct (allocate_and_trim_none mem_base next_cpu_id mmap_ok live do_reclaim fuel st ts n (trim_large n) I Hen Hlt HR)
        as (st' & Ha & E & ER). exists st', None, us. split; [exact Ha|]. split.
      * apply spec_alloc_null; [|done]. intros (x & Hx). apply Hno. exists x. rewrite HN. by apply (room_perm us).
      * unfold implements. rewrite E. repeat (split; [done|]). by exists ts.
  - destruct Hen as (s & n & Hin & ->). destruct (used_split _ _ _ _ U Hin) as (t1 & t2 & -> & U').
    destruct (free_large_spec _ _ _ _ _ I G) as (c' & ts' & Hf & I' & U1 & F & _).
    unfold address_of in Hf. rewrite HM in Hf. unfold serve. rewrite Hf. cbn [bindO].
    eexists _, None, (used t1 ++ used t2). split; [reflexivity|]. split.
    + by eapply spec_release.
    + eapply implements_frame; [exact Himp|exact F|exact I'|]. by rewrite U1.
  - destruct Hen as (s & n & Hin & -> & Hk). destruct (used_split _ _ _ _ U Hin) as (t1 & t2 & -> & U').
    destruct (shrink_large_spec _ _ _ _ _ k I G Hk) as (c' & ts' & Hf & I' & U1 & F & _).
    unfold address_of in Hf. rewrite HM in Hf. unfold serve. rewrite Hf. cbn [bindO].
    eexists _, None, _. split; [reflexivity|]. split.
    + eapply spec_shrink; [exact U'|reflexivity].
    + eapply implements_frame; [exact Himp|exact F|exact I'|]. rewrite U1. apply used_perm_cons.
Qed.

End runs.

(** ** Reclaiming *)

Section reclaim.
Context (mem_base next_cpu_id : Z) (mmap_ok : Z -> Z -> bool).
Context (live : Z -> bool) (do_reclaim : Z -> store -> outcome (store * bool)).

Definition pool_inv (st : store) : Prop := exists ts, inv (cpu st) ts.

(** What the callers rely on: a reclaimer returns, leaves the pool well-formed,
    takes no pages, and frees some when it says so. *)
Definition tame : Prop :=
  forall r st, pool_inv st -> exists st' b, do_reclaim r st = Ret (st', b) /\ pool_inv st' /\
    reclaimers st' = reclaimers st /\ nr_pages (cpu st') = nr_pages (cpu st) /\
    nr_free_pages (cpu st) <= nr_free_pages (cpu st') /\
    (b = true -> nr_free_pages (cpu st) < nr_free_pages (cpu st')).

(** [st'] is [st] after some reclaiming, which made progress when [b] holds. *)
Definition reclaimed (st st' : store) (b : bool) : Prop :=
  pool_inv st' /\ reclaimers st' = reclaimers st /\ nr_pages (cpu st') = nr_pages (cpu st) /\
  nr_free_pages (cpu st) <= nr_free_pages (cpu st') /\
  (b = true -> nr_free_pages (cpu st) < nr_free_pages (cpu st')).

Lemma reclaimed_refl st b : pool_inv st -> b = false -> reclaimed st st b.
Proof. intros I ->. by repeat split; try lia. Qed.

Lemma reclaimed_trans st0 st1 st2 a b :
  reclaimed st0 st1 a -> reclaimed st1 st2 b -> reclaimed st0 st2 (a || b).
Proof.
  intros (I & R & N & L & B) (I' & R' & N' & L' & B'). split; [done|]. split; [congruence|].
  split; [congruence|]. split; [lia|]. intros [Hb|Hb]%orb_true_iff; [specialize (B Hb)|specialize (B' Hb)]; lia.
Qed.

Lemma reclaimed_count st : pool_inv st -> reclaimed st (count_reclaim st) false.
Proof. intros I. split; [exact I|]. split; [done|]. split; [done|]. split; [simpl; lia|discriminate]. Qed.

Lemma reclaim_pass_ok rs scope st0 st made :
  tame -> reclaimed st0 st made ->
  exists st' b, reclaim_pass do_reclaim rs scope st made = Ret (st', b) /\ reclaimed st0 st' b.
Proof.
  intros Ht. revert st made. induction rs as [|[r sc] rs IH]; intros st made H; cbn [reclaim_pass]; [eauto|].
  destruct (scope_le scope sc); [|by apply IH].
  destruct (Ht r st (proj1 H)) as (st' & b & -> & H'). cbn [bindO]. apply IH. by eapply reclaimed_trans.
Qed.

Lemma pool_inv_bound st : pool_inv st -> 0 <= nr_free_pages (cpu st) < nr_pages (cpu st) /\ nr_pages (cpu st) < 2 ^ 32.
Proof.
  intros (ts & W & Ha & _). rewrite Ha. pose proof (free_sum_bound _ _ _ (wf_cont _ _ W)). pose proof (wf_nr _ _ W). lia.
Qed.

Lemma reclaim_loop_ok scope target st0 fuel st result :
  tame -> reclaimed st0 st result -> result = true \/ nr_free_pages (cpu st) < target ->
  Z.max 0 (target - nr_free_pages (cpu st)) < Z.of_nat fuel ->
  exists st' b, reclaim_loop do_reclaim fuel scope target st result = Ret (st', b) /\ reclaimed st0 st' b /\
    (b = true /\ target <= nr_free_pages (cpu st') \/
     exists st1, reclaim_pass do_reclaim (reclaimers st0) scope st1 false = Ret (st', false)).
Proof.
  intros Ht. revert st result. induction fuel as [|fuel IH]; intros st result H Hor Hf; [lia|]. cbn [reclaim_loop].
  case_if.
  - destruct (reclaim_pass_ok (reclaimers st) scope st (count_reclaim st) false Ht) as (st1 & b & Hp & H1);
      [apply reclaimed_count, H|].
    rewrite Hp. cbn [bindO]. pose proof (reclaimed_trans _ _ _ _ _ H H1) as H2. destruct b; cbn [negb].
    + rewrite orb_true_r in H2. destruct H1 as (_ & _ & _ & _ & B1). specialize (B1 eq_refl).
      apply IH; [done|by left|lia].
    + rewrite orb_false_r in H2. exists st1, result. split; [done|]. split; [done|]. right.
      exists (count_reclaim st). destruct H as (_ & <- & _). exact Hp.
  - exists st, result. split; [done|]. split; [done|]. left. destruct Hor as [->|]; [done|lia].
Qed.

(** Enough for one call of [run_reclaimers]. *)
Definition reclaim_fuel : nat := Z.to_nat (min_free_pages + 3).

Lemma run_reclaimers_ok fuel scope st :
  tame -> pool_inv st -> Z.of_nat reclaim_fuel <= Z.of_nat fuel ->
  exists st' b, run_reclaimers do_reclaim fuel scope st = Ret (st', b) /\ reclaimed st st' b /\
    (b = true /\ min_free_pages <= nr_free_pages (cpu st') \/
     exists st1, reclaim_pass do_reclaim (reclaimers st) scope st1 false = Ret (st', false)).
Proof.
  intros Ht I Hf. pose proof (pool_inv_bound _ I) as B. unfold run_reclaimers. rewrite u32_id by lia.
  unfold reclaim_fuel in Hf. rewrite Z2Nat.id in Hf by done. change min_free_pages with 4882 in *.
  destruct (reclaim_loop_ok scope (Z.max (nr_free_pages (cpu st) + 1) 4882) st fuel st false Ht)
    as (st' & b & Hl & Hr & Hd); [by apply reclaimed_refl|right; lia|lia|].
  exists st', b. split; [exact Hl|]. split; [exact Hr|]. destruct Hd as [[-> Hd]|Hd]; [left; split; [done|lia]|by right].
Qed.

(** An allocation with well-behaved reclaimers always returns: with a span
    that is long enough, or when a whole pass over the reclaimers has freed
    nothing. *)
Theorem allocation_reclaims_until_stuck fuel st n :
  tame -> pool_inv st -> 0 < n <= 2 ^ 30 ->
  nr_pages (cpu st) - nr_free_pages (cpu st) + Z.of_nat reclaim_fuel < Z.of_nat fuel ->
  exists st' res,
    find_and_unlink_span_reclaiming mem_base next_cpu_id mmap_ok do_reclaim fuel st n = Ret (st', res) /\
    match res with
    | Some s => exists m, n <= m /\ at_page (ary (cpu st')) s (fun p => span_size p = m)
    | None => exists st1, reclaim_pass do_reclaim (reclaimers st) sync st1 false = Ret (st', false)
    end.
Proof.
  intros Ht I Hn. remember (reclaimers st) as rs eqn:Hrs. revert st I Hrs. induction fuel as [|fuel IH]; intros st I Hrs Hf.
  { pose proof (pool_inv_bound _ I). lia. }
  cbn [find_and_unlink_span_reclaiming]. pose proof I as (ts & W & _).
  destruct (find_and_unlink_span_spec mem_base next_cpu_id mmap_ok _ _ _ W Hn) as (c1 & r & -> & Hfd). cbn [bindO].
  destruct r as [x|].
  - destruct Hfd as (t1 & y & t2 & -> & Hy & _ & _ & _ & A1). eexists _, _. split; [reflexivity|]. by exists y.
  - destruct Hfd as [-> Hno]. assert (with_cpu (cpu st) st = st) as -> by (by destruct st).
    destruct (run_reclaimers_ok fuel sync st Ht I) as (st' & b & -> & (I' & R' & N' & L' & B') & Hd);
      [pose proof (pool_inv_bound _ I); lia|]. cbn [bindO]. destruct b.
    + specialize (B' eq_refl). apply (IH st' I' ltac:(congruence)). lia.
    + exists st', None. split; [done|]. destruct Hd as [[? _]|Hd]; [done|]. by rewrite Hrs.
Qed.
End reclaim.

(** ** A concrete pool *)

(** The pool of cpu 0 after its first use. *)
Definition result_of {A : Type} (m : outcome A) (d : A) : A := match m with Ret a => a | _ => d end.
Definition pool0 : cpu_pages := fst (result_of (initialize (2 ^ 44) 0 (fun _ _ => true) new) (new, false)).
Definition tiles0 : list tile := [Tile 1 64 Reserved; Tile 65 8127 Free].
Definition store0 : store := Store pool0 [] ∅ 0 [] false 0 [] (Stats 0 0 0 0).

Lemma pool0_facts :
  inv pool0 tiles0 /\ nr_pages pool0 = 8192 /\ memory pool0 = 2 ^ 44 /\ cpu_id pool0 = 0 /\
  nr_free_pages pool0 = 8127 /\ current_min_free_pages pool0 = 0 /\ geometry pool0.
Proof.
  destruct (initialize_spec (2 ^ 44) 0 (fun _ _ => true)) as (c & E & I & N & M & C & F & L); [done|done|].
  assert (pool0 = c) as -> by (unfold pool0; by rewrite E).
  assert (memory c = 2 ^ 44) as M' by (rewrite M; reflexivity).
  repeat (split; [assumption|]). unfold geometry. rewrite N, M', page_size_eq. lia.
Qed.

#[global] Opaque pool0.

Lemma tiles0_room n : 0 < n <= 8127 -> room (used tiles0) (nr_pages pool0) 65 n.
Proof.
  intros Hn. destruct pool0_facts as (_ & -> & _). split; [lia|]. split; [lia|].
  intros t Ht (i & Hi & Hx). apply used_in in Ht as [Ht Hu].
  apply elem_of_cons in Ht as [->|Ht]; [unfold covers in Hi; simpl in Hi; lia|].
  apply list_elem_of_singleton in Ht as ->. discriminate.
Qed.

(** The allocator at work on that pool, without reclaimers. *)
Abbreviation alloc0 := (cpu_allocate_large (2 ^ 44) 1 (fun _ _ => true) (fun _ => true) (fun _ st => Ret (st, false))).

Lemma allocate_large_fresh_witness :
  exists c' s ts', alloc0 1 store0 10 = Ret (with_cpu c' store0, Some (address_of pool0 s)) /\
    inv c' ts' /\ used ts' ≡ₚ Tile s 10 Used :: used tiles0.
Proof.
  destruct pool0_facts as (I & N & _ & _ & F & L & _).
  destruct (allocate_large_fresh (2 ^ 44) 1 (fun _ _ => true) (fun _ => true) (fun _ st => Ret (st, false))
    0 store0 tiles0 10 65) as (c' & s & ts' & H1 & _ & H2 & H3 & _).
  - exact I.
  - lia.
  - apply tiles0_room. lia.
  - cbn [store0 cpu]. rewrite L, F. lia.
  - exists c', s, ts'. split; [exact H1|]. split; [exact H2|exact H3].
Defined.

Lemma allocate_large_null_iff_witness :
  (exists st', alloc0 2 store0 8128 = Ret (st', None)) <-> ~ exists x, room (used tiles0) 8192 x 8128.
Proof.
  destruct pool0_facts as (I & N & _ & _ & F & L & _). rewrite <- N.
  apply (allocate_large_null_iff (2 ^ 44) 1 (fun _ _ => true) (fun _ => true) (fun _ st => Ret (st, false))
    0 store0 tiles0 8128); [exact I|lia|reflexivity|exact L].
Defined.

Lemma allocate_then_free_restores_witness :
  exists c' ptr c'', alloc0 1 store0 10 = Ret (with_cpu c' store0, Some ptr) /\ free_large c' ptr = Ret c'' /\
    inv c'' tiles0.
Proof.
  destruct pool0_facts as (I & N & _ & _ & F & L & G).
  destruct (allocate_then_free_restores (2 ^ 44) 1 (fun _ _ => true) (fun _ => true) (fun _ st => Ret (st, false))
    0 store0 tiles0 10 65) as (c' & ptr & c'' & H1 & H2 & H3 & _).
  - exact I.
  - exact G.
  - lia.
  - apply tiles0_room. lia.
  - cbn [store0 cpu]. rewrite L, F. lia.
  - exists c', ptr, c''. split; [exact H1|]. split; [exact H2|exact H3].
Defined.

Lemma allocate_large_aligned_ok_witness :
  exists c' i ts',
    cpu_allocate_large_aligned (2 ^ 44) 1 (fun _ _ => true) (fun _ => true) (fun _ st => Ret (st, false)) 1 store0 (2 ^ 4) 3
      = Ret (with_cpu c' store0, Some (address_of pool0 i)) /\
    (2 ^ 4 * page_size | address_of pool0 i) /\ inv c' ts' /\ used ts' ≡ₚ Tile i 3 Used :: used tiles0.
Proof.
  destruct pool0_facts as (I & N & M & _ & F & L & _).
  destruct (allocate_large_aligned_ok (2 ^ 44) 1 (fun _ _ => true) (fun _ => true) (fun _ st => Ret (st, false))
    0 store0 tiles0 4 3 65 8127) as (c' & i & ts' & H1 & H2 & _ & H3 & H4).
  - exact I.
  - lia.
  - lia.
  - lia.
  - apply elem_of_cons. right. constructor.
  - lia.
  - cbn [store0 cpu]. rewrite N. lia.
  - cbn [store0 cpu]. rewrite M. exists (2 ^ 28). reflexivity.
  - cbn [store0 cpu]. rewrite L, F. lia.
  - exists c', i, ts'. split; [exact H1|]. split; [exact H2|]. split; [exact H3|exact H4].
Defined.

Lemma allocator_refines_runs_witness :
  exists st' res us',
    serve (2 ^ 44) 1 (fun _ _ => true) (fun _ => true) (fun _ st => Ret (st, false)) 2 store0 (Alloc 10) = Ret (st', res) /\
    spec_step (2 ^ 44) 8192 [Tile 1 64 Reserved] (Alloc 10) res us' /\ implements (2 ^ 44) 8192 st' us'.
Proof.
  destruct pool0_facts as (I & N & M & _ & F & L & G).
  apply (allocator_refines_runs (2 ^ 44) 1 (fun _ _ => true) (fun _ => true) (fun _ st => Ret (st, false))).
  - split; [exact M|]. split; [exact N|]. split; [exact G|]. split; [reflexivity|]. split; [exact L|]. exists tiles0. split; [exact I|reflexivity].
  - simpl. lia.
Defined.

Lemma allocation_reclaims_until_stuck_witness :
  exists st' res, find_and_unlink_span_reclaiming (2 ^ 44) 1 (fun _ _ => true) (fun _ st => Ret (st, false))
    (reclaim_fuel + 66) store0 9000 = Ret (st', res) /\
    match res with
    | Some s => exists m, 9000 <= m /\ at_page (ary (cpu st')) s (fun p => span_size p = m)
    | None => exists st1, reclaim_pass (fun _ st => Ret (st, false)) [] sync st1 false = Ret (st', false)
    end.
Proof.
  destruct pool0_facts as (I & N & M & _ & F & L & G).
  apply (allocation_reclaims_until_stuck (2 ^ 44) 1 (fun _ _ => true) (fun _ st => Ret (st, false)) _ store0 9000).
  - intros r st H. exists st, false. split; [reflexivity|]. split; [exact H|]. repeat split; try lia.
  - exists tiles0. exact I.
  - lia.
  - cbn [store0 cpu]. rewrite N, F. lia.
Defined.
