(* ===== verification/CrossFree.v ===== *)
(** * Frees from other cpus

    src/core/memory/memory.cpp: [cpu_pages::free_cross_cpu] pushes an object
    onto the list of the cpu that owns it with a compare-and-swap loop,
    [drain_cross_cpu_freelist] takes the whole list with one exchange and walks
    it.  Every access to shared memory is a step; the [next] field of an object
    belongs to its pusher until the swap succeeds and to the owner after the
    exchange.  0 is the null pointer. *)
From S2P Require Import Prelude.

(** A pusher of object [p]: before the load of the head, before the store to
    [p->next], before the swap, and done. *)
Inductive push_pc : Type :=
  | Load (p : Z)
  | Store (p old : Z)
  | Swap (p old : Z)
  | Pushed (p : Z).

(** The shared head and [next] fields, the pushers, the owner's cursor in the
    list it took, and the objects it has freed. *)
Record state := State {
  xcpu_freelist : Z;
  next : gmap Z Z;
  pushers : list push_pc;
  cursor : Z;
  freed : list Z
}.

Module CrossFree.

Definition object (t : push_pc) : Z :=
  match t with Load p | Store p _ | Swap p _ | Pushed p => p end.

Definition init (objs : list Z) : state := State 0 ∅ (Load <$> objs) 0 [].

(** [free_cross_cpu] of one pusher; the weak exchange may fail for no reason. *)
Inductive push_step (s : state) (i : nat) : state -> Prop :=
  | step_load p : pushers s !! i = Some (Load p) ->
      push_step s i (State (xcpu_freelist s) (next s) (<[i := Store p (xcpu_freelist s)]> (pushers s)) (cursor s) (freed s))
  | step_store p old : pushers s !! i = Some (Store p old) ->
      push_step s i (State (xcpu_freelist s) (<[p := old]> (next s)) (<[i := Swap p old]> (pushers s)) (cursor s) (freed s))
  | step_swap p old : pushers s !! i = Some (Swap p old) -> xcpu_freelist s = old ->
      push_step s i (State p (next s) (<[i := Pushed p]> (pushers s)) (cursor s) (freed s))
  | step_fail p old : pushers s !! i = Some (Swap p old) ->
      push_step s i (State (xcpu_freelist s) (next s) (<[i := Store p (xcpu_freelist s)]> (pushers s)) (cursor s) (freed s)).

(** [drain_cross_cpu_freelist]: the exchange, when the last list is used up,
    and one turn of the loop. *)
Inductive drain_step (s : state) : state -> Prop :=
  | step_exchange : cursor s = 0 -> xcpu_freelist s <> 0 ->
      drain_step s (State 0 (next s) (pushers s) (xcpu_freelist s) (freed s))
  | step_walk n : cursor s <> 0 -> next s !! cursor s = Some n ->
      drain_step s (State (xcpu_freelist s) (next s) (pushers s) n (cursor s :: freed s)).

Definition step (s s' : state) : Prop := (exists i, push_step s i s') \/ drain_step s s'.

(** ** The lists *)

Fixpoint chain (m : gmap Z Z) (h : Z) (l : list Z) : Prop :=
  match l with
  | [] => h = 0
  | x :: l => h = x /\ x <> 0 /\ exists n, m !! x = Some n /\ chain m n l
  end.

Lemma chain_insert m h l p v : p ∉ l -> chain m h l -> chain (<[p := v]> m) h l.
Proof.
  revert h. induction l as [|x l IH]; intros h Hp; [done|]. cbn [chain].
  intros (-> & Hx & n & Hn & H). split; [done|]. split; [done|]. exists n.
  rewrite lookup_insert_ne by (intros ->; apply Hp; constructor). split; [done|]. apply IH; [|done].
  intros Hl. apply Hp. by constructor.
Qed.

(** The objects still with their pusher. *)
Definition waiting (ts : list push_pc) : list Z :=
  ts ≫= (fun t => match t with Pushed _ => [] | t => [object t] end).

Definition good (m : gmap Z Z) (t : push_pc) : Prop :=
  match t with Swap p old => m !! p = Some old | _ => True end.

Record inv (objs : list Z) (s : state) : Prop := {
  inv_objects : object <$> pushers s = objs;
  inv_lists : exists l k, chain (next s) (xcpu_freelist s) l /\ chain (next s) (cursor s) k /\
    l ++ k ++ freed s ++ waiting (pushers s) ≡ₚ objs;
  inv_good : forall i t, pushers s !! i = Some t -> good (next s) t
}.

Lemma waiting_insert ts i t t' :
  ts !! i = Some t ->
  exists w, waiting ts ≡ₚ (match t with Pushed _ => [] | t => [object t] end) ++ w /\
    waiting (<[i := t']> ts) ≡ₚ (match t' with Pushed _ => [] | t' => [object t'] end) ++ w.
Proof.
  intros Hi. exists (waiting (take i ts) ++ waiting (drop (S i) ts)).
  assert (i < length ts)%nat as Hlt by (by eapply lookup_lt_Some). split.
  - rewrite <- (take_drop_middle ts i t) at 1 by done. unfold waiting. rewrite bind_app, bind_cons.
    rewrite !app_assoc. apply Permutation_app_tail. apply Permutation_app_comm.
  - rewrite insert_take_drop by done. unfold waiting. rewrite bind_app, bind_cons.
    rewrite !app_assoc. apply Permutation_app_tail. apply Permutation_app_comm.
Qed.

Lemma objects_insert (ts : list push_pc) i t t' : ts !! i = Some t -> object t' = object t -> object <$> (<[i := t']> ts) = object <$> ts.
Proof. intros Hi E. rewrite list_fmap_insert, E. apply list_insert_id. by rewrite list_lookup_fmap, Hi. Qed.

Section safety.
Context (objs : list Z) (Hnd : NoDup objs) (Hnz : forall p, p ∈ objs -> p <> 0).

Lemma init_inv : inv objs (init objs).
Proof.
  split; simpl.
  - rewrite <- list_fmap_compose. apply list_fmap_id.
  - exists [], []. split; [done|]. split; [done|]. simpl. unfold waiting. clear.
    induction objs as [|p l IH]; [done|]. simpl. by rewrite IH.
  - intros i t Hi. apply list_lookup_fmap_Some in Hi as (p & -> & _). done.
Qed.

(** The object of a pusher that has not finished is in no list. *)
Lemma waiting_apart s l k i t :
  inv objs s -> l ++ k ++ freed s ++ waiting (pushers s) ≡ₚ objs -> pushers s !! i = Some t ->
  (forall p, t <> Pushed p) -> object t ∉ l /\ object t ∉ k /\ object t ∈ objs.
Proof.
  intros I Hp Hi Hne. destruct (waiting_insert _ _ _ t Hi) as (w & Hw & _).
  assert (waiting (pushers s) ≡ₚ object t :: w) as Hw' by (destruct t; try done; by edestruct Hne).
  pose proof Hnd as Hnd'. rewrite <- Hp, Hw' in Hnd'.
  assert (object t ∈ objs) as Hin by (rewrite <- Hp, Hw'; set_solver).
  apply list.NoDup_app in Hnd' as (_ & H1 & H2). apply list.NoDup_app in H2 as (_ & H2 & _).
  split; [|split; [|done]]; intros Hl; [apply (H1 _ Hl)|apply (H2 _ Hl)]; set_solver.
Qed.

Lemma push_inv s i s' : inv objs s -> push_step s i s' -> inv objs s'.
Proof.
  intros I Hs. pose proof I as [Ho (l & k & Hl & Hk & Hp) Hg].
  destruct Hs as [p Hi|p old Hi|p old Hi Hh|p old Hi].
  - destruct (waiting_insert _ _ _ (Store p (xcpu_freelist s)) Hi) as (w & W1 & W2). split; simpl.
    + by rewrite (objects_insert _ _ _ _ Hi).
    + exists l, k. split; [done|]. split; [done|]. by rewrite W2, <- Hp, W1.
    + intros j t. rewrite list_lookup_insert_Some. intros [(_ & <- & _)|[_ Hj]]; [done|]. by eapply Hg.
  - destruct (waiting_insert _ _ _ (Swap p old) Hi) as (w & W1 & W2).
    destruct (waiting_apart _ _ _ _ _ I Hp Hi) as (A1 & A2 & A3); [done|]. simpl in *. split; simpl.
    + by rewrite (objects_insert _ _ _ _ Hi).
    + exists l, k. split; [by apply chain_insert|]. split; [by apply chain_insert|]. by rewrite W2, <- Hp, W1.
    + intros j t. rewrite list_lookup_insert_Some. intros [(_ & <- & _)|[Hne Hj]]; [apply lookup_insert_eq|].
      specialize (Hg j t Hj). destruct t as [| |q o|]; try done. simpl in *.
      rewrite lookup_insert_ne; [done|]. intros ->. apply Hne.
      apply (NoDup_lookup (object <$> pushers s) i j q); [by rewrite Ho| |]; rewrite list_lookup_fmap.
      * by rewrite Hi.
      * by rewrite Hj.
  - destruct (waiting_insert _ _ _ (Pushed p) Hi) as (w & W1 & W2).
    destruct (waiting_apart _ _ _ _ _ I Hp Hi) as (A1 & A2 & A3); [done|]. simpl in *. split; simpl.
    + by rewrite (objects_insert _ _ _ _ Hi).
    + exists (p :: l), k. split; [|split; [done|]].
      * split; [done|]. split; [by apply Hnz|]. exists old. split; [exact (Hg _ _ Hi)|]. by rewrite <- Hh.
      * rewrite W2, <- Hp, W1. permute.
    + intros j t. rewrite list_lookup_insert_Some. intros [(_ & <- & _)|[_ Hj]]; [done|]. by eapply Hg.
  - destruct (waiting_insert _ _ _ (Store p (xcpu_freelist s)) Hi) as (w & W1 & W2). split; simpl.
    + by rewrite (objects_insert _ _ _ _ Hi).
    + exists l, k. split; [done|]. split; [done|]. by rewrite W2, <- Hp, W1.
    + intros j t. rewrite list_lookup_insert_Some. intros [(_ & <- & _)|[_ Hj]]; [done|]. by eapply Hg.
Qed.

Lemma drain_inv s s' : inv objs s -> drain_step s s' -> inv objs s'.
Proof.
  intros [Ho (l & k & Hl & Hk & Hp) Hg] Hs. destruct Hs as [Hc Hh|n Hc Hn]; (split; [exact Ho| |exact Hg]); simpl.
  - destruct k as [|x k]; [|simpl in Hk; destruct Hk as (? & ? & _); congruence].
    exists [], l. split; [done|]. split; [done|]. exact Hp.
  - destruct k as [|x k]; [done|]. cbn [chain] in Hk. destruct Hk as (Hx & _ & m & Hm & Hk).
    rewrite <- Hx in Hm. assert (m = n) as -> by congruence. exists l, k. split; [done|]. split; [done|].
    rewrite Hx, <- Hp. permute.
Qed.

Lemma reachable_inv s : rtc step (init objs) s -> inv objs s.
Proof.
  apply rtc_invariant; [|apply init_inv].
  intros x y [(i & Hs)|Hs] I; [by eapply push_inv|by eapply drain_inv].
Qed.

(** Nothing is lost: with empty lists and no push under way, everything is freed. *)
Lemma cross_cpu_lists s :
  rtc step (init objs) s -> Forall (fun t => exists p, t = Pushed p) (pushers s) ->
  xcpu_freelist s = 0 -> cursor s = 0 -> freed s ≡ₚ objs.
Proof.
  intros Hr Hall Hh Hc. apply reachable_inv in Hr as [Ho (l & k & Hl & Hk & Hp) Hg].
  rewrite Hh in Hl. rewrite Hc in Hk. rewrite <- Hp.
  destruct l as [|x l]; [|by destruct Hl as (<- & ? & _)]. destruct k as [|x k]; [|by destruct Hk as (<- & ? & _)].
  simpl. assert (waiting (pushers s) = []) as ->; [|by rewrite app_nil_r].
  clear -Hall. induction Hall as [|t ts (p & ->) _ IH]; [done|]. exact IH.
Qed.

(** C17: Whatever the interleaving of the cpus that free objects of another cpu
    with its drains, no object is freed twice or lost: once every push is done
    and the lists are drained, each object has been freed exactly once. *)
Theorem cross_cpu_frees_once s :
  rtc step (init objs) s ->
  NoDup (freed s) /\
  (Forall (fun t => exists p, t = Pushed p) (pushers s) -> xcpu_freelist s = 0 -> cursor s = 0 -> freed s ≡ₚ objs).
Proof.
  intros Hr. split; [|by apply cross_cpu_lists].
  apply reachable_inv in Hr as [Ho (l & k & Hl & Hk & Hp) Hg].
  rewrite <- Hp in Hnd. apply list.NoDup_app in Hnd as (_ & _ & H). apply list.NoDup_app in H as (_ & _ & H).
  by apply list.NoDup_app in H as (H & _).
Qed.

(** A pusher that can finish after a step can finish. *)
Definition finishes (i : nat) (p : Z) (s : state) : Prop :=
  exists s', rtc step s s' /\ pushers s' = <[i := Pushed p]> (pushers s).

Lemma finishes_step i p s s1 t :
  push_step s i s1 -> pushers s1 = <[i := t]> (pushers s) -> finishes i p s1 -> finishes i p s.
Proof.
  intros Hs E (s' & Hr & Hs'). exists s'. split; [eapply rtc_l; [left; by exists i|exact Hr]|].
  by rewrite Hs', E, list_insert_insert_eq.
Qed.

Lemma insert_here (ts : list push_pc) i t u : ts !! i = Some t -> <[i := u]> ts !! i = Some u.
Proof. intros Hi. apply list_lookup_insert_eq. by eapply lookup_lt_Some. Qed.

(** One pusher, left alone, finishes: a swap right after its load succeeds. *)
Lemma pusher_finishes s i t : pushers s !! i = Some t -> finishes i (object t) s.
Proof.
  assert (forall s p, pushers s !! i = Some (Swap p (xcpu_freelist s)) -> finishes i p s) as Hswap.
  { intros s0 p Hi. eexists. split; [apply rtc_once; left; exists i; by eapply step_swap|done]. }
  assert (forall s p, pushers s !! i = Some (Store p (xcpu_freelist s)) -> finishes i p s) as Hstore.
  { intros s0 p Hi. eapply finishes_step; [by apply step_store|done|]. apply Hswap. by eapply insert_here. }
  assert (forall s p old, pushers s !! i = Some (Swap p old) -> finishes i p s) as Hfail.
  { intros s0 p old Hi. eapply finishes_step; [by eapply step_fail|done|]. apply Hstore. by eapply insert_here. }
  intros Hi. destruct t as [p|p old|p old|p]; simpl.
  - eapply finishes_step; [by apply step_load|done|]. apply Hstore. by eapply insert_here.
  - eapply finishes_step; [by apply step_store|done|]. eapply Hfail. by eapply insert_here.
  - by eapply Hfail.
  - exists s. split; [apply rtc_refl|]. by rewrite list_insert_id.
Qed.

Lemma pushers_finish s : exists s', rtc step s s' /\ Forall (fun t => exists p, t = Pushed p) (pushers s').
Proof.
  assert (forall n s, (n <= length (pushers s))%nat -> exists s', rtc step s s' /\ length (pushers s') = length (pushers s) /\
    forall i t, (i < n)%nat -> pushers s' !! i = Some t -> exists p, t = Pushed p) as H.
  { clear s. intros n s. induction n as [|n IH]; intros Hn.
    - exists s. split; [apply rtc_refl|]. split; [done|]. intros; lia.
    - destruct IH as (s1 & Hr1 & Hl1 & H1); [lia|].
      destruct (lookup_lt_is_Some_2 (pushers s1) n) as [t Ht]; [lia|].
      destruct (pusher_finishes s1 n t Ht) as (s2 & Hr2 & Hs2). exists s2. split; [by etrans|].
      rewrite Hs2, length_insert. split; [done|]. intros i u Hi. rewrite list_lookup_insert_Some.
      intros [(_ & <- & _)|[Hne Hu]]; [eauto|]. eapply H1; [|exact Hu]. lia. }
  destruct (H (length (pushers s)) s ltac:(lia)) as (s' & Hr & Hl & H'). exists s'. split; [done|].
  apply list.Forall_lookup. intros i t Hi. eapply H'; [|exact Hi]. rewrite <- Hl. by eapply lookup_lt_Some.
Qed.

(** The owner walks a list it took to its end. *)
Lemma walk_finishes s l :
  chain (next s) (cursor s) l ->
  rtc step s (State (xcpu_freelist s) (next s) (pushers s) 0 (rev l ++ freed s)).
Proof.
  remember (cursor s) as c eqn:E. revert s c E. induction l as [|x l IH]; intros s c E; cbn [chain].
  - intros ->. destruct s. simpl in *. subst. apply rtc_refl.
  - intros (-> & Hx & n & Hn & Hl). eapply rtc_l; [right; apply (step_walk s n); [congruence|by rewrite <- E]|].
    rewrite <- E. simpl. rewrite <- app_assoc.
    apply (IH (State (xcpu_freelist s) (next s) (pushers s) n (x :: freed s)) n); done.
Qed.

(** C18: From every state the cpus can reach, they can finish: every push
    succeeds if its cpu runs undisturbed, and the owner's drains then free
    everything that was pushed. *)
Theorem cross_cpu_can_finish s :
  rtc step (init objs) s -> exists s', rtc step s s' /\ freed s' ≡ₚ objs.
Proof.
  intros Hr. destruct (pushers_finish s) as (s1 & Hr1 & Hall).
  assert (rtc step (init objs) s1) as Hr1' by (by etrans).
  pose proof (reachable_inv _ Hr1') as [_ (l & k & Hl & Hk & _) _].
  pose proof (walk_finishes s1 k Hk) as Hw. set (s2 := State _ _ _ 0 _) in Hw.
  destruct l as [|x l].
  - exists s2. split; [by etrans|]. apply cross_cpu_lists; [by etrans|done|done|done].
  - assert (step s2 (State 0 (next s1) (pushers s1) (xcpu_freelist s1) (freed s2))) as Hx.
    { right. apply (step_exchange s2); [done|]. simpl. by destruct Hl as (-> & ? & _). }
    pose proof (walk_finishes (State 0 (next s1) (pushers s1) (xcpu_freelist s1) (freed s2)) (x :: l) Hl) as Hw'.
    eexists. split; [etrans; [exact Hr1|]; etrans; [exact Hw|]; eapply rtc_l; [exact Hx|exact Hw']|].
    apply cross_cpu_lists; [|done|done|done].
    etrans; [exact Hr1'|]. etrans; [exact Hw|]. eapply rtc_l; [exact Hx|exact Hw'].
Qed.
End safety.

(** One cpu pushes 8, the owner drains it. *)
Lemma ex_run : rtc step (init [8]) (State 0 (<[8 := 0]> ∅) [Pushed 8] 0 [8]).
Proof.
  eapply rtc_l; [left; exists 0%nat; by apply (step_load _ 0 8)|].
  eapply rtc_l; [left; exists 0%nat; by apply (step_store _ 0 8 0)|].
  eapply rtc_l; [left; exists 0%nat; by apply (step_swap _ 0 8 0)|].
  eapply rtc_l; [right; by apply step_exchange|].
  eapply rtc_l; [right; by apply (step_walk _ 0)|]. apply rtc_refl.
Qed.

Lemma ex_objs (p : Z) : p ∈ [8] -> p <> 0.
Proof. intros ->%list_elem_of_singleton. done. Qed.

Lemma cross_cpu_frees_once_witness : [8] ≡ₚ [8].
Proof.
  refine (proj2 (cross_cpu_frees_once [8] _ ex_objs (State 0 (<[8 := 0]> ∅) [Pushed 8] 0 [8]) ex_run) _ _ _).
  - apply NoDup_singleton.
  - constructor; [by exists 8|constructor].
  - reflexivity.
  - reflexivity.
Defined.

Lemma cross_cpu_can_finish_witness : exists s', freed s' ≡ₚ [8; 16].
Proof.
  destruct (cross_cpu_can_finish [8; 16]) with (s := init [8; 16]) as (s' & _ & E).
  - by apply (bool_decide_unpack _).
  - intros p Hp. apply elem_of_cons in Hp as [->|Hp]; [lia|]. apply list_elem_of_singleton in Hp as ->. lia.
  - apply rtc_refl.
  - exists s'. exact E.
Defined.

End CrossFree.
