(* ===== verification/Isolation.v ===== *)
(** * Isolation: the v1 run time

    xi/core/worker.h, xi/core/policy/worker_isolation.h, xi/core/coordinator.h,
    src/core/resumable.cpp and src/core/reactor/epoll.cpp.  Every worker has a
    ready queue and a sleep queue of its own, both intrusive, a lock-free queue
    others push to, and an epoll reactor; the coordinator deals resumables out
    round robin.  A resumable is named by its address; its [_worker] is
    [executor], and a resumable without an entry there has been deleted.  The
    state of epoll is [armed]: the descriptors and the resumable each reports.
    Clocks and reported events are inputs of a turn, the body of a coroutine is
    what it calls before it gives up the worker.  The sleep queue is boost's
    [intrusive::set] as in Queues, with the removal its hooks add. *)
From Stdlib Require Import Sorting.Sorted.
From S2P Require Import Prelude Queues Worker.

(** [sleep_hook.unlink()]: an element leaves the set it is in. *)
Class timed_unlink (S : Type) `{timed_set S} := ts_unlink : Z -> S -> S.

Class timed_unlink_spec (S : Type) `{timed_unlink S} := {
  ts_unlink_ok r s : ts_elements (ts_unlink r s) = filter (fun x => x <> r) (ts_elements s)
}.

#[export] Instance list_timed_unlink : timed_unlink (list Z) := fun r l => filter (fun x => x <> r) l.
#[export] Instance list_timed_unlink_spec : timed_unlink_spec (list Z).
Proof. by split. Qed.

(** [resumable::resume_result]. *)
Inductive resume_result : Type := blocked | resume_later | done_.

(** [generic_resumable]: a coroutine that yields the results [body] in turn. *)
Module Coroutine.
Record generic_resumable := Generic { is_running : bool; last : resume_result; body : list resume_result }.

Definition make (body : list resume_result) : generic_resumable := Generic false resume_later body.

Definition yield (g : generic_resumable) (r : resume_result) : generic_resumable :=
  if is_running g then Generic false r (body g) else g.

Definition resume (g : generic_resumable) : generic_resumable * resume_result :=
  if negb (is_running g) then
    match body g with
    | r :: rest => let g := yield (Generic true (last g) rest) r in (g, last g)
    | [] => (Generic true done_ [], done_)
    end
  else (g, resume_later).
End Coroutine.

Module Isolation.
Section isolation.
Context {S : Type} `{timed_unlink S}.

Record worker := W {
  ready_queue : list Z;
  sleep_queue : S;
  external_queue : list Z;
  next_wakeup : Z;
  armed : gmap Z Z;
  wakeup_count : Z;
  tasks_ready : Z;
  max_tasks_ready : Z;
  current_task : option Z
}.

Definition worker_new : worker := W [] ts_empty [] tp_max ∅ 0 0 0 None.

Record world := World {
  times : wakeups;
  executor : gmap Z nat;
  workers : list worker;
  next_worker_ : Z
}.

Definition with_ready (l : list Z) (d : worker) : worker :=
  W l (sleep_queue d) (external_queue d) (next_wakeup d) (armed d) (wakeup_count d) (tasks_ready d) (max_tasks_ready d) (current_task d).
Definition with_sleep (s : S) (n : Z) (d : worker) : worker :=
  W (ready_queue d) s (external_queue d) n (armed d) (wakeup_count d) (tasks_ready d) (max_tasks_ready d) (current_task d).
Definition with_external (l : list Z) (d : worker) : worker :=
  W (ready_queue d) (sleep_queue d) l (next_wakeup d) (armed d) (wakeup_count d) (tasks_ready d) (max_tasks_ready d) (current_task d).
Definition with_armed (m : gmap Z Z) (d : worker) : worker :=
  W (ready_queue d) (sleep_queue d) (external_queue d) (next_wakeup d) m (wakeup_count d) (tasks_ready d) (max_tasks_ready d) (current_task d).
Definition with_wakeups (n : Z) (d : worker) : worker :=
  W (ready_queue d) (sleep_queue d) (external_queue d) (next_wakeup d) (armed d) n (tasks_ready d) (max_tasks_ready d) (current_task d).
Definition with_tasks (n m : Z) (d : worker) : worker :=
  W (ready_queue d) (sleep_queue d) (external_queue d) (next_wakeup d) (armed d) (wakeup_count d) n m (current_task d).
Definition with_current (r : option Z) (d : worker) : worker :=
  W (ready_queue d) (sleep_queue d) (external_queue d) (next_wakeup d) (armed d) (wakeup_count d) (tasks_ready d) (max_tasks_ready d) r.

Definition with_times (h : wakeups) (s : world) : world := World h (executor s) (workers s) (next_worker_ s).
Definition with_executor (m : gmap Z nat) (s : world) : world := World (times s) m (workers s) (next_worker_ s).
Definition with_workers (l : list worker) (s : world) : world := World (times s) (executor s) l (next_worker_ s).

Definition set_worker (i : nat) (d : worker) (s : world) : world := with_workers (<[i := d]> (workers s)) s.

Definition is_ready_linked (d : worker) (r : Z) : bool := bool_decide (r ∈ ready_queue d).
Definition is_sleep_linked (d : worker) (r : Z) : bool := bool_decide (r ∈ ts_elements (sleep_queue d)).
Definition ready_unlink (r : Z) (d : worker) : worker := with_ready (filter (fun x => x <> r) (ready_queue d)) d.
Definition sleep_unlink (r : Z) (d : worker) : worker := with_sleep (ts_unlink r (sleep_queue d)) (next_wakeup d) d.

(** ** The policy *)

(** Linking a hook twice is an assertion of boost's. *)
Definition push_internally (d : worker) (r : Z) : outcome worker :=
  let tr := u64 (tasks_ready d + 1) in
  let d := with_tasks tr (if max_tasks_ready d <? tr then tr else max_tasks_ready d) d in
  assertO (negb (is_ready_linked d r)) (Ret (with_ready (ready_queue d ++ [r]) d)).

Fixpoint push_all (d : worker) (rs : list Z) : outcome worker :=
  match rs with
  | [] => Ret d
  | r :: rs => do d <- push_internally d r;; push_all d rs
  end.

(** [reactor.maybe_wakeup()] writes 1 to the event descriptor. *)
Definition maybe_wakeup (d : worker) : worker := with_wakeups (u64 (wakeup_count d + 1)) d.

Definition push_externally (d : worker) (r : Z) : worker :=
  maybe_wakeup (with_external (external_queue d ++ [r]) d).

Definition sleep_for (h : wakeups) (d : worker) (r now ns : Z) : outcome (wakeups * worker) :=
  let d := ready_unlink r d in
  let wakeup_time := now + ns in
  let h := set_wakeup_time h r wakeup_time in
  let s := ts_insert h r (sleep_queue d) in
  let next := if wakeup_time <? next_wakeup d then wakeup_time else next_wakeup d in
  let d := with_sleep s next d in
  assertO (is_sleep_linked d r) (assertO (negb (is_ready_linked d r)) (Ret (h, d))).

Definition drain_external_queue (d : worker) : outcome worker :=
  push_all (with_external [] d) (external_queue d).

(** The loop of [_drain_sleep_queue] over the elements from the iterator on;
    the last assignment is the one that applies when the iterator is at the end. *)
Fixpoint drain_loop (h : wakeups) (d : worker) (l : list Z) (now : Z) : outcome worker :=
  match l with
  | [] => Ret (with_sleep (sleep_queue d) tp_max d)
  | r :: l =>
      if wakeup_time h r <=? now then
        do d <- push_internally (with_sleep (ts_pop (sleep_queue d)) (next_wakeup d) d) r;;
        drain_loop h d l now
      else Ret (with_sleep (sleep_queue d) (wakeup_time h r) d)
  end.

(** 100us. *)
Definition slack : Z := 100000.

Definition drain_sleep_queue (h : wakeups) (d : worker) (time_now : Z) : outcome worker :=
  let now := time_now + slack in
  if next_wakeup d <=? now then drain_loop h d (ts_elements (sleep_queue d)) now else Ret d.

(** How long [_poll_reactor] lets the reactor wait. *)
Definition poll_timeout (d : worker) (now : Z) : Z :=
  match ready_queue d with [] => next_wakeup d - now | _ => 0 end.

(** The timer [poll_for] sets, and the timeout it passes to [epoll_pwait]. *)
Definition poll_timer (ns : Z) : option (Z * Z) * Z :=
  if 0 <? ns then (Some (ns / 1000000000, ns mod 1000000000), -1) else (None, 0).

(** ** Routing *)

Definition worker_at (s : world) (i : nat) : outcome worker := derefO (workers s !! i).

(** [worker::schedule] of worker [i], called on worker [here]. *)
Definition schedule (s : world) (here : option nat) (i : nat) (r : Z) : outcome world :=
  do d <- worker_at s i;;
  if bool_decide (here = Some i) then do d <- push_internally d r;; Ret (set_worker i d s)
  else Ret (set_worker i (push_externally d r) s).

(** [resumable::unblock]: both hooks, then the worker it is attached to. *)
Definition unblock (s : world) (here : option nat) (r : Z) : outcome world :=
  do i <- derefO (executor s !! r);;
  do d <- worker_at s i;;
  schedule (set_worker i (ready_unlink r (sleep_unlink r d)) s) here i r.

(** [attach_executor] and [detach_executor]. *)
Definition attach_executor (s : world) (r : Z) (i : nat) : world := with_executor (<[r := i]> (executor s)) s.

(** [worker::destroy]: detach, then delete; a deleted resumable leaves the
    queues its hooks link it to. *)
Definition destroy (s : world) (i : nat) (r : Z) : outcome world :=
  do e <- derefO (executor s !! r);;
  assertO (bool_decide (e = i)) (
  do d <- worker_at s i;;
  Ret (with_executor (delete r (executor s)) (set_worker i (ready_unlink r (sleep_unlink r d)) s))).

Definition next_worker (s : world) : outcome (world * nat) :=
  match workers s with
  | [] => Undef
  | _ =>
      let idx := next_worker_ s mod zlen (workers s) in
      Ret (World (times s) (executor s) (workers s) (u64 (next_worker_ s + 1)), Z.to_nat idx)
  end.

(** [central_schedule] of a new resumable: the worker is woken twice. *)
Definition central_schedule (s : world) (r : Z) : outcome world :=
  do '(s, i) <- next_worker s;;
  let s := attach_executor s r i in
  do d <- worker_at s i;;
  Ret (set_worker i (maybe_wakeup (push_externally d r)) s).

(** [spawn_resumable] on worker [i]. *)
Definition spawn_resumable (s : world) (i : nat) (r : Z) : outcome world :=
  let s := attach_executor s r i in
  do d <- worker_at s i;;
  do d <- push_internally d r;;
  Ret (set_worker i d s).

(** ** The reactor *)

Section reactor.
Context (wakeup_fd timer_fd : Z).

(** One reported event: its 64 bits of data, and the descriptor it is for
    (a descriptor armed with [EPOLLONESHOT] is disarmed by the report). *)
Definition handle_event (s : world) (i : nat) (fd data : Z) : outcome world :=
  if Netpoller.data_fd data =? wakeup_fd then
    do d <- worker_at s i;; Ret (set_worker i (with_wakeups 0 d) s)
  else if Netpoller.data_fd data =? timer_fd then Ret s
  else
    do d <- worker_at s i;;
    let s := set_worker i (with_armed (delete fd (armed d)) d) s in
    assertO (negb (is_ready_linked d data)) (unblock s (Some i) data).

Fixpoint poll_events (s : world) (i : nat) (evs : list (Z * Z)) : outcome world :=
  match evs with
  | [] => Ret s
  | (fd, data) :: evs => do s <- handle_event s i fd data;; poll_events s i evs
  end.

(** [await_readable] and [await_writable]: what two calls of [epoll_ctl] return
    is an input; a descriptor that [MOD] does not know is added, any other
    failure of [MOD] is ignored. *)
Definition await_fd (s : world) (i : nat) (r fd : Z) (c : Netpoller.ctl) : outcome world :=
  do d <- worker_at s i;;
  match Netpoller.ctl_mod c with
  | None => Ret (set_worker i (with_armed (<[fd := r]> (armed d)) d) s)
  | Some e =>
      if e =? Netpoller.ENOENT then
        match Netpoller.ctl_add c with
        | None => Ret (set_worker i (with_armed (<[fd := r]> (armed d)) d) s)
        | Some _ => Abort
        end
      else Ret s
  end.

(** ** The worker *)

Record turn := Turn { t_sleep : Z; t_poll : Z; t_events : list (Z * Z) }.

(** One turn of the loop of [pop]: [None] when it goes round again. *)
Definition pop_turn (s : world) (i : nat) (t : turn) : outcome (world * option Z) :=
  do d <- worker_at s i;;
  do d <- drain_external_queue d;;
  do d <- drain_sleep_queue (times s) d (t_sleep t);;
  do s <- poll_events (set_worker i d s) i (t_events t);;
  do d <- worker_at s i;;
  match ready_queue d with
  | [] => Ret (s, None)
  | r :: _ =>
      let d := with_tasks (u64 (tasks_ready d - 1)) (max_tasks_ready d) (ready_unlink r d) in
      Ret (set_worker i d s, Some r)
  end.

(** What a coroutine does before it gives up the worker, and how it does. *)
Inductive call : Type :=
  | Spawn (r : Z)
  | Schedule (r : Z)
  | Unblock (r : Z).

Inductive ending : Type :=
  | EDone
  | ELater
  | EBlock
  | ESleep (now ns : Z)
  | EAwait (fd : Z) (c : Netpoller.ctl).

Definition do_call (s : world) (i : nat) (c : call) : outcome world :=
  match c with
  | Spawn r => spawn_resumable s i r
  | Schedule r => central_schedule s r
  | Unblock r => unblock s (Some i) r
  end.

Fixpoint do_calls (s : world) (i : nat) (cs : list call) : outcome world :=
  match cs with
  | [] => Ret s
  | c :: cs => do s <- do_call s i c;; do_calls s i cs
  end.

(** [resumable::sleep_for]: an assertion, the worker's [sleep_for] and [block]. *)
Definition do_ending (s : world) (i : nat) (r : Z) (e : ending) : outcome (world * resume_result) :=
  match e with
  | EDone => Ret (s, done_)
  | ELater => Ret (s, resume_later)
  | EBlock => Ret (s, blocked)
  | ESleep now ns =>
      match executor s !! r with
      | None => Abort
      | Some j =>
          do d <- worker_at s j;;
          do '(h, d) <- sleep_for (times s) (ready_unlink r d) r now ns;;
          Ret (set_worker j d (with_times h s), blocked)
      end
  | EAwait fd c => do s <- await_fd s i r fd c;; Ret (s, blocked)
  end.

(** What [worker::run] does with the result, [resume_in_loop] of the coordinator. *)
Definition finish_task (s : world) (i : nat) (r : Z) (result : resume_result) : outcome world :=
  do s <-
    (match result with
     | done_ => destroy s i r
     | blocked => Ret s
     | resume_later =>
         do d <- worker_at s i;;
         do d <- push_internally d r;;
         Ret (set_worker i d s)
     end);;
  do d <- worker_at s i;;
  Ret (set_worker i (with_current None d) s).

(** The loop of [worker::run] once [pop] has returned [r]. *)
Definition run_task (s : world) (i : nat) (r : Z) (cs : list call) (e : ending) : outcome world :=
  do d <- worker_at s i;;
  let s := set_worker i (with_current (Some r) d) s in
  do s <- do_calls s i cs;;
  do '(s, result) <- do_ending s i r e;;
  finish_task s i r result.

(** A turn, and the task it pops; [None] when [pop] goes round again. *)
Definition run_turn (s : world) (i : nat) (t : turn) (cs : list call) (e : ending) : outcome world :=
  do '(s, o) <- pop_turn s i t;;
  match o with None => Ret s | Some r => run_task s i r cs e end.
End reactor.
End isolation.

(** ** Where resumables are *)

Section facts.
Context {S : Type} {TS : timed_set S} {TU : timed_unlink S} `{!timed_set_spec S, !timed_unlink_spec S}.
Implicit Types (d : worker (S := S)) (s : world (S := S)) (h : wakeups).

Definition rest d : list Z :=
  ts_elements (sleep_queue d) ++ external_queue d ++ option_list (current_task d) ++ (map_to_list (armed d)).*2.
Definition places d : list Z := ready_queue d ++ rest d.

(** A worker holds each resumable in one place, holds only resumables attached
    to it, and wakes up no later than its first sleeper. *)
Record worker_ok h (ex : gmap Z nat) (i : nat) d : Prop := {
  ok_nodup : NoDup (places d);
  ok_attached : forall r, r ∈ places d -> ex !! r = Some i;
  ok_sorted : StronglySorted (timepoint_less h) (ts_elements (sleep_queue d));
  ok_next : forall r, r ∈ ts_elements (sleep_queue d) -> next_wakeup d <= wakeup_time h r
}.

Definition world_ok s : Prop :=
  (0 < length (workers s))%nat /\
  forall i d, workers s !! i = Some d -> worker_ok (times s) (executor s) i d.

Lemma worker_new_ok h ex i : worker_ok h ex i worker_new.
Proof.
  assert (places worker_new = []) as E.
  { unfold places, rest. simpl. by rewrite ts_empty_ok, map_to_list_empty. }
  split; rewrite ?E; simpl; rewrite ?ts_empty_ok; try constructor; intros r Hr; by apply elem_of_nil in Hr.
Qed.

Lemma push_internally_eq d r : r ∉ ready_queue d ->
  exists n m, push_internally d r = Ret (with_tasks n m (with_ready (ready_queue d ++ [r]) d)).
Proof.
  intros Hr. unfold push_internally, is_ready_linked. cbn [ready_queue with_tasks].
  rewrite bool_decide_false by done. eexists _, _. reflexivity.
Qed.

Lemma push_all_eq d rs : NoDup (ready_queue d ++ rs) ->
  exists n m, push_all d rs = Ret (with_tasks n m (with_ready (ready_queue d ++ rs) d)).
Proof.
  revert d. induction rs as [|r rs IH]; intros d Hnd; cbn [push_all].
  - exists (tasks_ready d), (max_tasks_ready d). rewrite app_nil_r. by destruct d.
  - pose proof Hnd as (_ & Hd & _)%list.NoDup_app.
    destruct (push_internally_eq d r) as (n & m & ->); [intros Hr; apply (Hd r Hr); constructor|]. cbn [bindO].
    destruct (IH (with_tasks n m (with_ready (ready_queue d ++ [r]) d))) as (n' & m' & ->).
    { cbn [ready_queue with_tasks with_ready]. by rewrite <- app_assoc. }
    exists n', m'. cbn [ready_queue with_tasks with_ready]. by rewrite <- app_assoc.
Qed.

Lemma drain_external_eq d : NoDup (places d) ->
  exists n m, drain_external_queue d =
    Ret (with_tasks n m (with_ready (ready_queue d ++ external_queue d) (with_external [] d))).
Proof.
  intros Hnd. destruct (push_all_eq (with_external [] d) (external_queue d)) as (n & m & E).
  - cbn [ready_queue with_external]. unfold places, rest in Hnd.
    apply list.NoDup_app in Hnd as (H1 & H2 & H3). apply list.NoDup_app in H3 as (_ & _ & H3).
    apply list.NoDup_app in H3 as (H3 & _). apply list.NoDup_app. split; [done|]. split; [|done].
    intros x Hx Hx'. apply (H2 x Hx). rewrite !elem_of_app. auto.
  - exists n, m. exact E.
Qed.

(** The sleepers that are due, in order, become ready; the others stay. *)
Definition due h (now : Z) : Z -> Prop := fun x => wakeup_time h x <= now.
#[global] Instance due_dec h now x : Decision (due h now x).
Proof. unfold due. apply _. Defined.

Lemma drain_loop_eq h d l now :
  ts_elements (sleep_queue d) = l -> StronglySorted (timepoint_less h) l -> NoDup (ready_queue d ++ l) ->
  exists n m k sq, drain_loop h d l now =
    Ret (with_tasks n m (with_ready (ready_queue d ++ filter (due h now) l) (with_sleep sq k d))) /\
    ts_elements sq = filter (fun x => ~ due h now x) l /\
    (forall x, x ∈ ts_elements sq -> k <= wakeup_time h x) /\ (ts_elements sq = [] -> k = tp_max).
Proof.
  revert d. induction l as [|r l IH]; intros d El Hs Hnd; cbn [drain_loop].
  - exists (tasks_ready d), (max_tasks_ready d), tp_max, (sleep_queue d). rewrite !filter_nil, app_nil_r, El.
    split; [by destruct d|]. split; [done|]. split; [|done]. by intros x Hx%elem_of_nil.
  - pose proof (sorted_head h r l Hs) as [_ Hlt]. assert (StronglySorted (timepoint_less h) l) as Hsl by by inversion Hs.
    case_if.
    + destruct (push_internally_eq (with_sleep (ts_pop (sleep_queue d)) (next_wakeup d) d) r) as (n & m & ->).
      { intros Hr. apply list.NoDup_app in Hnd as (_ & Hd & _). apply (Hd r Hr). constructor. }
      cbn [bindO].
      edestruct (IH (with_tasks n m (with_ready (ready_queue d ++ [r]) (with_sleep (ts_pop (sleep_queue d)) (next_wakeup d) d))))
        as (n' & m' & k & sq & E' & Hq & Hk); [|done|cbn; by rewrite <- app_assoc|].
      { cbn. by rewrite ts_pop_ok, El. }
      exists n', m', k, sq. rewrite filter_cons_True by (unfold due; lia).
      rewrite (filter_cons_False (fun x => ~ due h now x)) by (unfold due; lia). cbn [ready_queue with_sleep] in E' |- *.
      rewrite E'. split; [|by split]. cbn -[filter]. by rewrite <- app_assoc.
    + assert (forall x, x ∈ r :: l -> ~ due h now x) as Hno.
      { unfold due. intros x Hx. apply elem_of_cons in Hx as [->|Hx]; [lia|]. specialize (Hlt x Hx). lia. }
      exists (tasks_ready d), (max_tasks_ready d), (wakeup_time h r), (sleep_queue d).
      rewrite (filter_none (due h now) (r :: l)) by exact Hno. rewrite app_nil_r, filter_all, El by exact Hno.
      split; [by destruct d|]. split; [done|]. split; [|done].
      intros x Hx. apply elem_of_cons in Hx as [->|Hx]; [lia|]. specialize (Hlt x Hx). lia.
Qed.

Lemma drain_sleep_eq h ex i d now : worker_ok h ex i d ->
  exists n m k sq, drain_sleep_queue h d now =
    Ret (with_tasks n m (with_ready (ready_queue d ++ filter (due h (now + slack)) (ts_elements (sleep_queue d)))
      (with_sleep sq k d))) /\
    ts_elements sq = filter (fun x => ~ due h (now + slack) x) (ts_elements (sleep_queue d)) /\
    (forall x, x ∈ ts_elements sq -> k <= wakeup_time h x).
Proof.
  intros [Hnd _ Hs Hk]. unfold drain_sleep_queue. case_if.
  - destruct (drain_loop_eq h d (ts_elements (sleep_queue d)) (now + slack)) as (n & m & k & sq & E' & Hq & Hk' & _); [done..| |by eauto 10].
    unfold places, rest in Hnd. rewrite app_assoc in Hnd. by apply list.NoDup_app in Hnd as [Hnd _].
  - assert (forall x, x ∈ ts_elements (sleep_queue d) -> ~ due h (now + slack) x) as Hno.
    { intros x Hx. specialize (Hk x Hx). unfold due. lia. }
    exists (tasks_ready d), (max_tasks_ready d), (next_wakeup d), (sleep_queue d).
    rewrite (filter_none (due h _)) by exact Hno. rewrite app_nil_r, filter_all by exact Hno. by destruct d.
Qed.
(** ** What an operation does to the invariant of one worker *)

Lemma worker_ok_shrink h ex i d d' k :
  worker_ok h ex i d -> places d ≡ₚ k ++ places d' ->
  sleep_queue d' = sleep_queue d -> next_wakeup d' = next_wakeup d -> worker_ok h ex i d'.
Proof.
  intros [Hnd Ha Hs Hn] Hp Es En. rewrite Hp in Hnd. split.
  - by apply list.NoDup_app in Hnd as (_ & _ & Hnd).
  - intros r Hr. apply Ha. rewrite Hp. apply elem_of_app. by right.
  - by rewrite Es.
  - by rewrite Es, En.
Qed.

Lemma worker_ok_add h ex i d d' r :
  worker_ok h ex i d -> r ∉ places d -> ex !! r = Some i -> places d' ≡ₚ r :: places d ->
  sleep_queue d' = sleep_queue d -> next_wakeup d' = next_wakeup d -> worker_ok h ex i d'.
Proof.
  intros [Hnd Ha Hs Hn] Hr He Hp Es En. split.
  - rewrite Hp. by apply list.NoDup_cons.
  - intros x Hx. rewrite Hp in Hx. apply elem_of_cons in Hx as [->|Hx]; auto.
  - by rewrite Es.
  - by rewrite Es, En.
Qed.

Lemma worker_ok_ext h ex h' ex' i d :
  worker_ok h ex i d -> (forall r, r ∈ places d -> wakeup_time h' r = wakeup_time h r /\ ex' !! r = ex !! r) ->
  worker_ok h' ex' i d.
Proof.
  intros [Hnd Ha Hs Hn] He.
  assert (forall r, r ∈ ts_elements (sleep_queue d) -> wakeup_time h' r = wakeup_time h r) as Ht.
  { intros r Hr. apply He. unfold places, rest. rewrite !elem_of_app. auto. }
  split; [done| | |].
  - intros r Hr. destruct (He r Hr) as [_ ->]. auto.
  - by apply (sorted_ext h).
  - intros r Hr. rewrite Ht by done. auto.
Qed.

Lemma places_ready l d : places (with_ready l d) = l ++ rest d.
Proof. done. Qed.

Lemma push_ready_queue_ok h ex i d r n m :
  worker_ok h ex i d -> r ∉ places d -> ex !! r = Some i ->
  worker_ok h ex i (with_tasks n m (with_ready (ready_queue d ++ [r]) d)).
Proof.
  intros Hok Hr He. apply (worker_ok_add h ex i d _ r); try done.
  unfold places at 1. cbn [ready_queue with_tasks with_ready]. change (rest (with_tasks _ _ _)) with (rest d).
  rewrite <- app_assoc. cbn [app]. by rewrite <- Permutation_middle.
Qed.

Lemma push_externally_ok h ex i d r :
  worker_ok h ex i d -> r ∉ places d -> ex !! r = Some i -> worker_ok h ex i (push_externally d r).
Proof.
  intros Hok Hr He. apply (worker_ok_add h ex i d _ r); try done.
  unfold places, rest. cbn -[app]. rewrite <- (app_assoc (external_queue d)). cbn [app].
  by rewrite <- !Permutation_middle.
Qed.

Definition unlink r d : worker := ready_unlink r (sleep_unlink r d).

Lemma elements_places r d : r ∈ ts_elements (sleep_queue d) -> r ∈ places d.
Proof. intros. unfold places, rest. rewrite !elem_of_app. auto. Qed.

Lemma ready_places r d : r ∈ ready_queue d -> r ∈ places d.
Proof. intros. unfold places, rest. rewrite !elem_of_app. auto. Qed.

Lemma filter_ne_id (r : Z) (l : list Z) : r ∉ l -> filter (fun x => x <> r) l = l.
Proof. intros Hr. apply filter_all. intros x Hx ->. done. Qed.

(** Taking a resumable out of the queues its hooks link it to. *)
Lemma unlink_places r d :
  r ∉ external_queue d ++ option_list (current_task d) ++ (map_to_list (armed d)).*2 ->
  places (unlink r d) = filter (fun x => x <> r) (places d).
Proof.
  intros Hr. unfold places, rest. rewrite !list.filter_app. cbn -[filter].
  rewrite ts_unlink_ok. rewrite !elem_of_app in Hr. f_equal. f_equal.
  by rewrite !filter_ne_id by tauto.
Qed.

Lemma unlink_queues_ok h ex i r d :
  worker_ok h ex i d -> r ∉ external_queue d ++ option_list (current_task d) ++ (map_to_list (armed d)).*2 ->
  worker_ok h ex i (unlink r d) /\ r ∉ places (unlink r d).
Proof.
  intros [Hnd Ha Hs Hn] Hr. pose proof (unlink_places r d Hr) as E. split; [split|].
  - rewrite E. by apply list.NoDup_filter.
  - intros x Hx. rewrite E in Hx. apply list_elem_of_filter in Hx as [_ Hx]. auto.
  - cbn -[filter]. rewrite ts_unlink_ok. by apply sorted_filter.
  - intros x Hx. cbn -[filter] in Hx. rewrite ts_unlink_ok in Hx. apply list_elem_of_filter in Hx as [_ Hx]. by apply Hn.
  - rewrite E. intros Hx. apply list_elem_of_filter in Hx as [Hx _]. done.
Qed.

(** Once both queues are drained, the invariant still holds. *)
Lemma drains_ok h ex i d now : worker_ok h ex i d ->
  exists d1 d2, drain_external_queue d = Ret d1 /\ drain_sleep_queue h d1 now = Ret d2 /\ worker_ok h ex i d2 /\
    ready_queue d2 = ready_queue d ++ external_queue d ++ filter (due h (now + slack)) (ts_elements (sleep_queue d)) /\
    ts_elements (sleep_queue d2) = filter (fun x => ~ due h (now + slack) x) (ts_elements (sleep_queue d)) /\
    external_queue d2 = [] /\ current_task d2 = current_task d /\ armed d2 = armed d.
Proof.
  intros Hok. destruct (drain_external_eq d (ok_nodup _ _ _ _ Hok)) as (n & m & E1).
  set (d1 := with_tasks n m (with_ready (ready_queue d ++ external_queue d) (with_external [] d))) in *.
  assert (places d1 ≡ₚ places d) as Hp.
  { unfold places, rest. cbn -[app]. rewrite <- app_assoc. apply Permutation_app_head. by rewrite Permutation_app_comm, <- app_assoc, (Permutation_app_comm (external_queue d)), <- app_assoc. }
  assert (worker_ok h ex i d1) as Hok1 by (by apply (worker_ok_shrink h ex i d _ [])).
  destruct (drain_sleep_eq h ex i d1 now Hok1) as (n' & m' & k & sq & E2 & Hq & Hk).
  eexists _, _. split; [exact E1|]. split; [exact E2|]. split; [|cbn -[filter app]; by rewrite <- app_assoc].
  destruct Hok1 as [Hnd Ha Hs Hn].
  match goal with |- worker_ok _ _ _ ?x => assert (places x ≡ₚ places d1) as Hp2 end.
  { unfold places, rest. cbn -[filter app]. rewrite Hq, <- (app_assoc (ready_queue d ++ external_queue d)).
    apply Permutation_app_head. rewrite app_assoc. apply Permutation_app_tail. apply filter_app_complement. }
  split.
  - by rewrite Hp2.
  - intros x Hx. rewrite Hp2 in Hx. auto.
  - cbn -[filter]. rewrite Hq. by apply sorted_filter.
  - exact Hk.
Qed.
(** ** What an operation does to the invariant of the world *)

Lemma world_worker s i d : world_ok s -> workers s !! i = Some d -> worker_ok (times s) (executor s) i d.
Proof. intros [_ Hw]. apply Hw. Qed.

Lemma set_worker_ok s i d : world_ok s -> worker_ok (times s) (executor s) i d -> world_ok (set_worker i d s).
Proof.
  intros [Hl Hw] Hd. split; cbn [workers set_worker with_workers].
  - by rewrite length_insert.
  - intros j dj Hj. apply list_lookup_insert_Some in Hj as [(-> & -> & _)|[_ Hj]]; [done|]. by apply Hw.
Qed.

Lemma set_worker_twice i d d' s : set_worker i d (set_worker i d' s) = set_worker i d s.
Proof. unfold set_worker, with_workers. cbn. by rewrite list_insert_insert_eq. Qed.

Lemma set_worker_at i d d' s : workers s !! i = Some d' -> worker_at (set_worker i d s) i = Ret d.
Proof.
  intros E. unfold worker_at. cbn [workers set_worker with_workers].
  by rewrite list_lookup_insert_eq by (by eapply lookup_lt_Some).
Qed.

Lemma worker_at_eq s i d : workers s !! i = Some d -> worker_at s i = Ret d.
Proof. unfold worker_at. by intros ->. Qed.

(** A resumable attached to nothing is nowhere. *)
Lemma fresh_nowhere h ex i d r : worker_ok h ex i d -> ex !! r = None -> r ∉ places d.
Proof. intros Hok Hr Hin. apply (ok_attached _ _ _ _ Hok) in Hin. congruence. Qed.

Lemma attach_resumable_ok s r i : world_ok s -> executor s !! r = None -> world_ok (attach_executor s r i).
Proof.
  intros [Hl Hw] Hr. split; [done|]. intros j d Hj. cbn in Hj |- *. specialize (Hw j d Hj).
  apply (worker_ok_ext _ _ _ _ _ _ Hw). intros x Hx. split; [done|]. rewrite lookup_insert_ne; [done|].
  intros ->. by apply (fresh_nowhere _ _ _ _ _ Hw Hr).
Qed.

Lemma detach_ok s r : world_ok s -> (forall i d, workers s !! i = Some d -> r ∉ places d) ->
  world_ok (with_executor (delete r (executor s)) s).
Proof.
  intros [Hl Hw] Hr. split; [done|]. intros j d Hj. cbn in Hj |- *. specialize (Hw j d Hj).
  apply (worker_ok_ext _ _ _ _ _ _ Hw). intros x Hx. split; [done|]. rewrite lookup_delete_ne; [done|].
  intros ->. by apply (Hr j d).
Qed.

(** A resumable is only in places of the worker it is attached to. *)
Lemma elsewhere s i j d r : world_ok s -> executor s !! r = Some i -> workers s !! j = Some d -> j <> i -> r ∉ places d.
Proof.
  intros Hok Hr Hj Hne Hin. apply (ok_attached _ _ _ _ (world_worker _ _ _ Hok Hj)) in Hin. congruence.
Qed.

Definition off_hooks r d : Prop := r ∉ external_queue d ++ option_list (current_task d) ++ (map_to_list (armed d)).*2.

(** What [schedule] and [unblock] leave of a worker, and of the world. *)
Record scheduled (here : option nat) (i : nat) r d d' : Prop := {
  sch_ready : here = Some i -> ready_queue d' = ready_queue d ++ [r] /\ external_queue d' = external_queue d;
  sch_external : here <> Some i -> ready_queue d' = ready_queue d /\ external_queue d' = external_queue d ++ [r];
  sch_sleep : sleep_queue d' = sleep_queue d;
  sch_next : next_wakeup d' = next_wakeup d;
  sch_armed : armed d' = armed d;
  sch_current : current_task d' = current_task d
}.

Lemma schedule_ok s here i r d :
  world_ok s -> workers s !! i = Some d -> executor s !! r = Some i -> r ∉ places d ->
  exists d', schedule s here i r = Ret (set_worker i d' s) /\ scheduled here i r d d' /\
    worker_ok (times s) (executor s) i d'.
Proof.
  intros Hok Hi He Hr. pose proof (world_worker _ _ _ Hok Hi) as Hd. unfold schedule. rewrite (worker_at_eq _ _ _ Hi). cbn [bindO].
  case_bool_decide.
  - destruct (push_internally_eq d r) as (n & m & ->); [intros Hin; by apply Hr, ready_places|]. cbn [bindO].
    eexists. split; [done|]. split; [by split|]. by apply push_ready_queue_ok.
  - eexists. split; [done|]. split; [by split|]. by apply push_externally_ok.
Qed.

Lemma unblock_ok s here i r d :
  world_ok s -> workers s !! i = Some d -> executor s !! r = Some i -> off_hooks r d ->
  exists d', unblock s here r = Ret (set_worker i d' s) /\ scheduled here i r (unlink r d) d' /\
    worker_ok (times s) (executor s) i d'.
Proof.
  intros Hok Hi He Hr. destruct (unlink_queues_ok _ _ _ r d (world_worker _ _ _ Hok Hi) Hr) as [Hu Hn].
  destruct (schedule_ok (set_worker i (unlink r d) s) here i r (unlink r d)) as (d' & E & Hs & Hok').
  { by apply set_worker_ok. } { cbn. apply list_lookup_insert_eq. by eapply lookup_lt_Some. } { done. } { done. }
  exists d'. split; [|by split]. unfold unblock. rewrite He. cbn [bindO derefO]. rewrite (worker_at_eq _ _ _ Hi). cbn [bindO].
  fold (unlink r d). rewrite E. by rewrite set_worker_twice.
Qed.

Lemma destroy_ok s i r d :
  world_ok s -> workers s !! i = Some d -> executor s !! r = Some i -> off_hooks r d ->
  exists s', destroy s i r = Ret s' /\ world_ok s' /\ times s' = times s /\
    executor s' = delete r (executor s) /\ workers s' = <[i := unlink r d]> (workers s).
Proof.
  intros Hok Hi He Hr. destruct (unlink_queues_ok _ _ _ r d (world_worker _ _ _ Hok Hi) Hr) as [Hu Hn].
  unfold destroy. rewrite He. cbn [bindO derefO assertO]. rewrite bool_decide_true by done. cbn [assertO].
  rewrite (worker_at_eq _ _ _ Hi). cbn [bindO]. fold (unlink r d). eexists. split; [reflexivity|]. split; [|done].
  apply (detach_ok (set_worker i (unlink r d) s)); [by apply set_worker_ok|]. intros j dj Hj. cbn in Hj.
  apply list_lookup_insert_Some in Hj as [(<- & <- & _)|[Hne Hj]]; [done|]. by apply (elsewhere s i j).
Qed.
(** [s'] is [s] with another state of worker [i]. *)
Definition only_worker (i : nat) d' s s' : Prop :=
  times s' = times s /\ executor s' = executor s /\ workers s' = <[i := d']> (workers s).

Lemma only_worker_set i d s : only_worker i d s (set_worker i d s).
Proof. done. Qed.

Lemma only_worker_at i d d' s s' : workers s !! i = Some d -> only_worker i d' s s' -> workers s' !! i = Some d'.
Proof. intros Hi (_ & _ & ->). apply list_lookup_insert_eq. by eapply lookup_lt_Some. Qed.

(** *** The reactor's events

    What epoll reports: its own two descriptors, or a descriptor that is armed
    and the resumable it is armed for; a descriptor is reported once. *)
Section events.
Context (wakeup_fd timer_fd : Z).

Definition legal_event d (ev : Z * Z) : Prop :=
  Netpoller.data_fd ev.2 = wakeup_fd \/ Netpoller.data_fd ev.2 = timer_fd \/ armed d !! ev.1 = Some ev.2.

Definition same_side d d' : Prop :=
  external_queue d' = external_queue d /\ current_task d' = current_task d /\ sleep_queue d' = sleep_queue d.

Lemma armed_split (m : gmap Z Z) fd r : m !! fd = Some r -> (map_to_list m).*2 ≡ₚ r :: (map_to_list (delete fd m)).*2.
Proof. intros E. by rewrite <- (map_to_list_delete m fd r E). Qed.

Lemma disarm_ok h ex i d fd r : worker_ok h ex i d -> armed d !! fd = Some r ->
  worker_ok h ex i (with_armed (delete fd (armed d)) d) /\ r ∉ places (with_armed (delete fd (armed d)) d) /\ ex !! r = Some i.
Proof.
  intros Hok E. assert (places d ≡ₚ r :: places (with_armed (delete fd (armed d)) d)) as Hp.
  { unfold places, rest. cbn -[app]. rewrite (armed_split _ _ _ E). by rewrite <- !Permutation_middle. }
  split; [by apply (worker_ok_shrink h ex i d _ [r])|]. split.
  - pose proof (ok_nodup _ _ _ _ Hok) as Hnd. rewrite Hp in Hnd. by apply list.NoDup_cons in Hnd as [Hnd _].
  - apply (ok_attached _ _ _ _ Hok). rewrite Hp. constructor.
Qed.

Lemma nowhere_off_hooks r d : r ∉ places d -> off_hooks r d.
Proof. unfold off_hooks, places, rest. rewrite !elem_of_app. tauto. Qed.

Lemma unlink_nowhere r d : r ∉ places d -> ready_queue (unlink r d) = ready_queue d /\ ts_elements (sleep_queue (unlink r d)) = ts_elements (sleep_queue d).
Proof.
  intros Hr. cbn -[filter]. rewrite ts_unlink_ok. split; apply filter_ne_id; intros Hin; apply Hr;
    [by apply ready_places|by apply elements_places].
Qed.

Lemma event_ok s i d fd data :
  world_ok s -> workers s !! i = Some d -> legal_event d (fd, data) ->
  exists s' d', handle_event wakeup_fd timer_fd s i fd data = Ret s' /\ only_worker i d' s s' /\
    worker_ok (times s) (executor s) i d' /\ (armed d' = armed d \/ armed d' = delete fd (armed d)) /\
    external_queue d' = external_queue d /\ current_task d' = current_task d /\
    ts_elements (sleep_queue d') = ts_elements (sleep_queue d) /\ ready_queue d `prefix_of` ready_queue d'.
Proof.
  intros Hok Hi Hl. pose proof (world_worker _ _ _ Hok Hi) as Hd. unfold handle_event. case_if.
  { rewrite (worker_at_eq _ _ _ Hi). eexists _, (with_wakeups 0 d). split; [reflexivity|]. split; [done|].
    split; [by apply (worker_ok_shrink _ _ _ d _ [])|]. by do 4 (split; [auto|]). }
  case_if.
  { exists s, d. split; [done|]. split; [split; [done|split; [done|]]; symmetry; by apply list_insert_id|].
    split; [done|]. by do 4 (split; [auto|]). }
  destruct Hl as [Hl|[Hl|Hl]]; cbn in Hl; [lia..|]. rewrite (worker_at_eq _ _ _ Hi). cbn [bindO].
  set (d0 := with_armed (delete fd (armed d)) d). destruct (disarm_ok _ _ _ _ _ _ Hd Hl) as (Hd0 & Hn & He). fold d0 in Hd0, Hn.
  unfold is_ready_linked. rewrite bool_decide_false by (intros Hin; apply Hn, (ready_places data d0); exact Hin).
  cbn [negb assertO].
  pose proof (set_worker_ok s i d0 Hok Hd0) as Hok0.
  assert (workers (set_worker i d0 s) !! i = Some d0) as Hi0 by (cbn; apply list_lookup_insert_eq; by eapply lookup_lt_Some).
  destruct (unblock_ok (set_worker i d0 s) (Some i) i data d0 Hok0 Hi0 He (nowhere_off_hooks _ _ Hn)) as (d' & E' & Hs & Hd').
  destruct (unlink_nowhere data d0 Hn) as [Er Es]. destruct Hs as [Hs1 _ Hs2 _ Hs3 Hs4]. destruct (Hs1 eq_refl) as [Hr Hx].
  exists (set_worker i d' s), d'. rewrite E', set_worker_twice. do 3 (split; [done|]). split; [by right|].
  split; [done|]. split; [done|]. split; [by rewrite Hs2, Es|]. rewrite Hr, Er. by apply prefix_app_r.
Qed.

Lemma events_ok s i d evs :
  world_ok s -> workers s !! i = Some d -> NoDup evs.*1 -> Forall (legal_event d) evs ->
  exists s' d', poll_events wakeup_fd timer_fd s i evs = Ret s' /\ only_worker i d' s s' /\
    worker_ok (times s) (executor s) i d' /\
    external_queue d' = external_queue d /\ current_task d' = current_task d /\
    ts_elements (sleep_queue d') = ts_elements (sleep_queue d) /\ ready_queue d `prefix_of` ready_queue d'.
Proof.
  revert s d. induction evs as [|[fd data] evs IH]; intros s d Hok Hi Hnd Hl; cbn [poll_events].
  - exists s, d. split; [done|]. split; [split; [done|split; [done|]]; symmetry; by apply list_insert_id|].
    split; [by apply world_worker|]. by do 3 (split; [done|]).
  - apply list.Forall_cons in Hl as [Hev Hl]. apply list.NoDup_cons in Hnd as [Hfd Hnd].
    destruct (event_ok s i d fd data Hok Hi Hev) as (s1 & d1 & -> & Ho & Hd1 & Ha & H1 & H2 & H3 & H4). cbn [bindO].
    pose proof (only_worker_at _ _ _ _ _ Hi Ho) as Hi1. destruct Ho as (Ht & Hx & Hw).
    assert (world_ok s1) as Hok1.
    { pose proof (set_worker_ok s i d1 Hok Hd1) as Hk. destruct s1, s. cbn in *. by subst. }
    destruct (IH s1 d1 Hok1 Hi1 Hnd) as (s2 & d2 & -> & (Ht2 & Hx2 & Hw2) & Hd2 & F1 & F2 & F3 & F4).
    { apply list.Forall_forall. intros [fd' data'] Hin.
      destruct (proj1 (list.Forall_forall _ _) Hl _ Hin) as [He|[He|He]]; [by left|right; by left|].
      right; right. cbn in He |- *. destruct Ha as [->| ->]; [done|]. rewrite lookup_delete_ne; [done|].
      intros ->. apply Hfd. apply list_elem_of_fmap. by exists (fd', data'). }
    rewrite Ht, Hx in Hd2. exists s2, d2. split; [done|]. split.
    { split; [congruence|]. split; [congruence|]. by rewrite Hw2, Hw, list_insert_insert_eq. }
    split; [done|]. split; [congruence|]. split; [congruence|]. split; [congruence|]. by etrans.
Qed.
End events.
(** *** What a coroutine calls, and how it ends *)

(** A resumable is spawned once, and unblocked only when it is linked by its
    hooks at most. *)
Definition legal_call s (c : call) : Prop :=
  match c with
  | Spawn r | Schedule r => executor s !! r = None
  | Unblock r => exists j d, executor s !! r = Some j /\ workers s !! j = Some d /\ off_hooks r d
  end.

(** Every worker runs the same task, and its reactor waits for the same events. *)
Definition same_tasks s s' : Prop :=
  length (workers s') = length (workers s) /\
  forall j d d', workers s !! j = Some d -> workers s' !! j = Some d' ->
    current_task d' = current_task d /\ armed d' = armed d.

Lemma same_tasks_set s s' i d d' : workers s !! i = Some d -> workers s' = <[i := d']> (workers s) ->
  current_task d' = current_task d -> armed d' = armed d -> same_tasks s s'.
Proof.
  intros Hi Hw Hc Ha. split; [by rewrite Hw, length_insert|]. intros j dj dj' Hj Hj'. rewrite Hw in Hj'.
  apply list_lookup_insert_Some in Hj' as [(<- & <- & _)|[_ Hj']]; [|by rewrite Hj in Hj'; injection Hj' as ->].
  rewrite Hi in Hj. by injection Hj as <-.
Qed.

Lemma next_worker_ok s : world_ok s -> exists i d, next_worker s = Ret (World (times s) (executor s) (workers s) (u64 (next_worker_ s + 1)), i) /\
  workers s !! i = Some d.
Proof.
  intros [Hl _]. unfold next_worker. destruct (workers s) as [|w ws] eqn:E; [simpl in Hl; lia|]. rewrite <- E.
  assert (0 < zlen (workers s)) as Hz by (rewrite E; unfold zlen; simpl; lia).
  pose proof (Z.mod_pos_bound (next_worker_ s) (zlen (workers s)) Hz) as Hm.
  destruct (lookup_lt_is_Some_2 (workers s) (Z.to_nat (next_worker_ s mod zlen (workers s)))) as [d Hd]; [unfold zlen in *; lia|].
  by eexists _, d.
Qed.

Lemma call_ok s i c : world_ok s -> (i < length (workers s))%nat -> legal_call s c ->
  exists s', do_call s i c = Ret s' /\ world_ok s' /\ same_tasks s s'.
Proof.
  intros Hok Hi Hl. apply lookup_lt_is_Some_2 in Hi as [d Hi]. destruct c as [r|r|r]; cbn [do_call legal_call] in *.
  - pose proof (attach_resumable_ok s r i Hok Hl) as Hoka. pose proof (fresh_nowhere _ _ _ _ _ (world_worker _ _ _ Hok Hi) Hl) as Hn.
    unfold spawn_resumable. rewrite (worker_at_eq (attach_executor s r i) i d Hi). cbn [bindO].
    destruct (push_internally_eq d r) as (n & m & ->); [intros Hin; by apply Hn, ready_places|]. cbn [bindO].
    eexists. split; [reflexivity|]. split; [|by eapply (same_tasks_set _ _ _ _ _ Hi)].
    apply set_worker_ok; [done|]. apply push_ready_queue_ok; [by apply (world_worker (attach_executor s r i))|done|]. cbn. apply lookup_insert_eq.
  - unfold central_schedule. destruct (next_worker_ok s Hok) as (j & dj & -> & Hj). cbn [bindO].
    set (s1 := World _ _ _ _).
    assert (world_ok (attach_executor s1 r j)) as Hoka by (by apply attach_resumable_ok).
    pose proof (fresh_nowhere _ _ _ _ _ (world_worker _ _ _ Hok Hj) Hl) as Hn.
    rewrite (worker_at_eq (attach_executor s1 r j) j dj Hj). cbn [bindO].
    eexists. split; [reflexivity|]. split; [|by eapply (same_tasks_set _ _ _ _ _ Hj)].
    apply set_worker_ok; [done|]. apply (worker_ok_shrink _ _ _ (push_externally dj r) _ []); [|done..].
    apply push_externally_ok; [by apply (world_worker (attach_executor s1 r j))|done|]. cbn. apply lookup_insert_eq.
  - destruct Hl as (j & dj & He & Hj & Hr). destruct (unblock_ok s (Some i) j r dj Hok Hj He Hr) as (d' & -> & Hs & Hd').
    eexists. split; [reflexivity|]. split; [by apply set_worker_ok|]. destruct Hs as [_ _ _ _ Ha Hc].
    by eapply (same_tasks_set _ _ _ _ _ Hj).
Qed.

(** Legal calls: each is legal in the state the ones before it leave. *)
Fixpoint legal_calls s (i : nat) (cs : list call) : Prop :=
  match cs with
  | [] => True
  | c :: cs => legal_call s c /\ forall s', do_call s i c = Ret s' -> legal_calls s' i cs
  end.

Lemma calls_ok cs : forall s i, world_ok s -> (i < length (workers s))%nat -> legal_calls s i cs ->
  exists s', do_calls s i cs = Ret s' /\ world_ok s' /\ same_tasks s s'.
Proof.
  induction cs as [|c cs IH]; intros s i Hok Hi Hl; cbn [do_calls].
  - exists s. split; [done|]. split; [done|]. split; [done|]. intros j d d' Hj Hj'. rewrite Hj in Hj'. by injection Hj' as ->.
  - destruct Hl as [Hc Hl]. destruct (call_ok s i c Hok Hi Hc) as (s1 & E & Hok1 & Hs1). rewrite E. cbn [bindO].
    destruct (IH s1 i Hok1) as (s2 & -> & Hok2 & Hs2); [by rewrite (proj1 Hs1)|by apply Hl|].
    exists s2. split; [done|]. split; [done|]. destruct Hs1 as [L1 F1], Hs2 as [L2 F2]. split; [lia|].
    intros j d d2 Hj Hj2. destruct (lookup_lt_is_Some_2 (workers s1) j) as [d1 Hj1]; [apply lookup_lt_Some in Hj; lia|].
    destruct (F1 _ _ _ Hj Hj1) as [<- <-]. apply (F2 _ _ _ Hj1 Hj2).
Qed.

(** The two outcomes of [epoll_ctl] that arm a descriptor: [MOD] knows it, or
    [MOD] does not and [ADD] takes it, as for the first wait on a descriptor. *)
Definition arms (c : Netpoller.ctl) : Prop :=
  Netpoller.ctl_mod c = None \/ (Netpoller.ctl_mod c = Some Netpoller.ENOENT /\ Netpoller.ctl_add c = None).

#[local] Instance arms_dec c : Decision (arms c).
Proof. apply _. Defined.

(** Where the task is once the worker is done with it: destroyed, ready, in no
    place until someone unblocks it, asleep, or armed in epoll; a failure of [MOD]
    that is ignored leaves it in no place. *)
Definition lands s' (i : nat) (r : Z) (e : ending) : Prop :=
  match e with
  | EDone => executor s' !! r = None
  | ELater => exists d', workers s' !! i = Some d' /\ r ∈ ready_queue d'
  | EBlock => executor s' !! r = Some i /\ exists d', workers s' !! i = Some d' /\ r ∉ places d'
  | ESleep now ns => wakeup_time (times s') r = now + ns /\
      exists d', workers s' !! i = Some d' /\ r ∈ ts_elements (sleep_queue d') /\ next_wakeup d' <= now + ns
  | EAwait fd c => executor s' !! r = Some i /\ exists d', workers s' !! i = Some d' /\
      if decide (arms c) then armed d' !! fd = Some r else r ∉ places d'
  end.

(** The wakeup time of a sleeper is no one else's; a descriptor is awaited by
    one resumable at a time, and epoll takes it. *)
Definition legal_ending s (i : nat) (e : ending) : Prop :=
  forall d, workers s !! i = Some d ->
  match e with
  | ESleep now ns => forall x, x ∈ ts_elements (sleep_queue d) -> wakeup_time (times s) x <> now + ns
  | EAwait fd c => armed d !! fd = None /\ (Netpoller.ctl_mod c = Some Netpoller.ENOENT -> Netpoller.ctl_add c = None)
  | _ => True
  end.

Lemma arm_ok h ex i d fd r : worker_ok h ex i d -> armed d !! fd = None -> r ∉ places d -> ex !! r = Some i ->
  worker_ok h ex i (with_armed (<[fd := r]> (armed d)) d).
Proof.
  intros Hok Hf Hn He. apply (worker_ok_add _ _ _ d _ r); [done..| |done|done].
  unfold places, rest. cbn -[app]. rewrite (map_to_list_insert _ _ _ Hf). cbn [fmap list_fmap]. by rewrite <- !Permutation_middle.
Qed.

Lemma sleep_insert_ok h ex i d r t : worker_ok h ex i d -> r ∉ places d -> ex !! r = Some i ->
  (forall x, x ∈ ts_elements (sleep_queue d) -> wakeup_time h x <> t) ->
  worker_ok (set_wakeup_time h r t) ex i
    (with_sleep (ts_insert (set_wakeup_time h r t) r (sleep_queue d)) (if t <? next_wakeup d then t else next_wakeup d) d) /\
  r ∈ ts_elements (ts_insert (set_wakeup_time h r t) r (sleep_queue d)).
Proof.
  intros [Hnd Ha Hs Hn] Hr He Ht.
  assert (forall x, x ∈ ts_elements (sleep_queue d) -> wakeup_time (set_wakeup_time h r t) x = wakeup_time h x) as Hx.
  { intros x Hx. rewrite wakeup_time_set, decide_False; [done|]. intros ->. by apply Hr, elements_places. }
  destruct (ts_insert_new (set_wakeup_time h r t) r (sleep_queue d)) as [Hs' Hp].
  { by apply (sorted_ext h). } { intros x Hin. rewrite wakeup_time_set_eq, Hx by done. by apply Ht. }
  split; [|rewrite Hp; constructor].
  match goal with |- worker_ok _ _ _ ?x => assert (places x ≡ₚ r :: places d) as Hpl end.
  { unfold places, rest. cbn -[app]. rewrite Hp. cbn [app]. by rewrite <- !Permutation_middle. }
  split.
  - rewrite Hpl. by apply list.NoDup_cons.
  - intros x Hin. rewrite Hpl in Hin. apply elem_of_cons in Hin as [->|Hin]; auto.
  - done.
  - intros x Hin. cbn in Hin |- *. rewrite Hp in Hin. apply elem_of_cons in Hin as [->|Hin].
    + rewrite wakeup_time_set_eq. case_if; lia.
    + rewrite Hx by done. specialize (Hn x Hin). case_if; lia.
Qed.

(** The worker without its current task. *)
Lemma settle h ex i d r : worker_ok h ex i d -> current_task d = Some r ->
  worker_ok h ex i (with_current None d) /\ r ∉ places (with_current None d) /\ ex !! r = Some i.
Proof.
  intros Hok Hc. assert (places d ≡ₚ r :: places (with_current None d)) as Hp.
  { unfold places, rest. cbn -[app]. rewrite Hc.
    change (option_list (Some r)) with [r]. cbn [app]. by rewrite <- !Permutation_middle. }
  split; [by apply (worker_ok_shrink h ex i d _ [r])|]. split.
  - pose proof (ok_nodup _ _ _ _ Hok) as Hnd. rewrite Hp in Hnd. by apply list.NoDup_cons in Hnd as [Hnd _].
  - apply (ok_attached _ _ _ _ Hok). rewrite Hp. constructor.
Qed.

Lemma finish_blocked s i r d : workers s !! i = Some d ->
  finish_task s i r blocked = Ret (set_worker i (with_current None d) s).
Proof. intros Hi. unfold finish_task. cbn [bindO]. by rewrite (worker_at_eq _ _ _ Hi). Qed.
Lemma ready_unlink_id r d : r ∉ ready_queue d -> ready_unlink r d = d.
Proof. intros Hr. unfold ready_unlink. rewrite filter_ne_id by done. by destruct d. Qed.

Lemma sleep_for_eq h ex i d r now ns :
  worker_ok h ex i (with_current None d) -> r ∉ places (with_current None d) -> ex !! r = Some i ->
  (forall x, x ∈ ts_elements (sleep_queue d) -> wakeup_time h x <> now + ns) ->
  let h' := set_wakeup_time h r (now + ns) in
  let d' := with_sleep (ts_insert h' r (sleep_queue d)) (if now + ns <? next_wakeup d then now + ns else next_wakeup d) d in
  sleep_for h (ready_unlink r d) r now ns = Ret (h', d') /\ worker_ok h' ex i (with_current None d') /\
  r ∈ ts_elements (sleep_queue d').
Proof.
  intros Hok Hr He Ht h' d'. destruct (sleep_insert_ok h ex i (with_current None d) r (now + ns) Hok Hr He Ht) as [Hok' Hin].
  assert (r ∉ ready_queue d) as Hnr by (intros Hx; by apply Hr, (ready_places r (with_current None d))).
  split; [|by split]. unfold sleep_for. rewrite !ready_unlink_id by (rewrite ?ready_unlink_id; done).
  unfold is_sleep_linked, is_ready_linked. cbn [sleep_queue ready_queue with_sleep].
  rewrite bool_decide_true by done. rewrite bool_decide_false by done. done.
Qed.

(** Worker [i] has no task any more, the other workers are as they were. *)
Definition sat_down (i : nat) s s' : Prop := exists d', workers s' = <[i := d']> (workers s) /\ current_task d' = None.

Lemma done_ok s i r d : world_ok s -> workers s !! i = Some d -> current_task d = Some r ->
  exists s', finish_task s i r done_ = Ret s' /\ world_ok s' /\ executor s' !! r = None /\ sat_down i s s'.
Proof.
  intros Hok Hi Hc. destruct (settle _ _ _ _ _ (world_worker _ _ _ Hok Hi) Hc) as (Hd0 & Hn & He).
  set (d0 := with_current None d) in *.
  destruct (destroy_ok (set_worker i d0 s) i r d0) as (s' & E & Hok' & Ht & Hx & Hw).
  { by apply set_worker_ok. } { cbn. apply list_lookup_insert_eq. by eapply lookup_lt_Some. } { done. } { by apply nowhere_off_hooks. }
  exists s'. split; [|split; [done|split; [by rewrite Hx, lookup_delete_eq|]]].
  2: { exists (unlink r d0). split; [|done]. rewrite Hw. cbn. by rewrite list_insert_insert_eq. }
  unfold destroy in E. cbn [executor set_worker with_workers] in E. rewrite He in E. cbn [derefO bindO] in E.
  rewrite bool_decide_true in E by done. cbn [assertO] in E. rewrite (set_worker_at _ _ d _ Hi) in E. cbn [bindO] in E.
  injection E as <-. unfold finish_task, destroy. rewrite He. cbn [derefO bindO]. rewrite bool_decide_true by done. cbn [assertO].
  rewrite (worker_at_eq _ _ _ Hi). cbn [bindO]. erewrite (worker_at_eq _ i); [|cbn; apply list_lookup_insert_eq; by eapply lookup_lt_Some].
  cbn [bindO]. unfold set_worker, with_executor, with_workers. cbn -[filter]. by rewrite !list_insert_insert_eq.
Qed.

Lemma ending_ok s i r d e :
  world_ok s -> workers s !! i = Some d -> current_task d = Some r -> legal_ending s i e ->
  exists s', (do '(s, result) <- do_ending s i r e;; finish_task s i r result) = Ret s' /\ world_ok s' /\ lands s' i r e /\
    sat_down i s s'.
Proof.
  intros Hok Hi Hc Hl. specialize (Hl d Hi). destruct (settle _ _ _ _ _ (world_worker _ _ _ Hok Hi) Hc) as (Hd0 & Hn & He).
  pose proof (lookup_lt_Some _ _ _ Hi) as Hlt.
  destruct e as [| | |now ns|fd c]; cbn [do_ending bindO].
  - by apply (done_ok s i r d).
  - unfold finish_task. rewrite (worker_at_eq _ _ _ Hi). cbn [bindO].
    destruct (push_internally_eq d r) as (n & m & ->); [intros Hx; by apply Hn, (ready_places r (with_current None d))|].
    cbn [bindO]. rewrite (set_worker_at _ _ d _ Hi). cbn [bindO]. rewrite set_worker_twice. eexists. split; [reflexivity|]. split.
    + apply set_worker_ok; [done|]. by apply (push_ready_queue_ok _ _ _ (with_current None d)).
    + split; [|by eexists]. eexists. split; [cbn; by apply list_lookup_insert_eq|]. cbn -[app].
      rewrite elem_of_app. right. constructor.
  - rewrite (finish_blocked _ _ _ d Hi). eexists. split; [reflexivity|]. split; [by apply set_worker_ok|].
    split; [|by eexists]. split; [exact He|]. eexists. split; [cbn; by apply list_lookup_insert_eq|done].
  - rewrite He, (worker_at_eq _ _ _ Hi). cbn [bindO].
    destruct (sleep_for_eq (times s) (executor s) i d r now ns Hd0 Hn He Hl) as (-> & Hd' & Hin). cbn [bindO].
    set (d' := with_sleep _ _ d) in *. set (s1 := set_worker i d' _).
    assert (workers s1 !! i = Some d') as Hi1 by (cbn; by apply list_lookup_insert_eq).
    rewrite (finish_blocked _ _ _ d' Hi1). eexists. split; [reflexivity|].
    split; [|split; [split|]].
    + split; [cbn; rewrite !length_insert; apply Hok|]. intros j dj Hj. cbn in Hj. rewrite list_insert_insert_eq in Hj.
      apply list_lookup_insert_Some in Hj as [(<- & <- & _)|[Hne Hj]]; [exact Hd'|]. cbn.
      apply (worker_ok_ext _ _ _ _ _ _ (world_worker _ _ _ Hok Hj)). intros x Hx. split; [|done].
      rewrite wakeup_time_set, decide_False; [done|]. intros ->. by apply (elsewhere s i j dj r Hok He Hj).
    + cbn. apply wakeup_time_set_eq.
    + eexists. split; [cbn; rewrite list_insert_insert_eq; by apply list_lookup_insert_eq|]. split; [exact Hin|]. cbn. case_if; lia.
    + exists (with_current None d'). split; [|done]. cbn. by rewrite list_insert_insert_eq.
  - destruct Hl as [Hf Hadd]. unfold await_fd. rewrite (worker_at_eq _ _ _ Hi). cbn [bindO].
    set (s1 := set_worker i (with_armed (<[fd := r]> (armed d)) d) s).
    assert (workers s1 !! i = Some (with_armed (<[fd := r]> (armed d)) d)) as Hi1 by (cbn; by apply list_lookup_insert_eq).
    assert (arms c -> exists s', finish_task s1 i r blocked = Ret s' /\ world_ok s' /\ lands s' i r (EAwait fd c) /\ sat_down i s s') as Harm.
    { intros Harms. rewrite (finish_blocked _ _ _ _ Hi1). eexists. split; [reflexivity|]. split.
      - unfold s1. rewrite set_worker_twice. apply set_worker_ok; [done|]. by apply (arm_ok _ _ _ (with_current None d)).
      - split; [|eexists; split; [cbn; by rewrite list_insert_insert_eq|done]]. split; [exact He|]. eexists. rewrite decide_True by done.
        split; [cbn; rewrite list_insert_insert_eq; by apply list_lookup_insert_eq|]. cbn. apply lookup_insert_eq. }
    destruct (Netpoller.ctl_mod c) as [err|] eqn:Em; [|apply Harm; by left]. destruct (Z.eqb_spec err Netpoller.ENOENT) as [->|Hne].
    + rewrite Hadd by done. apply Harm. right. by rewrite Hadd.
    + cbn [bindO]. rewrite (finish_blocked _ _ _ d Hi). eexists. split; [reflexivity|]. split; [by apply set_worker_ok|].
      split; [|by eexists]. split; [exact He|]. eexists. rewrite decide_False; [split; [cbn; by apply list_lookup_insert_eq|done]|].
      unfold arms. rewrite Em. by intros [?|[[= ?] _]].
Qed.
(** *** A turn of a worker *)
Section turns.
Context (wakeup_fd timer_fd : Z).

Lemma pop_turn_ok s i d t :
  world_ok s -> workers s !! i = Some d -> NoDup (t_events t).*1 ->
  Forall (legal_event wakeup_fd timer_fd d) (t_events t) ->
  exists s' o d', pop_turn wakeup_fd timer_fd s i t = Ret (s', o) /\ world_ok s' /\ only_worker i d' s s' /\
    current_task d' = current_task d /\
    (ready_queue d ++ external_queue d ++ filter (due (times s) (t_sleep t + slack)) (ts_elements (sleep_queue d)))
      `prefix_of` option_list o ++ ready_queue d' /\
    (o = None -> ready_queue d' = []) /\
    (forall r, o = Some r -> executor s !! r = Some i /\ r ∉ places d').
Proof.
  intros Hok Hi Hnd Hl. unfold pop_turn. rewrite (worker_at_eq _ _ _ Hi). cbn [bindO].
  destruct (drains_ok _ _ _ _ (t_sleep t) (world_worker _ _ _ Hok Hi)) as (d1 & d2 & -> & E2 & Hd2 & Hr & _ & _ & Hc & Ha).
  cbn [bindO]. rewrite E2. cbn [bindO].
  destruct (events_ok wakeup_fd timer_fd (set_worker i d2 s) i d2 (t_events t)) as (s3 & d3 & E3 & Ho & Hd3 & _ & Hc3 & _ & Hp).
  { by apply set_worker_ok. } { cbn. apply list_lookup_insert_eq. by eapply lookup_lt_Some. } { done. }
  { apply list.Forall_forall. intros ev Hev. destruct (proj1 (list.Forall_forall _ _) Hl _ Hev) as [H|[H|H]]; unfold legal_event; rewrite ?Ha; auto. }
  rewrite E3. cbn [bindO].
  assert (only_worker i d3 s s3) as Ho3.
  { destruct Ho as (? & ? & Hw). split; [done|]. split; [done|]. rewrite Hw. cbn. by rewrite list_insert_insert_eq. }
  pose proof (only_worker_at _ _ _ _ _ Hi Ho3) as Hi3. rewrite (worker_at_eq _ _ _ Hi3). cbn [bindO].
  assert (world_ok s3) as Hok3.
  { pose proof (set_worker_ok s i d3 Hok Hd3) as Hk. destruct s3, s, Ho3 as (H1 & H2 & H3). cbn in *. by subst. }
  rewrite Hr in Hp. destruct (ready_queue d3) as [|r l] eqn:El.
  - exists s3, None, d3. split; [done|]. split; [done|]. split; [done|]. split; [congruence|]. split; [by rewrite El|]. done.
  - set (d4 := with_tasks _ _ (ready_unlink r d3)).
    assert (places d3 = r :: places d4 /\ r ∉ places d4) as [Hp4 Hn4].
    { pose proof (ok_nodup _ _ _ _ Hd3) as Hnd3. unfold places, rest in Hnd3 |- *. cbn -[filter]. rewrite El in Hnd3 |- *.
      cbn [app] in Hnd3 |- *. apply list.NoDup_cons in Hnd3 as [Hn _]. rewrite !elem_of_app in Hn.
      rewrite filter_cons_False by (intros Hx; by apply Hx). rewrite filter_ne_id by tauto. rewrite !elem_of_app. tauto. }
    assert (ready_queue d4 = l) as E4.
    { cbn -[filter]. rewrite El, filter_cons_False by (intros Hx; by apply Hx). apply filter_ne_id. intros Hin.
      pose proof (ok_nodup _ _ _ _ Hd3) as Hnd3. unfold places in Hnd3. rewrite El in Hnd3. cbn [app] in Hnd3.
      apply list.NoDup_cons in Hnd3 as [Hn _]. apply Hn, elem_of_app. by left. }
    assert (worker_ok (times s) (executor s) i d4) as Hd4 by (apply (worker_ok_shrink _ _ _ d3 _ [r]); [done|by rewrite Hp4|done..]).
    exists (set_worker i d4 s3), (Some r), d4. split; [done|]. split.
    { apply set_worker_ok; [done|]. destruct Ho3 as (-> & -> & _). exact Hd4. }
    split. { destruct Ho3 as (H1 & H2 & H3). split; [done|]. split; [done|]. cbn. by rewrite H3, list_insert_insert_eq. }
    split; [by rewrite <- Hc, <- Hc3|]. split; [by rewrite E4|]. split; [done|]. intros r' [= <-]. split; [|done].
    apply (ok_attached _ _ _ _ Hd3). rewrite Hp4. constructor.
Qed.

(** The state in which the task [r] starts on worker [i]. *)
Definition begun s (i : nat) (r : Z) : world :=
  match workers s !! i with Some d => set_worker i (with_current (Some r) d) s | None => s end.

Definition legal_turn s (i : nat) (t : turn) (cs : list call) (e : ending) : Prop :=
  (exists d, workers s !! i = Some d /\ NoDup (t_events t).*1 /\ Forall (legal_event wakeup_fd timer_fd d) (t_events t)) /\
  forall s1 r, pop_turn wakeup_fd timer_fd s i t = Ret (s1, Some r) ->
    legal_calls (begun s1 i r) i cs /\ forall s2, do_calls (begun s1 i r) i cs = Ret s2 -> legal_ending s2 i e.

(** Between turns no worker has a current task. *)
Definition idle s : Prop := forall j d, workers s !! j = Some d -> current_task d = None.

Lemma idle_set s s' i d' : idle s -> current_task d' = None -> workers s' = <[i := d']> (workers s) -> idle s'.
Proof.
  intros Hs Hd Hw j dj Hj. rewrite Hw in Hj. apply list_lookup_insert_Some in Hj as [(<- & <- & _)|[_ Hj]]; [done|]. by apply (Hs j).
Qed.

Lemma begin_ok s i d r : world_ok s -> workers s !! i = Some d -> executor s !! r = Some i -> r ∉ places d -> current_task d = None ->
  worker_ok (times s) (executor s) i (with_current (Some r) d).
Proof.
  intros Hok Hi He Hr Hc. apply (worker_ok_add _ _ _ d _ r); [by apply world_worker|done|done| |done|done].
  unfold places, rest. cbn -[app]. rewrite Hc. change (option_list (Some r)) with [r]. cbn [app]. by rewrite <- !Permutation_middle.
Qed.
Lemma idle_same s s' i r : idle s -> current_task <$> workers s' !! i = Some (Some r) ->
  (forall j, j <> i -> current_task <$> workers s' !! j = current_task <$> workers s !! j) ->
  forall s'', sat_down i s' s'' -> idle s''.
Proof.
  intros Hs Hi Hj s'' (d' & Hw & Hd) j dj Hjj. rewrite Hw in Hjj.
  apply list_lookup_insert_Some in Hjj as [(<- & <- & _)|[Hne Hjj]]; [done|].
  assert (current_task <$> workers s !! j = Some (current_task dj)) as E by (rewrite <- Hj by done; by rewrite Hjj).
  apply fmap_Some in E as (dj0 & Ej & ->). by apply (Hs j).
Qed.

Lemma turn_ok s i t cs e : world_ok s -> idle s -> legal_turn s i t cs e ->
  exists s', run_turn wakeup_fd timer_fd s i t cs e = Ret s' /\ world_ok s' /\ idle s' /\
    (forall s1 r, pop_turn wakeup_fd timer_fd s i t = Ret (s1, Some r) -> lands s' i r e).
Proof.
  intros Hok Hid [(d & Hi & Hnd & Hev) Hl].
  destruct (pop_turn_ok s i d t Hok Hi Hnd Hev) as (s1 & o & d1 & E & Hok1 & Ho & Hc & _ & _ & Hr). rewrite E in Hl.
  pose proof (only_worker_at _ _ _ _ _ Hi Ho) as Hi1. assert (current_task d1 = None) as Hc1 by (rewrite Hc; by apply (Hid i)).
  assert (idle s1) as Hid1 by (by apply (idle_set s s1 i d1 Hid Hc1), Ho).
  unfold run_turn. rewrite E. cbn [bindO]. destruct o as [r|]; [|by exists s1].
  destruct (Hr r eq_refl) as [He Hn]. rewrite <- (proj1 (proj2 Ho)) in He. destruct (Hl s1 r eq_refl) as [Hcs Hend].
  unfold run_task, begun in *. rewrite Hi1 in Hcs, Hend. rewrite (worker_at_eq _ _ _ Hi1). cbn [bindO].
  set (s1' := set_worker i (with_current (Some r) d1) s1) in *.
  assert (world_ok s1') as Hok1' by (by apply set_worker_ok, begin_ok).
  assert (workers s1' !! i = Some (with_current (Some r) d1)) as Hi1' by (cbn; apply list_lookup_insert_eq; by eapply lookup_lt_Some).
  destruct (calls_ok cs s1' i Hok1' (lookup_lt_Some _ _ _ Hi1') Hcs) as (s2 & E2 & Hok2 & Hlen & Hsame).
  rewrite E2 in Hend |- *. cbn [bindO].
  destruct (lookup_lt_is_Some_2 (workers s2) i) as [d2 Hi2]; [rewrite Hlen; by eapply lookup_lt_Some|].
  destruct (Hsame _ _ _ Hi1' Hi2) as [Hc2 _]. cbn in Hc2.
  destruct (ending_ok s2 i r d2 e Hok2 Hi2 Hc2 (Hend s2 eq_refl)) as (s3 & E3 & Hok3 & Hla & Hsat).
  exists s3. split; [exact E3|]. split; [done|]. split; [|by intros s1'' r' [= <- <-]].
  apply (idle_same s1 s2 i r Hid1); [by rewrite Hi2; cbn; rewrite Hc2| |done].
  intros j Hne. destruct (workers s1 !! j) as [dj|] eqn:Ej.
  - assert (workers s1' !! j = Some dj) as Ej' by (cbn; by rewrite list_lookup_insert_ne).
    destruct (lookup_lt_is_Some_2 (workers s2) j) as [dj2 Ej2]; [rewrite Hlen; by eapply lookup_lt_Some|].
    rewrite Ej2. cbn. by destruct (Hsame _ _ _ Ej' Ej2) as [-> _].
  - apply lookup_ge_None in Ej. rewrite (proj2 (lookup_ge_None _ _)); [done|]. rewrite Hlen. cbn. by rewrite length_insert.
Qed.
(** What can happen: a worker takes a turn, a thread that is no worker
    schedules a new resumable or unblocks one. *)
Inductive step : world -> world -> Prop :=
  | step_turn s i t cs e s' : legal_turn s i t cs e -> run_turn wakeup_fd timer_fd s i t cs e = Ret s' -> step s s'
  | step_schedule s r s' : legal_call s (Schedule r) -> central_schedule s r = Ret s' -> step s s'
  | step_unblock s r s' : legal_call s (Unblock r) -> unblock s None r = Ret s' -> step s s'.

(** [n] workers, and no resumable. *)
Definition started (n : nat) : world := World ∅ ∅ (replicate n worker_new) 0.

Lemma started_ok n : (0 < n)%nat -> world_ok (started n) /\ idle (started n).
Proof.
  intros Hn. split; [split|].
  - cbn. by rewrite length_replicate.
  - intros i d Hi. cbn in Hi. apply lookup_replicate in Hi as [-> _]. apply worker_new_ok.
  - intros j d Hj. cbn in Hj. by apply lookup_replicate in Hj as [-> _].
Qed.

Lemma same_tasks_idle s s' : idle s -> same_tasks s s' -> idle s'.
Proof.
  intros Hs [Hl Hf] j d Hj. destruct (lookup_lt_is_Some_2 (workers s) j) as [d0 H0]; [rewrite <- Hl; by eapply lookup_lt_Some|].
  destruct (Hf _ _ _ H0 Hj) as [-> _]. by apply (Hs j).
Qed.

Lemma unblock_none_ok s r : world_ok s -> legal_call s (Unblock r) ->
  exists s', unblock s None r = Ret s' /\ world_ok s' /\ same_tasks s s'.
Proof.
  intros Hok (j & dj & He & Hj & Hr). destruct (unblock_ok s None j r dj Hok Hj He Hr) as (d' & -> & Hs & Hd').
  eexists. split; [reflexivity|]. split; [by apply set_worker_ok|]. destruct Hs as [_ _ _ _ Ha Hc].
  by eapply (same_tasks_set _ _ _ _ _ Hj).
Qed.

Lemma world_step_ok s s' : step s s' -> world_ok s -> idle s -> world_ok s' /\ idle s'.
Proof.
  intros [s0 i t cs e s0' Hl E|s0 r s0' Hl E|s0 r s0' Hl E] Hok Hid.
  - destruct (turn_ok s0 i t cs e Hok Hid Hl) as (s1 & E' & Hok1 & Hid1 & _). rewrite E in E'. by injection E' as ->.
  - destruct (call_ok s0 0%nat (Schedule r) Hok (proj1 Hok) Hl) as (s1 & E' & Hok1 & Hs). cbn [do_call] in E'.
    rewrite E in E'. injection E' as ->. split; [done|]. by apply (same_tasks_idle s0).
  - destruct (unblock_none_ok s0 r Hok Hl) as (s1 & E' & Hok1 & Hs). rewrite E in E'. injection E' as ->.
    split; [done|]. by apply (same_tasks_idle s0).
Qed.

Lemma steps_ok n s : (0 < n)%nat -> rtc step (started n) s -> world_ok s /\ idle s.
Proof.
  intros Hn Hs. pose proof (started_ok n Hn) as H0. revert H0. induction Hs as [s|s s1 s2 H1 _ IH]; [done|].
  intros [Hok Hid]. apply IH. by apply (world_step_ok s).
Qed.
End turns.
End facts.


(** A turn of a worker serves in order: the resumable it pops is the first of
    those that were ready, then those other threads pushed, then the sleepers due
    within the slack of 100us, earliest first, and the others stay queued in that
    order; it goes round again only when there was none of them and no event. *)
Theorem isolation_pops_in_order {S : Type} {TS : timed_set S} {TU : timed_unlink S}
    {TSS : timed_set_spec S} {TUS : timed_unlink_spec S} (wakeup_fd timer_fd : Z) (n : nat) (s : world (S := S))
    (i : nat) (d : worker) (t : turn) :
  (0 < n)%nat -> rtc (step wakeup_fd timer_fd) (started n) s -> workers s !! i = Some d ->
  NoDup (t_events t).*1 -> Forall (legal_event wakeup_fd timer_fd d) (t_events t) ->
  exists s' o d', pop_turn wakeup_fd timer_fd s i t = Ret (s', o) /\ workers s' = <[i := d']> (workers s) /\
    (ready_queue d ++ external_queue d ++ filter (fun r => wakeup_time (times s) r <= t_sleep t + slack) (ts_elements (sleep_queue d)))
      `prefix_of` option_list o ++ ready_queue d' /\
    (o = None -> ready_queue d' = []).
Proof.
  intros Hn Hs Hi Hnd Hev. destruct (steps_ok wakeup_fd timer_fd n s Hn Hs) as [Hok _].
  destruct (pop_turn_ok wakeup_fd timer_fd s i d t Hok Hi Hnd Hev) as (s' & o & d' & E & _ & (_ & _ & Hw) & _ & Hp & Ho & _).
  by exists s', o, d'.
Qed.

(** Two resumables of a worker cannot sleep until the same instant: the
    second one that asks is not linked into the sleep queue, and the assertion of
    [sleep_for] that it is ends the program. *)
Theorem isolation_sleep_equal_aborts {S : Type} {TS : timed_set S} {TU : timed_unlink S}
    {TSS : timed_set_spec S} {TUS : timed_unlink_spec S} (h : wakeups) (ex : gmap Z nat) (i : nat) (d : worker (S := S))
    (r x now ns : Z) :
  worker_ok h ex i d -> x ∈ ts_elements (sleep_queue d) -> wakeup_time h x = now + ns -> r ∉ ts_elements (sleep_queue d) ->
  sleep_for h d r now ns = Abort.
Proof.
  intros Hok Hx Ht Hr. unfold sleep_for.
  assert (forall y, y ∈ ts_elements (sleep_queue d) -> wakeup_time (set_wakeup_time h r (now + ns)) y = wakeup_time h y) as He.
  { intros y Hy. rewrite wakeup_time_set, decide_False; [done|]. by intros ->. }
  cbn [sleep_queue ready_unlink with_ready]. rewrite ts_insert_equal.
  - unfold is_sleep_linked. cbn [sleep_queue with_sleep]. by rewrite bool_decide_false.
  - apply (sorted_ext h); [done|]. apply (ok_sorted _ _ _ _ Hok).
  - exists x. split; [done|]. by rewrite wakeup_time_set_eq, He.
Qed.

(** ** Concrete runs *)

(** One worker, and the new resumable 7. *)
Definition ex_world : world (S := list Z) :=
  World ∅ (<[7 := 0%nat]> ∅) [W [] [] [7] tp_max ∅ 2 0 0 None] 1.

Definition ex_worker : worker (S := list Z) := W [] [] [7] tp_max ∅ 2 0 0 None.

Lemma ex_world_reached : rtc (step 4 5) (started 1) ex_world.
Proof.
  eapply rtc_l; [|apply rtc_refl]. apply (step_schedule 4 5 (started 1) 7); [reflexivity|]. reflexivity.
Qed.

(** The event descriptor is reported; the task spawns 8 and sleeps for 50ns. *)
Definition ex_turn : turn := Turn 10 20 [(4, 4)].


(** The first wait of 7 on descriptor 9: [MOD] fails with [ENOENT], [ADD] arms it. *)
Example isolation_first_wait :
  (do s <- run_turn 4 5 ex_world 0 ex_turn [] (EAwait 9 (Netpoller.mk_ctl (Some Netpoller.ENOENT) None));;
   do d <- worker_at s 0;; Ret (armed d !! 9)) = Ret (Some 7).
Proof. reflexivity. Qed.


Lemma isolation_pops_in_order_witness : exists s' o d', pop_turn 4 5 ex_world 0 ex_turn = Ret (s', o) /\
  [7] `prefix_of` option_list o ++ ready_queue (S := list Z) d'.
Proof.
  destruct (isolation_pops_in_order 4 5 1 ex_world 0 ex_worker ex_turn) as (s' & o & d' & E & _ & Hp & _).
  - lia.
  - exact ex_world_reached.
  - reflexivity.
  - apply NoDup_singleton.
  - constructor; [|constructor]. left. reflexivity.
  - exists s', o, d'. split; [exact E|exact Hp].
Defined.

Lemma isolation_sleep_equal_aborts_witness :
  sleep_for (S := list Z) (<[7 := 150]> ∅) (W [] [7] [] 150 ∅ 0 0 0 None) 8 110 40 = Abort.
Proof.
  apply (isolation_sleep_equal_aborts (<[7 := 150]> ∅) (<[7 := 0%nat]> ∅) 0 (W [] [7] [] 150 ∅ 0 0 0 None) 8 7 110 40).
  - split.
    + apply NoDup_singleton.
    + intros r Hr. apply list_elem_of_singleton in Hr as ->. reflexivity.
    + repeat constructor.
    + intros r Hr. apply list_elem_of_singleton in Hr as ->. vm_compute. discriminate.
  - apply list_elem_of_singleton. reflexivity.
  - reflexivity.
  - intros Hr. apply list_elem_of_singleton in Hr. discriminate Hr.
Defined.

End Isolation.
