(* ===== verification/Pipes.v ===== *)
(** * Pipes: chains of filters (xi/io/pipes)

    A pipe holds its filters in a deque of contexts.  A filter lists the
    messages it takes part in, read-only, write-only or both; its context has,
    for every message it can read, a pointer to the context the message is read
    by next, and the same for writing.  The templates that recurse over a list
    of messages are functions on that list, the [dynamic_cast] to a link type is
    membership in it; contexts are named by their addresses.  What a filter
    forwards when it is given a message is a parameter, [handler]. *)
From S2P Require Import Prelude.

(** xi/io/pipes/modifiers.h; a plain type is read and written. *)
Inductive message : Type :=
  | read_only (m : Z)
  | write_only (m : Z)
  | read_write (m : Z).

Inductive dir : Type := Read | Write.

#[export] Instance dir_eq_dec : EqDecision dir.
Proof. solve_decision. Defined.

Module Pipes.

Definition payload (m : message) : Z := match m with read_only m | write_only m | read_write m => m end.

Definition carries (d : dir) (m : message) : bool :=
  match m, d with
  | read_only _, Read | write_only _, Write | read_write _, _ => true
  | _, _ => false
  end.

(** Whether a list of messages has [m] in direction [d]. *)
Definition handles (d : dir) (ms : list message) (m : Z) : bool :=
  existsb (fun m0 => carries d m0 && (payload m0 =? m)) ms.

(** [filter_context_filter_adapter] with its [read_link_impl]s and
    [write_link_impl]s: no entry is the null pointer. *)
Record context := Context_ { cx_messages : list message; next_read : gmap Z Z; next_write : gmap Z Z }.

Definition make_filter_context (ms : list message) : context := Context_ ms ∅ ∅.

Definition next (d : dir) (c : context) (m : Z) : option Z :=
  match d with Read => next_read c !! m | Write => next_write c !! m end.

Definition set_next (d : dir) (m : Z) (x : option Z) (c : context) : context :=
  match d with
  | Read => Context_ (cx_messages c) (partial_alter (fun _ => x) m (next_read c)) (next_write c)
  | Write => Context_ (cx_messages c) (next_read c) (partial_alter (fun _ => x) m (next_write c))
  end.

(** [add_link_if_null] of one message. *)
Definition add_link_if_null (d : dir) (m : Z) (cx : Z) (other : list message) (c : context) : context :=
  if handles d other m && bool_decide (next d c m = None) then set_next d m (Some cx) c else c.

(** [add_read_if_null] and [add_write_if_null]. *)
Definition add_if_null (d : dir) (cx : Z) (other : list message) (c : context) : context :=
  foldl (fun c m => if carries d m then add_link_if_null d (payload m) cx other c else c) c (cx_messages c).

(** [unlink_read] and [unlink_write]: [gone] is the context with address [cx]. *)
Definition unlink (d : dir) (cx : Z) (gone : context) (c : context) : context :=
  foldl (fun c m =>
    if carries d m && bool_decide (next d c (payload m) = Some cx)
    then set_next d (payload m) (next d gone (payload m)) c else c) c (cx_messages c).

(** [pipe_base], the links of [pipe_message_impl] for the messages of the
    pipe, and the removals that are deferred. *)
Record pipe := Pipe {
  messages : list message;
  contexts : list Z;
  ctxs : gmap Z context;
  head : gmap Z Z;
  tail : gmap Z Z;
  deferred : list Z
}.

Definition make (ms : list message) : pipe := Pipe ms [] ∅ ∅ ∅ [].

Definition with_ctxs (h : gmap Z context) (p : pipe) : pipe := Pipe (messages p) (contexts p) h (head p) (tail p) (deferred p).
Definition with_contexts (l : list Z) (p : pipe) : pipe := Pipe (messages p) l (ctxs p) (head p) (tail p) (deferred p).
Definition with_ends (hd tl : gmap Z Z) (p : pipe) : pipe := Pipe (messages p) (contexts p) (ctxs p) hd tl (deferred p).
Definition with_deferred (l : list Z) (p : pipe) : pipe := Pipe (messages p) (contexts p) (ctxs p) (head p) (tail p) l.

Definition messages_of (p : pipe) (cx : Z) : list message := default [] (cx_messages <$> ctxs p !! cx).
Definition alter_ctx (f : context -> context) (cx : Z) (p : pipe) : pipe := with_ctxs (alter f cx (ctxs p)) p.

(** ** pipe_base *)

Definition base_push_front (p : pipe) (ctx : Z) : pipe :=
  let p := foldl (fun p cx => alter_ctx (add_if_null Write cx (messages_of p cx)) ctx p) p (contexts p) in
  let p := foldl (fun p cx => alter_ctx (add_if_null Read ctx (messages_of p ctx)) cx p) p (rev (contexts p)) in
  with_contexts (ctx :: contexts p) p.

Definition base_push_back (p : pipe) (ctx : Z) : pipe :=
  let p := foldl (fun p cx => alter_ctx (add_if_null Read ctx (messages_of p ctx)) cx p) p (contexts p) in
  let p := foldl (fun p cx => alter_ctx (add_if_null Write cx (messages_of p cx)) ctx p) p (rev (contexts p)) in
  with_contexts (contexts p ++ [ctx]) p.

(** [unlink_*] of one context; the pointer is only followed when it is found. *)
Definition unlink_in (p : pipe) (d : dir) (ctx cx : Z) : pipe :=
  alter_ctx (unlink d ctx (default (make_filter_context []) (ctxs p !! ctx))) cx p.

(** The erased context is destroyed. *)
Definition base_remove (p : pipe) (ctx : Z) : pipe :=
  let p := foldl (fun p cx => unlink_in (unlink_in p Read ctx cx) Write ctx cx) p (contexts p) in
  with_ctxs (delete ctx (ctxs p)) (with_contexts (filter (fun x => x <> ctx) (contexts p)) p).

(** ** pipe_link *)

Definition update_end (ends : gmap Z Z) (m : Z) (ctx : Z) : gmap Z Z := <[m := ctx]> ends.
Definition set_if_null (ends : gmap Z Z) (m : Z) (ctx : Z) : gmap Z Z :=
  match ends !! m with None => <[m := ctx]> ends | Some _ => ends end.

(** [maybe_update_head] of one message. *)
Definition update_head_link (ctx : Z) (ms : list message) (e : gmap Z Z * gmap Z Z) (m0 : message) : gmap Z Z * gmap Z Z :=
  let m := payload m0 in
  let e := if carries Read m0 && handles Read ms m then (update_end e.1 m ctx, e.2) else e in
  if carries Write m0 && handles Write ms m then (e.1, set_if_null e.2 m ctx) else e.

Definition update_tail_link (ctx : Z) (ms : list message) (e : gmap Z Z * gmap Z Z) (m0 : message) : gmap Z Z * gmap Z Z :=
  let m := payload m0 in
  let e := if carries Write m0 && handles Write ms m then (e.1, update_end e.2 m ctx) else e in
  if carries Read m0 && handles Read ms m then (set_if_null e.1 m ctx, e.2) else e.

Definition maybe_update_head (p : pipe) (ctx : Z) : pipe :=
  let e := foldl (update_head_link ctx (messages_of p ctx)) (head p, tail p) (messages p) in with_ends e.1 e.2 p.
Definition maybe_update_tail (p : pipe) (ctx : Z) : pipe :=
  let e := foldl (update_tail_link ctx (messages_of p ctx)) (head p, tail p) (messages p) in with_ends e.1 e.2 p.

(** [_head = _head->next_read()] where [_head] is [ctx]. *)
Definition change_end (d : dir) (ctx : Z) (c : context) (ends : gmap Z Z) (m0 : message) : gmap Z Z :=
  let m := payload m0 in
  if carries d m0 && bool_decide (ends !! m = Some ctx) then partial_alter (fun _ => next d c m) m ends else ends.

Definition maybe_change_head (p : pipe) (ctx : Z) : pipe :=
  let c := default (make_filter_context []) (ctxs p !! ctx) in
  with_ends (foldl (change_end Read ctx c) (head p) (messages p)) (tail p) p.
Definition maybe_change_tail (p : pipe) (ctx : Z) : pipe :=
  let c := default (make_filter_context []) (ctxs p !! ctx) in
  with_ends (head p) (foldl (change_end Write ctx c) (tail p) (messages p)) p.

(** ** pipe_control_interface *)

Definition add_context (p : pipe) (ctx : Z) (ms : list message) : pipe :=
  with_ctxs (<[ctx := make_filter_context ms]> (ctxs p)) p.

Definition push_front (p : pipe) (ctx : Z) (ms : list message) : pipe :=
  maybe_update_head (base_push_front (add_context p ctx ms) ctx) ctx.

Definition push_back (p : pipe) (ctx : Z) (ms : list message) : pipe :=
  maybe_update_tail (base_push_back (add_context p ctx ms) ctx) ctx.

Definition remove (p : pipe) (ctx : Z) : pipe :=
  let p := maybe_change_tail (maybe_change_head p ctx) ctx in
  with_deferred (deferred p ++ [ctx]) p.

(** The next deferred removal. *)
Definition run_deferred (p : pipe) : pipe :=
  match deferred p with
  | [] => p
  | ctx :: l => base_remove (with_deferred l p) ctx
  end.

(** ** Messages *)
Section delivery.
Context {V : Type}.

(** What the filter of a context forwards, in order, when it is given a
    message in a direction; by default the message goes on. *)
Definition handler : Type := Z -> dir -> Z -> V -> list (dir * Z * V).
Definition default_handler : handler := fun _ d m v => [(d, m, v)].

(** [read(m)] or [write(m)] of the link at [cx]: the calls of filters it leads
    to.  A context that was destroyed is undefined behaviour. *)
Fixpoint deliver (fuel : nat) (p : pipe) (f : handler) (d : dir) (cx m : Z) (v : V) : outcome (list (Z * dir * Z * V)) :=
  match fuel with
  | O => Diverge
  | S fuel =>
      match ctxs p !! cx with
      | None => Undef
      | Some c =>
          do log <-
            foldr (fun '(d', m', v') (k : outcome (list (Z * dir * Z * V))) =>
              do l <- (match next d' c m' with Some cx' => deliver fuel p f d' cx' m' v' | None => Ret [] end);;
              do l' <- k;; Ret (l ++ l')) (Ret []) (f cx d m v);;
          Ret ((cx, d, m, v) :: log)
      end
  end.

Definition end_of (d : dir) (p : pipe) : gmap Z Z := match d with Read => head p | Write => tail p end.

(** [pipe::read] and [pipe::write]. *)
Definition send (fuel : nat) (p : pipe) (f : handler) (d : dir) (m : Z) (v : V) : outcome (list (Z * dir * Z * V)) :=
  match end_of d p !! m with None => Ret [] | Some cx => deliver fuel p f d cx m v end.
End delivery.

(** ** The links of one context *)

Definition other (d : dir) : dir := match d with Read => Write | Write => Read end.

Lemma next_set d m x c m' : next d (set_next d m x c) m' = if decide (m' = m) then x else next d c m'.
Proof. destruct d; cbn [set_next next next_read next_write]; rewrite lookup_partial_alter; repeat case_decide; congruence. Qed.

Lemma next_set_other d d' m x c m' : d' <> d -> next d' (set_next d m x c) m' = next d' c m'.
Proof. by destruct d, d'. Qed.

Lemma messages_set d m x c : cx_messages (set_next d m x c) = cx_messages c.
Proof. by destruct d. Qed.

Lemma handles_cons d m0 ms m : handles d (m0 :: ms) m = (carries d m0 && (payload m0 =? m)) || handles d ms m.
Proof. done. Qed.

Lemma add_link_next d m cx o c m' :
  next d (add_link_if_null d m cx o c) m' =
    match next d c m' with Some x => Some x | None => if (m =? m') && handles d o m' then Some cx else None end.
Proof.
  unfold add_link_if_null. destruct (Z.eqb_spec m m') as [->|Hne]; cbn [andb].
  - destruct (handles d o m'); cbn [andb]; [|by destruct (next d c m')].
    case_bool_decide as Hn; [|by destruct (next d c m')]. rewrite next_set, decide_True by done. by rewrite Hn.
  - case_match; [|by destruct (next d c m')]. rewrite next_set, decide_False by done. by destruct (next d c m').
Qed.

Lemma add_link_other d d' m cx o c m' : d' <> d -> next d' (add_link_if_null d m cx o c) m' = next d' c m'.
Proof. intros. unfold add_link_if_null. case_match; [by apply next_set_other|done]. Qed.

Lemma add_link_messages d m cx o c : cx_messages (add_link_if_null d m cx o c) = cx_messages c.
Proof. unfold add_link_if_null. case_match; [apply messages_set|done]. Qed.

Lemma add_if_null_ok d cx o c :
  cx_messages (add_if_null d cx o c) = cx_messages c /\
  (forall d' m, d' <> d -> next d' (add_if_null d cx o c) m = next d' c m) /\
  (forall m, next d (add_if_null d cx o c) m =
    match next d c m with Some x => Some x | None => if handles d (cx_messages c) m && handles d o m then Some cx else None end).
Proof.
  unfold add_if_null. generalize (cx_messages c) at 1 3 4 5 as ms. intros ms. revert c.
  induction ms as [|m0 ms IH]; intros c; cbn [foldl].
  - split; [done|]. split; [done|]. intros m. by destruct (next d c m).
  - destruct (carries d m0) eqn:Ec.
    + destruct (IH (add_link_if_null d (payload m0) cx o c)) as (H1 & H2 & H3). split; [by rewrite H1, add_link_messages|].
      split; [intros; by rewrite H2, add_link_other|]. intros m. rewrite H3, add_link_next, handles_cons, Ec. cbn [andb].
      destruct (next d c m); [done|]. by destruct (payload m0 =? m), (handles d ms m), (handles d o m).
    + destruct (IH c) as (H1 & H2 & H3). do 2 (split; [done|]). intros m. by rewrite H3, handles_cons, Ec.
Qed.

Lemma context_unlink_ok d cx g c : (forall m, next d g m <> Some cx) ->
  cx_messages (unlink d cx g c) = cx_messages c /\
  (forall d' m, d' <> d -> next d' (unlink d cx g c) m = next d' c m) /\
  (forall m, next d (unlink d cx g c) m =
    if handles d (cx_messages c) m && bool_decide (next d c m = Some cx) then next d g m else next d c m).
Proof.
  intros Hg. unfold unlink. generalize (cx_messages c) at 1 3 4 5 as ms. intros ms. revert c.
  induction ms as [|m0 ms IH]; intros c; cbn [foldl]; [done|].
  destruct (carries d m0) eqn:Ec; cbn [andb].
  - case_bool_decide as Hn.
    + destruct (IH (set_next d (payload m0) (next d g (payload m0)) c)) as (H1 & H2 & H3). split; [by rewrite H1, messages_set|].
      split; [intros; by rewrite H2, next_set_other|]. intros m. rewrite H3, next_set, handles_cons, Ec. cbn [andb].
      case_decide as Hm; [|by rewrite (proj2 (Z.eqb_neq _ _)) by done]. subst m. rewrite Z.eqb_refl. cbn [orb andb].
      rewrite (bool_decide_true (next d c _ = _)) by done. rewrite bool_decide_false by done. by rewrite andb_false_r.
    + destruct (IH c) as (H1 & H2 & H3). do 2 (split; [done|]). intros m. rewrite H3, handles_cons, Ec. cbn [andb].
      destruct (Z.eqb_spec (payload m0) m) as [<-|]; [|done]. rewrite bool_decide_false by done. by rewrite andb_false_r.
  - destruct (IH c) as (H1 & H2 & H3). do 2 (split; [done|]). intros m. by rewrite H3, handles_cons, Ec.
Qed.

(** ** The links of a pipe *)

Lemma update_tail_ok ctx cms ms : forall e m,
  (foldl (update_tail_link ctx cms) e ms).2 !! m = (if handles Write ms m && handles Write cms m then Some ctx else e.2 !! m) /\
  (foldl (update_tail_link ctx cms) e ms).1 !! m =
    match e.1 !! m with Some x => Some x | None => if handles Read ms m && handles Read cms m then Some ctx else None end.
Proof.
  induction ms as [|m0 ms IH]; intros e m; cbn [foldl]; [split; [done|by destruct (e.1 !! m)]|].
  destruct (IH (update_tail_link ctx cms e m0) m) as [-> ->]. rewrite !handles_cons. unfold update_tail_link, update_end, set_if_null.
  destruct (Z.eqb_spec (payload m0) m) as [<-|Hne].
  - destruct (carries Write m0), (carries Read m0), (handles Write cms (payload m0)) eqn:Ew, (handles Read cms (payload m0)) eqn:Er;
      cbn [andb orb fst snd]; rewrite ?andb_false_r, ?andb_true_r; rewrite ?lookup_insert_eq;
      destruct (e.1 !! payload m0) eqn:Ee; rewrite ?lookup_insert_eq, ?Ee; split; try done; by case_match.
  - rewrite !andb_false_r. cbn [orb].
    split; repeat case_match; cbn [fst snd] in *; rewrite ?lookup_insert_ne in * by done; congruence.
Qed.

Lemma update_head_reads ctx cms ms : forall e m,
  (foldl (update_head_link ctx cms) e ms).1 !! m = (if handles Read ms m && handles Read cms m then Some ctx else e.1 !! m).
Proof.
  induction ms as [|m0 ms IH]; intros e m; cbn [foldl]; [done|].
  rewrite IH, !handles_cons. unfold update_head_link, update_end.
  destruct (Z.eqb_spec (payload m0) m) as [<-|Hne].
  - destruct (carries Write m0), (carries Read m0), (handles Write cms (payload m0)), (handles Read cms (payload m0));
      cbn [andb orb fst snd]; rewrite ?andb_false_r, ?andb_true_r; rewrite ?lookup_insert_eq; try done; by case_match.
  - rewrite !andb_false_r. cbn [orb].
    repeat case_match; cbn [fst snd] in *; rewrite ?lookup_insert_ne in * by done; congruence.
Qed.

Lemma change_end_ok d ctx c ms : (forall m, next d c m <> Some ctx) -> forall ends m,
  foldl (change_end d ctx c) ends ms !! m =
    if handles d ms m && bool_decide (ends !! m = Some ctx) then next d c m else ends !! m.
Proof.
  intros Hc. induction ms as [|m0 ms IH]; intros ends m; cbn [foldl]; [done|].
  rewrite IH, handles_cons. unfold change_end. destruct (carries d m0); cbn [andb orb]; [|done].
  destruct (decide (ends !! payload m0 = Some ctx)) as [Hm|Hm].
  - rewrite (bool_decide_true (ends !! payload m0 = Some ctx)) by done. rewrite lookup_partial_alter. destruct (Z.eqb_spec (payload m0) m) as [<-|Hne].
    + rewrite decide_True by done. cbn [orb andb]. rewrite (bool_decide_true (ends !! _ = _)) by done.
      rewrite bool_decide_false by done. by rewrite andb_false_r.
    + by rewrite decide_False.
  - rewrite (bool_decide_false (ends !! payload m0 = Some ctx)) by done. destruct (Z.eqb_spec (payload m0) m) as [<-|Hne]; [|done]. rewrite bool_decide_false by done. by rewrite andb_false_r.
Qed.

(** *** Chains

    The order in which a message passes the contexts, the first of a list that
    takes part in it, and that every context of a list points to the first one
    behind it. *)
Definition order (d : dir) (l : list Z) : list Z := match d with Read => l | Write => rev l end.

Definition takes (d : dir) (p : pipe) (m x : Z) : bool := handles d (messages_of p x) m.

Definition first (d : dir) (p : pipe) (l : list Z) (m : Z) : option Z := find (takes d p m) l.

Fixpoint chain (d : dir) (p : pipe) (l : list Z) : Prop :=
  match l with
  | [] => True
  | x :: l =>
      (exists c, ctxs p !! x = Some c /\ forall m, next d c m = if handles d (cx_messages c) m then first d p l m else None) /\
      chain d p l
  end.

Record linked (p : pipe) : Prop := {
  linked_nodup : NoDup (contexts p);
  linked_dom : forall x, is_Some (ctxs p !! x) <-> x ∈ contexts p;
  linked_chain : forall d, chain d p (order d (contexts p));
  linked_ends : forall d m, end_of d p !! m = if handles d (messages p) m then first d p (order d (contexts p)) m else None;
  linked_deferred : deferred p = []
}.

Lemma elem_of_order d l x : x ∈ order d l <-> x ∈ l.
Proof. destruct d; [done|]. cbn. rewrite !list_elem_of_In. symmetry. apply in_rev. Qed.

Lemma NoDup_order d l : NoDup l -> NoDup (order d l).
Proof. destruct d; [done|]. cbn. intros H. apply NoDup_ListNoDup, NoDup_rev. by apply NoDup_ListNoDup. Qed.

Lemma make_linked ms : linked (make ms).
Proof.
  split; cbn; [constructor| | | |done].
  - intros x. rewrite lookup_empty. split; [by intros [? ?]|by intros ?%elem_of_nil].
  - by intros [].
  - intros [] m; by case_match.
Qed.

Lemma messages_of_eq p x c : ctxs p !! x = Some c -> messages_of p x = cx_messages c.
Proof. unfold messages_of. by intros ->. Qed.

Lemma first_ext d p q l m : (forall x, x ∈ l -> messages_of p x = messages_of q x) -> first d p l m = first d q l m.
Proof.
  unfold first, takes. induction l as [|x l IH]; intros He; [done|]. cbn [find]. rewrite (He x) by constructor.
  case_match; [done|]. apply IH. intros y Hy. apply He. by constructor.
Qed.

Lemma alter_lookup f x p y : ctxs (alter_ctx f x p) !! y = if decide (y = x) then f <$> ctxs p !! x else ctxs p !! y.
Proof. cbn. case_decide; subst; [by rewrite lookup_alter_eq|by rewrite lookup_alter_ne]. Qed.

Lemma messages_alter f x p y : (forall c, cx_messages (f c) = cx_messages c) -> messages_of (alter_ctx f x p) y = messages_of p y.
Proof.
  intros Hf. unfold messages_of. rewrite alter_lookup. case_decide; subst; [|done]. destruct (ctxs p !! x); cbn; [by rewrite Hf|done].
Qed.

(** [p'] is [p] with other links in its contexts. *)
Definition relinked (p p' : pipe) : Prop :=
  messages p' = messages p /\ contexts p' = contexts p /\ head p' = head p /\ tail p' = tail p /\ deferred p' = deferred p /\
  forall x, messages_of p' x = messages_of p x.

Lemma relinked_alter f x p : (forall c, cx_messages (f c) = cx_messages c) -> relinked p (alter_ctx f x p).
Proof. intros Hf. do 5 (split; [done|]). intros y. by apply messages_alter. Qed.

Lemma relinked_trans p q r : relinked p q -> relinked q r -> relinked p r.
Proof. intros (H1 & H2 & H3 & H4 & H5 & H6) (G1 & G2 & G3 & G4 & G5 & G6). repeat (split; [congruence|]). congruence. Qed.

Lemma relinked_refl p : relinked p p.
Proof. done. Qed.

Lemma add_messages d cx o c : cx_messages (add_if_null d cx o c) = cx_messages c.
Proof. apply add_if_null_ok. Qed.

(** Every context of [l] gets a link to [ctx]. *)
Lemma link_all d ctx l : forall p, NoDup l -> ctx ∉ l ->
  let q := foldl (fun p cx => alter_ctx (add_if_null d ctx (messages_of p ctx)) cx p) p l in
  relinked p q /\
  forall x, ctxs q !! x = if decide (x ∈ l) then add_if_null d ctx (messages_of p ctx) <$> ctxs p !! x else ctxs p !! x.
Proof.
  induction l as [|y l IH]; intros p Hnd Hc; cbn [foldl].
  - split; [done|]. intros x. by rewrite decide_False by (by intros ?%elem_of_nil).
  - apply list.NoDup_cons in Hnd as [Hy Hnd]. apply not_elem_of_cons in Hc as [Hcy Hc].
    set (p1 := alter_ctx _ y p). destruct (IH p1 Hnd Hc) as [Hr Hx].
    assert (relinked p p1) as Hr1 by (apply relinked_alter; intros; apply add_messages).
    split; [by eapply relinked_trans|]. intros x. rewrite Hx. destruct Hr1 as (_ & _ & _ & _ & _ & ->).
    unfold p1. rewrite alter_lookup. destruct (decide (x = y)) as [->|Hne].
    + rewrite decide_False by done. rewrite decide_True by constructor. done.
    + destruct (decide (x ∈ l)); [by rewrite decide_True by (by constructor)|].
      rewrite decide_False; [done|]. by intros [?|?]%elem_of_cons.
Qed.

(** [ctx] gets a link to the first context of [l]. *)
Lemma link_one d ctx l : forall p c, ctx ∉ l -> ctxs p !! ctx = Some c ->
  let q := foldl (fun p cx => alter_ctx (add_if_null d cx (messages_of p cx)) ctx p) p l in
  relinked p q /\ (forall x, x <> ctx -> ctxs q !! x = ctxs p !! x) /\
  exists c', ctxs q !! ctx = Some c' /\ cx_messages c' = cx_messages c /\
    (forall d' m, d' <> d -> next d' c' m = next d' c m) /\
    (forall m, next d c' m =
      match next d c m with Some x => Some x | None => if handles d (cx_messages c) m then first d p l m else None end).
Proof.
  induction l as [|y l IH]; intros p c Hc Hp; cbn [foldl].
  - split; [done|]. split; [done|]. exists c. do 3 (split; [done|]). intros m. cbn. by destruct (next d c m), (handles d (cx_messages c) m).
  - apply not_elem_of_cons in Hc as [Hcy Hc]. set (p1 := alter_ctx _ ctx p).
    assert (relinked p p1) as Hr1 by (apply relinked_alter; intros; apply add_messages).
    destruct (add_if_null_ok d y (messages_of p y) c) as (M1 & M2 & M3). set (c1 := add_if_null _ _ _ c) in *.
    assert (ctxs p1 !! ctx = Some c1) as Hp1 by (unfold p1; rewrite alter_lookup, decide_True by done; by rewrite Hp).
    destruct (IH p1 c1 Hc Hp1) as (Hr & Ho & c' & Hc' & H1 & H2 & H3). split; [by eapply relinked_trans|]. split.
    { intros x Hx. rewrite Ho by done. unfold p1. by rewrite alter_lookup, decide_False. }
    exists c'. split; [done|]. split; [congruence|]. split; [intros; by rewrite H2, M2|]. intros m. rewrite H3, M3, M1.
    destruct (next d c m); [done|]. unfold first. cbn [find]. fold (takes d p m y).
    change (handles d (messages_of p y) m) with (takes d p m y). destruct (handles d (cx_messages c) m); cbn [andb]; [|done].
    destruct (takes d p m y); [done|]. apply first_ext. intros x _. by destruct Hr1 as (_ & _ & _ & _ & _ & ->).
Qed.

Lemma first_snoc d p l x m :
  first d p (l ++ [x]) m = match first d p l m with Some y => Some y | None => if takes d p m x then Some x else None end.
Proof. unfold first. induction l as [|y l IH]; [done|]. cbn [find app]. by destruct (takes d p m y). Qed.

Lemma chain_snoc d p q ctx l :
  chain d p l -> (forall x, x ∈ l -> messages_of q x = messages_of p x) ->
  (forall x c, x ∈ l -> ctxs p !! x = Some c -> exists c', ctxs q !! x = Some c' /\ cx_messages c' = cx_messages c /\
    forall m, next d c' m = match next d c m with Some y => Some y
                            | None => if handles d (cx_messages c) m && takes d q m ctx then Some ctx else None end) ->
  (exists c, ctxs q !! ctx = Some c /\ forall m, next d c m = None) ->
  chain d q (l ++ [ctx]).
Proof.
  intros Hch Hm Hl Hctx. induction l as [|x l IH]; cbn [chain app].
  - split; [|done]. destruct Hctx as (c & Hc & Hn). exists c. split; [done|]. intros m. rewrite Hn. by case_match.
  - destruct Hch as [(c & Hc & Hn) Hch]. split.
    + destruct (Hl x c) as (c' & Hc' & Hms & Hn'); [constructor|done|]. exists c'. split; [done|]. intros m.
      rewrite Hn', Hms, Hn, first_snoc. rewrite (first_ext d q p l m) by (intros; apply Hm; by constructor).
      destruct (handles d (cx_messages c) m); cbn [andb]; [|done]. done.
    + apply IH; [done| |]; intros; [apply Hm|eapply Hl]; [by constructor..|done].
Qed.

Lemma chain_keep d p q l :
  chain d p l -> (forall x, x ∈ l -> messages_of q x = messages_of p x) ->
  (forall x c, x ∈ l -> ctxs p !! x = Some c -> exists c', ctxs q !! x = Some c' /\ cx_messages c' = cx_messages c /\
    forall m, next d c' m = next d c m) ->
  chain d q l.
Proof.
  intros Hch Hm Hl. induction l as [|x l IH]; [done|]. destruct Hch as [(c & Hc & Hn) Hch]. split.
  - destruct (Hl x c) as (c' & Hc' & Hms & Hn'); [constructor|done|]. exists c'. split; [done|]. intros m.
    rewrite Hn', Hms, Hn. by rewrite (first_ext d q p l m) by (intros; apply Hm; by constructor).
  - apply IH; [done| |]; intros; [apply Hm|eapply Hl]; [by constructor..|done].
Qed.

Lemma chain_same d p q l : chain d p l -> ctxs q = ctxs p -> chain d q l.
Proof.
  intros Hch E. apply (chain_keep d p); [done| |]; unfold messages_of; rewrite E; [done|]. intros x c _ Hx. by exists c.
Qed.

(** What [base_push_back] does to the links of every context. *)
Lemma base_push_back_ok p ctx ms :
  linked p -> ctxs p !! ctx = None ->
  let q := base_push_back (add_context p ctx ms) ctx in
  messages q = messages p /\ contexts q = contexts p ++ [ctx] /\ head q = head p /\ tail q = tail p /\ deferred q = [] /\
  (forall x, messages_of q x = if decide (x = ctx) then ms else messages_of p x) /\
  (forall x, is_Some (ctxs q !! x) <-> x ∈ contexts q) /\
  (forall d, chain d q (order d (contexts q))).
Proof.
  intros [Hnd Hdom Hch Hends Hdef] Hf q. set (p0 := add_context p ctx ms).
  assert (Hc : ctx ∉ contexts p) by (intros [c Hx]%Hdom; congruence).
  assert (Hm0 : forall x, messages_of p0 x = if decide (x = ctx) then ms else messages_of p x).
  { intros x. unfold messages_of, p0. cbn. destruct (decide (x = ctx)) as [->|]; [by rewrite lookup_insert_eq|by rewrite lookup_insert_ne]. }
  destruct (link_all Read ctx (contexts p0) p0 Hnd Hc) as [Hr1 Hx1]. set (p1 := foldl _ p0 (contexts p0)) in *.
  assert (Hcr : ctx ∉ rev (contexts p)) by (intros Hx; by apply (elem_of_order Write (contexts p)) in Hx).
  assert (Hctx1 : ctxs p1 !! ctx = Some (make_filter_context ms)) by (rewrite Hx1, decide_False by done; cbn; by rewrite lookup_insert_eq).
  destruct (link_one Write ctx (rev (contexts p)) p1 (make_filter_context ms)) as (Hr2 & Ho2 & c' & Hc' & HM & HR & HW); [done|done|].
  assert (Eq : q = with_contexts (contexts p ++ [ctx]) (foldl (fun p cx => alter_ctx (add_if_null Write cx (messages_of p cx)) ctx p) p1 (rev (contexts p)))).
  { assert (Ec1 : contexts p1 = contexts p) by apply Hr1. unfold q, base_push_back. fold p0. cbn zeta. fold p1.
    rewrite Ec1. f_equal. f_equal.
    transitivity (contexts p1); [apply Hr2|exact Ec1]. }
  set (p2 := foldl _ p1 (rev (contexts p))) in *. pose proof (relinked_trans _ _ _ Hr1 Hr2) as Hr. clear Hr2. rewrite Eq. clear Eq q.
  assert (Hm2 : forall x, messages_of (with_contexts (contexts p ++ [ctx]) p2) x = if decide (x = ctx) then ms else messages_of p x).
  { intros x. change (messages_of (with_contexts _ p2) x) with (messages_of p2 x). rewrite <- Hm0. apply Hr. }
  assert (Hold : forall x c, x ∈ contexts p -> ctxs p !! x = Some c -> ctxs p2 !! x = Some (add_if_null Read ctx ms c)).
  { intros x c Hx Hxc. assert (x <> ctx) by (by intros ->). rewrite Ho2, Hx1 by done. rewrite decide_True by done.
    cbn. rewrite lookup_insert_ne, Hxc by done. cbn. do 2 f_equal. rewrite Hm0. by rewrite decide_True. }
  destruct Hr as (H1 & H2 & H3 & H4 & H5 & _). split; [exact H1|]. split; [done|]. split; [exact H3|].
  split; [exact H4|]. split; [by rewrite <- Hdef|]. split; [done|]. cbn [contexts with_contexts]. split.
  { intros x. rewrite elem_of_app, list_elem_of_singleton. change (ctxs (with_contexts _ p2)) with (ctxs p2).
    destruct (decide (x = ctx)) as [->|Hne]; [rewrite Hc'; split; [by right|by eexists]|].
    assert (is_Some (ctxs p2 !! x) <-> is_Some (ctxs p !! x)) as ->; [|rewrite Hdom; tauto].
    rewrite Ho2, Hx1 by done. change (ctxs p0) with (<[ctx := make_filter_context ms]> (ctxs p)).
    rewrite lookup_insert_ne by done. destruct (decide (x ∈ contexts p0)); [by rewrite fmap_is_Some|done]. }
  intros [].
  - cbn [order]. apply (chain_snoc Read p); [apply (Hch Read)| | |].
    + intros x Hx. rewrite Hm2, decide_False; [done|]. by intros ->.
    + intros x c Hx Hxc. exists (add_if_null Read ctx ms c). split; [by apply Hold|].
      destruct (add_if_null_ok Read ctx ms c) as (M1 & _ & M3). split; [done|]. intros m. rewrite M3. unfold takes. by rewrite Hm2, decide_True.
    + exists c'. split; [done|]. intros m. by rewrite HR.
  - cbn [order]. rewrite rev_app_distr. cbn [rev app chain]. split.
    + exists c'. split; [done|]. intros m. rewrite HW, HM. cbn [next next_write make_filter_context]. rewrite lookup_empty.
      cbn [cx_messages make_filter_context]. destruct (handles Write ms m); [|done]. apply first_ext. intros x Hx. rewrite Hm2.
      destruct Hr1 as (_ & _ & _ & _ & _ & ->). by rewrite Hm0.
    + apply (chain_keep Write p); [apply (Hch Write)| |].
      * intros x Hx. rewrite Hm2, decide_False; [done|]. by intros ->.
      * intros x c Hx Hxc. apply (elem_of_order Write (contexts p)) in Hx. exists (add_if_null Read ctx ms c). split; [by apply Hold|].
        destruct (add_if_null_ok Read ctx ms c) as (M1 & M2 & _). split; [done|]. intros m. by apply M2.
Qed.

Lemma push_back_linked p ctx ms : linked p -> ctxs p !! ctx = None -> linked (push_back p ctx ms).
Proof.
  intros Hl Hf. destruct (base_push_back_ok p ctx ms Hl Hf) as (E1 & E2 & E3 & E4 & E5 & Hm & Hdom & Hch).
  unfold push_back. set (q := base_push_back _ ctx) in *. destruct Hl as [Hnd Hdom0 _ Hends _].
  assert (Hc : ctx ∉ contexts p) by (intros [c Hx]%Hdom0; congruence).
  split; [|exact Hdom|intros d; apply (chain_same d q); [apply Hch|done]| |exact E5].
  - change (contexts (maybe_update_tail q ctx)) with (contexts q). rewrite E2. apply list.NoDup_app. split; [done|]. split; [|apply NoDup_singleton]. by intros x Hx ->%list_elem_of_singleton.
  - intros d m. unfold maybe_update_tail. rewrite (Hm ctx), decide_True by done.
    destruct (update_tail_ok ctx ms (messages q) (head q, tail q) m) as [Ew Er]. cbn [fst snd] in Ew, Er.
    assert (Hold : forall d, first d q (order d (contexts p)) m = first d p (order d (contexts p)) m).
    { intros d'. apply first_ext. intros x Hx. apply elem_of_order in Hx. rewrite Hm, decide_False; [done|]. by intros ->. }
    cbn [contexts messages with_ends]. rewrite E2.
    assert (Hsame : forall hd tl l, first d (with_ends hd tl q) l m = first d q l m) by (intros; by apply first_ext). rewrite Hsame. clear Hsame. destruct d; cbn [end_of head tail with_ends order].
    + rewrite Er, E3, first_snoc. pose proof (Hold Read) as HR. cbn [order] in HR.
      pose proof (Hends Read m) as He. cbn [end_of order] in He. rewrite HR, He.
      unfold takes. rewrite Hm, decide_True, E1 by done. cbn [order].
      destruct (handles Read (messages p) m); cbn [andb]; [|done]. by destruct (first Read p (contexts p) m).
    + rewrite Ew, E4, rev_app_distr. cbn [rev app]. unfold first at 1. cbn [find]. unfold takes at 1. rewrite Hm, decide_True, E1 by done.
      pose proof (Hends Write m) as He. cbn [end_of order] in He. rewrite He.
      destruct (handles Write (messages p) m); cbn [andb]; [|done]. destruct (handles Write ms m); [done|].
      symmetry. apply (Hold Write).
Qed.

(** *** Removal *)

Lemma unlink_self d cx g c : (forall m, next d c m <> Some cx) -> unlink d cx g c = c.
Proof.
  intros Hc. unfold unlink. generalize (cx_messages c) as ms. intros ms. induction ms as [|m0 ms IH]; [done|]. cbn [foldl].
  rewrite bool_decide_false by done. by rewrite andb_false_r.
Qed.

Lemma unlink_in_lookup p d ctx cx g : ctxs p !! ctx = Some g -> (forall m, next d g m <> Some ctx) ->
  relinked p (unlink_in p d ctx cx) /\ ctxs (unlink_in p d ctx cx) !! ctx = Some g /\
  forall x, ctxs (unlink_in p d ctx cx) !! x = if decide (x = cx) then unlink d ctx g <$> ctxs p !! x else ctxs p !! x.
Proof.
  intros Hg Hn. unfold unlink_in. rewrite Hg. cbn [default]. split; [|split].
  - apply relinked_alter. intros c. by apply context_unlink_ok.
  - rewrite alter_lookup. case_decide; [subst|done]. rewrite Hg. cbn. by rewrite unlink_self.
  - intros x. rewrite alter_lookup. by case_decide; subst.
Qed.

Lemma unlink_all ctx g l : (forall d m, next d g m <> Some ctx) -> forall p, NoDup l -> ctxs p !! ctx = Some g ->
  let q := foldl (fun p cx => unlink_in (unlink_in p Read ctx cx) Write ctx cx) p l in
  relinked p q /\
  forall x, ctxs q !! x = if decide (x ∈ l) then (unlink Write ctx g ∘ unlink Read ctx g) <$> ctxs p !! x else ctxs p !! x.
Proof.
  intros Hn. induction l as [|y l IH]; intros p Hnd Hg; cbn [foldl].
  - split; [done|]. intros x. by rewrite decide_False by (by intros ?%elem_of_nil).
  - apply list.NoDup_cons in Hnd as [Hy Hnd].
    destruct (unlink_in_lookup p Read ctx y g Hg (Hn Read)) as (Hr1 & Hg1 & Hx1). set (p1 := unlink_in p Read ctx y) in *.
    destruct (unlink_in_lookup p1 Write ctx y g Hg1 (Hn Write)) as (Hr2 & Hg2 & Hx2). set (p2 := unlink_in p1 Write ctx y) in *.
    destruct (IH p2 Hnd Hg2) as [Hr Hx]. split; [by eapply relinked_trans, relinked_trans|].
    intros x. rewrite Hx, Hx2, Hx1. destruct (decide (x = y)) as [->|Hne].
    + rewrite decide_False by done. rewrite decide_True by constructor.
      by destruct (ctxs p !! y).
    + destruct (decide (x ∈ l)); [by rewrite decide_True by (by constructor)|].
      rewrite decide_False; [done|]. by intros [?|?]%elem_of_cons.
Qed.

Lemma first_in d p l m x : first d p l m = Some x -> x ∈ l.
Proof. intros E. apply list_elem_of_In. apply find_some in E as [E _]. exact E. Qed.

Lemma chain_next d p l x c m y : chain d p l -> x ∈ l -> ctxs p !! x = Some c -> next d c m = Some y -> y ∈ l.
Proof.
  intros Hch Hx Hc Hn. induction l as [|z l IH]; [by apply elem_of_nil in Hx|]. destruct Hch as [(c' & Hc' & Hn') Hch].
  apply elem_of_cons in Hx as [->|Hx]; [|right; by apply IH]. rewrite Hc in Hc'. injection Hc' as <-. rewrite Hn' in Hn.
  destruct (handles d _ m); [|done]. right. by apply first_in in Hn.
Qed.

Lemma chain_irreflexive d p l x c m : chain d p l -> NoDup l -> x ∈ l -> ctxs p !! x = Some c -> next d c m <> Some x.
Proof.
  intros Hch Hnd Hx Hc Hn. induction l as [|z l IH]; [by apply elem_of_nil in Hx|].
  destruct Hch as [(c' & Hc' & Hn') Hch]. apply list.NoDup_cons in Hnd as [Hz Hnd].
  apply elem_of_cons in Hx as [->|Hx]; [|by apply IH]. rewrite Hc in Hc'. injection Hc' as <-. rewrite Hn' in Hn.
  destruct (handles d _ m); [|done]. by apply first_in in Hn.
Qed.

(** Passing over a context that is taken out. *)
Lemma first_without d p l m ctx g : chain d p l -> NoDup l -> ctxs p !! ctx = Some g ->
  first d p (filter (fun x => x <> ctx) l) m =
    if bool_decide (first d p l m = Some ctx) then next d g m else first d p l m.
Proof.
  intros Hch Hnd Hg. induction l as [|y l IH]; [done|]. destruct Hch as [(c & Hc & Hn) Hch].
  apply list.NoDup_cons in Hnd as [Hy Hnd]. specialize (IH Hch Hnd). unfold first in *. cbn [find].
  destruct (decide (y = ctx)) as [->|Hne].
  - rewrite Hc in Hg. injection Hg as ->. rewrite filter_cons_False by (intros Hx; by apply Hx).
    rewrite (filter_all (fun x => x <> ctx)) by (by intros x Hx ->).
    specialize (Hn m). replace (takes d p m ctx) with (handles d (cx_messages g) m) by (unfold takes; by rewrite (messages_of_eq p ctx g Hc)).
    destruct (handles d (cx_messages g) m).
    + by rewrite bool_decide_true.
    + rewrite bool_decide_false; [done|]. intros Hx. by apply (first_in d) in Hx.
  - rewrite filter_cons_True by done. cbn [find]. destruct (takes d p m y); [|exact IH].
    rewrite bool_decide_false by congruence. done.
Qed.

Lemma order_filter (P : Z -> Prop) `{!forall x, Decision (P x)} d l : order d (filter P l) = filter P (order d l).
Proof.
  destruct d; [done|]. cbn. induction l as [|x l IH]; [done|]. rewrite filter_cons. cbn [rev]. rewrite list.filter_app.
  case_decide.
  - cbn [rev]. rewrite IH. by rewrite filter_cons_True, filter_nil.
  - rewrite IH, filter_cons_False by done. by rewrite filter_nil, app_nil_r.
Qed.

Lemma chain_without d p r l ctx g :
  chain d p l -> NoDup l -> ctxs p !! ctx = Some g ->
  (forall x, x <> ctx -> messages_of r x = messages_of p x) ->
  (forall x c, x <> ctx -> ctxs p !! x = Some c -> x ∈ l -> exists c', ctxs r !! x = Some c' /\ cx_messages c' = cx_messages c /\
    forall m, next d c' m = if handles d (cx_messages c) m && bool_decide (next d c m = Some ctx) then next d g m else next d c m) ->
  chain d r (filter (fun x => x <> ctx) l).
Proof.
  intros Hch Hnd Hg Hm Hl. induction l as [|x l IH]; [done|]. destruct Hch as [(c & Hc & Hn) Hch].
  apply list.NoDup_cons in Hnd as [Hx Hnd]. rewrite filter_cons.
  assert (IH' : chain d r (filter (fun x => x <> ctx) l)) by (apply IH; [done|done|]; intros y cy Hy Hcy Hin; apply Hl; [done|done|by right]).
  case_decide as Hne; [|done]. cbn [chain]. split; [|exact IH'].
  destruct (Hl x c Hne Hc) as (c' & Hc' & Hms & Hn'); [constructor|]. exists c'. split; [done|]. intros m. rewrite Hn', Hms.
  rewrite (first_ext d r p) by (intros y Hy; apply list_elem_of_filter in Hy as [Hy _]; by apply Hm).
  rewrite (first_without d p l m ctx g Hch Hnd Hg), !Hn.
  destruct (handles d (cx_messages c) m); cbn [andb]; [|done]. done.
Qed.

Lemma maybe_change_ends p ctx g :
  ctxs p !! ctx = Some g -> (forall d m, next d g m <> Some ctx) -> forall d m,
  end_of d (remove p ctx) !! m =
    if handles d (messages p) m && bool_decide (end_of d p !! m = Some ctx) then next d g m else end_of d p !! m.
Proof.
  intros Hg Hn d m. unfold remove, maybe_change_head, maybe_change_tail. cbn [ctxs with_ends]. rewrite Hg. cbn [default].
  destruct d; cbn [end_of head tail with_ends with_deferred messages]; by apply change_end_ok.
Qed.

Lemma remove_linked p ctx : linked p -> ctx ∈ contexts p -> linked (run_deferred (remove p ctx)).
Proof.
  intros Hl Hin. destruct Hl as [Hnd Hdom Hch Hends Hdef]. pose proof (proj2 (Hdom ctx) Hin) as [g Hg].
  assert (Hn : forall d m, next d g m <> Some ctx).
  { intros d m. apply (chain_irreflexive d p (order d (contexts p)) ctx g m); [apply Hch|by apply NoDup_order|by apply elem_of_order|done]. }
  pose proof (maybe_change_ends p ctx g Hg Hn) as Hends'. unfold run_deferred.
  assert (Ed : deferred (remove p ctx) = [ctx]) by (cbn; by rewrite Hdef). rewrite Ed. unfold base_remove.
  set (p2 := with_deferred [] (remove p ctx)). assert (Hg2 : ctxs p2 !! ctx = Some g) by done.
  destruct (unlink_all ctx g (contexts p2) Hn p2 Hnd Hg2) as [(H1 & H2 & H3 & H4 & H5 & H6) Hx]. set (q := foldl _ p2 _) in *.
  set (r := with_ctxs _ _).
  assert (Hctx : forall x, ctxs r !! x = if decide (x = ctx) then None else ctxs q !! x).
  { intros x. cbn. case_decide; subst; [by rewrite lookup_delete_eq|by rewrite lookup_delete_ne]. }
  assert (Hm : forall x, x <> ctx -> messages_of r x = messages_of p x).
  { intros x Hne. unfold messages_of. rewrite Hctx, decide_False by done. specialize (H6 x). unfold messages_of in H6. exact H6. }
  assert (Hchain : forall d, chain d r (order d (contexts r))).
  { intros d. change (contexts r) with (filter (fun x => x <> ctx) (contexts q)). rewrite H2, order_filter.
    apply (chain_without d p r _ ctx g); [apply Hch|by apply NoDup_order|done|done|]. intros x c Hne Hc Hin'. apply elem_of_order in Hin'.
    exists (unlink Write ctx g (unlink Read ctx g c)). split.
    - rewrite Hctx, decide_False, Hx, decide_True by done. change (ctxs p2) with (ctxs p). by rewrite Hc.
    - destruct (context_unlink_ok Read ctx g c (Hn Read)) as (R1 & R2 & R3). set (c1 := unlink Read ctx g c) in *.
      destruct (context_unlink_ok Write ctx g c1 (Hn Write)) as (W1 & W2 & W3). split; [congruence|]. intros m.
      destruct d; [rewrite W2 by done; apply R3|rewrite W3, R1, !R2 by done; done]. }
  split; [|..|exact Hchain| |exact H5].
  - change (NoDup (filter (fun x => x <> ctx) (contexts q))). rewrite H2. by apply list.NoDup_filter.
  - intros x. rewrite Hctx. change (contexts r) with (filter (fun x => x <> ctx) (contexts q)). rewrite H2, list_elem_of_filter. change (contexts p2) with (contexts p). rewrite <- (Hdom x).
    case_decide as Hne; [split; [by intros [? ?]|by intros [? _]]|]. rewrite Hx. change (ctxs p2) with (ctxs p).
    case_decide; [rewrite fmap_is_Some|]; tauto.
  - intros d m. assert (end_of d r = end_of d (remove p ctx)) as -> by (destruct d; [exact H3|exact H4]). rewrite Hends', !Hends.
    change (messages r) with (messages q). rewrite H1. change (contexts r) with (filter (fun x => x <> ctx) (contexts q)).
    rewrite H2. change (contexts p2) with (contexts p). rewrite order_filter, (first_ext d r p) by (intros x [Hne _]%list_elem_of_filter; by apply Hm).
    rewrite (first_without d p _ m ctx g (Hch d) (NoDup_order d _ Hnd) Hg). change (messages p2) with (messages p).
    by destruct (handles d (messages p) m).
Qed.

(** ** What is delivered *)
Section delivered.
Context {V : Type}.
Implicit Types (f : handler (V := V)) (v : V).

Definition trace (d : dir) (m : Z) v (l : list Z) : list (Z * dir * Z * V) := (fun x => (x, d, m, v)) <$> l.

Lemma deliver_default p d m v l : forall fuel, chain d p l -> (length l <= fuel)%nat ->
  (match first d p l m with Some x => deliver fuel p default_handler d x m v | None => Ret [] end) =
    Ret (trace d m v (filter (fun x => takes d p m x = true) l)).
Proof.
  induction l as [|x l IH]; intros fuel Hch Hf; [done|]. destruct Hch as [(c & Hc & Hn) Hch]. unfold first. cbn [find].
  destruct (takes d p m x) eqn:Et.
  - rewrite filter_cons_True by done. destruct fuel as [|fuel]; [simpl in Hf; lia|]. cbn [deliver]. rewrite Hc.
    cbn [default_handler foldr]. rewrite Hn. unfold takes in Et. rewrite (messages_of_eq p x c Hc) in Et. rewrite Et.
    rewrite IH by (done || simpl in Hf; lia). cbn [bindO]. by rewrite app_nil_r.
  - rewrite filter_cons_False by congruence. apply IH; [done|simpl in Hf; lia].
Qed.

Lemma send_default p d m v : linked p -> handles d (messages p) m = true ->
  send (length (contexts p)) p default_handler d m v =
    Ret (trace d m v (filter (fun x => takes d p m x = true) (order d (contexts p)))).
Proof.
  intros [_ _ Hch Hends _] Hm. unfold send. rewrite Hends, Hm. apply deliver_default; [apply Hch|].
  destruct d; [done|]. cbn. by rewrite length_rev.
Qed.

(** A filter, given a message it takes, only forwards what its context can
    forward, as the types of [forward_read] and [forward_write] say. *)
Definition typed f p : Prop :=
  forall x c d m v d' m' v', ctxs p !! x = Some c -> handles d (cx_messages c) m = true ->
    (d', m', v') ∈ f x d m v -> handles d' (cx_messages c) m' = true.

Definition well_typed p (e : Z * dir * Z * V) : Prop :=
  let '(x, d, m, _) := e in x ∈ contexts p /\ takes d p m x = true.

Lemma first_takes d p l m x : first d p l m = Some x -> takes d p m x = true.
Proof. intros E. by apply find_some in E as [_ E]. Qed.

Lemma chain_next_takes d p l x c m y : chain d p l -> x ∈ l -> ctxs p !! x = Some c -> next d c m = Some y -> y ∈ l /\ takes d p m y = true.
Proof.
  intros Hch Hx Hc Hn. split; [by eapply chain_next|]. induction l as [|z l IH]; [by apply elem_of_nil in Hx|].
  destruct Hch as [(c' & Hc' & Hn') Hch]. apply elem_of_cons in Hx as [->|Hx]; [|by apply IH].
  rewrite Hc in Hc'. injection Hc' as <-. rewrite Hn' in Hn. destruct (handles d _ m); [|done]. by apply first_takes in Hn.
Qed.

(** No step of a delivery is undefined; it may only not end. *)
Definition sound p (o : outcome (list (Z * dir * Z * V))) : Prop :=
  o = Diverge \/ exists log, o = Ret log /\ Forall (well_typed p) log.

Lemma deliver_sound p f : linked p -> typed f p -> forall fuel d x m v,
  x ∈ contexts p -> takes d p m x = true -> sound p (deliver fuel p f d x m v).
Proof.
  intros Hl Hf. induction fuel as [|fuel IH]; intros d x m v Hx Ht; cbn [deliver]; [by left|].
  destruct (proj2 (linked_dom p Hl x) Hx) as [c Hc]. rewrite Hc.
  assert (Hall : forall e, e ∈ f x d m v -> handles e.1.1 (cx_messages c) e.1.2 = true).
  { intros [[d' m'] v'] He. apply (Hf x c d m v d' m' v'); [done| |done]. by rewrite <- (messages_of_eq p x c Hc). }
  set (body := foldr _ _ _). assert (sound p body) as [->|(log & -> & Hlog)].
  { unfold body. clear body. induction (f x d m v) as [|[[d' m'] v'] es IHes]; cbn [foldr]; [by right; exists []|].
    assert (sound p (match next d' c m' with Some cx' => deliver fuel p f d' cx' m' v' | None => Ret [] end)) as Hnext.
    { destruct (next d' c m') as [y|] eqn:En; [|by right; exists []].
      destruct (chain_next_takes d' p _ x c m' y (linked_chain p Hl d')) as [Hy Hty]; [by apply elem_of_order|done|done|].
      apply IH; [by apply elem_of_order in Hy|done]. }
    destruct Hnext as [->|(l0 & -> & Hl0)]; [by left|].
    destruct IHes as [->|(l' & -> & Hl')]; [by intros; apply Hall; right|by left|].
    right. eexists. split; [reflexivity|]. by apply list.Forall_app. }
  - by left.
  - right. eexists. split; [reflexivity|]. by constructor.
Qed.

Lemma send_sound p f fuel d m v : linked p -> typed f p -> sound p (send fuel p f d m v).
Proof.
  intros Hl Hf. unfold send. rewrite (linked_ends p Hl). destruct (handles d (messages p) m); [|by right; exists []].
  destruct (first d p _ m) as [x|] eqn:E; [|by right; exists []]. apply deliver_sound; [done|done| |by apply first_takes in E].
  apply first_in in E. by apply elem_of_order in E.
Qed.
End delivered.

(** The pipes that are built by pushing filters at the back and removing
    filters, each removal carried out before the next operation. *)
Inductive built (ms : list message) : pipe -> Prop :=
  | built_new : built ms (make ms)
  | built_push p ctx cms : built ms p -> ctxs p !! ctx = None -> built ms (push_back p ctx cms)
  | built_remove p ctx : built ms p -> ctx ∈ contexts p -> built ms (run_deferred (remove p ctx)).

Lemma built_linked ms p : built ms p -> linked p.
Proof.
  induction 1 as [|p ctx cms _ IH Hf|p ctx _ IH Hin]; [apply make_linked|by apply push_back_linked|by apply remove_linked].
Qed.

Lemma built_messages ms p : built ms p -> messages p = ms.
Proof.
  induction 1 as [|p ctx cms Hb IH Hf|p ctx Hb IH Hin]; [done| |].
  - destruct (base_push_back_ok p ctx cms (built_linked _ _ Hb) Hf) as (E & _). by rewrite <- IH, <- E.
  - pose proof (built_linked _ _ Hb) as Hl. rewrite <- IH. unfold run_deferred. cbn [remove deferred with_deferred].
    destruct (deferred _ ++ [ctx]) as [|c l] eqn:El; [done|]. unfold base_remove. cbn [messages with_ctxs with_contexts].
    generalize (contexts (with_deferred l (remove p ctx))) as k. intros k.
    assert (forall k q, messages (foldl (fun p cx => unlink_in (unlink_in p Read c cx) Write c cx) q k) = messages q) as Hk.
    { clear. intros k. induction k as [|x k IHk]; intros q; [done|]. cbn [foldl]. by rewrite IHk. }
    by rewrite Hk.
Qed.

(** Where the links lead. *)
Lemma linked_target p x c d m y : linked p -> ctxs p !! x = Some c /\ next d c m = Some y \/ end_of d p !! m = Some y ->
  y ∈ contexts p /\ takes d p m y = true.
Proof.
  intros Hl [[Hc Hn]|He].
  - destruct (chain_next_takes d p (order d (contexts p)) x c m y) as [Hy Ht]; [apply Hl|by apply elem_of_order, Hl|done|done|].
    by apply elem_of_order in Hy.
  - rewrite (linked_ends p Hl) in He. destruct (handles d (messages p) m); [|done]. split; [|by apply first_takes in He].
    apply first_in in He. by apply elem_of_order in He.
Qed.

(** ** Filters pushed to the front *)

Lemma update_head_keeps ctx cms ms y m : forall e, e.2 !! m = Some y -> (foldl (update_head_link ctx cms) e ms).2 !! m = Some y.
Proof.
  induction ms as [|m0 ms IH]; intros e He; [done|]. cbn [foldl]. apply IH. unfold update_head_link, set_if_null.
  destruct (carries Read m0 && handles Read cms (payload m0)), (carries Write m0 && handles Write cms (payload m0)); cbn [fst snd]; try done;
    (case_match; [done|]); (rewrite lookup_insert_ne; [done|congruence]).
Qed.

(** The links [base_push_front] makes. *)
Lemma base_push_front_ok p ctx cms :
  linked p -> ctxs p !! ctx = None ->
  let q := base_push_front (add_context p ctx cms) ctx in
  messages q = messages p /\ head q = head p /\ tail q = tail p /\
  (forall x, messages_of q x = if decide (x = ctx) then cms else messages_of p x) /\
  (exists c, ctxs q !! ctx = Some c /\ forall m, next Read c m = None) /\
  chain Write q (order Write (contexts p)).
Proof.
  intros [Hnd Hdom Hch Hends Hdef] Hf q. set (p0 := add_context p ctx cms).
  assert (Hc : ctx ∉ contexts p) by (intros [c Hx]%Hdom; congruence).
  assert (Hm0 : forall x, messages_of p0 x = if decide (x = ctx) then cms else messages_of p x).
  { intros x. unfold messages_of, p0. cbn. destruct (decide (x = ctx)) as [->|]; [by rewrite lookup_insert_eq|by rewrite lookup_insert_ne]. }
  destruct (link_one Write ctx (contexts p0) p0 (make_filter_context cms)) as (Hr1 & Ho1 & c' & Hc' & HM & HR & _); [done|cbn; by rewrite lookup_insert_eq|].
  set (p1 := foldl _ p0 (contexts p0)) in *. assert (Ec1 : contexts p1 = contexts p) by apply Hr1.
  assert (Hcr : ctx ∉ rev (contexts p)) by (intros Hx; by apply (elem_of_order Write (contexts p)) in Hx).
  destruct (link_all Read ctx (rev (contexts p)) p1 (NoDup_order Write _ Hnd) Hcr) as [Hr2 Hx2].
  set (p2 := foldl _ p1 (rev (contexts p))) in *.
  assert (Eq : q = with_contexts (ctx :: contexts p) p2).
  { unfold q, base_push_front. fold p0. cbn zeta. fold p1. rewrite Ec1. fold p2. f_equal. f_equal. transitivity (contexts p1); [apply Hr2|exact Ec1]. }
  pose proof (relinked_trans _ _ _ Hr1 Hr2) as (H1 & H2 & H3 & H4 & H5 & H6). rewrite Eq. clear Eq q.
  assert (Hm2 : forall x, messages_of (with_contexts (ctx :: contexts p) p2) x = if decide (x = ctx) then cms else messages_of p x).
  { intros x. rewrite <- Hm0. apply H6. }
  split; [exact H1|]. split; [exact H3|]. split; [exact H4|]. split; [exact Hm2|]. split.
  - exists c'. cbn [ctxs with_contexts]. rewrite Hx2, decide_False by done. split; [done|]. intros m. by rewrite HR.
  - apply (chain_keep Write p); [apply (Hch Write)| |].
    + intros x Hx. apply elem_of_order in Hx. rewrite Hm2, decide_False; [done|]. by intros ->.
    + intros x c Hx Hxc. apply (elem_of_order Write (contexts p)) in Hx. assert (x <> ctx) by (by intros ->).
      exists (add_if_null Read ctx (messages_of p1 ctx) c). split.
      * cbn [ctxs with_contexts]. rewrite Hx2, decide_True by (by apply (elem_of_order Write (contexts p))). rewrite Ho1 by done.
        cbn. by rewrite lookup_insert_ne, Hxc.
      * destruct (add_if_null_ok Read ctx (messages_of p1 ctx) c) as (M1 & M2 & _). split; [done|]. intros m. by apply M2.
Qed.

(** ** Properties *)

(** C6: A pipe built by pushing filters at the back and removing filters, each removal
    carried out before the next operation, takes a message to every filter that takes part in it, once each: a message that is
    read from the first pushed to the last, one that is written from the last to
    the first; this is what a walk over the deque of filters would do. *)
Theorem pipe_delivers_in_order {V : Type} (ms : list message) (p : pipe) (d : dir) (m : Z) (v : V) :
  built ms p -> handles d ms m = true ->
  send (length (contexts p)) p default_handler d m v =
    Ret ((fun x => (x, d, m, v)) <$> filter (fun x => handles d (messages_of p x) m = true) (order d (contexts p))).
Proof. intros Hb Hm. apply send_default; [by apply (built_linked ms)|by rewrite (built_messages ms p Hb)]. Qed.

(** C7: The links of a pipe respect the types of the messages.  In a pipe that is
    built by pushing filters at the back and removing filters, each removal being
    carried out before the next operation (two pending removals leave a dangling link,
    [pipe_double_removal_dangles]): every link, and each end of the pipe, leads to a
    filter that is in the pipe and takes the message in that direction; and whatever
    the filters forward of what their contexts can forward, a message that is sent is
    only ever given to such filters (filters that answer each other may go on for ever). *)
Theorem pipe_well_typed {V : Type} (ms : list message) (p : pipe) (f : handler) (fuel : nat) (d : dir) (m : Z) (v : V) :
  built ms p ->
  (forall x c d m y, ctxs p !! x = Some c /\ next d c m = Some y \/ end_of d p !! m = Some y ->
     y ∈ contexts p /\ is_Some (ctxs p !! y) /\ handles d (messages_of p y) m = true) /\
  (typed f p ->
   send fuel p f d m v = Diverge \/
   exists log, send fuel p f d m v = Ret log /\
     Forall (fun e => e.1.1.1 ∈ contexts p /\ handles e.1.1.2 (messages_of p e.1.1.1) e.1.2 = true) log).
Proof.
  intros Hb. pose proof (built_linked ms p Hb) as Hl. split.
  - intros x c d' m' y Hy. apply (linked_target p x c d' m' y Hl) in Hy as [Hy Ht]. split; [done|]. split; [by apply Hl|done].
  - intros Hf. destruct (send_sound p f fuel d m v Hl Hf) as [->|(log & -> & Hlog)]; [by left|right].
    exists log. split; [done|]. apply (list.Forall_impl _ _ _ Hlog). by intros [[[x d'] m'] v'].
Qed.

(** A filter pushed to the front cuts the pipe: what is read stops at it, and
    what is written never reaches it. *)
Theorem pipe_push_front_cuts {V : Type} (ms : list message) (p : pipe) (ctx : Z) (cms : list message) (m : Z) (v : V) :
  built ms p -> ctxs p !! ctx = None -> handles Read ms m = true -> handles Write ms m = true ->
  handles Read cms m = true -> is_Some (tail p !! m) ->
  send (S (length (contexts p))) (push_front p ctx cms) default_handler Read m v = Ret [(ctx, Read, m, v)] /\
  send (S (length (contexts p))) (push_front p ctx cms) default_handler Write m v = send (length (contexts p)) p default_handler Write m v.
Proof.
  intros Hb Hf Hr Hw Hcr [y Hy]. pose proof (built_linked ms p Hb) as Hl. pose proof (built_messages ms p Hb) as Em.
  destruct (base_push_front_ok p ctx cms Hl Hf) as (H1 & H3 & H4 & Hms & (c & Hc & Hn) & Hch).
  unfold push_front. set (q := base_push_front _ ctx) in *. unfold maybe_update_head. rewrite (Hms ctx), decide_True by done.
  set (e := foldl _ _ _). split.
  - unfold send. cbn [end_of head with_ends]. assert (e.1 !! m = Some ctx) as ->.
    { unfold e. rewrite update_head_reads. by rewrite H1, Em, Hr, Hcr. }
    cbn [deliver ctxs with_ends]. rewrite Hc. cbn [default_handler foldr]. by rewrite Hn.
  - rewrite (send_default p Write m v Hl) by (by rewrite Em). unfold send. cbn [end_of tail with_ends].
    assert (e.2 !! m = Some y) as -> by (unfold e; apply update_head_keeps; cbn [snd]; by rewrite H4).
    pose proof (linked_ends p Hl Write m) as He. cbn [end_of] in He. rewrite Em, Hw, Hy in He.
    assert (Hfe : forall l, ctx ∉ l -> first Write (with_ends e.1 e.2 q) l m = first Write p l m).
    { intros l Hl'. apply first_ext. intros x Hx. change (messages_of (with_ends _ _ q) x) with (messages_of q x).
      rewrite Hms, decide_False; [done|]. by intros ->. }
    assert (Hctx : ctx ∉ order Write (contexts p)) by (intros [c' Hx]%elem_of_order%(linked_dom p Hl); congruence).
    pose proof (deliver_default (with_ends e.1 e.2 q) Write m v (order Write (contexts p)) (S (length (contexts p)))) as Hd.
    rewrite Hfe, <- He in Hd by done. rewrite Hd; [|by apply (chain_same Write q)|cbn; rewrite length_rev; lia].
    do 2 f_equal. apply filter_ext_in. intros x Hx. unfold takes. change (messages_of (with_ends _ _ q) x) with (messages_of q x).
    rewrite Hms, decide_False; [done|]. by intros ->.
Qed.

Lemma removals_keep ctx x l : forall p,
  let q := foldl (fun p cx => unlink_in (unlink_in p Read ctx cx) Write ctx cx) p l in
  head q = head p /\ deferred q = deferred p /\ (ctxs p !! x = None -> ctxs q !! x = None).
Proof.
  induction l as [|y l IH]; intros p; [done|]. cbn [foldl]. set (p2 := unlink_in _ Write ctx y).
  destruct (IH p2) as (H1 & H2 & H3). split; [exact H1|]. split; [exact H2|]. intros Hx. apply H3. unfold p2, unlink_in.
  rewrite !alter_lookup. repeat case_decide; subst; by rewrite ?Hx.
Qed.

Lemma base_remove_keeps p ctx x :
  head (base_remove p ctx) = head p /\ deferred (base_remove p ctx) = deferred p /\
  (ctxs p !! x = None \/ x = ctx -> ctxs (base_remove p ctx) !! x = None).
Proof.
  destruct (removals_keep ctx x (contexts p) p) as (H1 & H2 & H3). split; [exact H1|]. split; [exact H2|]. cbn.
  intros [Hx| ->]; [|by rewrite lookup_delete_eq]. rewrite lookup_delete_None. right. by apply H3.
Qed.

(** Removing two neighbouring filters in the same turn, the later one first,
    leaves the pipe with a dangling head: once the deferred removals have run, the
    next message that is read goes to a filter that was destroyed. *)
Theorem pipe_double_removal_dangles {V : Type} (ms : list message) (p : pipe) (a b m : Z) (ca : context) (fuel : nat)
    (f : handler) (v : V) :
  built ms p -> handles Read ms m = true -> head p !! m = Some a -> ctxs p !! a = Some ca -> next_read ca !! m = Some b ->
  send (S fuel) (run_deferred (run_deferred (remove (remove p b) a))) f Read m v = Undef.
Proof.
  intros Hb Hr Hh Ha Hab. pose proof (built_linked ms p Hb) as [Hnd Hdom Hch Hends Hdef]. pose proof (built_messages ms p Hb) as Em.
  assert (Hirr : forall x c d m, ctxs p !! x = Some c -> next d c m <> Some x).
  { intros x c d m' Hx. apply (chain_irreflexive d p (order d (contexts p)) x c m'); [apply Hch|by apply NoDup_order| |done].
    apply elem_of_order, Hdom. by eexists. }
  assert (Hbin : b ∈ contexts p) by (apply (chain_next Read p (contexts p) a ca m b (Hch Read)); [apply Hdom; by eexists|done|done]).
  apply Hdom in Hbin as [cb Hcb]. assert (b <> a) as Hba by (intros ->; by apply (Hirr a ca Read m)).
  pose proof (maybe_change_ends p b cb Hcb (fun d m => Hirr b cb d m Hcb) Read m) as E1. cbn [end_of] in E1.
  rewrite Hh, bool_decide_false, andb_false_r in E1 by congruence.
  pose proof (maybe_change_ends (remove p b) a ca Ha (fun d m => Hirr a ca d m Ha) Read m) as E2. cbn [end_of] in E2.
  change (messages (remove p b)) with (messages p) in E2. rewrite E1, Em, Hr, bool_decide_true in E2 by done. cbn [andb next] in E2.
  set (p2 := remove (remove p b) a) in *. assert (deferred p2 = [b; a]) as Ed by (cbn; by rewrite Hdef).
  unfold run_deferred at 2. rewrite Ed. set (q := with_deferred [a] p2).
  destruct (base_remove_keeps q b b) as (H1 & H2 & H3). unfold run_deferred. rewrite H2. cbn [deferred q with_deferred].
  set (q1 := with_deferred [] (base_remove q b)). destruct (base_remove_keeps q1 a b) as (G1 & _ & G3).
  unfold send. cbn [end_of]. rewrite G1. change (head q1) with (head (base_remove q b)). rewrite H1. change (head q) with (head p2).
  rewrite E2, Hab. cbn [deliver]. rewrite G3; [done|]. left. apply H3. by right.
Qed.

(** ** Concrete pipes *)

(** A filter of messages 1 and 2, one that only reads 1, one of 1. *)
Definition ex_pipe : pipe :=
  push_back (push_back (push_back (make [read_write 1; read_write 2]) 10 [read_write 1; read_write 2]) 20 [read_only 1]) 30 [read_write 1].

Lemma ex_built : built [read_write 1; read_write 2] ex_pipe.
Proof. repeat (apply built_push; [|reflexivity]). apply built_new. Qed.

Lemma pipe_delivers_in_order_witness :
  send 3 ex_pipe default_handler Read 1 5 = Ret [(10, Read, 1, 5); (20, Read, 1, 5); (30, Read, 1, 5)] /\
  send 3 ex_pipe default_handler Write 1 5 = Ret [(30, Write, 1, 5); (10, Write, 1, 5)].
Proof.
  split.
  - exact (pipe_delivers_in_order [read_write 1; read_write 2] ex_pipe Read 1 5 ex_built eq_refl).
  - exact (pipe_delivers_in_order [read_write 1; read_write 2] ex_pipe Write 1 5 ex_built eq_refl).
Defined.

(** The last filter answers what it reads, the others pass everything on. *)
Definition ex_handler : handler (V := Z) := fun x d m v =>
  if (x =? 30) && bool_decide (d = Read) then [(Write, m, v + 1)] else [(d, m, v)].

Lemma pipe_well_typed_witness :
  send 9 ex_pipe ex_handler Read 1 5 = Ret [(10, Read, 1, 5); (20, Read, 1, 5); (30, Read, 1, 5); (10, Write, 1, 6)] /\
  Forall (fun e => e.1.1.1 ∈ contexts ex_pipe /\ handles e.1.1.2 (messages_of ex_pipe e.1.1.1) e.1.2 = true)
    [(10, Read, 1, 5); (20, Read, 1, 5); (30, Read, 1, 5); (10, Write, 1, 6)].
Proof.
  assert (Hs : send 9 ex_pipe ex_handler Read 1 5 = Ret [(10, Read, 1, 5); (20, Read, 1, 5); (30, Read, 1, 5); (10, Write, 1, 6)])
    by reflexivity.
  split; [exact Hs|]. destruct (proj2 (pipe_well_typed [read_write 1; read_write 2] ex_pipe ex_handler 9 Read 1 5 ex_built)) as [E|(log & E & Hl)].
  - intros x c d m v d' m' v' Hx Hh Hin. unfold ex_handler in Hin. destruct (Z.eqb_spec x 30) as [->|].
    + vm_compute in Hx. injection Hx as <-. cbn [andb] in Hin. destruct d; cbn in Hin; apply list_elem_of_singleton in Hin; injection Hin as -> -> _.
      * exact Hh.
      * exact Hh.
    + cbn [andb] in Hin. apply list_elem_of_singleton in Hin. injection Hin as -> -> _. exact Hh.
  - rewrite Hs in E. discriminate E.
  - rewrite Hs in E. injection E as <-. exact Hl.
Defined.

Lemma pipe_push_front_cuts_witness :
  send 4 (push_front ex_pipe 40 [read_write 1]) default_handler Read 1 5 = Ret [(40, Read, 1, 5)].
Proof.
  refine (proj1 (pipe_push_front_cuts [read_write 1; read_write 2] ex_pipe 40 [read_write 1] 1 5 ex_built _ _ _ _ _)).
  - reflexivity.
  - reflexivity.
  - reflexivity.
  - reflexivity.
  - exists 30. reflexivity.
Defined.

Lemma pipe_double_removal_dangles_witness :
  send 1 (run_deferred (run_deferred (remove (remove ex_pipe 20) 10))) default_handler Read 1 5 = Undef.
Proof.
  apply (pipe_double_removal_dangles [read_write 1; read_write 2] ex_pipe 10 20 1 (default (make_filter_context []) (ctxs ex_pipe !! 10)) 0).
  - exact ex_built.
  - reflexivity.
  - reflexivity.
  - reflexivity.
  - reflexivity.
Defined.

End Pipes.
