(* ===== verification/Socket.v ===== *)
(** * Socket: non-blocking sockets over the system calls
      (xi/io/net/socket2.h, src/io/net/socket2.cpp, xi/io/error.h)

    The kernel is a parameter: the class [socket_api] has the system calls the
    code uses, which return a value and an [errno]; a gathered [iovec] is its
    bytes, what [recvmsg] stores are bytes.  [socket_spec] states what their
    documentation promises of a stream.  Addresses of peers are left out. *)
From S2P Require Import Prelude Bytes Guard Blob Fragment Buffer Alloc.

Definition EAGAIN : Z := 11.
Definition EWOULDBLOCK : Z := EAGAIN.
Definition EPIPE : Z := 32.
Definition ECONNRESET : Z := 104.
Definition EINPROGRESS : Z := 115.

(** [io::error::enumeration] and the codes of the generic category. *)
Inductive io_error : Type :=
  | kEOF
  | kRetry
  | Errno (e : Z).

#[export] Instance io_error_eq_dec : EqDecision io_error.
Proof. solve_decision. Defined.

(** [expected< T >]. *)
Inductive expected (A : Type) : Type :=
  | Value (a : A)
  | Error (e : io_error).
Arguments Value {A} _.
Arguments Error {A} _.

(** The system calls: the descriptor, then what is passed; [(ret, errno)]. *)
Class socket_api (K : Type) := {
  sys_sendmsg : K -> Z -> list Z -> K * (Z * Z);
  sys_recvmsg : K -> Z -> Z -> K * list Z * (Z * Z);
  sys_close : K -> Z -> K * (Z * Z);
  sys_connect : K -> Z -> K * (Z * Z);
  sys_accept4 : K -> Z -> K * (Z * Z);
  sys_setsockopt : K -> Z -> Z -> K * (Z * Z)
}.

Module Socket.
Section socket.
Context {K : Type} `{socket_api K}.

(** [class socket]: its [_descriptor], -1 when it has none. *)
Definition socket : Type := Z.

Definition move (s : socket) : socket * socket := (s, -1).

Definition close (k : K) (s : socket) : K * socket * expected unit :=
  if -1 =? s then (k, s, Value tt)
  else
    let '(k, (ret, errno)) := sys_close k s in
    (k, -1, if -1 =? ret then Error (Errno errno) else Value tt).

Definition destroy (k : K) (s : socket) : K := fst (fst (close k s)).

Definition connect (k : K) (s : socket) : K * expected unit :=
  let '(k, (ret, errno)) := sys_connect k s in
  (k, if -1 =? ret then (if EINPROGRESS =? errno then Error kRetry else Error (Errno errno)) else Value tt).

(** The loop of [accept] over the child options. *)
Fixpoint set_options (k : K) (d : Z) (options : list Z) : K * expected unit :=
  match options with
  | [] => (k, Value tt)
  | o :: options =>
      let '(k, (ret, errno)) := sys_setsockopt k d o in
      if -1 =? ret then (k, Error (Errno errno)) else set_options k d options
  end.

Definition accept (k : K) (s : socket) (child_options : list Z) : K * expected socket :=
  let '(k, (retval, errno)) := sys_accept4 k s in
  if -1 =? retval then (k, Error (Errno errno))
  else
    let '(k, res) := set_options k retval child_options in
    (k, match res with Error e => Error e | Value _ => Value retval end).

(** ** [data_socket] *)

Definition iov_bytes (m : mem) (iov : list byte_range) : list Z := iov ≫= Range.bytes m.

Definition write_iov (k : K) (m : mem) (s : socket) (iov : list byte_range) : K * expected Z :=
  match iov with
  | [] => (k, Value 0)
  | _ =>
      let '(k, (retval, errno)) := sys_sendmsg k s (iov_bytes m iov) in
      (k,
       if -1 =? retval then
         if (EAGAIN =? errno) || (EWOULDBLOCK =? errno) then Error kRetry
         else if (ECONNRESET =? retval) || (EPIPE =? retval) then Error kEOF
         else Error (Errno errno)
       else if 0 =? retval then Error kRetry
       else Value retval)
  end.

(** [write_iov] with a coroutine to yield to: [while (true)]. *)
Fixpoint write_iov_yield (fuel : nat) (k : K) (m : mem) (s : socket) (iov : list byte_range) : outcome (K * expected Z) :=
  match fuel with
  | O => Diverge
  | S fuel =>
      let '(k, r) := write_iov k m s iov in
      match r with
      | Error e => if bool_decide (e <> kRetry) then Ret (k, r) else write_iov_yield fuel k m s iov
      | Value _ => write_iov_yield fuel k m s iov
      end
  end.

(** The loop of [write]; [ret] is an [i32]. *)
Fixpoint write_loop (fuel : nat) (k : K) (m : mem) (h : gheap) (s : socket) (b : buffer) (ret : Z)
    : outcome (K * gheap * buffer * expected Z) :=
  match fuel with
  | O => Diverge
  | S fuel =>
      do iov <- IovecAdapter.fill_readable_iovec b IovecAdapter.IOV_MAX;;
      let '(k, r) := write_iov k m s iov in
      match r with
      | Error e => Ret (k, h, b, Error e)
      | Value n =>
          do '(h, b) <- Buffer.skip_bytes h b (u64 n) true;;
          if 2 ^ 31 <=? ret + n then Undef
          else if IovecAdapter.IOV_MAX =? zlen iov then write_loop fuel k m h s b (ret + n)
          else Ret (k, h, b, Value (ret + n))
      end
  end.

(** [write], [write_buffer]. *)
Definition write (k : K) (m : mem) (h : gheap) (s : socket) (b : buffer) : outcome (K * gheap * buffer * expected Z) :=
  if Buffer.size b =? 0 then Ret (k, h, b, Value 0)
  else write_loop (S (Z.to_nat (Buffer.size b))) k m h s b 0.

Definition read_iov (k : K) (m : mem) (s : socket) (iov : list byte_range) : K * mem * expected Z :=
  match iov with
  | [] => (k, m, Value 0)
  | r :: _ =>
      let '(k, bs, (retval, errno)) := sys_recvmsg k s (r_size r) in
      let m := store m (r_data r) bs in
      (k, m,
       if -1 =? retval then
         if (EAGAIN =? errno) || (EWOULDBLOCK =? errno) then Error kRetry
         else if ECONNRESET =? errno then Error kEOF
         else Error (Errno errno)
       else if 0 =? retval then Error kEOF
       else Value retval)
  end.

(** [read], [read_buffer]; the [iovec] it passes has one entry. *)
Definition read (k : K) (m : mem) (s : socket) (b : buffer) : outcome (K * mem * buffer * expected Z) :=
  if 0 =? Buffer.tailroom b then Ret (k, m, b, Value 0)
  else
    match IovecAdapter.fill_writable_iovec b with
    | [] => Undef
    | iov =>
        let '(k, m, r) := read_iov k m s iov in
        match r with
        | Error e => Ret (k, m, b, Error e)
        | Value n => do b <- IovecAdapter.report_written b (u64 n);; Ret (k, m, b, Value n)
        end
    end.
End socket.
End Socket.

(** ** What the kernel promises

    [wire k d] are the bytes the stream [d] has accepted so far, [heard k d]
    those it has handed out; calls on a stream leave the others alone. *)
Class socket_spec (K : Type) `{socket_api K} := {
  wire : K -> Z -> list Z;
  heard : K -> Z -> list Z;
  sendmsg_ok k d bs k' ret errno : sys_sendmsg k d bs = (k', (ret, errno)) ->
    heard k' = heard k /\ (forall d', d' <> d -> wire k' d' = wire k d') /\
    ((ret = -1 /\ wire k' d = wire k d) \/
     (0 <= ret <= zlen bs /\ ret < 2 ^ 31 /\ wire k' d = wire k d ++ ztake ret bs));
  recvmsg_ok k d room k' bs ret errno : 0 <= room -> sys_recvmsg k d room = (k', bs, (ret, errno)) ->
    wire k' = wire k /\ (forall d', d' <> d -> heard k' d' = heard k d') /\
    ((ret = -1 /\ bs = [] /\ heard k' d = heard k d) \/
     (0 <= ret <= room /\ ret < 2 ^ 31 /\ zlen bs = ret /\ heard k' d = heard k d ++ bs))
}.

Section socket_lemmas.
Context {K : Type} `{socket_spec K}.
Implicit Types (k : K) (m : mem) (h : gheap) (b : buffer) (s : Z) (live : list guard).

(** The rest of the kernel, as seen by others, is untouched. *)
Definition only_wire k k' s (bs : list Z) : Prop :=
  heard k' = heard k /\ (forall d, d <> s -> wire k' d = wire k d) /\ wire k' s = wire k s ++ bs.

Lemma only_wire_refl k s : only_wire k k s [].
Proof. unfold only_wire. by rewrite app_nil_r. Qed.

Lemma only_wire_trans k k1 k2 s (u v : list Z) : only_wire k k1 s u -> only_wire k1 k2 s v -> only_wire k k2 s (u ++ v).
Proof.
  intros (H1 & H2 & H3) (G1 & G2 & G3). split; [congruence|]. split.
  - intros d Hd. by rewrite G2, H2.
  - by rewrite G3, H3, app_assoc.
Qed.

(** What [write_iov] returns: bytes of the front were sent, or none was; never
    [kEOF], since it compares the return value with [ECONNRESET] and [EPIPE]. *)
Lemma write_iov_ok k m s iov :
  exists k' r, Socket.write_iov k m s iov = (k', r) /\
    match r with
    | Value n => 0 <= n <= zlen (Socket.iov_bytes m iov) /\ n < 2 ^ 31 /\ (iov <> [] -> 0 < n) /\
                 only_wire k k' s (ztake n (Socket.iov_bytes m iov))
    | Error e => e <> kEOF /\ only_wire k k' s []
    end.
Proof.
  unfold Socket.write_iov. destruct iov as [|r0 iov].
  { exists k, (Value 0). split; [done|]. split; [split; [lia|apply zlen_nonneg]|]. split; [lia|]. split; [done|].
    rewrite ztake_0. apply only_wire_refl. }
  destruct (sys_sendmsg k s _) as [k' [ret errno]] eqn:E. apply sendmsg_ok in E as (Hh & Ho & [[-> Hw]|(Hr & Hb & Hw)]).
  - assert (only_wire k k' s []) by (split; [done|split; [done|by rewrite app_nil_r]]). cbn [Z.eqb].
    destruct ((EAGAIN =? errno) || (EWOULDBLOCK =? errno)); eexists _, _; (split; [reflexivity|done]).
  - assert (only_wire k k' s (ztake ret (Socket.iov_bytes m (r0 :: iov)))) as Hok by done.
    rewrite (proj2 (Z.eqb_neq (-1) ret)) by lia. case_if.
    + eexists _, _. split; [reflexivity|]. split; [done|]. replace ret with 0 in Hok by lia. by rewrite ztake_0 in Hok.
    + eexists _, _. split; [reflexivity|]. split; [done|]. split; [done|]. split; [lia|done].
Qed.

(** The post-condition of sending [n] bytes of [b]. *)
Definition sent_post k m h s b live k' h' b' (n : Z) : Prop :=
  0 <= n <= bf_size b /\ only_wire k k' s (ztake n (Buffer.bytes m b)) /\
  drop_post m h b live h' b' (zdrop n (Buffer.bytes m b)).

Lemma drop_post_size m h b live h' b' n : Buffer.wf b -> 0 <= n <= bf_size b ->
  drop_post m h b live h' b' (zdrop n (Buffer.bytes m b)) -> bf_size b' = bf_size b - n.
Proof.
  intros Hb Hn (Hw & Hbs & _). rewrite <- (zlen_buffer m b'), Hbs, zlen_drop, zlen_buffer by (done || lia). lia.
Qed.

Lemma sent_none k m h s b live : Buffer.wf b -> guards_ok h (Buffer.guards b ++ live) -> forall k', only_wire k k' s [] ->
  sent_post k m h s b live k' h b 0.
Proof.
  intros Hb Hok k' Hw. pose proof (buffer_size_range b Hb). split; [lia|]. rewrite ztake_0, zdrop_0. split; [done|].
  split; [done|]. split; [done|]. by split.
Qed.

Lemma sent_more k m h s b live k1 h1 b1 n1 k2 h2 b2 n2 : Buffer.wf b ->
  sent_post k m h s b live k1 h1 b1 n1 -> sent_post k1 m h1 s b1 live k2 h2 b2 n2 -> sent_post k m h s b live k2 h2 b2 (n1 + n2).
Proof.
  intros Hb (Hn1 & Hw1 & Hd1) (Hn2 & Hw2 & Hd2). pose proof (drop_post_size _ _ _ _ _ _ _ Hb Hn1 Hd1) as Es.
  destruct Hd1 as (W1 & B1 & G1 & P1), Hd2 as (W2 & B2 & G2 & P2). split; [lia|].
  assert (Ebs : ztake (n1 + n2) (Buffer.bytes m b) = ztake n1 (Buffer.bytes m b) ++ ztake n2 (Buffer.bytes m b1)).
  { rewrite B1. rewrite <- (ztake_zdrop n1 (Buffer.bytes m b)) at 1. rewrite ztake_app_ge by (rewrite zlen_take, zlen_buffer by (done || lia); lia).
    f_equal. f_equal. rewrite zlen_take, zlen_buffer by (done || lia). lia. }
  split; [rewrite Ebs; by eapply only_wire_trans|]. split; [done|]. split; [|split; [done|by rewrite P2]].
  rewrite B2, B1, zdrop_zdrop by lia. f_equal. lia.
Qed.

Lemma write_loop_ok m s live fuel : forall k h b ret,
  Buffer.wf b -> guards_ok h (Buffer.guards b ++ live) -> bf_size b < Z.of_nat fuel -> 0 <= ret -> ret + bf_size b < 2 ^ 31 ->
  exists k' h' b' n r, Socket.write_loop fuel k m h s b ret = Ret (k', h', b', r) /\
    sent_post k m h s b live k' h' b' n /\
    match r with
    | Value v => v = ret + n /\ (0 < bf_size b -> 0 < n)
    | Error e => e <> kEOF /\ (zlen (data_ranges (bf_frags b)) < IovecAdapter.IOV_MAX -> n = 0)
    end.
Proof.
  induction fuel as [|fuel IH]; intros k h b ret Hb Hok Hf Hret Hsum; [pose proof (buffer_size_range b Hb); lia|].
  cbn [Socket.write_loop]. rewrite fill_readable_ok by (done || unfold IovecAdapter.IOV_MAX; lia). cbn [bindO].
  set (iov := ztake _ _). destruct (data_ranges_prefix m b IovecAdapter.IOV_MAX Hb) as [[rest Hpre] Hall]. fold iov in Hpre, Hall.
  destruct (write_iov_ok k m s iov) as (k1 & r & E & Hr). rewrite E. destruct r as [n|e].
  - destruct Hr as (Hn & Hn31 & Hpos & Hw). unfold Socket.iov_bytes in Hn, Hw.
    assert (Hle : n <= bf_size b).
    { rewrite <- (zlen_buffer m b Hb), Hpre, zlen_app. pose proof (zlen_nonneg (A := Z) rest). lia. }
    rewrite u64_id by (unfold_pow2; lia).
    destruct (buffer_skip_ok m h b n true live Hb Hok ltac:(unfold_pow2; lia)) as (h1 & b1 & E1 & Hd). rewrite E1. cbn [bindO].
    assert (Hpost : sent_post k m h s b live k1 h1 b1 n).
    { split; [lia|]. split; [|done]. rewrite Hpre, ztake_app_le by lia. exact Hw. }
    rewrite (proj2 (Z.leb_gt _ _)) by lia. pose proof (drop_post_size m h b live h1 b1 n Hb (conj (proj1 Hn) Hle) Hd) as Es.
    destruct Hd as (Hb1 & _ & Hok1 & _). case_if.
    + assert (0 < n) by (apply Hpos; intros ->; rewrite zlen_nil in *; unfold IovecAdapter.IOV_MAX in *; lia).
      destruct (IH k1 h1 b1 (ret + n) Hb1 Hok1 ltac:(lia) ltac:(lia) ltac:(lia)) as (k2 & h2 & b2 & n2 & r2 & E2 & Hpost2 & Hr2).
      exists k2, h2, b2, (n + n2), r2. split; [exact E2|]. split; [by eapply sent_more|].
      destruct r2 as [v|e]; [split; [lia|destruct Hpost2; lia]|]. destruct Hr2 as [Hr2 _]. split; [done|].
      intros Hlt. assert (zlen iov <= zlen (data_ranges (bf_frags b))) by (unfold iov; rewrite zlen_take by (unfold IovecAdapter.IOV_MAX; lia); lia). lia.
    + exists k1, h1, b1, n, (Value (ret + n)). split; [done|]. split; [done|]. split; [done|]. intros Hpb.
      destruct iov as [|r0 iov'] eqn:Ei; [|by apply Hpos]. exfalso.
      destruct (data_ranges (bf_frags b)) as [|r0 rs] eqn:Er.
      * specialize (Hall ltac:(rewrite zlen_nil; unfold IovecAdapter.IOV_MAX; lia)). 
        pose proof (zlen_buffer m b Hb) as Hz. rewrite <- Hall in Hz. unfold zlen in Hz. simpl in Hz. lia.
      * subst iov. discriminate Ei.
  - destruct Hr as [He Hw]. exists k1, h, b, 0, (Error e). split; [done|]. split; [by apply sent_none|]. done.
Qed.

(** One call takes [n] bytes of more. *)
Lemma write_short k m h s b live k' n errno :
  Buffer.wf b -> guards_ok h (Buffer.guards b ++ live) -> bf_size b < 2 ^ 31 ->
  zlen (data_ranges (bf_frags b)) < IovecAdapter.IOV_MAX -> 0 < n < bf_size b ->
  sys_sendmsg k s (Buffer.bytes m b) = (k', (n, errno)) ->
  exists h' b', Socket.write k m h s b = Ret (k', h', b', Value n) /\ Buffer.bytes m b' = zdrop n (Buffer.bytes m b).
Proof.
  intros Hb Hok Hs Hv Hn Esend. destruct (buffer_skip_ok m h b n true live Hb Hok ltac:(unfold_pow2; lia)) as (h1 & b1 & Es & _ & Hbs & _).
  exists h1, b1. split; [|done]. unfold Socket.write, Buffer.size. rewrite (proj2 (Z.eqb_neq _ _)) by lia. cbn [Socket.write_loop].
  rewrite fill_readable_ok by (done || unfold IovecAdapter.IOV_MAX; lia). cbn [bindO]. rewrite ztake_ge by lia. unfold Socket.write_iov.
  assert (Socket.iov_bytes m (data_ranges (bf_frags b)) = Buffer.bytes m b) as Eb.
  { rewrite buffer_bytes_cat. by apply data_ranges_bytes, (Buffer.wf_frags _ Hb). }
  destruct (data_ranges (bf_frags b)) as [|r l] eqn:Er.
  { pose proof (zlen_buffer m b Hb) as Hl. rewrite <- Eb in Hl. cbn [Socket.iov_bytes mbind list_bind] in Hl.
    rewrite (zlen_nil (A := Z)) in Hl. lia. }
  rewrite Eb, Esend, (proj2 (Z.eqb_neq (-1) n)), (proj2 (Z.eqb_neq 0 n)) by lia.
  rewrite u64_id by (unfold_pow2; lia). rewrite Es. cbn [bindO]. rewrite Z.add_0_l, (proj2 (Z.leb_gt _ _)) by (unfold_pow2; lia).
  by rewrite (proj2 (Z.eqb_neq _ _)) by lia.
Qed.

(** ** Reading *)

Lemma record_bytes_ok f n : Fragment.wf f -> 0 <= n <= Fragment.tailroom f ->
  exists f', Fragment.record_bytes f n = Ret (f', n) /\ Fragment.wf f' /\ fr_bytes f' = fr_bytes f /\ fr_head f' = fr_head f /\
    fr_size f' = fr_size f + n.
Proof.
  intros Hf Hn. pose proof (fr_rooms f Hf) as Hr. pose proof (fr_size_range f Hf). pose proof (fr_tailroom f Hf) as Ht.
  destruct (Fragment.wf_blob f Hf) as [? ?].
  assert (Hsum : fr_size f + n < 2 ^ 63) by (destruct Hf; lia).
  unfold Fragment.record_bytes, Fragment.size. rewrite signed_nonneg_true by lia.
  cbn [assertO]. rewrite Z.min_l by lia. rewrite u64_id by (unfold_pow2; lia). eexists. split; [done|]. destruct Hf. by repeat split; cbn; try lia.
Qed.

Lemma report_written_ok m b f n : Buffer.wf b -> list.last (bf_frags b) = Some f -> 0 <= n <= Fragment.tailroom f ->
  bf_size b + n < 2 ^ 63 ->
  exists b', IovecAdapter.report_written b n = Ret b' /\ Buffer.wf b' /\ Buffer.guards b' = Buffer.guards b /\
    Buffer.bytes m b' = Buffer.bytes m b ++ load m (Fragment.tail f) n /\ fr_bytes <$> bf_frags b' = fr_bytes <$> bf_frags b.
Proof.
  intros Hb El Hn Hsm. pose proof (buffer_size_range b Hb). destruct Hb as [Hf Hs Hs'].
  unfold IovecAdapter.report_written. rewrite El. pose proof (removelast_last _ _ El) as Ecut.
  assert (Fragment.wf f /\ Forall Fragment.wf (removelast (bf_frags b))) as [Hfw Hinit].
  { rewrite Ecut in Hf. apply Forall_app in Hf as [? Hf]. by apply Forall_cons_iff in Hf as [? _]. }
  destruct (record_bytes_ok f n Hfw Hn) as (f' & E & Hf' & Eb & Eh & Es). rewrite E. cbn [bindO].
  rewrite u64_id by (unfold_pow2; lia). eexists. split; [done|]. unfold Buffer.set_last, Buffer.guards. cbn [bf_frags bf_size].
  split; [split; cbn [bf_frags bf_size]; [by apply Forall_app; auto|rewrite Hs, Ecut at 1; rewrite !zsum_app; simpl; lia|lia]|].
  split; [rewrite Ecut at 2; change (fmap Fragment.guard) with guards_of; rewrite !guards_of_app; f_equal; unfold guards_of; simpl; unfold Fragment.guard; by rewrite Eb|].
  split; [|rewrite Ecut at 2; rewrite !fmap_app; cbn; by rewrite Eb].
  rewrite !buffer_bytes_cat. cbn [bf_frags]. rewrite Ecut at 2. rewrite !cat_app, !cat_cons.
  rewrite <- app_assoc. f_equal. unfold Fragment.bytes. rewrite Eh, Es. unfold Fragment.tail. change (cat m []) with (@nil Z).
  rewrite !app_nil_r. apply load_app; [destruct Hfw; lia|lia].
Qed.

Definition only_heard k k' s (bs : list Z) : Prop :=
  wire k' = wire k /\ (forall d, d <> s -> heard k' d = heard k d) /\ heard k' s = heard k s ++ bs.

Lemma read_iov_ok k m s r : 0 <= r_size r ->
  exists k' bs v, Socket.read_iov k m s [r] = (k', store m (r_data r) bs, v) /\ only_heard k k' s bs /\
    match v with Value n => 0 < n <= r_size r /\ n < 2 ^ 31 /\ n = zlen bs | Error e => bs = [] end.
Proof.
  intros Hr. unfold Socket.read_iov. destruct (sys_recvmsg k s (r_size r)) as [[k' bs] [ret errno]] eqn:E.
  apply (recvmsg_ok k s _ k' bs ret errno Hr) in E as (Hw & Ho & [(-> & -> & Hh)|(Hret & H31 & Hz & Hh)]).
  - assert (only_heard k k' s []) by (split; [done|split; [done|by rewrite app_nil_r]]). cbn [Z.eqb].
    destruct ((EAGAIN =? errno) || (EWOULDBLOCK =? errno)); [by eexists _, [], _|].
    destruct (ECONNRESET =? errno); by eexists _, [], _.
  - rewrite (proj2 (Z.eqb_neq (-1) ret)) by lia. case_if.
    + exists k', [], (Error kEOF). assert (bs = []) as -> by (apply zlen_zero; lia). by split.
    + exists k', bs, (Value ret). split; [done|]. split; [done|]. lia.
Qed.

Lemma socket_read_ok k m s b : Buffer.wf b -> 0 < Buffer.tailroom b -> tail_private b -> bf_size b < 2 ^ 62 ->
  exists k' m' b' r bs, Socket.read k m s b = Ret (k', m', b', r) /\ only_heard k k' s bs /\ Buffer.wf b' /\
    Buffer.guards b' = Buffer.guards b /\ Buffer.bytes m' b' = Buffer.bytes m b ++ bs /\
    match r with Value n => 0 < n <= Buffer.tailroom b /\ n = zlen bs | Error _ => bs = [] /\ b' = b end /\
    exists f, list.last (bf_frags b) = Some f /\ m' = store m (Fragment.tail f) bs /\ zlen bs <= Fragment.tailroom f /\
      zlen bs < 2 ^ 31 /\ fr_bytes <$> bf_frags b' = fr_bytes <$> bf_frags b.
Proof.
  intros Hb Ht Hpriv Hsm. pose proof (buffer_size_range b Hb). unfold Socket.read. rewrite (proj2 (Z.eqb_neq _ _)) by lia.
  unfold IovecAdapter.fill_writable_iovec, Buffer.tailroom, tail_private in *.
  destruct (list.last (bf_frags b)) as [f|] eqn:El; [|lia].
  unfold Range.empty. cbn [Fragment.tail_range r_size]. rewrite (proj2 (Z.eqb_neq _ _)) by lia.
  destruct (read_iov_ok k m s (Fragment.tail_range f)) as (k' & bs & v & E & Hh & Hv); [cbn; lia|]. rewrite E.
  cbn [Fragment.tail_range r_size r_data] in Hv |- *. set (m' := store m (Fragment.tail f) bs).
  assert (Hlen : zlen bs <= Fragment.tailroom f) by (destruct v; [lia|subst bs; rewrite (zlen_nil (A := Z)); lia]).
  assert (Hkeep : Buffer.bytes m' b = Buffer.bytes m b).
  { rewrite !buffer_bytes_cat. apply cat_ext. apply Forall_forall. intros g Hg. rewrite Forall_forall in Hpriv. specialize (Hpriv g Hg).
    unfold Fragment.bytes, m'. apply load_store_out. unfold disjoint in *. lia. }
  destruct v as [n|e].
  - destruct Hv as (Hn & H31 & Hz). rewrite u64_id by (unfold_pow2; lia).
    destruct (report_written_ok m' b f n Hb El ltac:(lia) ltac:(lia)) as (b' & Er & Hb' & Hg & Hbs & Hbl). rewrite Er. cbn [bindO].
    exists k', m', b', (Value n), bs. split; [done|]. split; [done|]. split; [done|]. split; [done|].
    split; [|split; [done|]; exists f; by repeat (split; [done || lia|])].
    rewrite Hbs, Hkeep. f_equal. unfold m'. rewrite Hz. by apply load_store_len.
  - subst bs. exists k', m', b, (Error e), []. split; [done|]. split; [done|]. split; [done|]. split; [done|].
    split; [by rewrite app_nil_r|]. split; [done|]. exists f. by repeat (split; [done || lia|]).
Qed.

(** A coroutine's write never reports success. *)
Lemma write_iov_yield_ok m s iov fuel : forall k,
  Socket.write_iov_yield fuel k m s iov = Diverge \/
  exists k' e, Socket.write_iov_yield fuel k m s iov = Ret (k', Error e) /\ e <> kRetry.
Proof.
  induction fuel as [|fuel IH]; intros k; [by left|]. cbn [Socket.write_iov_yield].
  destruct (Socket.write_iov k m s iov) as [k1 [n|e]]; [apply IH|]. case_bool_decide; [right; by exists k1, e|apply IH].
Qed.
End socket_lemmas.

(** ** Properties *)

(** C32: [write_buffer] sends the front of the buffer and drops exactly what it
    sent, releasing the fragments it used up once: the bytes the stream has taken
    and those left in the buffer are, in order, the bytes there were before.  It
    reports how many it sent, at least one of a buffer that is not empty, or the
    error of the last call; a buffer of fewer than [IOV_MAX] fragments is sent in
    one call, so with an error nothing was sent.  It never reports [kEOF]: the
    return value is compared with [ECONNRESET] and [EPIPE] instead of [errno]. *)
Theorem socket_write_sends {K : Type} `{socket_spec K} (k : K) (m : mem) (h : gheap) (s : Z) (b : buffer) (live : list guard) :
  Buffer.wf b -> guards_ok h (Buffer.guards b ++ live) -> bf_size b < 2 ^ 31 ->
  exists k' h' b' n r, Socket.write k m h s b = Ret (k', h', b', r) /\ 0 <= n <= bf_size b /\
    wire k' s = wire k s ++ ztake n (Buffer.bytes m b) /\
    drop_post m h b live h' b' (zdrop n (Buffer.bytes m b)) /\
    match r with
    | Value v => v = n /\ (0 < bf_size b -> 0 < n)
    | Error e => e <> kEOF /\ (zlen (data_ranges (bf_frags b)) < IovecAdapter.IOV_MAX -> n = 0)
    end.
Proof.
  intros Hb Hok Hsm. pose proof (buffer_size_range b Hb). unfold Socket.write, Buffer.size. case_if.
  - destruct (sent_none k m h s b live Hb Hok k (only_wire_refl k s)) as (Hn & (_ & _ & Hw) & Hd).
    exists k, h, b, 0, (Value 0). split; [done|]. do 3 (split; [done|]). split; [done|lia].
  - destruct (write_loop_ok m s live (S (Z.to_nat (bf_size b))) k h b 0 Hb Hok) as (k' & h' & b' & n & r & Ew & (Hn & (_ & _ & Hw) & Hd) & Hr); [lia..|].
    exists k', h', b', n, r. split; [done|]. do 3 (split; [done|]). by destruct r.
Qed.

(** [read_buffer] appends what the stream has to say to the last fragment of
    the buffer, as much as its tailroom takes, and counts it; on an error and at
    the end of the stream the buffer is as it was. *)
Theorem socket_read_appends {K : Type} `{socket_spec K} (k : K) (m : mem) (s : Z) (b : buffer) :
  Buffer.wf b -> 0 < Buffer.tailroom b -> tail_private b -> bf_size b < 2 ^ 62 ->
  exists k' m' b' r bs, Socket.read k m s b = Ret (k', m', b', r) /\ heard k' s = heard k s ++ bs /\ Buffer.wf b' /\
    Buffer.guards b' = Buffer.guards b /\ Buffer.bytes m' b' = Buffer.bytes m b ++ bs /\
    match r with Value n => 0 < n <= Buffer.tailroom b /\ n = zlen bs | Error _ => bs = [] /\ b' = b end.
Proof.
  intros Hb Ht Hp Hsm. destruct (socket_read_ok k m s b Hb Ht Hp Hsm) as (k' & m' & b' & r & bs & E & (_ & _ & Hh) & H1 & H2 & H3 & H4 & _).
  by exists k', m', b', r, bs.
Qed.

(** The [write_iov] that is given a coroutine to yield to never reports
    success: after the kernel has taken the bytes it sends them again, until a
    call fails. *)
Theorem socket_yield_write_repeats {K : Type} `{socket_api K} (k : K) (m : mem) (s : Z) (iov : list byte_range) (fuel : nat) :
  Socket.write_iov_yield fuel k m s iov = Diverge \/
  exists k' e, Socket.write_iov_yield fuel k m s iov = Ret (k', Error e) /\ e <> kRetry.
Proof. apply write_iov_yield_ok. Qed.

(** A connection that could not be given its options is neither returned nor
    closed. *)
Lemma accept_leaks {K : Type} `{socket_api K} (k k1 k2 : K) (s d e o : Z) (options : list Z) :
  sys_accept4 k s = (k1, (d, 0)) -> d <> -1 -> sys_setsockopt k1 d o = (k2, (-1, e)) ->
  Socket.accept k s (o :: options) = (k2, Error (Errno e)).
Proof.
  intros Ha Hd Ho. unfold Socket.accept. rewrite Ha, (proj2 (Z.eqb_neq (-1) d)) by congruence. cbn [Socket.set_options]. by rewrite Ho.
Qed.

(** ** A concrete kernel

    What each stream has taken and handed out, and what the next calls will
    return: how many bytes to take, the bytes to hand out, or an [errno]. *)
Record ex_kernel := Kernel { ek_wire : Z -> list Z; ek_heard : Z -> list Z; ek_next : list (list Z + Z) }.

Definition ek_add (f : Z -> list Z) (d : Z) (bs : list Z) : Z -> list Z := fun x => if x =? d then f d ++ bs else f x.

Definition ek_clip (n : Z) (bs : list Z) : list Z := ztake (Z.min n (2 ^ 31 - 1)) bs.

#[export] Instance ex_socket_api : socket_api ex_kernel := {|
  sys_sendmsg k d bs :=
    match ek_next k with
    | inr e :: l => (Kernel (ek_wire k) (ek_heard k) l, (-1, e))
    | inl a :: l => let sent := ek_clip (zlen a) bs in (Kernel (ek_add (ek_wire k) d sent) (ek_heard k) l, (zlen sent, 0))
    | [] => (k, (-1, EAGAIN))
    end;
  sys_recvmsg k d room :=
    match ek_next k with
    | inr e :: l => (Kernel (ek_wire k) (ek_heard k) l, [], (-1, e))
    | inl a :: l => let got := ek_clip room a in (Kernel (ek_wire k) (ek_add (ek_heard k) d got) l, got, (zlen got, 0))
    | [] => (k, [], (-1, EAGAIN))
    end;
  sys_close k d := (k, (0, 0));
  sys_connect k d := (k, (-1, EINPROGRESS));
  sys_accept4 k d := (k, (d + 1, 0));
  sys_setsockopt k d o := (k, (-1, o))
|}.

Lemma ek_clip_len n bs : 0 <= n -> 0 <= zlen (ek_clip n bs) <= zlen bs /\ zlen (ek_clip n bs) <= n /\ zlen (ek_clip n bs) < 2 ^ 31.
Proof. intros Hn. pose proof (zlen_nonneg bs). unfold ek_clip. rewrite zlen_take by lia. lia. Qed.

Lemma ek_clip_take n bs : 0 <= n -> ztake (zlen (ek_clip n bs)) bs = ek_clip n bs.
Proof.
  intros Hn. unfold ek_clip. set (i := Z.min n (2 ^ 31 - 1)). assert (0 <= i) by (subst i; lia). rewrite zlen_take by done.
  destruct (Z.le_ge_cases i (zlen bs)); [by rewrite Z.min_l|]. by rewrite Z.min_r, !ztake_ge by lia.
Qed.

#[export] Program Instance ex_socket_spec : socket_spec ex_kernel := {| wire := ek_wire; heard := ek_heard |}.
Next Obligation.
  intros k d bs k' ret errno E. cbn [sys_sendmsg ex_socket_api] in E.
  destruct (ek_next k) as [|[a|e] l]; injection E as <- <- <-; cbn [ek_heard ek_wire]; (split; [done|]); [split; [done|by left]| |split; [done|by left]].
  split; [intros d' Hd; unfold ek_add; by rewrite (proj2 (Z.eqb_neq d' d))|]. right.
  pose proof (ek_clip_len (zlen a) bs (zlen_nonneg a)) as (H1 & H2 & H3). split; [done|]. split; [done|].
  unfold ek_add. rewrite Z.eqb_refl. f_equal. symmetry. apply ek_clip_take. apply zlen_nonneg.
Qed.
Next Obligation.
  intros k d room k' bs ret errno Hr E. cbn [sys_recvmsg ex_socket_api] in E.
  destruct (ek_next k) as [|[a|e] l]; injection E as <- <- <- <-; cbn [ek_heard ek_wire]; (split; [done|]); [split; [done|by left]| |split; [done|by left]].
  split; [intros d' Hd; unfold ek_add; by rewrite (proj2 (Z.eqb_neq d' d))|]. right.
  pose proof (ek_clip_len room a Hr) as (H1 & H2 & H3). split; [lia|]. split; [done|]. split; [done|].
  unfold ek_add. by rewrite Z.eqb_refl.
Qed.

(** It takes five bytes, then has three. *)
Definition ex_kernel0 : ex_kernel := Kernel (fun _ => []) (fun _ => []) [inl [0; 0; 0; 0; 0]; inr EAGAIN].
Definition ex_kernel1 : ex_kernel := Kernel (fun _ => []) (fun _ => []) [inl [8; 9; 10]].

Lemma socket_write_sends_witness : exists k' h' b' r, Socket.write ex_kernel0 ex_buffer_mem ex_heap 3 ex_buffer = Ret (k', h', b', r).
Proof.
  destruct (socket_write_sends ex_kernel0 ex_buffer_mem ex_heap 3 ex_buffer []) as (k' & h' & b' & n & r & E & _).
  - apply ex_buffer_wf.
  - apply ex_buffer_guards.
  - vm_compute. reflexivity.
  - exists k', h', b', r. exact E.
Defined.

Lemma socket_read_appends_witness : exists k' m' b' r, Socket.read ex_kernel1 ex_buffer_mem 3 ex_buffer = Ret (k', m', b', r).
Proof.
  destruct (socket_read_appends ex_kernel1 ex_buffer_mem 3 ex_buffer) as (k' & m' & b' & r & bs & E & _).
  - apply ex_buffer_wf.
  - vm_compute. reflexivity.
  - unfold tail_private. cbn -[disjoint]. apply Forall_cons_2; [|apply Forall_cons_2; [|apply Forall_nil_2]]; right; right; right; vm_compute; discriminate.
  - vm_compute. reflexivity.
  - exists k', m', b', r. exact E.
Defined.
