(* ===== verification/Reactor.v ===== *)
(** * Reactor: events and their handlers (xi/core/event.h, src/core/epoll,
      src/core/event_handler.cpp, xi/core/reactor.h, xi/core/async_defer.h)

    A reactor owns its handlers, which are named by their addresses; each has an
    event once it is attached, and epoll is told the descriptor, the flags and
    the address.  epoll is a parameter: the class [epoll_api] has [epoll_ctl],
    [epoll_spec] the interest list its documentation speaks of.  What a handler
    does when it is called is a list of [action]s; a deferred call is posted to
    the shard and only runs if its handler still exists. *)
From S2P Require Import Prelude.

(** [enum event_state]. *)
Definition kNone : Z := 0.
Definition kRead : Z := 1.
Definition kWrite : Z := 2.
Definition kTimeout : Z := 4.
Definition kClose : Z := 8.
Definition kError : Z := 16.

Definition EPOLLIN : Z := 0x1.
Definition EPOLLOUT : Z := 0x4.
Definition EPOLLERR : Z := 0x8.
Definition EPOLLHUP : Z := 0x10.
Definition EPOLLRDHUP : Z := 0x2000.

Definition bit (x m : Z) : bool := negb (Z.land x m =? 0).

(** xi/core/epoll/detail/event_state_to_short.h *)
Definition event_state_to_short (state : Z) : Z :=
  let result := if bit state kRead then EPOLLIN else 0 in
  let result := if bit state kWrite then Z.lor result EPOLLOUT else result in
  Z.lor result EPOLLRDHUP.

Definition short_to_event_state (state : Z) : Z :=
  let result := if bit state EPOLLOUT then kWrite else kNone in
  let result := if bit state EPOLLIN then Z.lor result kRead else result in
  let result := if bit state EPOLLRDHUP then Z.lor result kClose else result in
  if bit state (Z.lor EPOLLHUP EPOLLERR) then Z.lor result kError else result.

Inductive ctl_op : Type := EPOLL_CTL_ADD | EPOLL_CTL_MOD | EPOLL_CTL_DEL.

(** [epoll_ctl(ep, op, fd, {flags, ptr})]: [None], or an [errno]. *)
Class epoll_api (E : Type) := { sys_epoll_ctl : E -> ctl_op -> Z -> Z -> Z -> E * option Z }.

Module Reactor.
Section reactor.
Context {E : Type} `{epoll_api E}.

(** [epoll::event]; the handler it belongs to is the one that holds it. *)
Record event := Event { ev_state : Z; ev_active : bool }.

(** [event_handler] and [io_handler]. *)
Record handler := Handler {
  descriptor : Z;
  expected_state : Z;
  h_event : option event;
  h_reactor : bool
}.

Definition handler_new (fd state : Z) : handler := Handler fd state None false.

(** The reactor with its event loop, and the addresses of the handlers whose
    cancellation was deferred. *)
Record reactor := Reactor { epoll : E; handlers : gmap Z handler; deferred : list Z }.

Definition with_epoll (e : E) (w : reactor) : reactor := Reactor e (handlers w) (deferred w).
Definition with_handlers (hs : gmap Z handler) (w : reactor) : reactor := Reactor (epoll w) hs (deferred w).
Definition with_deferred (l : list Z) (w : reactor) : reactor := Reactor (epoll w) (handlers w) l.
Definition with_event (ev : option event) (x : handler) : handler := Handler (descriptor x) (expected_state x) ev (h_reactor x).
Definition put (p : Z) (x : handler) (w : reactor) : reactor := with_handlers (<[p := x]> (handlers w)) w.


(** [epoll_ctl] of event_loop.cpp. *)
Definition epoll_ctl (w : reactor) (op : ctl_op) (fd flags ptr : Z) : reactor * outcome unit :=
  let '(e, err) := sys_epoll_ctl (epoll w) op fd flags ptr in
  (with_epoll e w, match err with None => Ret tt | Some code => Throw (system_error code) end).

Definition arm_event (w : reactor) (desc state h : Z) : reactor * outcome unit :=
  epoll_ctl w EPOLL_CTL_ADD desc (event_state_to_short state) h.
Definition mod_event (w : reactor) (desc state h : Z) : reactor * outcome unit :=
  epoll_ctl w EPOLL_CTL_MOD desc (event_state_to_short state) h.
Definition del_event (w : reactor) (desc : Z) : reactor * outcome unit := epoll_ctl w EPOLL_CTL_DEL desc 0 0.

(** ** [epoll::event], of handler [p] *)

Definition event_arm (w : reactor) (p : Z) : reactor * outcome unit :=
  match handlers w !! p with
  | Some x =>
      match h_event x with
      | Some ev =>
          let '(w, r) := arm_event w (descriptor x) (ev_state ev) p in
          (match r with Ret _ => put p (with_event (Some (Event (ev_state ev) true)) x) w | _ => w end, r)
      | None => (w, Undef)
      end
  | None => (w, Undef)
  end.

Definition event_cancel (w : reactor) (p : Z) : reactor * outcome unit :=
  match handlers w !! p with
  | Some x =>
      match h_event x with
      | Some ev =>
          let '(w, r) := del_event w (descriptor x) in
          (match r with Ret _ => put p (with_event (Some (Event (ev_state ev) false)) x) w | _ => w end, r)
      | None => (w, Undef)
      end
  | None => (w, Undef)
  end.

Definition change_state (w : reactor) (p : Z) (f : Z -> Z) : reactor * outcome unit :=
  match handlers w !! p with
  | Some x =>
      match h_event x with
      | Some ev =>
          let state := f (ev_state ev) in
          let w := put p (with_event (Some (Event state (ev_active ev))) x) w in
          mod_event w (descriptor x) state p
      | None => (w, Undef)
      end
  | None => (w, Undef)
  end.

Definition add_state (w : reactor) (p new_state : Z) : reactor * outcome unit :=
  change_state w p (fun s => Z.lor s new_state).
Definition remove_state (w : reactor) (p new_state : Z) : reactor * outcome unit :=
  change_state w p (fun s => Z.ldiff s new_state).

(** ** [event_handler] and [io_handler] *)

Definition expect_read (w : reactor) (p : Z) (flag : bool) : reactor * outcome unit :=
  if flag then add_state w p kRead else remove_state w p kRead.
Definition expect_write (w : reactor) (p : Z) (flag : bool) : reactor * outcome unit :=
  if flag then add_state w p kWrite else remove_state w p kWrite.

Definition is_active (x : handler) : bool := match h_event x with Some ev => ev_active ev | None => false end.

(** [cancel]; the deferred part is [release]. *)
Definition cancel (w : reactor) (p : Z) : reactor * outcome unit :=
  match handlers w !! p with
  | None => (w, Undef)
  | Some x =>
      if is_active x then
        let '(w, r) := event_cancel w p in
        (match r with Ret _ => with_deferred (deferred w ++ [p]) w | _ => w end, r)
      else (w, Ret tt)
  end.

(** The event is destroyed, the reactor drops its handler. *)
Definition release (w : reactor) (p : Z) : reactor :=
  match handlers w !! p with
  | None => w
  | Some x => if h_reactor x then with_handlers (delete p (handlers w)) w else put p (with_event None x) w
  end.

Definition run_deferred (w : reactor) : reactor :=
  match deferred w with [] => w | p :: l => release (with_deferred l w) p end.

(** [attach_handler] with [attach_reactor]: a handler that cannot be armed is
    dropped again. *)
Definition attach_handler (w : reactor) (p : Z) (x : handler) : reactor * outcome unit :=
  let w := put p (Handler (descriptor x) (expected_state x) (Some (Event (expected_state x) false)) true) w in
  let '(w, r) := event_arm w p in
  (match r with Ret _ => w | _ => with_handlers (delete p (handlers w)) w end, r).

(** ** Dispatching *)

(** What the virtual functions of a handler do with the reactor. *)
Inductive action : Type :=
  | ExpectRead (flag : bool)
  | ExpectWrite (flag : bool)
  | Cancel
  | Attach (p : Z) (x : handler).

Inductive callback : Type := handle_read | handle_write | handle_error | handle_close.

Definition do_action (w : reactor) (p : Z) (a : action) : reactor * outcome unit :=
  match a with
  | ExpectRead flag => expect_read w p flag
  | ExpectWrite flag => expect_write w p flag
  | Cancel => cancel w p
  | Attach q x => attach_handler w q x
  end.

Fixpoint do_actions (w : reactor) (p : Z) (l : list action) : reactor * outcome unit :=
  match l with
  | [] => (w, Ret tt)
  | a :: l =>
      let '(w, r) := do_action w p a in
      match r with Ret _ => do_actions w p l | _ => (w, r) end
  end.

(** [io_handler::handle]: the callbacks the state asks for. *)
Definition callbacks (state : Z) : list callback :=
  (if bit state kRead then [handle_read] else []) ++ (if bit state kWrite then [handle_write] else []) ++
  (if bit state kError then [handle_error] else []) ++ (if bit state kClose then [handle_close] else []).

Context (on : reactor -> Z -> callback -> list action).

Fixpoint do_callbacks (w : reactor) (p : Z) (cs : list callback) : reactor * outcome unit :=
  match cs with
  | [] => (w, Ret tt)
  | c :: cs =>
      let '(w, r) := do_actions w p (on w p c) in
      match r with Ret _ => do_callbacks w p cs | _ => (w, r) end
  end.

Definition handle (w : reactor) (p state : Z) : reactor * outcome unit :=
  match handlers w !! p with
  | None => (w, Undef)
  | Some _ => do_callbacks w p (callbacks state)
  end.

(** [event_callback] is [noexcept]: an exception ends the program. *)
Definition event_callback (w : reactor) (what arg : Z) : reactor * outcome unit :=
  if arg =? 0 then (w, Ret tt)
  else
    let '(w, r) := handle w arg (short_to_event_state what) in
    (w, match r with Throw _ => Abort | r => r end).

Fixpoint dispatch_loop (w : reactor) (evs : list (Z * Z)) : reactor * outcome unit :=
  match evs with
  | [] => (w, Ret tt)
  | (what, arg) :: evs =>
      let '(w, r) := event_callback w what arg in
      match r with Ret _ => dispatch_loop w evs | _ => (w, r) end
  end.

(** [n] is what [epoll_wait] returned, [evs] the events it stored; the
    [irange] from 0 to a negative number fails its assertion. *)
Definition dispatch_events (w : reactor) (n : Z) (evs : list (Z * Z)) : reactor * outcome unit :=
  if n <? 0 then (w, Abort) else dispatch_loop w evs.
End reactor.
Arguments reactor : clear implicits.
End Reactor.

(** ** What epoll promises *)
Class epoll_spec (E : Type) `{epoll_api E} := {
  interest : E -> gmap Z (Z * Z);
  ctl_add_ok e fd flags p e' : sys_epoll_ctl e EPOLL_CTL_ADD fd flags p = (e', None) ->
    interest e !! fd = None /\ interest e' = <[fd := (flags, p)]> (interest e);
  ctl_mod_ok e fd flags p e' : sys_epoll_ctl e EPOLL_CTL_MOD fd flags p = (e', None) ->
    is_Some (interest e !! fd) /\ interest e' = <[fd := (flags, p)]> (interest e);
  ctl_del_ok e fd flags p e' : sys_epoll_ctl e EPOLL_CTL_DEL fd flags p = (e', None) ->
    is_Some (interest e !! fd) /\ interest e' = delete fd (interest e);
  ctl_error e op fd flags p e' err : sys_epoll_ctl e op fd flags p = (e', Some err) -> interest e' = interest e
}.

(** ** The handlers epoll knows *)
Section facts.
Context {E : Type} `{epoll_spec E}.
Import Reactor.
Implicit Types (w : reactor E) (x : handler) (p fd : Z).

(** epoll reports live, active handlers only; every active handler is reported;
    a handler whose release is deferred is inactive. *)
Record reactor_ok w : Prop := {
  ok_live : forall fd fl p, interest (epoll w) !! fd = Some (fl, p) ->
    p <> 0 /\ exists x, handlers w !! p = Some x /\ descriptor x = fd /\ is_active x = true;
  ok_known : forall p x, handlers w !! p = Some x -> is_active x = true ->
    exists fl, interest (epoll w) !! descriptor x = Some (fl, p);
  ok_deferred : NoDup (deferred w) /\ forall p, p ∈ deferred w -> exists x, handlers w !! p = Some x /\ is_active x = false;
  ok_attached : forall p x, handlers w !! p = Some x -> h_reactor x = true /\ is_Some (h_event x);
  ok_fds : forall p q x y, handlers w !! p = Some x -> handlers w !! q = Some y -> descriptor x = descriptor y -> p = q
}.

(** No undefined behaviour, and the invariant whatever the outcome. *)
Definition sound w (r : reactor E * outcome unit) : Prop :=
  reactor_ok r.1 /\ r.2 <> Undef /\ (forall p, is_Some (handlers w !! p) -> is_Some (handlers r.1 !! p)).

(** A handler whose event changes, but not whether it is active. *)
Lemma put_ok w p x x' :
  reactor_ok w -> handlers w !! p = Some x -> descriptor x' = descriptor x -> is_active x' = is_active x ->
  h_reactor x' = true -> is_Some (h_event x') -> reactor_ok (put p x' w).
Proof.
  intros [H1 H2 [H3 H3'] H4 H5] Hx Hd Ha Hr Hev.
  assert (Hput : forall q y, <[p := x']> (handlers w) !! q = Some y -> exists z, handlers w !! q = Some z /\ descriptor y = descriptor z /\ is_active y = is_active z).
  { intros q y Hq. apply lookup_insert_Some in Hq as [[<- <-]|[Hne Hq]]; [by exists x|by exists y]. }
  assert (Hget : forall q z, handlers w !! q = Some z -> exists y, <[p := x']> (handlers w) !! q = Some y /\ descriptor y = descriptor z /\ is_active y = is_active z).
  { intros q z Hq. destruct (decide (q = p)) as [->|Hne]; [|exists z; by rewrite lookup_insert_ne].
    exists x'. rewrite lookup_insert_eq. rewrite Hx in Hq. by injection Hq as <-. }
  split; cbn [handlers epoll deferred put with_handlers].
  - intros fd fl q Hq. destruct (H1 _ _ _ Hq) as (Hq0 & z & Hz & Hdz & Haz). destruct (Hget q z Hz) as (y & Hy & E1 & E2).
    split; [done|]. exists y. split; [done|]. split; congruence.
  - intros q y Hq Hay. destruct (Hput q y Hq) as (z & Hz & -> & E2). apply H2; [done|congruence].
  - split; [done|]. intros q Hq. destruct (H3' q Hq) as (z & Hz & Haz). destruct (Hget q z Hz) as (y & Hy & _ & E2). exists y. split; [done|congruence].
  - intros q y Hq. apply lookup_insert_Some in Hq as [[<- <-]|[Hne Hq]]; [done|by apply (H4 q)].
  - intros q r y z Hq Hr' Hdd. destruct (Hput q y Hq) as (y0 & Hy0 & E1 & _), (Hput r z Hr') as (z0 & Hz0 & E2 & _).
    apply (H5 q r y0 z0); [done|done|congruence].
Qed.

Lemma epoll_same w e : reactor_ok w -> interest e = interest (epoll w) -> reactor_ok (with_epoll e w).
Proof. intros [H1 H2 H3 H4 H5] He. split; cbn; rewrite ?He; done. Qed.

Lemma mod_event_ok w p x : reactor_ok w -> handlers w !! p = Some x -> forall state,
  reactor_ok (mod_event w (descriptor x) state p).1 /\ (mod_event w (descriptor x) state p).2 <> Undef /\
  handlers (mod_event w (descriptor x) state p).1 = handlers w.
Proof.
  intros Hok Hx state. unfold mod_event, epoll_ctl. destruct (sys_epoll_ctl _ _ _ _ _) as [e [err|]] eqn:Ee; cbn [fst snd].
  - apply ctl_error in Ee. split; [by apply epoll_same|done].
  - apply ctl_mod_ok in Ee as [[[fl q] Hq] He]. split; [|done]. destruct Hok as [H1 H2 H3 H4 H5].
    destruct (H1 _ _ _ Hq) as (Hq0 & y & Hy & Hd & Ha). pose proof (H5 q p y x Hy Hx Hd) as ->.
    rewrite Hx in Hy. injection Hy as <-.
    split; cbn [epoll with_epoll handlers deferred]; rewrite ?He; [| |done|done|done].
    + intros fd fl' p' Hl. apply lookup_insert_Some in Hl as [[<- [= <- <-]]|[Hne Hl]]; [|by apply (H1 fd fl')].
      split; [done|]. by exists x.
    + intros q y Hy Hay. destruct (decide (descriptor y = descriptor x)) as [Hdd|Hdd].
      * rewrite Hdd, (H5 q p y x Hy Hx Hdd), lookup_insert_eq. by eexists.
      * rewrite lookup_insert_ne by congruence. by apply H2.
Qed.

Lemma change_state_ok w p f : reactor_ok w -> is_Some (handlers w !! p) -> sound w (change_state w p f).
Proof.
  intros Hok [x Hx]. unfold change_state. rewrite Hx. destruct (ok_attached w Hok p x Hx) as [Hr [ev Hev]]. rewrite Hev.
  set (x' := with_event (Some (Event (f (ev_state ev)) (ev_active ev))) x).
  assert (Hok' : reactor_ok (put p x' w)).
  { apply (put_ok w p x x'); [done|done|done| |done|by eexists]. unfold is_active. by rewrite Hev. }
  destruct (mod_event_ok (put p x' w) p x' Hok') with (state := f (ev_state ev)) as (H1 & H2 & H3); [cbn; by rewrite lookup_insert_eq|].
  change (descriptor x') with (descriptor x) in *. split; [done|]. split; [done|]. rewrite H3. intros q [y Hy]. cbn.
  destruct (decide (q = p)) as [->|]; [rewrite lookup_insert_eq; by eexists|rewrite lookup_insert_ne by done; by eexists].
Qed.

Lemma cancel_ok w p : reactor_ok w -> is_Some (handlers w !! p) -> sound w (cancel w p).
Proof.
  intros Hok [x Hx]. unfold cancel. rewrite Hx. destruct (is_active x) eqn:Ha; [|by split].
  unfold event_cancel. rewrite Hx. destruct (ok_attached w Hok p x Hx) as [Hr [ev Hev]]. rewrite Hev.
  unfold del_event, epoll_ctl. destruct (sys_epoll_ctl _ _ _ _ _) as [e [err|]] eqn:Ee; cbn [fst snd].
  - apply ctl_error in Ee. split; [by apply epoll_same|done].
  - apply ctl_del_ok in Ee as [_ He]. split; [|split; [done|]].
    + destruct Hok as [H1 H2 [H3 H3'] H4 H5]. cbn [fst].
      assert (Hp : p ∉ deferred w) by (intros Hin; destruct (H3' p Hin) as (y & Hy & Hya); congruence).
      set (x' := with_event (Some (Event (ev_state ev) false)) x).
      split; cbn [epoll handlers deferred put with_handlers with_deferred with_epoll]; rewrite ?He.
      * intros fd fl q Hq. apply lookup_delete_Some in Hq as [Hne Hq]. destruct (H1 _ _ _ Hq) as (Hq0 & y & Hy & Hd & Hya).
        split; [done|]. exists y. rewrite lookup_insert_ne by congruence. done.
      * intros q y Hq Hya. apply lookup_insert_Some in Hq as [[<- <-]|[Hne Hq]]; [done|]. rewrite lookup_delete_ne; [by apply H2|].
        intros Hdd. by apply Hne, (H5 p q x y).
      * split; [apply list.NoDup_app; split; [done|]; split; [|apply NoDup_singleton]; intros q Hq Hs; by apply list_elem_of_singleton in Hs as ->|].
        intros q [Hq|Hq]%elem_of_app; [|apply list_elem_of_singleton in Hq as ->; exists x'; by rewrite lookup_insert_eq].
        destruct (H3' q Hq) as (y & Hy & Hya). exists y. rewrite lookup_insert_ne; [done|]. by intros ->.
      * intros q y Hq. apply lookup_insert_Some in Hq as [[<- <-]|[Hne Hq]]; [by split|by apply (H4 q)].
      * intros q r y z Hq Hr' Hdd. apply lookup_insert_Some in Hq as [[<- <-]|[Hne Hq]]; apply lookup_insert_Some in Hr' as [[<- <-]|[Hne' Hr']]; [done| | |].
        -- by apply (H5 p r x z).
        -- by apply (H5 q p y x).
        -- by apply (H5 q r y z).
    + intros q Hq. cbn. destruct (decide (q = p)) as [->|]; [rewrite lookup_insert_eq; by eexists|by rewrite lookup_insert_ne].
Qed.

(** A new handler: an address and a descriptor no other handler has. *)
Definition fresh w p x : Prop :=
  p <> 0 /\ handlers w !! p = None /\ forall q y, handlers w !! q = Some y -> descriptor y <> descriptor x.

Lemma attach_handler_ok w p x : reactor_ok w -> fresh w p x -> sound w (attach_handler w p x).
Proof.
  intros Hok (Hp0 & Hp & Hfd). unfold attach_handler, event_arm, arm_event, epoll_ctl.
  set (x0 := Handler _ _ _ _). cbn [handlers put with_handlers]. rewrite lookup_insert_eq.
  cbn [h_event x0 descriptor ev_state epoll put with_handlers].
  destruct (sys_epoll_ctl _ _ _ _ _) as [e [err|]] eqn:Ee; cbn [fst snd].
  - apply ctl_error in Ee. cbn [handlers with_handlers with_epoll put]. rewrite delete_insert_id by done.
    split; [apply (epoll_same w e Hok Ee)|done].
  - apply ctl_add_ok in Ee as [Hn He]. split; [|split; [done|]]; cbn [fst].
    + destruct Hok as [H1 H2 [H3 H3'] H4 H5]. set (x1 := with_event _ x0).
      split; cbn [epoll handlers deferred put with_handlers with_epoll]; rewrite ?He, ?insert_insert_eq.
      * intros fd fl q Hq. apply lookup_insert_Some in Hq as [[<- [= <- <-]]|[Hne Hq]].
        { split; [done|]. exists x1. by rewrite lookup_insert_eq. }
        destruct (H1 _ _ _ Hq) as (Hq0 & y & Hy & Hd & Hya). split; [done|]. exists y. rewrite lookup_insert_ne by congruence. done.
      * intros q y Hq Hya. apply lookup_insert_Some in Hq as [[<- <-]|[Hne Hq]].
        { eexists. cbn [descriptor x1 with_event x0]. by rewrite lookup_insert_eq. }
        rewrite lookup_insert_ne; [by apply H2|]. intros Hdd. by apply (Hfd q y Hq).
      * split; [done|]. intros q Hq. destruct (H3' q Hq) as (y & Hy & Hya). exists y. rewrite lookup_insert_ne; [done|congruence].
      * intros q y Hq. apply lookup_insert_Some in Hq as [[<- <-]|[Hne Hq]]; [by split; [|eexists]|by apply (H4 q)].
      * intros q r y z Hq Hr' Hdd. apply lookup_insert_Some in Hq as [[<- <-]|[Hne Hq]]; apply lookup_insert_Some in Hr' as [[<- <-]|[Hne' Hr']]; [done| | |].
        -- exfalso. apply (Hfd r z Hr'). by rewrite <- Hdd.
        -- exfalso. apply (Hfd q y Hq). by rewrite Hdd.
        -- by apply (H5 q r y z).
    + intros q Hq. cbn. rewrite insert_insert_eq. destruct (decide (q = p)) as [->|]; [rewrite lookup_insert_eq; by eexists|by rewrite lookup_insert_ne].
Qed.

Lemma run_deferred_ok w : reactor_ok w -> reactor_ok (run_deferred w).
Proof.
  intros Hok. unfold run_deferred. destruct (deferred w) as [|p l] eqn:Ed; [done|].
  destruct Hok as [H1 H2 [H3 H3'] H4 H5]. rewrite Ed in H3, H3'. apply list.NoDup_cons in H3 as [Hpl H3].
  destruct (H3' p) as (x & Hx & Ha); [by left|]. destruct (H4 p x Hx) as [Hr _]. unfold release. cbn [handlers with_deferred].
  rewrite Hx, Hr. split; cbn [epoll handlers deferred with_handlers with_deferred].
  - intros fd fl q Hq. destruct (H1 _ _ _ Hq) as (Hq0 & y & Hy & Hd & Hya). split; [done|]. exists y. rewrite lookup_delete_ne; [done|]. intros ->. congruence.
  - intros q y [Hne Hq]%lookup_delete_Some. by apply H2.
  - split; [done|]. intros q Hq. destruct (H3' q) as (y & Hy & Hya); [by right|]. exists y. rewrite lookup_delete_ne; [done|]. by intros ->.
  - intros q y [Hne Hq]%lookup_delete_Some. by apply (H4 q).
  - intros q r y z [_ Hq]%lookup_delete_Some [_ Hr']%lookup_delete_Some. by apply H5.
Qed.

(** ** Dispatching *)

Definition legal_action w (a : action) : Prop := match a with Attach q x => fresh w q x | _ => True end.

Fixpoint legal_actions w p (l : list action) : Prop :=
  match l with
  | [] => True
  | a :: l => legal_action w a /\ forall w', do_action w p a = (w', Ret tt) -> legal_actions w' p l
  end.

Lemma do_action_ok w p a : reactor_ok w -> is_Some (handlers w !! p) -> legal_action w a -> sound w (do_action w p a).
Proof.
  intros Hok Hp Hl. destruct a as [[]|[]| |q x]; cbn [do_action expect_read expect_write]; try by apply change_state_ok.
  - by apply cancel_ok.
  - by apply attach_handler_ok.
Qed.

Lemma do_actions_ok p l : forall w, reactor_ok w -> is_Some (handlers w !! p) -> legal_actions w p l -> sound w (do_actions w p l).
Proof.
  induction l as [|a l IH]; intros w Hok Hp Hl; [by split|]. destruct Hl as [Ha Hl]. cbn [do_actions].
  destruct (do_action_ok w p a Hok Hp Ha) as (H1 & H2 & H3). destruct (do_action w p a) as [w1 [[]| | | |]] eqn:Er; try by split.
  cbn [fst snd] in *. destruct (IH w1 H1 (H3 p Hp) (Hl w1 eq_refl)) as (G1 & G2 & G3). split; [done|]. split; [done|].
  intros q Hq. by apply G3, H3.
Qed.

Context (on : reactor E -> Z -> callback -> list action).
Context (Hon : forall w p c, reactor_ok w -> is_Some (handlers w !! p) -> legal_actions w p (on w p c)).

Lemma do_callbacks_ok p cs : forall w, reactor_ok w -> is_Some (handlers w !! p) -> sound w (do_callbacks on w p cs).
Proof.
  induction cs as [|c cs IH]; intros w Hok Hp; [by split|]. cbn [do_callbacks].
  destruct (do_actions_ok p (on w p c) w Hok Hp (Hon w p c Hok Hp)) as (H1 & H2 & H3).
  destruct (do_actions w p (on w p c)) as [w1 [[]| | | |]]; try by split. cbn [fst snd] in *.
  destruct (IH w1 H1 (H3 p Hp)) as (G1 & G2 & G3). split; [done|]. split; [done|]. intros q Hq. by apply G3, H3.
Qed.

Lemma event_callback_ok w what p : reactor_ok w -> is_Some (handlers w !! p) -> sound w (event_callback on w what p).
Proof.
  intros Hok Hp. unfold event_callback. case_if; [by split|]. unfold handle. destruct Hp as [x Hx]. rewrite Hx.
  destruct (do_callbacks_ok p (callbacks (short_to_event_state what)) w Hok) as (H1 & H2 & H3); [by eexists|].
  destruct (do_callbacks on w p _) as [w1 [[]| | | |]]; by split.
Qed.

Lemma dispatch_loop_ok evs : forall w, reactor_ok w -> Forall (fun ev => is_Some (handlers w !! ev.2)) evs -> sound w (dispatch_loop on w evs).
Proof.
  induction evs as [|[what p] evs IH]; intros w Hok Hl; [by split|]. apply list.Forall_cons in Hl as [Hp Hl]. cbn [dispatch_loop].
  destruct (event_callback_ok w what p Hok Hp) as (H1 & H2 & H3).
  destruct (event_callback on w what p) as [w1 [[]| | | |]]; try by split. cbn [fst snd] in *.
  destruct (IH w1 H1) as (G1 & G2 & G3). { apply (list.Forall_impl _ _ _ Hl). intros ev. apply H3. }
  split; [done|]. split; [done|]. intros q Hq. by apply G3, H3.
Qed.

(** What [epoll_wait] may store: addresses of its interest list. *)
Definition legal_events w (evs : list (Z * Z)) : Prop :=
  Forall (fun ev => exists fd fl, interest (epoll w) !! fd = Some (fl, ev.2)) evs.

Lemma dispatch_ok w n evs : reactor_ok w -> legal_events w evs -> sound w (dispatch_events on w n evs).
Proof.
  intros Hok Hl. unfold dispatch_events. case_if; [by split|]. apply dispatch_loop_ok; [done|].
  apply (list.Forall_impl _ _ _ Hl). intros [what p] (fd & fl & Hi). destruct (ok_live w Hok _ _ _ Hi) as (_ & x & Hx & _). by eexists.
Qed.

(** ** Executions of a reactor *)
Inductive step : reactor E -> reactor E -> Prop :=
  | step_attach w p x w' r : fresh w p x -> attach_handler w p x = (w', r) -> step w w'
  | step_dispatch w n evs w' : legal_events w evs -> dispatch_events on w n evs = (w', Ret tt) -> step w w'
  | step_deferred w : step w (run_deferred w).

Lemma reactor_reachable_ok e w : interest e = ∅ -> rtc step (Reactor.Reactor e ∅ []) w -> reactor_ok w.
Proof.
  intros He Hs. assert (Hstart : reactor_ok (Reactor.Reactor e ∅ [])).
  { split; cbn; rewrite ?He; try done. split; [constructor|]. by intros p ?%elem_of_nil. }
  revert Hstart. induction Hs as [w|w w1 w2 Hs _ IH]; [done|]. intros Hok. apply IH. destruct Hs as [w p x w' r Hf Ea|w n evs w' Hl Ed|w].
  - destruct (attach_handler_ok w p x Hok Hf) as (H1 & _). by rewrite Ea in H1.
  - destruct (dispatch_ok w n evs Hok Hl) as (H1 & _). by rewrite Ed in H1.
  - by apply run_deferred_ok.
Qed.
End facts.

(** C25: A reactor only calls handlers that exist: in every execution, whatever
    the handlers do (expect more or less, cancel themselves, attach new ones), each
    address epoll can report is that of a live handler that waits on that
    descriptor, each active handler is known to epoll, and dispatching reported
    events never touches a handler that was destroyed. *)
Theorem reactor_reports_live_handlers {E : Type} `{epoll_spec E} (on : Reactor.reactor E -> Z -> Reactor.callback -> list Reactor.action)
    (e : E) (w : Reactor.reactor E) (n : Z) (evs : list (Z * Z)) :
  (forall w p c, reactor_ok w -> is_Some (Reactor.handlers w !! p) -> legal_actions w p (on w p c)) ->
  interest e = ∅ -> rtc (step on) (Reactor.Reactor e ∅ []) w -> legal_events w evs ->
  (forall fd fl p, interest (Reactor.epoll w) !! fd = Some (fl, p) ->
     exists x, Reactor.handlers w !! p = Some x /\ Reactor.descriptor x = fd /\ Reactor.is_active x = true) /\
  (forall p x, Reactor.handlers w !! p = Some x -> Reactor.is_active x = true ->
     exists fl, interest (Reactor.epoll w) !! Reactor.descriptor x = Some (fl, p)) /\
  (Reactor.dispatch_events on w n evs).2 <> Undef.
Proof.
  intros Hon He Hs Hl. pose proof (reactor_reachable_ok on Hon e w He Hs) as Hok. split; [|split].
  - intros fd fl p Hi. by destruct (ok_live w Hok fd fl p Hi) as [_ Hx].
  - apply (ok_known w Hok).
  - apply (dispatch_ok on Hon w n evs Hok Hl).
Qed.

(** A handler that waits for reading and writing is called for what it waits
    for, and always told when the peer closes. *)
Lemma event_states_roundtrip (s : Z) : 0 <= s < 4 -> short_to_event_state (event_state_to_short s) = Z.lor s kClose.
Proof. intros Hs. assert (s = 0 \/ s = 1 \/ s = 2 \/ s = 3) as [->|[->|[->| ->]]] by lia; reflexivity. Qed.

(** ** A concrete epoll *)
Definition ctl_list (m : gmap Z (Z * Z)) (op : ctl_op) (fd flags p : Z) : gmap Z (Z * Z) * option Z :=
  match op, m !! fd with
  | EPOLL_CTL_ADD, None | EPOLL_CTL_MOD, Some _ => (<[fd := (flags, p)]> m, None)
  | EPOLL_CTL_DEL, Some _ => (delete fd m, None)
  | EPOLL_CTL_ADD, Some _ => (m, Some 17)
  | _, None => (m, Some 2)
  end.

#[export] Instance list_epoll : epoll_api (gmap Z (Z * Z)) := {| sys_epoll_ctl := ctl_list |}.

#[export] Program Instance list_epoll_spec : epoll_spec (gmap Z (Z * Z)) := {| interest m := m |}.
Next Obligation. intros e fd flags p e' E. cbn in E. destruct (e !! fd) eqn:El; by simplify_eq. Qed.
Next Obligation. intros e fd flags p e' E. cbn in E. destruct (e !! fd) eqn:El; by simplify_eq. Qed.
Next Obligation. intros e fd flags p e' E. cbn in E. destruct (e !! fd) eqn:El; by simplify_eq. Qed.
Next Obligation. intros e op fd flags p e' err E. cbn in E. unfold ctl_list in E. destruct op, (e !! fd); by simplify_eq. Qed.

(** When it is readable the handler wants to write, when it is writable it goes. *)
Definition ex_on (w : Reactor.reactor (gmap Z (Z * Z))) (p : Z) (c : Reactor.callback) : list Reactor.action :=
  match c with
  | Reactor.handle_read => [Reactor.ExpectWrite true]
  | Reactor.handle_write => [Reactor.ExpectRead false; Reactor.Cancel]
  | _ => [Reactor.Cancel]
  end.

Lemma ex_on_legal w p c : legal_actions w p (ex_on w p c).
Proof. destruct c; repeat split. Qed.

Definition ex_reactor : Reactor.reactor (gmap Z (Z * Z)) :=
  (Reactor.attach_handler (Reactor.Reactor ∅ ∅ []) 64 (Reactor.handler_new 3 kRead)).1.

Lemma reactor_reports_live_handlers_witness :
  (Reactor.dispatch_events ex_on ex_reactor 1 [(Z.lor EPOLLIN EPOLLRDHUP, 64)]).2 <> Undef.
Proof.
  refine (proj2 (proj2 (reactor_reports_live_handlers ex_on ∅ ex_reactor 1 [(Z.lor EPOLLIN EPOLLRDHUP, 64)] _ _ _ _))).
  - intros w p c _ _. apply ex_on_legal.
  - reflexivity.
  - eapply rtc_l; [|apply rtc_refl]. apply (step_attach ex_on (Reactor.Reactor ∅ ∅ []) 64 (Reactor.handler_new 3 kRead) ex_reactor (Ret tt)); [|reflexivity].
    split; [discriminate|]. split; [reflexivity|]. intros q y Hq. discriminate Hq.
  - constructor; [|constructor]. exists 3. eexists. reflexivity.
Defined.
