(* ===== verification/Connection.v ===== *)
(** * Connection: a stream connection on a reactor (xi/io/net/async_channel.h)

    [client_pipe] and its [data_sink], over the sockets of Socket, the events of
    Reactor, the buffers and their allocators.  The [pipe] in front of the sink is
    reduced to what it is told: [forward_read] hands a message to the next filter,
    which may write or close at once; what it does is the parameter [react].
    Deferred calls are posted to the shard in order.  [trace] records what was
    forwarded and what was written to the pipe; no definition reads it. *)
From S2P Require Import Prelude Bytes Guard Blob Fragment Buffer Alloc Socket Reactor.

(** [own< buffer >] and [error_code] on their way up. *)
Inductive upward : Type :=
  | Data (b : buffer)
  | Failure (e : io_error).

(** What a filter does with the pipe. *)
Inductive reaction : Type :=
  | Write (b : buffer)
  | Close.

(** The deferred calls. *)
Inductive task : Type :=
  | read_data_later
  | write_data_later
  | close_later.

Inductive record : Type :=
  | Forwarded (bs : list Z)
  | Failed (e : io_error)
  | Written (bs : list Z).

Module Connection.
Section connection.
Context {K E St : Type} `{socket_api K} `{epoll_api E} `{fragment_allocator St}.

Record conn := Conn {
  kernel : K;
  memory : mem;
  guards : gheap;
  alloc : St;
  reactor : Reactor.reactor E;
  self : Z;
  sock : Socket.socket;
  write_buf : buffer;
  scheduled_write : bool;
  closing : bool;
  inline_writes : Z;
  posted : list task;
  trace : list record
}.

Definition with_socket (k : K) (m : mem) (h : gheap) (s : St) (c : conn) : conn :=
  Conn k m h s (reactor c) (self c) (sock c) (write_buf c) (scheduled_write c) (closing c) (inline_writes c) (posted c) (trace c).
Definition with_reactor (r : Reactor.reactor E) (c : conn) : conn :=
  Conn (kernel c) (memory c) (guards c) (alloc c) r (self c) (sock c) (write_buf c) (scheduled_write c) (closing c) (inline_writes c) (posted c) (trace c).
Definition with_write (b : buffer) (scheduled : bool) (inline : Z) (c : conn) : conn :=
  Conn (kernel c) (memory c) (guards c) (alloc c) (reactor c) (self c) (sock c) b scheduled (closing c) inline (posted c) (trace c).
Definition with_closing (b : bool) (c : conn) : conn :=
  Conn (kernel c) (memory c) (guards c) (alloc c) (reactor c) (self c) (sock c) (write_buf c) (scheduled_write c) b (inline_writes c) (posted c) (trace c).
Definition with_posted (l : list task) (c : conn) : conn :=
  Conn (kernel c) (memory c) (guards c) (alloc c) (reactor c) (self c) (sock c) (write_buf c) (scheduled_write c) (closing c) (inline_writes c) l (trace c).
Definition with_trace (l : list record) (c : conn) : conn :=
  Conn (kernel c) (memory c) (guards c) (alloc c) (reactor c) (self c) (sock c) (write_buf c) (scheduled_write c) (closing c) (inline_writes c) (posted c) l.

Definition defer (c : conn) (t : task) : conn := with_posted (posted c ++ [t]) c.
Definition record_in (c : conn) (x : record) : conn := with_trace (trace c ++ [x]) c.

(** [_pipe->close()]. *)
Definition close (c : conn) : conn := defer c close_later.

Definition on_reactor (f : Reactor.reactor E -> Z -> Reactor.reactor E * outcome unit) (c : conn) : outcome conn :=
  let '(r, res) := f (reactor c) (self c) in do _ <- res;; Ret (with_reactor r c).

Definition expect_read (c : conn) (flag : bool) : outcome conn := on_reactor (fun r p => Reactor.expect_read r p flag) c.
Definition expect_write (c : conn) (flag : bool) : outcome conn := on_reactor (fun r p => Reactor.expect_write r p flag) c.
Definition cancel (c : conn) : outcome conn := on_reactor Reactor.cancel c.

(** [_pipe->write_buffer(b)]. *)
Definition write_buffer (c : conn) (b : buffer) : outcome (conn * buffer * expected Z) :=
  do '(k, h, b, r) <- Socket.write (kernel c) (memory c) (guards c) (sock c) b;;
  Ret (with_socket k (memory c) h (alloc c) c, b, r).

Definition read_buffer (c : conn) (b : buffer) : outcome (conn * buffer * expected Z) :=
  do '(k, m, b, r) <- Socket.read (kernel c) (memory c) (sock c) b;;
  Ret (with_socket k m (guards c) (alloc c) c, b, r).

(** 100 MiB. *)
Definition slow_reader : Z := Z.shiftl 100 20.

Definition i16 (x : Z) : Z := let y := u16 x in if y <? 2 ^ 15 then y else y - 2 ^ 16.

(** [write(own< buffer >)]. *)
Definition write (c : conn) (b : buffer) : outcome conn :=
  let c := record_in c (Written (Buffer.bytes (memory c) b)) in
  let queue (c : conn) (b : buffer) : outcome conn :=
    let buf := Buffer.push_back_buffer (write_buf c) (Some b) in
    let c := with_write buf (scheduled_write c) (inline_writes c) c in
    if slow_reader <? Buffer.size buf then Ret (close c)
    else if negb (closing c) && negb (scheduled_write c) then
      let c := defer c write_data_later in Ret (with_write (write_buf c) true (inline_writes c) c)
    else Ret c in
  if negb (scheduled_write c) then
    let n := i16 (inline_writes c + 1) in
    let c := with_write (write_buf c) (scheduled_write c) n c in
    if n <? 1 then
      do '(c, b, _) <- write_buffer c b;;
      if Buffer.empty b then Ret c else queue c b
    else queue c b
  else queue c b.

Section react.
Context (react : conn -> upward -> list reaction).

Fixpoint do_reactions (c : conn) (l : list reaction) : outcome conn :=
  match l with
  | [] => Ret c
  | Write b :: l => do c <- write c b;; do_reactions c l
  | Close :: l => do_reactions (close c) l
  end.

(** [my_context()->forward_read(u)]. *)
Definition forward_read (c : conn) (u : upward) : outcome conn :=
  let c := record_in c (match u with Data b => Forwarded (Buffer.bytes (memory c) b) | Failure e => Failed e end) in
  do_reactions c (react c u).

(** The loop of [read_data]: the buffer, and whether to close. *)
Fixpoint read_loop (fuel : nat) (c : conn) (b : buffer) (loops : Z) (on_io : bool) : outcome (conn * buffer * bool) :=
  match fuel with
  | O => Diverge
  | S fuel =>
      if closing c then Ret (c, b, false)
      else
        do '(s, h, f) <- fa_allocate (alloc c) (guards c) (Z.shiftl 4 12);;
        let c := with_socket (kernel c) (memory c) h s c in
        do '(c, b, ret) <- read_buffer c (Buffer.push_back b (Some f));;
        match ret with
        | Error error =>
            if bool_decide (error = kRetry) then do c <- expect_read c true;; Ret (c, b, false)
            else if bool_decide (error <> kEOF) then do c <- forward_read c (Failure error);; Ret (c, b, true)
            else Ret (c, b, true)
        | Value _ =>
            if (2 =? loops) && on_io then Ret (defer c read_data_later, b, false)
            else read_loop fuel c b (u8 (loops + 1)) on_io
        end
  end.

Definition read_data (fuel : nat) (c : conn) (on_io : bool) : outcome conn :=
  do '(c, b, close_) <- read_loop fuel c Buffer.null 0 on_io;;
  do c <- (if Buffer.empty b then Ret c else forward_read c (Data b));;
  Ret (if (close_ : bool) then close c else c).

Definition write_data (c : conn) : outcome conn :=
  let c := with_write (write_buf c) false (inline_writes c) c in
  do '(c, close_) <-
    (if negb (closing c) && negb (Buffer.empty (write_buf c)) then
       do '(c, buf, ret) <- write_buffer c (write_buf c);;
       let c := with_write buf (scheduled_write c) (inline_writes c) c in
       match ret with
       | Error error =>
           if bool_decide (error = kRetry) then do c <- expect_write c true;; Ret (c, false)
           else do c <- (if bool_decide (error <> kEOF) then forward_read c (Failure error) else Ret c);; Ret (c, true)
       | Value _ => Ret (c, false)
       end
     else Ret (c, false));;
  let c := with_write (write_buf c) (scheduled_write c) 0 c in
  Ret (if (close_ : bool) then close c else c).

(** [read(socket_event)]. *)
Definition handle_readable (fuel : nat) (c : conn) : outcome conn := read_data fuel c true.

Definition handle_writable (c : conn) : outcome conn :=
  if Buffer.empty (write_buf c) then Ret c
  else
    do '(c, buf, _) <- write_buffer c (write_buf c);;
    let c := with_write buf (scheduled_write c) (inline_writes c) c in
    expect_write c (negb (Buffer.empty (write_buf c))).

(** [write(kClosing)]. *)
Definition write_closing (c : conn) : outcome conn := cancel (with_closing true c).

Definition run_task (fuel : nat) (c : conn) (t : task) : outcome conn :=
  match t with
  | read_data_later => read_data fuel c false
  | write_data_later => write_data c
  | close_later => write_closing c
  end.

(** The next posted task; the weak pointer of [defer] is empty once the reactor
    has dropped the connection. *)
Definition run_posted (fuel : nat) (c : conn) : outcome conn :=
  match posted c with
  | [] => Ret c
  | t :: l =>
      let c := with_posted l c in
      match Reactor.handlers (reactor c) !! self c with
      | None => Ret c
      | Some _ => run_task fuel c t
      end
  end.

(** [handle(state)] as [io_handler] and [socket_base] define it. *)
Definition on_callback (fuel : nat) (c : conn) (cb : Reactor.callback) : outcome conn :=
  match cb with
  | Reactor.handle_read => handle_readable fuel c
  | Reactor.handle_write => handle_writable c
  | Reactor.handle_error | Reactor.handle_close => Ret (close c)
  end.

Fixpoint handle (fuel : nat) (c : conn) (cbs : list Reactor.callback) : outcome conn :=
  match cbs with
  | [] => Ret c
  | cb :: cbs => do c <- on_callback fuel c cb;; handle fuel c cbs
  end.
End react.
End connection.
Arguments conn : clear implicits.
End Connection.

(** ** What is asked of the allocator

    Besides the contract of Alloc: memory that was handed out is not handed out
    again, and what the allocator needs to know of the heap is which objects are
    owned or were freed. *)
Class connection_allocator (St : Type) `{fragment_allocator_spec St} := {
  ca_handed : St -> Z -> Prop;
  ca_separate s h sz s' h' f : fa_allocate s h sz = Ret (s', h', f) ->
    (forall a, ca_handed s a -> ca_handed s' a) /\
    (forall a, bb_bytes (fr_bytes f) <= a < bb_bytes (fr_bytes f) + bb_size (fr_bytes f) -> ca_handed s' a /\ ~ ca_handed s a);
  ca_stable s h live h' live' :
    fa_inv s h live -> pending h' live' ++ frees h' ≡ₚ pending h live ++ frees h -> fa_inv s h' live'
}.

Section facts.
Context {K E St : Type} {SA : socket_api K} {SS : socket_spec K} {EA : epoll_api E} {ES : epoll_spec E}
  {FA : fragment_allocator St} {FS : fragment_allocator_spec St} {CA : connection_allocator St}.
Import Connection.
Implicit Types (c : conn K E St) (live : list guard) (b : buffer) (m : mem).

(** The blob lies in memory that was handed out. *)
Definition handed_out (s : St) (x : byte_blob) : Prop :=
  forall a, bb_bytes x <= a < bb_bytes x + bb_size x -> ca_handed s a.

Definition blobs b : list byte_blob := fr_bytes <$> bf_frags b.
Definition buffer_out (s : St) b : Prop := Forall (handed_out s) (blobs b).

(** The bytes the stream has taken and those that wait to be sent; what was
    written to the pipe; what was passed on to the next filter. *)
Definition stream c : list Z := wire (kernel c) (sock c) ++ Buffer.bytes (memory c) (write_buf c).

Definition written (l : list record) : list Z := l ≫= (fun x => match x with Written bs => bs | _ => [] end).
Definition received (l : list record) : list Z := l ≫= (fun x => match x with Forwarded bs => bs | _ => [] end).

(** [b] is the connection's, next to what [live] guards. *)
Record owns c b live : Prop := {
  ow_wf : Buffer.wf b;
  ow_guards : guards_ok (guards c) (Buffer.guards b ++ live);
  ow_alloc : fa_inv (alloc c) (guards c) (Buffer.guards b ++ live);
  ow_out : buffer_out (alloc c) b;
  ow_size : bf_size b < 2 ^ 31
}.

Definition conn_ok c live : Prop := owns c (write_buf c) live /\ 0 <= inline_writes c.

(** The reactor is in order and knows the connection. *)
Definition attached c : Prop := reactor_ok (reactor c) /\ is_Some (Reactor.handlers (reactor c) !! self c).

(** A call that passes no data up: memory and what was heard stay, and what was
    written to the pipe since is behind what the stream had. *)
Definition quiet c c' : Prop :=
  sock c' = sock c /\ self c' = self c /\ memory c' = memory c /\ alloc c' = alloc c /\
  heard (kernel c') = heard (kernel c) /\ (attached c -> attached c') /\
  exists l, trace c' = trace c ++ l /\ received l = [] /\ stream c' = stream c ++ written l.

(** Only a failing [epoll_ctl] throws; [spin] says when a call may go on for ever. *)
Definition leads {A : Type} (spin : Prop) (P : A -> Prop) (o : outcome A) : Prop :=
  match o with Ret a => P a | Throw (system_error _) => True | Diverge => spin | _ => False end.

Lemma leads_bind {A B : Type} (spin : Prop) (P : A -> Prop) (Q : B -> Prop) (o : outcome A) (f : A -> outcome B) :
  leads spin P o -> (forall a, P a -> leads spin Q (f a)) -> leads spin Q (bindO o f).
Proof. destruct o; cbn; auto. Qed.

Lemma leads_impl {A : Type} (spin spin' : Prop) (P Q : A -> Prop) (o : outcome A) :
  leads spin P o -> (spin -> spin') -> (forall a, P a -> Q a) -> leads spin' Q o.
Proof. destruct o; cbn; auto. Qed.

Lemma written_app l k : written (l ++ k) = written l ++ written k.
Proof. apply bind_app. Qed.
Lemma received_app l k : received (l ++ k) = received l ++ received k.
Proof. apply bind_app. Qed.

Lemma quiet_refl c : quiet c c.
Proof. do 6 (split; [done|]). exists []. by rewrite !app_nil_r. Qed.

Lemma quiet_trans c c1 c2 : quiet c c1 -> quiet c1 c2 -> quiet c c2.
Proof.
  intros (A1 & A2 & A3 & A4 & A5 & A6 & l1 & T1 & F1 & S1) (B1 & B2 & B3 & B4 & B5 & B6 & l2 & T2 & F2 & S2).
  do 5 (split; [congruence|]). split; [auto|].
  exists (l1 ++ l2). by rewrite T2, T1, S2, S1, received_app, written_app, F1, F2, !app_assoc.
Qed.

(** Only fields that no statement reads differ. *)
Lemma quiet_same c c' : sock c' = sock c -> self c' = self c -> memory c' = memory c -> alloc c' = alloc c ->
  kernel c' = kernel c -> reactor c' = reactor c -> trace c' = trace c -> write_buf c' = write_buf c -> quiet c c'.
Proof.
  intros A1 A2 A3 A4 A5 A6 A7 A8. do 4 (split; [done|]). split; [by rewrite A5|]. split; [unfold attached; by rewrite A2, A6|].
  exists []. unfold stream. by rewrite A1, A3, A5, A7, A8, !app_nil_r.
Qed.

(** Fragments used up are taken off the front. *)
Lemma skip_blobs h b sz h' b' : Buffer.wf b -> 0 <= sz < 2 ^ 64 ->
  Buffer.skip_bytes h b sz true = Ret (h', b') -> blobs b' `suffix_of` blobs b.
Proof.
  intros [Hf _ _] Hsz E'. unfold Buffer.skip_bytes in E'. destruct (Buffer.empty b); [by injection E' as _ <-|].
  destruct (skip_offset_spec (bf_frags b) sz Hf Hsz) as (pre & suf & o & E1 & El & Eo & Hr & _). rewrite E1 in E'.
  unfold blobs. rewrite El, fmap_app. destruct suf as [|it rest]; cbn [bindO] in E'.
  - apply bindO_ret in E' as (h1 & _ & E'). injection E' as _ <-. cbn. by exists (fr_bytes <$> pre).
  - rewrite El in Hf. apply Forall_app in Hf as [_ Hit]. apply Forall_cons_iff in Hit as [Hit _].
    destruct (fr_skip_ok ∅ h it o Hit ltac:(lia)) as (it' & Es & _ & _ & Eb & _). rewrite Es in E'. cbn [bindO] in E'.
    destruct (Fragment.empty it'); cbn [bindO] in E'; apply bindO_ret in E' as (h1 & _ & E'); injection E' as _ <-; cbn [bf_frags].
    + exists ((fr_bytes <$> pre) ++ [fr_bytes it]). rewrite <- app_assoc. done.
    + exists (fr_bytes <$> pre). rewrite !fmap_cons. by rewrite Eb.
Qed.

Lemma write_loop_blobs m s fuel : forall k h b ret k' h' b' r live,
  Buffer.wf b -> guards_ok h (Buffer.guards b ++ live) ->
  Socket.write_loop fuel k m h s b ret = Ret (k', h', b', r) -> blobs b' `suffix_of` blobs b.
Proof.
  induction fuel as [|fuel IH]; intros k h b ret k' h' b' r live Hb Hok E'; [done|]. cbn [Socket.write_loop] in E'.
  rewrite fill_readable_ok in E' by (done || unfold IovecAdapter.IOV_MAX; lia). cbn [bindO] in E'.
  destruct (write_iov_ok k m s (ztake IovecAdapter.IOV_MAX (data_ranges (bf_frags b)))) as (k1 & r1 & Ew & Hr). rewrite Ew in E'.
  destruct r1 as [n|e]; [|injection E' as _ _ <- _; done]. destruct Hr as (Hn & Hn31 & _).
  rewrite u64_id in E' by (unfold_pow2; lia).
  destruct (buffer_skip_ok m h b n true live Hb Hok ltac:(unfold_pow2; lia)) as (h1 & b1 & Es & Hb1 & _ & Hok1 & _).
  rewrite Es in E'. cbn [bindO] in E'. pose proof (skip_blobs h b n h1 b1 Hb ltac:(unfold_pow2; lia) Es) as Hs.
  destruct (2 ^ 31 <=? ret + n); [done|]. destruct (IovecAdapter.IOV_MAX =? _).
  - etrans; [eapply (IH k1 h1 b1); [done|exact Hok1|exact E']|done].
  - by injection E' as _ _ <- _.
Qed.

Lemma write_blobs k m h s b k' h' b' r live : Buffer.wf b -> guards_ok h (Buffer.guards b ++ live) ->
  Socket.write k m h s b = Ret (k', h', b', r) -> blobs b' `suffix_of` blobs b.
Proof.
  intros Hb Hok E'. unfold Socket.write in E'. destruct (Buffer.size b =? 0); [by injection E' as _ _ <- _|]. by eapply write_loop_blobs.
Qed.

Lemma out_suffix s b b' : blobs b' `suffix_of` blobs b -> buffer_out s b -> buffer_out s b'.
Proof. unfold buffer_out. intros [k ->]. intros [_ Hb]%list.Forall_app. done. Qed.

(** ** Writing *)

Lemma owned_perm c b live live' : live ≡ₚ live' -> owns c b live -> owns c b live'.
Proof.
  intros Hp [H1 H2 H3 H4 H5]. split; [done| | |done|done].
  - by apply (guards_ok_perm _ (Buffer.guards b ++ live)); [rewrite Hp|].
  - apply (ca_stable _ _ _ _ _ H3). unfold pending, owned. by rewrite Hp.
Qed.

Lemma write_buffer_ok c b live : owns c b live ->
  exists k' h' b' r, write_buffer c b = Ret (with_socket k' (memory c) h' (alloc c) c, b', r) /\
    owns (with_socket k' (memory c) h' (alloc c) c) b' live /\ heard k' = heard (kernel c) /\
    wire k' (sock c) ++ Buffer.bytes (memory c) b' = wire (kernel c) (sock c) ++ Buffer.bytes (memory c) b.
Proof.
  intros [Hb Hg Ha Ho Hs]. unfold write_buffer.
  assert (exists k' h' b' n r, Socket.write (kernel c) (memory c) (guards c) (sock c) b = Ret (k', h', b', r) /\
    sent_post (kernel c) (memory c) (guards c) (sock c) b live k' h' b' n) as (k' & h' & b' & n & r & Ew & Hn & (Hh & _ & Hw) & Hd).
  { unfold Socket.write, Buffer.size. pose proof (buffer_size_range b Hb). case_if.
    - do 5 eexists. split; [done|]. apply sent_none; [done|done|apply only_wire_refl].
    - destruct (write_loop_ok (memory c) (sock c) live (S (Z.to_nat (bf_size b))) (kernel c) (guards c) b 0 Hb Hg) as (k' & h' & b' & n & r & Ew & Hp & _); [lia..|].
      by exists k', h', b', n, r. }
  rewrite Ew. cbn [bindO]. exists k', h', b', r. split; [done|]. pose proof Hd as (Hw' & Hbs & Hg' & Hp').
  split; [split; cbn [guards alloc with_socket]|split; [done|]].
  - done.
  - done.
  - by apply (ca_stable _ _ _ _ _ Ha).
  - apply (out_suffix _ b); [|done]. by eapply write_blobs.
  - rewrite (drop_post_size _ _ _ _ _ _ _ Hb Hn Hd). lia.
  - by rewrite Hw, Hbs, <- app_assoc, ztake_zdrop.
Qed.

Lemma push_back_buffer_ok m p q : Buffer.wf p -> Buffer.wf q -> bf_size p + bf_size q < 2 ^ 31 ->
  let b := Buffer.push_back_buffer p (Some q) in
  Buffer.wf b /\ Buffer.bytes m b = Buffer.bytes m p ++ Buffer.bytes m q /\ Buffer.guards b = Buffer.guards p ++ Buffer.guards q /\
  blobs b = blobs p ++ blobs q /\ bf_size b = bf_size p + bf_size q.
Proof.
  intros Hp Hq Hs b. destruct (push_back_buffer_wf m p q Hp Hq) as (H1 & H2 & H3 & H4); [unfold_pow2; lia|].
  split_and!; try done. unfold b, blobs, Buffer.push_back_buffer. cbn [bf_frags]. by rewrite fmap_app.
Qed.

(** [write] of a buffer the filter owned: order is kept as long as the count of
    inline writes has not wrapped around. *)
Definition legal_write c b : Prop :=
  Buffer.wf b /\ buffer_out (alloc c) b /\ bf_size (write_buf c) + bf_size b < 2 ^ 31 /\
  (scheduled_write c = true \/ inline_writes c < 2 ^ 15 - 1).

Lemma i16_id x : 0 <= x < 2 ^ 15 -> i16 x = x.
Proof. intros Hx. unfold i16. rewrite u16_id by (unfold_pow2; lia). by rewrite (proj2 (Z.ltb_lt _ _)) by lia. Qed.

(** The parts of the state [owns] speaks of. *)
Lemma owns_same c c' b live : guards c' = guards c -> alloc c' = alloc c -> owns c b live -> owns c' b live.
Proof. intros Hg Ha [H1 H2 H3 H4 H5]. split; by rewrite ?Hg, ?Ha. Qed.

Lemma conn_same c c' live : guards c' = guards c -> alloc c' = alloc c -> write_buf c' = write_buf c ->
  inline_writes c' = inline_writes c -> conn_ok c live -> conn_ok c' live.
Proof. intros Hg Ha Hw Hi [H1 H2]. split; [rewrite Hw; by apply (owns_same c)|by rewrite Hi]. Qed.

Lemma write_ok c b live : conn_ok c (Buffer.guards b ++ live) -> legal_write c b ->
  exists c', write c b = Ret c' /\ conn_ok c' live /\ quiet c c' /\ reactor c' = reactor c /\ kernel c' = kernel c.
Proof.
  intros [[C1 C2 C3 C4 C5] C6] (Hb & Hout & Hsz & Hin). unfold write.
  destruct (push_back_buffer_ok (memory c) (write_buf c) b C1 Hb Hsz) as (W1 & W2 & W3 & W4 & W5).
  set (buf := Buffer.push_back_buffer (write_buf c) (Some b)) in *. set (c0 := record_in c _).
  assert (Hq : forall n, 0 <= n -> exists c',
    (let c := with_write buf (scheduled_write c) n c0 in
     if slow_reader <? Buffer.size buf then Ret (close c)
     else if negb (closing c) && negb (scheduled_write c) then
       let c := defer c write_data_later in Ret (with_write (write_buf c) true (inline_writes c) c)
     else Ret c) = Ret c' /\ conn_ok c' live /\ quiet c c' /\ reactor c' = reactor c /\ kernel c' = kernel c).
  { intros n Hn. cbn zeta. set (c1 := with_write buf (scheduled_write c) n c0).
    assert (Hok : conn_ok c1 live).
    { split; [split|done]; cbn [write_buf guards alloc c1 with_write c0 record_in with_trace];
        [done|by rewrite W3, <- app_assoc|by rewrite W3, <- app_assoc|unfold buffer_out; rewrite W4; by apply list.Forall_app|lia]. }
    assert (Hq : quiet c c1).
    { do 6 (split; [done|]). eexists. split; [reflexivity|]. split; [done|].
      unfold stream. cbn [kernel sock memory write_buf c1 with_write c0 record_in with_trace]. rewrite W2. cbn. by rewrite app_nil_r, app_assoc. }
    repeat case_match; (eexists; split; [reflexivity|]; split; [by apply (conn_same c1)|split; [|done]]);
      (apply (quiet_trans c c1); [done|by apply quiet_same]). }
  destruct (scheduled_write c) eqn:Esch; cbn [negb].
  - assert (scheduled_write c0 = true) as -> by exact Esch. exact (Hq (inline_writes c) C6).
  - assert (scheduled_write c0 = false) as -> by exact Esch. cbn [negb inline_writes c0 record_in with_trace].
    destruct Hin as [|Hin]; [congruence|]. rewrite i16_id by lia. rewrite (proj2 (Z.ltb_ge _ _)) by lia. exact (Hq (inline_writes c + 1) ltac:(lia)).
Qed.

(** ** The reactor's part *)

(** What a call on the reactor can do. *)
Definition reactor_call (r : Reactor.reactor E * outcome unit) : Prop :=
  match r.2 with Ret _ | Undef | Throw (system_error _) => True | _ => False end.

Lemma change_state_call w p f : reactor_call (Reactor.change_state w p f).
Proof.
  unfold Reactor.change_state, Reactor.mod_event, Reactor.epoll_ctl. repeat case_match; cbn; try done.
  all: by repeat match goal with H : (_, _) = (_, _) |- _ => injection H as <- <- end.
Qed.

Lemma cancel_call w p : reactor_call (Reactor.cancel w p).
Proof.
  unfold Reactor.cancel, Reactor.event_cancel, Reactor.del_event, Reactor.epoll_ctl.
  repeat (case_match; simplify_eq/=); done.
Qed.

Lemma on_reactor_ok f c live : attached c -> conn_ok c live ->
  sound (reactor c) (f (reactor c) (self c)) -> reactor_call (f (reactor c) (self c)) ->
  leads False (fun c' => attached c' /\ conn_ok c' live /\ quiet c c') (on_reactor f c).
Proof.
  intros [Ha1 Ha2] Hc (H1 & H2 & H3) H4. unfold on_reactor. destruct (f (reactor c) (self c)) as [r res]. cbn [fst snd] in *.
  destruct res as [u| |x| |]; [|done|by destruct x|done..].
  split; [by split; [|apply H3]|]. split; [by apply (conn_same c)|].
  do 5 (split; [done|]). split; [intros _; split; [done|by apply H3]|]. exists []. by rewrite !app_nil_r.
Qed.

Lemma expect_write_ok c flag live : attached c -> conn_ok c live ->
  leads False (fun c' => attached c' /\ conn_ok c' live /\ quiet c c') (expect_write c flag).
Proof.
  intros Ha Hc. apply on_reactor_ok; [done|done| |].
  all: destruct Ha; unfold Reactor.expect_write, Reactor.add_state, Reactor.remove_state; case_match; first [by apply change_state_ok|apply change_state_call].
Qed.

Lemma expect_read_ok c flag live : attached c -> conn_ok c live ->
  leads False (fun c' => attached c' /\ conn_ok c' live /\ quiet c c') (expect_read c flag).
Proof.
  intros Ha Hc. apply on_reactor_ok; [done|done| |].
  all: destruct Ha; unfold Reactor.expect_read, Reactor.add_state, Reactor.remove_state; case_match; first [by apply change_state_ok|apply change_state_call].
Qed.

Lemma write_closing_ok c live : attached c -> conn_ok c live ->
  leads False (fun c' => attached c' /\ conn_ok c' live /\ quiet c c') (write_closing c).
Proof.
  intros Ha Hc. eapply leads_impl; [apply (on_reactor_ok _ (with_closing true c) live)|done|].
  - exact Ha.
  - by apply (conn_same c).
  - destruct Ha. by apply cancel_ok.
  - apply cancel_call.
  - intros c' (H1 & H2 & H3). split; [done|]. split; [done|]. apply (quiet_trans c (with_closing true c)); [by apply quiet_same|done].
Qed.

Lemma close_ok c live : conn_ok c live -> conn_ok (close c) live /\ quiet c (close c).
Proof. intros Hc. split; [by apply (conn_same c)|by apply quiet_same]. Qed.

(** ** The next filter *)

(** [live] guards what the next filter holds. *)
Fixpoint legal_reactions c live (l : list reaction) : Prop :=
  match l with
  | [] => True
  | Write b :: l => legal_write c b /\ exists live', live ≡ₚ Buffer.guards b ++ live' /\ forall c', write c b = Ret c' -> legal_reactions c' live' l
  | Close :: l => legal_reactions (close c) live l
  end.

(** What the filter is handed becomes its own. *)
Definition offered c (u : upward) live : Prop :=
  match u with
  | Data b => Buffer.wf b /\ buffer_out (alloc c) b /\ exists live', live ≡ₚ Buffer.guards b ++ live'
  | Failure _ => True
  end.

Definition legal_react (react : conn K E St -> upward -> list reaction) : Prop :=
  forall c u live frame, conn_ok c (live ++ frame) -> offered c u live -> legal_reactions c live (react c u).

Lemma conn_ok_perm c live live' : live ≡ₚ live' -> conn_ok c live -> conn_ok c live'.
Proof. intros Hp [H1 H2]. split; [by apply (owned_perm c _ live)|done]. Qed.

Lemma do_reactions_ok l : forall c live frame, conn_ok c (live ++ frame) -> legal_reactions c live l ->
  exists c' live', do_reactions c l = Ret c' /\ conn_ok c' (live' ++ frame) /\ quiet c c'.
Proof.
  induction l as [|[b|] l IH]; intros c live frame Hc Hl; cbn [do_reactions legal_reactions] in *.
  - exists c, live. split; [done|]. split; [done|apply quiet_refl].
  - destruct Hl as (Hw & live' & Hp & Hl). destruct (write_ok c b (live' ++ frame)) as (c1 & E1 & Hc1 & Hq1 & _); [|done|].
    { apply (conn_ok_perm _ (live ++ frame)); [by rewrite Hp, app_assoc|done]. }
    rewrite E1. cbn [bindO]. destruct (IH c1 live' frame Hc1 (Hl c1 E1)) as (c2 & live2 & E2 & Hc2 & Hq2).
    exists c2, live2. split; [done|]. split; [done|by apply (quiet_trans c c1)].
  - destruct (close_ok c _ Hc) as [Hc1 Hq1]. destruct (IH (close c) live frame Hc1 Hl) as (c2 & live2 & E2 & Hc2 & Hq2).
    exists c2, live2. split; [done|]. split; [done|by apply (quiet_trans c (close c))].
Qed.

Context (react : conn K E St -> upward -> list reaction) (Hreact : legal_react react).

Lemma forward_failure_ok c e live frame : conn_ok c (live ++ frame) ->
  exists c' live', forward_read react c (Failure e) = Ret c' /\ conn_ok c' (live' ++ frame) /\ quiet c c'.
Proof.
  intros Hc. unfold forward_read. set (c0 := record_in c _). assert (Hc0 : conn_ok c0 (live ++ frame)) by by apply (conn_same c).
  destruct (do_reactions_ok (react c0 (Failure e)) c0 live frame Hc0) as (c' & live' & E' & Hc' & Hq); [by eapply Hreact|].
  exists c', live'. split; [done|]. split; [done|]. apply (quiet_trans c c0); [|done].
  do 6 (split; [done|]). eexists. split; [reflexivity|]. split; [done|]. cbn. by rewrite app_nil_r.
Qed.

(** ** Sending what waits *)

Lemma write_rest_ok c live : conn_ok c live ->
  exists c' b' r, write_buffer c (write_buf c) = Ret (c', b', r) /\
    let c1 := with_write b' (scheduled_write c') (inline_writes c') c' in conn_ok c1 live /\ quiet c c1.
Proof.
  intros [Hc Hi]. destruct (write_buffer_ok c (write_buf c) live Hc) as (k' & h' & b' & r & E1 & [O1 O2 O3 O4 O5] & Hh & Hw).
  eexists _, b', r. split; [exact E1|]. split; [by split|]. do 4 (split; [done|]). split; [done|]. split; [done|].
  exists []. split; [by rewrite app_nil_r|]. split; [done|]. rewrite app_nil_r. exact Hw.
Qed.

(** A task or a callback that passes no data up. *)
Definition calm c (o : outcome (conn K E St)) : Prop :=
  leads False (fun c' => attached c' /\ quiet c c' /\ exists live', conn_ok c' live') o.

Lemma handle_writable_ok c live : attached c -> conn_ok c live -> calm c (handle_writable c).
Proof.
  intros Ha Hc. unfold calm, handle_writable. destruct (Buffer.empty _).
  - split; [done|]. split; [apply quiet_refl|by exists live].
  - destruct (write_rest_ok c live Hc) as (c1 & b1 & r & -> & Hc1 & Hq1). cbn [bindO].
    eapply leads_impl; [apply (expect_write_ok _ _ live)|done|].
    + by apply Hq1.
    + exact Hc1.
    + intros c' (H1 & H2 & H3). split; [done|]. split; [by eapply quiet_trans|by exists live].
Qed.

Lemma write_data_end c c' live (close_ : bool) : attached c' -> quiet c c' -> conn_ok c' live ->
  calm c (let c := with_write (write_buf c') (scheduled_write c') 0 c' in Ret (if close_ then close c else c)).
Proof.
  intros Ha Hq [Hc Hi]. set (c1 := with_write _ _ 0 c').
  assert (Hc1 : conn_ok c1 live) by (split; [by apply (owns_same c')|done]).
  assert (Hq1 : quiet c c1) by (apply (quiet_trans c c'); [done|by apply quiet_same]).
  destruct close_; cbn.
  - destruct (close_ok c1 live Hc1) as [H1 H2]. split; [done|]. split; [by apply (quiet_trans c c1)|by exists live].
  - split; [done|]. split; [done|by exists live].
Qed.

Lemma write_data_ok c live : attached c -> conn_ok c live -> calm c (write_data react c).
Proof.
  intros Ha Hc. unfold write_data. set (c0 := with_write _ false _ c).
  assert (Hc0 : conn_ok c0 live) by by apply (conn_same c).
  assert (Hq0 : quiet c c0) by by apply quiet_same.
  apply (leads_bind False (fun '(c', _) => attached c' /\ quiet c c' /\ exists live', conn_ok c' live')).
  2:{ intros [c' b] (H1 & H2 & live' & H3). by eapply write_data_end. }
  destruct (negb (closing c0) && _); [|by split; [|split; [|exists live]]].
  destruct (write_rest_ok c0 live Hc0) as (c1 & b1 & r & -> & Hc1 & Hq1). cbn [bindO].
  set (c2 := with_write b1 _ _ c1) in *. assert (Hq2 : quiet c c2) by by apply (quiet_trans c c0).
  assert (Ha2 : attached c2) by by apply Hq2.
  destruct r as [n|e]; [by split; [|split; [|exists live]]|]. case_bool_decide.
  - eapply leads_bind; [by apply (expect_write_ok c2 true live)|]. intros c3 (H1 & H2 & H3).
    split; [done|]. split; [by apply (quiet_trans c c2)|by exists live].
  - case_bool_decide; cbn [bindO].
    + destruct (forward_failure_ok c2 e live []) as (c3 & live3 & -> & H2 & H3); [by rewrite app_nil_r|]. cbn [bindO].
      rewrite app_nil_r in H2. split; [by apply H3|]. split; [by apply (quiet_trans c c2)|by exists live3].
    + by split; [|split; [|exists live]].
Qed.

(** ** Reading *)

Lemma handed_more s s' b : (forall a, ca_handed s a -> ca_handed s' a) -> buffer_out s b -> buffer_out s' b.
Proof. intros Hm. intros Ho. apply (list.Forall_impl _ _ _ Ho). intros x Hx a Ha. by apply Hm, Hx. Qed.

(** A new fragment shares no byte with memory handed out before. *)
Lemma fresh_disjoint s s' f b n : Fragment.wf f -> Buffer.wf b -> buffer_out s b -> n <= Fragment.tailroom f ->
  (forall a, bb_bytes (fr_bytes f) <= a < bb_bytes (fr_bytes f) + bb_size (fr_bytes f) -> ca_handed s' a /\ ~ ca_handed s a) ->
  Forall (fun g => disjoint (Fragment.tail f) n (fr_head g) (fr_size g)) (bf_frags b).
Proof.
  intros Hf [Hb _ _] Ho Hn Hs. rewrite (fr_tailroom f Hf) in Hn. unfold buffer_out, blobs in Ho. rewrite list.Forall_fmap in Ho.
  rewrite list.Forall_forall in Ho |- *. rewrite Forall_forall in Hb. intros g Hg. specialize (Ho g Hg). cbn in Ho.
  apply list_elem_of_In in Hg. specialize (Hb g Hg). destruct Hf as [_ F1 F2 F3 _], Hb as [_ G1 G2 G3 _].
  unfold disjoint, Fragment.tail in *. destruct (Z.le_gt_cases n 0); [by left|]. destruct (Z.le_gt_cases (fr_size g) 0); [by right; left|].
  destruct (Z.le_gt_cases (fr_head f + fr_size f + n) (fr_head g)); [by right; right; left|].
  destruct (Z.le_gt_cases (fr_head g + fr_size g) (fr_head f + fr_size f)); [by right; right; right|]. exfalso.
  set (x := Z.max (fr_head f + fr_size f) (fr_head g)). destruct (Hs x) as [_ Hx]; [lia|]. apply Hx, Ho. lia.
Qed.

Lemma store_outside m b a bs : Forall (fun g => disjoint a (zlen bs) (fr_head g) (fr_size g)) (bf_frags b) ->
  Buffer.bytes (store m a bs) b = Buffer.bytes m b.
Proof.
  intros Hd. rewrite !buffer_bytes_cat. apply cat_ext. apply Forall_forall. intros g Hg. apply list_elem_of_In in Hg.
  unfold Fragment.bytes. apply load_store_out. by apply (proj1 (list.Forall_forall _ _) Hd).
Qed.

Lemma push_back_new m b f : Buffer.wf b -> Fragment.wf f -> fr_size f = 0 ->
  let q := Buffer.push_back b (Some f) in
  Buffer.wf q /\ Buffer.bytes m q = Buffer.bytes m b /\ Buffer.guards q = Buffer.guards b ++ [Fragment.guard f] /\
  blobs q = blobs b ++ [fr_bytes f] /\ bf_size q = bf_size b /\ list.last (bf_frags q) = Some f.
Proof.
  intros Hb Hf Hs q. pose proof (buffer_size_range b Hb). destruct Hb as [P1 P2 P3].
  unfold q, Buffer.push_back, Buffer.guards, blobs, Fragment.size. cbn [bf_frags bf_size]. rewrite u64_id by (unfold_pow2; lia).
  split; [split; cbn [bf_frags bf_size]; [apply Forall_app; by auto|rewrite zsum_app; cbn; lia|lia]|].
  split; [rewrite !buffer_bytes_cat; cbn [bf_frags]; rewrite cat_app, cat_cons; unfold Fragment.bytes; rewrite Hs; cbn; by rewrite !app_nil_r|].
  rewrite !fmap_app. do 2 (split; [done|]). split; [lia|apply last_snoc].
Qed.

(** [read_data] holds [b] and has to pass it on; [live] guards the rest. *)
Record holding c b live : Prop := {
  ho_conn : conn_ok c (Buffer.guards b ++ live);
  ho_wf : Buffer.wf b;
  ho_out : buffer_out (alloc c) b
}.

(** What was written is what was sent or waits; what was heard was passed on,
    but for [held]. *)
Definition accounts c (held : list Z) : Prop :=
  stream c = written (trace c) /\ heard (kernel c) (sock c) = received (trace c) ++ held.

Lemma quiet_accounts c c' held : quiet c c' -> accounts c held -> accounts c' held.
Proof.
  intros (Q1 & Q2 & Q3 & Q4 & Q5 & Q6 & l & T & R & S) [A1 A2]. unfold accounts.
  rewrite S, A1, T, Q1, Q5, A2, written_app, received_app, R, app_nil_r. done.
Qed.

(** Pulling one more fragment in. *)
Lemma read_once c b live : holding c b live -> accounts c (Buffer.bytes (memory c) b) -> bf_size b < 2 ^ 62 ->
  exists s h f, fa_allocate (alloc c) (guards c) (Z.shiftl 4 12) = Ret (s, h, f) /\
  exists c' b' r, read_buffer (with_socket (kernel c) (memory c) h s c) (Buffer.push_back b (Some f)) = Ret (c', b', r) /\
    holding c' b' live /\ accounts c' (Buffer.bytes (memory c') b') /\ reactor c' = reactor c /\ self c' = self c /\
    bf_size b' < bf_size b + 2 ^ 31 /\ match r with Value _ => bf_size b < bf_size b' | Error _ => bf_size b' = bf_size b end.
Proof.
  intros [[Hc Hi] Hb Ho] [A1 A2] Hsz. destruct Hc as [W1 W2 W3 W4 W5].
  destruct (fa_allocate_ok (alloc c) (guards c) (Buffer.guards (write_buf c) ++ Buffer.guards b ++ live) (Z.shiftl 4 12) W3 W2 ltac:(vm_compute; done))
    as (s & h & f & Ea & Hf & Fs & Fh & Ft & Hg & Hinv).
  exists s, h, f. split; [done|]. destruct (ca_separate _ _ _ _ _ _ Ea) as [Hm Hs].
  destruct (push_back_new (memory c) b f Hb Hf Fs) as (P1 & P2 & P3 & P4 & P5 & P6). set (q := Buffer.push_back b (Some f)) in *.
  unfold read_buffer. cbn [with_socket kernel memory sock guards alloc].
  assert (Htr : Buffer.tailroom q = Fragment.tailroom f) by (unfold Buffer.tailroom; by rewrite P6).
  assert (Z.shiftl 4 12 = 16384) as E4 by done. rewrite E4 in Ft. assert (Hfrom : 0 < Buffer.tailroom q) by lia.
  assert (Hpriv : tail_private q).
  { unfold tail_private. rewrite P6. unfold q, Buffer.push_back. cbn [bf_frags]. apply list.Forall_app. split.
    - by apply (fresh_disjoint (alloc c) s).
    - constructor; [|constructor]. right; left. lia. }
  destruct (socket_read_ok (kernel c) (memory c) (sock c) q P1 Hfrom Hpriv ltac:(lia)) as
    (k' & m' & b' & r & bs & E1 & (Hw & _ & Hh) & R1 & R2 & R3 & R4 & f' & R5 & R6 & R7 & R8 & R9).
  rewrite P6 in R5. injection R5 as <-. rewrite E1. cbn [bindO]. eexists _, b', r. split; [done|].
  assert (Hzl : bf_size b' = bf_size b + zlen bs) by (rewrite <- (zlen_buffer m' b'), R3, zlen_app, zlen_buffer by done; lia).
  assert (Hkeep : Buffer.bytes m' (write_buf c) = Buffer.bytes (memory c) (write_buf c)).
  { rewrite R6. apply store_outside. by apply (fresh_disjoint (alloc c) s). }
  assert (Hperm : Buffer.guards (write_buf c) ++ Buffer.guards b' ++ live ≡ₚ Fragment.guard f :: Buffer.guards (write_buf c) ++ Buffer.guards b ++ live).
  { rewrite R2, P3. solve_Permutation. }
  split; [|split; [|split; [done|split; [done|split; [lia|]]]]].
  - split; [split; [split|]|..]; cbn [write_buf guards alloc with_socket inline_writes]; try done.
    + by eapply guards_ok_perm.
    + apply (ca_stable _ _ _ _ _ Hinv). unfold pending, owned. by rewrite Hperm.
    + by apply (handed_more (alloc c)).
    + unfold buffer_out, blobs. rewrite R9. fold (blobs q). rewrite P4. apply list.Forall_app. split; [by apply (handed_more (alloc c))|].
      constructor; [|constructor]. intros a Ha. by apply Hs.
  - unfold accounts, stream. cbn [kernel sock memory write_buf trace with_socket]. rewrite Hw, Hkeep, Hh, A2, R3, P2, app_assoc. by split.
  - destruct r; [lia|]. destruct R4 as [-> _]. rewrite (zlen_nil (A := Z)) in Hzl. lia.
Qed.

(** Driven by an event the loop ends after three rounds. *)
Definition spins (fuel : nat) (loops : Z) (on_io : bool) : Prop := on_io = true -> loops <= 2 -> Z.of_nat fuel + loops < 3.

Definition loop_post c b live : Prop :=
  attached c /\ Buffer.wf b /\ accounts c (Buffer.bytes (memory c) b) /\ exists live', holding c b live'.

Lemma read_error_ok c b e live : attached c -> holding c b live -> accounts c (Buffer.bytes (memory c) b) ->
  leads False (fun '(c', b', _) => loop_post c' b' live)
    (if bool_decide (e = kRetry) then do c <- expect_read c true;; Ret (c, b, false)
     else if bool_decide (e <> kEOF) then do c <- forward_read react c (Failure e);; Ret (c, b, true)
     else Ret (c, b, true)).
Proof.
  intros Ha [Hc Hb Ho] Hacc. case_bool_decide; [|case_bool_decide].
  - eapply leads_bind; [by apply (expect_read_ok c true)|]. intros c' (H1 & H2 & H3). pose proof H3 as (_ & _ & Hm & Hal & _).
    split; [done|]. split; [done|]. split; [rewrite Hm; by eapply quiet_accounts|]. exists live. split; [done|done|by rewrite Hal].
  - destruct (forward_failure_ok c e live (Buffer.guards b)) as (c' & live' & -> & H2 & H3).
    { apply (conn_ok_perm _ (Buffer.guards b ++ live)); [by rewrite Permutation_app_comm|done]. }
    cbn [bindO leads]. pose proof H3 as (_ & _ & Hm & Hal & _ & Hat & _). split; [auto|]. split; [done|].
    split; [rewrite Hm; by eapply quiet_accounts|]. exists live'. split; [|done|by rewrite Hal].
    apply (conn_ok_perm _ (live' ++ Buffer.guards b)); [by rewrite Permutation_app_comm|done].
  - split; [done|]. split; [done|]. split; [done|]. by exists live.
Qed.

Lemma read_rounds_ok fuel : forall c b loops on_io live, attached c -> holding c b live -> accounts c (Buffer.bytes (memory c) b) ->
  0 <= loops < 2 ^ 8 -> bf_size b + Z.of_nat fuel * 2 ^ 31 < 2 ^ 62 ->
  leads (spins fuel loops on_io) (fun '(c', b', _) => loop_post c' b' live) (read_loop react fuel c b loops on_io).
Proof.
  induction fuel as [|fuel IH]; intros c b loops on_io live Ha Hh Hacc Hl Hsz; [cbn; intros ? ?; lia|]. cbn [read_loop].
  destruct (closing c); [split; [done|]; split; [apply Hh|]; split; [done|by exists live]|].
  destruct (read_once c b live Hh Hacc ltac:(lia)) as (s & h & f & -> & c1 & b1 & r & E1 & Hh1 & Hacc1 & Hr & Hsf & Hs1 & _).
  cbn [bindO]. rewrite E1. cbn [bindO]. assert (Ha1 : attached c1) by (unfold attached; by rewrite Hr, Hsf).
  destruct r as [n|e].
  - destruct ((2 =? loops) && on_io) eqn:Eb.
    + assert (Hq : quiet c1 (defer c1 read_data_later)) by by apply quiet_same.
      split; [done|]. split; [apply Hh1|]. split; [by apply (quiet_accounts c1)|]. exists live. destruct Hh1 as [G1 G2 G3]. split; [by apply (conn_same c1)|done|done].
    + eapply leads_impl; [apply (IH c1 b1 (u8 (loops + 1)) on_io live)| |done]; [done|done|done|apply u8_range|lia|].
      unfold spins. intros Hsp Hio Hloops. rewrite Hio, andb_true_r in Eb. apply Z.eqb_neq in Eb.
      rewrite u8_id in Hsp by (unfold_pow2; lia). specialize (Hsp Hio). lia.
  - eapply leads_impl; [by apply (read_error_ok c1 b1 e live)|done|done].
Qed.

Lemma holding_null c live : conn_ok c live -> holding c Buffer.null live.
Proof. intros Hc. split; [done| |constructor]. split; [constructor|done|cbn; lia]. Qed.

(** What [read_data] promises: nothing that was heard is lost or swapped. *)
Definition balanced c : Prop := accounts c [] /\ exists live, conn_ok c live.

Lemma forward_data_ok c b live : attached c -> holding c b live -> accounts c (Buffer.bytes (memory c) b) ->
  exists c', forward_read react c (Data b) = Ret c' /\ attached c' /\ balanced c'.
Proof.
  intros Ha [Hc Hb Ho] [A1 A2]. unfold forward_read. set (c0 := record_in c _).
  assert (Hc0 : conn_ok c0 ((Buffer.guards b ++ live) ++ [])) by (rewrite app_nil_r; by apply (conn_same c)).
  destruct (do_reactions_ok (react c0 (Data b)) c0 (Buffer.guards b ++ live) [] Hc0) as (c' & live' & E' & Hc' & Hq).
  { apply (Hreact _ _ _ _ Hc0). split; [done|]. split; [done|by exists live]. }
  exists c'. split; [done|]. split; [by apply Hq|]. split; [|by exists (live' ++ [])].
  apply (quiet_accounts c0); [done|]. unfold accounts, stream. cbn [c0 kernel sock memory write_buf trace record_in with_trace].
  rewrite written_app, received_app. cbn. rewrite !app_nil_r. by split.
Qed.

Lemma read_data_ok fuel c on_io : attached c -> balanced c -> Z.of_nat fuel < 2 ^ 30 ->
  leads (spins fuel 0 on_io) (fun c' => attached c' /\ balanced c') (read_data react fuel c on_io).
Proof.
  intros Ha [Hacc [live Hc]] Hfuel. unfold read_data.
  eapply leads_bind; [apply (read_rounds_ok fuel c Buffer.null 0 on_io live); [done|by apply holding_null|done|lia|cbn; lia]|].
  intros [[c1 b1] cl] (Ha1 & Hb1 & Hacc1 & live1 & Hh1).
  apply (leads_bind _ (fun c2 => attached c2 /\ balanced c2)).
  - destruct (Buffer.empty b1) eqn:Ee.
    + split; [done|]. split; [|by exists (Buffer.guards b1 ++ live1); apply Hh1].
      unfold Buffer.empty in Ee. rewrite buffer_bytes_cat in Hacc1. destruct (bf_frags b1); [done|discriminate].
    + destruct (forward_data_ok c1 b1 live1 Ha1 Hh1 Hacc1) as (c2 & -> & H). done.
  - intros c2 [Ha2 [Hacc2 [live2 Hc2]]]. destruct cl; [|by split; [|split; [|exists live2]]].
    destruct (close_ok c2 live2 Hc2) as [H1 H2]. split; [done|]. split; [by apply (quiet_accounts c2)|by exists live2].
Qed.

(** ** Tasks and events *)

Lemma calm_balanced c o : balanced c -> calm c o -> leads False (fun c' => attached c' /\ balanced c') o.
Proof.
  intros [Hacc _] Hc. eapply leads_impl; [exact Hc|done|]. intros c' (H1 & H2 & H3).
  split; [done|]. split; [by apply (quiet_accounts c)|done].
Qed.

Lemma close_balanced c : balanced c -> balanced (close c).
Proof. intros [Hacc [live Hc]]. destruct (close_ok c live Hc) as [H1 H2]. split; [by apply (quiet_accounts c)|by exists live]. Qed.

Lemma posted_task_ok fuel c t : attached c -> balanced c -> Z.of_nat fuel < 2 ^ 30 ->
  leads True (fun c' => attached c' /\ balanced c') (run_task react fuel c t).
Proof.
  intros Ha Hb Hf. pose proof Hb as [_ [live Hc]]. destruct t; cbn [run_task].
  - eapply leads_impl; [by apply read_data_ok|done|done].
  - eapply leads_impl; [apply (calm_balanced c); [done|by apply (write_data_ok c live)]|done|done].
  - eapply leads_impl; [apply (calm_balanced c); [done|]|done|done].
    eapply leads_impl; [by apply (write_closing_ok c live)|done|]. intros c' (H1 & H2 & H3). by split; [|split; [|exists live]].
Qed.

Lemma run_posted_ok fuel c : reactor_ok (reactor c) -> balanced c -> Z.of_nat fuel < 2 ^ 30 ->
  leads True (fun c' => reactor_ok (reactor c') /\ balanced c') (run_posted react fuel c).
Proof.
  intros Hr Hb Hf. unfold run_posted. destruct (posted c) as [|t l]; [done|]. set (c0 := with_posted l c).
  assert (Hb0 : balanced c0). { destruct Hb as [Hacc [live Hc]]. split; [done|]. exists live. by apply (conn_same c). }
  destruct (Reactor.handlers (reactor c0) !! self c0) eqn:El; [|done].
  eapply leads_impl; [apply posted_task_ok; [split; [done|by eexists]|done|done]|done|]. intros c' [[H1 _] H2]. done.
Qed.

Lemma on_callback_ok fuel c cb : attached c -> balanced c -> Z.of_nat fuel < 2 ^ 30 ->
  leads (Z.of_nat fuel < 3) (fun c' => attached c' /\ balanced c') (on_callback react fuel c cb).
Proof.
  intros Ha Hb Hf. destruct cb; cbn [on_callback].
  - eapply leads_impl; [by apply read_data_ok| |done]. intros Hs. specialize (Hs eq_refl). lia.
  - destruct Hb as [Hacc [live Hc]]. eapply leads_impl; [apply (calm_balanced c); [by split; [|exists live]|by apply (handle_writable_ok c live)]|done|done].
  - split; [done|by apply close_balanced].
  - split; [done|by apply close_balanced].
Qed.

Lemma handle_ok fuel cbs : forall c, attached c -> balanced c -> Z.of_nat fuel < 2 ^ 30 ->
  leads (Z.of_nat fuel < 3) (fun c' => attached c' /\ balanced c') (handle react fuel c cbs).
Proof.
  induction cbs as [|cb cbs IH]; intros c Ha Hb Hf; [done|]. cbn [handle].
  eapply leads_bind; [by apply on_callback_ok|]. intros c' [Ha' Hb']. by apply IH.
Qed.

(** ** Executions of a connection

    The filters write and close, the reactor calls back, the shard runs what was
    posted, the reactor drops what was cancelled, and the world goes on: it does
    not speak for the connection nor touch what waits. *)
Inductive step : conn K E St -> conn K E St -> Prop :=
  | step_write c b live c' : conn_ok c (Buffer.guards b ++ live) -> legal_write c b -> write c b = Ret c' -> step c c'
  | step_close c : step c (close c)
  | step_event fuel c cbs c' : Z.of_nat fuel < 2 ^ 30 -> is_Some (Reactor.handlers (reactor c) !! self c) ->
      handle react fuel c cbs = Ret c' -> step c c'
  | step_posted fuel c c' : Z.of_nat fuel < 2 ^ 30 -> run_posted react fuel c = Ret c' -> step c c'
  | step_deferred c : step c (with_reactor (Reactor.run_deferred (reactor c)) c)
  | step_world c k m h s live : wire k (sock c) = wire (kernel c) (sock c) -> heard k (sock c) = heard (kernel c) (sock c) ->
      Buffer.bytes m (write_buf c) = Buffer.bytes (memory c) (write_buf c) ->
      conn_ok (with_socket k m h s c) live -> step c (with_socket k m h s c).

Definition starts c : Prop :=
  reactor_ok (reactor c) /\ trace c = [] /\ stream c = [] /\ heard (kernel c) (sock c) = [] /\ exists live, conn_ok c live.

Lemma connection_step_ok c c' : step c c' -> reactor_ok (reactor c) -> balanced c -> reactor_ok (reactor c') /\ balanced c'.
Proof.
  intros Hs Hr Hb. destruct Hs as [c b live c' Hc Hl Ew|c|fuel c cbs c' Hf Hin Eh|fuel c c' Hf Ep|c|c k m h s live Hw Hh Hm Hc].
  - destruct (write_ok c b live Hc Hl) as (c1 & E1 & H1 & H2 & H3 & _). rewrite E1 in Ew. injection Ew as <-.
    rewrite H3. split; [done|]. destruct Hb as [Hacc _]. split; [by apply (quiet_accounts c)|by exists live].
  - split; [done|by apply close_balanced].
  - pose proof (handle_ok fuel cbs c (conj Hr Hin) Hb Hf) as H. rewrite Eh in H. destruct H as [[H1 _] H2]. done.
  - pose proof (run_posted_ok fuel c Hr Hb Hf) as H. by rewrite Ep in H.
  - split; [by apply run_deferred_ok|]. destruct Hb as [Hacc [live Hc]]. split; [done|]. exists live. by apply (conn_same c).
  - split; [done|]. destruct Hb as [[A1 A2] _]. split; [|by exists live]. unfold accounts, stream in *.
    cbn [kernel sock memory write_buf trace with_socket]. by rewrite Hw, Hh, Hm, A1, A2.
Qed.

Lemma reachable_balanced c0 c : starts c0 -> rtc step c0 c -> reactor_ok (reactor c) /\ balanced c.
Proof.
  intros (H1 & H2 & H3 & H4 & H5) Hs. assert (Hb : balanced c0) by (split; [unfold accounts; by rewrite H2, H3, H4|done]).
  clear H2 H3 H4 H5. revert H1 Hb. induction Hs as [c|c c1 c2 Hstep _ IH]; [done|]. intros Hr Hb.
  destruct (connection_step_ok c c1 Hstep Hr Hb) as [H1 H2]. by apply IH.
Qed.
End facts.

(** C1: A connection neither loses, repeats nor swaps bytes, in either direction:
    in every execution in which the filters own what they write and the count of
    inline writes does not wrap around, the bytes the stream has taken followed by
    those that wait are all bytes written to the pipe, in order; the bytes the
    stream gave are the bytes passed on to the next filter, in order.  An event is
    handled to its end, and while it and the posted tasks run no assertion fails and
    nothing undefined happens: only [epoll_ctl] may throw. *)
Theorem connection_transfers_in_order {K E St : Type} {SA : socket_api K} {SS : socket_spec K} {EA : epoll_api E} {ES : epoll_spec E}
    {FA : fragment_allocator St} {FS : fragment_allocator_spec St} {CA : connection_allocator St}
    (react : Connection.conn K E St -> upward -> list reaction) (c0 c : Connection.conn K E St) (fuel : nat) (cbs : list Reactor.callback) :
  legal_react react -> starts c0 -> rtc (step react) c0 c -> (3 <= fuel)%nat -> Z.of_nat fuel < 2 ^ 30 ->
  wire (Connection.kernel c) (Connection.sock c) ++ Buffer.bytes (Connection.memory c) (Connection.write_buf c) = written (Connection.trace c) /\
  heard (Connection.kernel c) (Connection.sock c) = received (Connection.trace c) /\
  (is_Some (Reactor.handlers (Connection.reactor c) !! Connection.self c) ->
   leads False (step react c) (Connection.handle react fuel c cbs)) /\
  leads True (step react c) (Connection.run_posted react fuel c).
Proof.
  intros Hreact Hst Hs H3 Hf. destruct (reachable_balanced react Hreact c0 c Hst Hs) as [Hr Hb]. pose proof Hb as [[A1 A2] _].
  rewrite app_nil_r in A2. split; [done|]. split; [done|]. split.
  - intros Hin. pose proof (handle_ok react Hreact fuel cbs c (conj Hr Hin) Hb Hf) as H.
    destruct (Connection.handle react fuel c cbs) eqn:Eh; cbn in *; [by eapply step_event|done..|lia].
  - pose proof (run_posted_ok react Hreact fuel c Hr Hb Hf) as H.
    destruct (Connection.run_posted react fuel c) eqn:Eh; cbn in *; [by eapply step_posted|done..].
Qed.

(** A short write stalls the connection: when [write_data] sends [n] bytes of
    more that wait, the rest stays in the write buffer, nothing is posted to send
    it and the reactor is not asked for [kWrite]; it waits for the next write. *)
Theorem connection_short_write_stalls {K E St : Type} {SA : socket_api K} {SS : socket_spec K} {EA : epoll_api E}
    {FA : fragment_allocator St} (react : Connection.conn K E St -> upward -> list reaction)
    (c : Connection.conn K E St) (live : list guard) (k' : K) (n errno : Z) :
  let b := Connection.write_buf c in
  Buffer.wf b -> guards_ok (Connection.guards c) (Buffer.guards b ++ live) -> bf_size b < 2 ^ 31 ->
  zlen (data_ranges (bf_frags b)) < IovecAdapter.IOV_MAX -> Connection.closing c = false -> 0 < n < bf_size b ->
  sys_sendmsg (Connection.kernel c) (Connection.sock c) (Buffer.bytes (Connection.memory c) b) = (k', (n, errno)) ->
  exists c', Connection.write_data react c = Ret c' /\
    Buffer.bytes (Connection.memory c') (Connection.write_buf c') = zdrop n (Buffer.bytes (Connection.memory c) b) /\
    Connection.posted c' = Connection.posted c /\ Connection.reactor c' = Connection.reactor c /\
    Connection.scheduled_write c' = false /\ Connection.trace c' = Connection.trace c.
Proof.
  intros b Hb Hok Hs Hv Hcl Hn Esend.
  destruct (write_short _ _ _ _ b live k' n errno Hb Hok Hs Hv Hn Esend) as (h1 & b1 & Ew & Hbs).
  unfold Connection.write_data. cbn [Connection.with_write Connection.closing Connection.write_buf]. fold b. rewrite Hcl.
  assert (Buffer.empty b = false) as ->. { unfold Buffer.empty. destruct Hb as [_ Hz _]. destruct (bf_frags b); [cbn in Hz; lia|done]. }
  unfold Connection.write_buffer. cbn [negb andb Connection.kernel Connection.memory Connection.guards Connection.sock Connection.with_write].
  rewrite Ew. cbn [bindO]. eexists. split; [reflexivity|]. done.
Qed.

(** ** The properties at concrete inputs *)

(** The addresses below the bump pointer were handed out. *)
#[export] Program Instance bump_connection_allocator :
    connection_allocator (H := simple_fragment_allocator) (H0 := simple_allocator_spec) Z := {| ca_handed c a := a < c |}.
Next Obligation.
  intros c h sz c' h' f E. cbn in E. unfold simple_allocate, simple_make_heap_byte_blob in E. cbn [malloc malloc_usable_size bump_heap] in E.
  unfold heap_blob in E. destruct (c =? 0) eqn:Ec.
  - apply bindO_ret in E as ([h1 f1] & E1 & E2). injection E2 as <- <- <-. unfold Fragment.make, Fragment.maybe_release, Blob.empty in E1.
    cbn -[Blob.move_assign] in E1. apply bindO_ret in E1 as ([h2 b2] & E2 & E3). injection E3 as <- <-. unfold Blob.move_assign in E2.
    apply bindO_ret in E2 as ([[h3 g] g'] & _ & E3). injection E3 as <- <-. cbn. split; intros a Ha; lia.
  - unfold Fragment.make in E. rewrite fr_release_nonempty in E by (cbn; lia). injection E as <- <- <-. cbn. split; intros a Ha; lia.
Qed.
Next Obligation. intros c h live h' live' [Hc Hp] E. split; [done|]. by rewrite E. Qed.

Abbreviation ex_conn_type := (Connection.conn ex_kernel (gmap Z (Z * Z)) Z).
#[local] Existing Instance simple_fragment_allocator.

(** An echo that closes when it cannot keep up. *)
Definition ex_echo (c : ex_conn_type) (u : upward) : list reaction :=
  match u with
  | Data b =>
      if (bf_size (Connection.write_buf c) + bf_size b <? 2 ^ 31) && (Connection.scheduled_write c || (Connection.inline_writes c <? 2 ^ 15 - 1))
      then [Write b] else [Close]
  | Failure _ => [Close]
  end.

Lemma ex_echo_legal : legal_react ex_echo.
Proof.
  intros c [b|e] live frame Hc Ho; [|done]. unfold ex_echo. destruct Ho as (H1 & H2 & live' & H3).
  destruct (_ && _) eqn:Eb; [|done]. apply andb_prop in Eb as [E1%Z.ltb_lt E2]. apply orb_prop in E2 as [E2|E2%Z.ltb_lt].
  - split; [split; [done|]; split; [done|]; split; [done|by left]|]. by exists live'.
  - split; [split; [done|]; split; [done|]; split; [done|by right]|]. by exists live'.
Qed.

(** Three bytes arrive, two of them can be sent back at once. *)
Definition ex_connection : ex_conn_type :=
  Connection.Conn (Kernel (fun _ => []) (fun _ => []) [inl [8; 9; 10]; inr EAGAIN; inl [0; 0]]) ∅ (mk_gheap ∅ 1 []) 1000
    ex_reactor 64 3 Buffer.null false false 0 [] [].

Definition ex_connection1 : ex_conn_type :=
  match Connection.handle ex_echo 3 ex_connection [Reactor.handle_read] with Ret c => c | _ => ex_connection end.

Lemma ex_reactor_ok : reactor_ok ex_reactor.
Proof.
  refine (reactor_reachable_ok ex_on _ ∅ ex_reactor eq_refl _); [intros; apply ex_on_legal|].
  eapply rtc_l; [|apply rtc_refl]. apply (step_attach ex_on (Reactor.Reactor ∅ ∅ []) 64 (Reactor.handler_new 3 kRead) ex_reactor (Ret tt)); [|reflexivity].
  split; [discriminate|]. split; [reflexivity|]. intros q y Hq. discriminate Hq.
Qed.

Lemma ex_connection_starts : starts ex_connection.
Proof.
  split; [apply ex_reactor_ok|]. do 3 (split; [done|]). exists []. split; [|done]. split; [split; [constructor|done|done]|apply guards_ok_start| |constructor|done].
  split; [done|]. vm_compute. constructor.
Qed.

Lemma ex_connection1_reached : rtc (step ex_echo) ex_connection ex_connection1.
Proof.
  eapply rtc_l; [|apply rtc_refl]. apply (step_event ex_echo 3 ex_connection [Reactor.handle_read]); [done| |].
  - exists (Reactor.Handler 3 kRead (Some (Reactor.Event kRead true)) true). reflexivity.
  - unfold ex_connection1. vm_compute. reflexivity.
Qed.

Lemma connection_transfers_in_order_witness :
  heard (Connection.kernel ex_connection1) 3 = received (Connection.trace ex_connection1) /\
  Buffer.bytes (Connection.memory ex_connection1) (Connection.write_buf ex_connection1) = [8; 9; 10].
Proof.
  split; [|vm_compute; reflexivity].
  refine (proj1 (proj2 (connection_transfers_in_order ex_echo ex_connection ex_connection1 3 [] ex_echo_legal ex_connection_starts ex_connection1_reached _ _))).
  - apply le_n.
  - vm_compute. reflexivity.
Defined.

Lemma connection_short_write_stalls_witness : exists c, Connection.write_data ex_echo ex_connection1 = Ret c /\
  Buffer.bytes (Connection.memory c) (Connection.write_buf c) = [10].
Proof.
  destruct (reachable_balanced ex_echo ex_echo_legal ex_connection ex_connection1 ex_connection_starts ex_connection1_reached)
    as (_ & _ & live & [[Hb Hg _ _ Hs] _]).
  destruct (connection_short_write_stalls ex_echo ex_connection1 live (sys_sendmsg (Connection.kernel ex_connection1) 3 [8; 9; 10]).1 2 0)
    as (c & E & Hbs & _).
  - exact Hb.
  - exact Hg.
  - exact Hs.
  - vm_compute. reflexivity.
  - vm_compute. reflexivity.
  - vm_compute. split; reflexivity.
  - vm_compute. reflexivity.
  - exists c. split; [exact E|]. rewrite Hbs. vm_compute. reflexivity.
Defined.
