(* ===== verification/Listener.v ===== *)
(** * Listener: the acceptor and connector pipes of xi/io/net/async_channel.h

    The reactors of all shards, each a reactor of Reactor, and what the pipes do
    with them: a connection that was accepted or connected is dispatched to the
    next shard in turn, which makes a client pipe and attaches it.  A client pipe
    is its address and its descriptor (its life is Connection's); what a pipe's
    filters are told is a list of [upcall]s.  Peers' addresses and the pipe
    factory are left out. *)
From S2P Require Import Prelude Socket Reactor.

(** [getsockopt(fd, SOL_SOCKET, SO_ERROR)]: the value, then [(ret, errno)]. *)
Class connect_api (K : Type) := { sys_getsockopt_error : K -> Z -> K * Z * (Z * Z) }.

(** The template arguments of a pipe, [kInet, kTCP] or [kUnix]; [acceptor_pipe] and
    [connector_pipe] of other arguments are other classes with other statics. *)
Inductive family : Type := kInet | kUnix.

(** Who waits for a client pipe: the acceptor, or the promise of [connect]. *)
Inductive origin : Type :=
  | FromAcceptor (af : family)
  | FromConnector (af : family).

#[export] Instance family_eq_dec : EqDecision family.
Proof. solve_decision. Defined.
#[export] Instance origin_eq_dec : EqDecision origin.
Proof. solve_decision. Defined.

Record job := Job { j_socket : Z; j_origin : origin }.

Inductive upcall : Type :=
  | Accepted (pipe : Z)
  | AcceptError (e : io_error)
  | AcceptException (e : exn)
  | Connected (pipe : Z).

Module Listener.
Section listener.
Context {K E : Type} `{socket_api K} `{connect_api K} `{epoll_api E}.

(** [inbound]: the jobs posted to other shards.  [pipes]: the client pipes that
    were attached, with their shard and descriptor.  [lost]: the jobs that threw,
    which the shard answers with a shutdown.  [posted]: what is deferred on the
    acceptor.  [run_on] holds the function-local statics of that name, one for each
    class of pipes.  [dispatched] is the log of all dispatches; no definition reads it. *)
Record world := World {
  kernel : K;
  reactors : list (Reactor.reactor E);
  inbound : list (nat * job);
  run_on : origin -> Z;
  next_pipe : Z;
  pipes : list (nat * Z * Z);
  lost : list (nat * Z);
  posted : list upcall;
  told : list upcall;
  dispatched : list (nat * job)
}.

Definition with_kernel (k : K) (w : world) : world :=
  World k (reactors w) (inbound w) (run_on w) (next_pipe w) (pipes w) (lost w) (posted w) (told w) (dispatched w).
Definition with_reactors (l : list (Reactor.reactor E)) (w : world) : world :=
  World (kernel w) l (inbound w) (run_on w) (next_pipe w) (pipes w) (lost w) (posted w) (told w) (dispatched w).
Definition with_inbound (l : list (nat * job)) (w : world) : world :=
  World (kernel w) (reactors w) l (run_on w) (next_pipe w) (pipes w) (lost w) (posted w) (told w) (dispatched w).
Definition with_turn (o : origin) (n : Z) (w : world) : world :=
  World (kernel w) (reactors w) (inbound w) (fun o' => if decide (o' = o) then n else run_on w o') (next_pipe w) (pipes w) (lost w) (posted w) (told w) (dispatched w).
Definition with_pipes (p : Z) (l : list (nat * Z * Z)) (w : world) : world :=
  World (kernel w) (reactors w) (inbound w) (run_on w) p l (lost w) (posted w) (told w) (dispatched w).
Definition with_lost (l : list (nat * Z)) (w : world) : world :=
  World (kernel w) (reactors w) (inbound w) (run_on w) (next_pipe w) (pipes w) l (posted w) (told w) (dispatched w).
Definition with_told (p t : list upcall) (w : world) : world :=
  World (kernel w) (reactors w) (inbound w) (run_on w) (next_pipe w) (pipes w) (lost w) p t (dispatched w).
Definition with_dispatched (l : list (nat * job)) (w : world) : world :=
  World (kernel w) (reactors w) (inbound w) (run_on w) (next_pipe w) (pipes w) (lost w) (posted w) (told w) l.

Definition on_shard (w : world) (k : nat) (f : Reactor.reactor E -> Reactor.reactor E * outcome unit) : world * outcome unit :=
  match reactors w !! k with
  | None => (w, Undef)
  | Some r => let '(r, res) := f r in (with_reactors (<[k := r]> (reactors w)) w, res)
  end.

Definition tell (w : world) (u : upcall) : world := with_told (posted w) (told w ++ [u]) w.

(** ** The job on its shard: [make< client_pipe >(s)], [attach_handler] *)
Definition run_job (w : world) (k : nat) (j : job) : world * outcome unit :=
  let p := next_pipe w in
  let w := with_pipes (p + 1) (pipes w) w in
  let '(w, res) := on_shard w k (fun r => Reactor.attach_handler r p (Reactor.handler_new (j_socket j) Reactor.kRead)) in
  match res with
  | Ret _ =>
      let w := with_pipes (next_pipe w) (pipes w ++ [(k, p, j_socket j)]) w in
      (match j_origin j with
       | FromAcceptor _ => with_told (posted w ++ [Accepted p]) (told w) w
       | FromConnector _ => tell w (Connected p)
       end, Ret tt)
  | Throw e => (with_kernel (Socket.destroy (kernel w) (j_socket j)) w, Throw e)
  | res => (w, res)
  end.

(** [catch (...) { _handle_exception(); }] around a job or a task. *)
Definition guarded (k : nat) (j : job) (r : world * outcome unit) : world * outcome unit :=
  match r with
  | (w, Throw _) => (with_lost (lost w ++ [(k, j_socket j)]) w, Ret tt)
  | r => r
  end.

(** [shard_at(k)->dispatch(job)] on the thread of shard [self]. *)
Definition dispatch (self : nat) (w : world) (k : nat) (j : job) : world * outcome unit :=
  let w := with_dispatched (dispatched w ++ [(k, j)]) w in
  if decide (k = self) then guarded k j (run_job w k j)
  else (with_inbound (inbound w ++ [(k, j)]) w, Ret tt).

(** The first job posted to shard [k]. *)
Fixpoint take_job (k : nat) (l : list (nat * job)) : option (job * list (nat * job)) :=
  match l with
  | [] => None
  | (k', j) :: l =>
      if decide (k' = k) then Some (j, l)
      else match take_job k l with Some (i, l) => Some (i, (k', j) :: l) | None => None end
  end.

Definition run_inbound (w : world) (k : nat) : world * outcome unit :=
  match take_job k (inbound w) with
  | None => (w, Ret tt)
  | Some (j, l) => guarded k j (run_job (with_inbound l w) k j)
  end.

(** [run_on = (run_on + 1) % cpus()]; [run_on] is a [u16].  It is not atomic: pipes of
    one class that are called back on several shards at the same time race for it;
    here a callback is one step. *)
Definition next_turn (w : world) (o : origin) : outcome Z :=
  if zlen (reactors w) =? 0 then Undef else Ret (u16 ((run_on w o + 1) mod zlen (reactors w))).

(** ** [acceptor_pipe] *)
Record acceptor := Acceptor { ac_family : family; ac_shard : nat; ac_addr : Z; ac_socket : Z; ac_options : list Z }.

Definition acceptor_close (w : world) (a : acceptor) : world * acceptor * outcome unit :=
  let '(w, res) := on_shard w (ac_shard a) (fun r => Reactor.cancel r (ac_addr a)) in
  match res with
  | Ret _ =>
      let '(k, s, _) := Socket.close (kernel w) (ac_socket a) in
      (with_kernel k w, Acceptor (ac_family a) (ac_shard a) (ac_addr a) s (ac_options a), Ret tt)
  | res => (w, a, res)
  end.

(** [handle_read]; when [expect_read] throws the new socket is destroyed, and a
    failing dispatch is read as an exception. *)
Definition acceptor_read (w : world) (a : acceptor) : world * outcome unit :=
  let '(k, client) := Socket.accept (kernel w) (ac_socket a) (ac_options a) in
  let w := with_kernel k w in
  match client with
  | Error e => (tell w (AcceptError e), Ret tt)
  | Value s =>
      let '(w, res) := on_shard w (ac_shard a) (fun r => Reactor.expect_read r (ac_addr a) true) in
      match res with
      | Ret _ =>
          let o := FromAcceptor (ac_family a) in
          match next_turn w o with
          | Ret n =>
              let '(w, res) := dispatch (ac_shard a) (with_turn o n w) (Z.to_nat n) (Job s o) in
              match res with
              | Throw e => (tell w (AcceptException e), Ret tt)
              | res => (w, res)
              end
          | _ => (w, Undef)
          end
      | res => (with_kernel (Socket.destroy (kernel w) s) w, res)
      end
  end.

Definition acceptor_callback (w : world) (a : acceptor) (cb : Reactor.callback) : world * acceptor * outcome unit :=
  match cb with
  | Reactor.handle_read => let '(w, res) := acceptor_read w a in (w, a, res)
  | Reactor.handle_write => (w, a, Ret tt)
  | Reactor.handle_error | Reactor.handle_close => acceptor_close w a
  end.

(** The deferred [this->read(mut_ch)]. *)
Definition run_posted (w : world) : world :=
  match posted w with [] => w | u :: l => with_told l (told w ++ [u]) w end.
End listener.
Arguments world : clear implicits.
End Listener.

(** ** [connecting_socket] and [connector_pipe::connect]

    [cs_resolved] logs the calls of [_future_descriptor.set]; [cs_waiting] says
    that [connect] returned its future, to which the continuation is attached. *)
Module Connecting.
Import Listener.
Section connecting.
Context {K E : Type} `{socket_api K} `{connect_api K} `{epoll_api E}.
Abbreviation world := (Listener.world K E).

Record connecting := Connecting {
  cs_family : family;
  cs_shard : nat;
  cs_addr : Z;
  cs_socket : Z;
  cs_waiting : bool;
  cs_resolved : list (expected Z)
}.

Definition with_socket (s : Z) (c : connecting) : connecting :=
  Connecting (cs_family c) (cs_shard c) (cs_addr c) s (cs_waiting c) (cs_resolved c).
Definition with_resolved (l : list (expected Z)) (c : connecting) : connecting :=
  Connecting (cs_family c) (cs_shard c) (cs_addr c) (cs_socket c) (cs_waiting c) l.

(** The continuation of [connector_pipe::connect]; an error is dropped. *)
Definition continue (af : family) (self : nat) (w : world) (r : expected Z) : world * outcome unit :=
  match r with
  | Error _ => (w, Ret tt)
  | Value s =>
      let o := FromConnector af in
      match next_turn w o with
      | Ret n => dispatch self (with_turn o n w) (Z.to_nat n) (Job s o)
      | _ => (w, Undef)
      end
  end.

(** [_future_descriptor.set(r)]. *)
Definition resolve (w : world) (c : connecting) (r : expected Z) : world * connecting * outcome unit :=
  let c' := with_resolved (cs_resolved c ++ [r]) c in
  if cs_waiting c then let '(w, res) := continue (cs_family c) (cs_shard c) w r in (w, c', res) else (w, c', Ret tt).

Definition cancel (w : world) (c : connecting) : world * outcome unit :=
  on_shard w (cs_shard c) (fun r => Reactor.cancel r (cs_addr c)).

Definition close (w : world) (c : connecting) : world * connecting * outcome unit :=
  let '(w, res) := cancel w c in
  match res with
  | Ret _ => let '(k, s, _) := Socket.close (kernel w) (cs_socket c) in (with_kernel k w, with_socket s c, Ret tt)
  | res => (w, c, res)
  end.

(** [connecting_socket::connect], then [then] of its caller: a ready future runs
    the continuation at once. *)
Definition connect (w : world) (c : connecting) : world * connecting * outcome unit :=
  let '(k, ret) := Socket.connect (kernel w) (cs_socket c) in
  let w := with_kernel k w in
  match ret with
  | Error e =>
      if bool_decide (e = kRetry) then
        let '(w, res) := on_shard w (cs_shard c) (fun r => Reactor.expect_write r (cs_addr c) true) in
        (w, match res with Ret _ => Connecting (cs_family c) (cs_shard c) (cs_addr c) (cs_socket c) true (cs_resolved c) | _ => c end, res)
      else
        let '(w, c, res) := close w c in
        match res with
        | Ret _ => let '(w, res) := continue (cs_family c) (cs_shard c) w (Error e) in (w, c, res)
        | res => (w, c, res)
        end
  | Value _ =>
      let desc := cs_socket c in
      let c := with_socket (-1) c in
      let '(w, res) := cancel w c in
      match res with
      | Ret _ => let '(w, res) := continue (cs_family c) (cs_shard c) w (Value desc) in (w, c, res)
      | res => (w, c, res)
      end
  end.

(** [handle_write]; [expected::value] is [noexcept], on an error it ends the program. *)
Definition handle_write (w : world) (c : connecting) : world * connecting * outcome unit :=
  let '(k, err, (ret, errno)) := sys_getsockopt_error (kernel w) (cs_socket c) in
  let w := with_kernel k w in
  if -1 =? ret then (w, c, Abort)
  else if err =? 0 then
    let '(w, c, res) := resolve w c (Value (cs_socket c)) in
    match res with
    | Ret _ => let c := with_socket (-1) c in let '(w, res) := cancel w c in (w, c, res)
    | res => (w, c, res)
    end
  else
    let '(w, c, res) := resolve w c (Error (Errno err)) in
    match res with Ret _ => close w c | res => (w, c, res) end.

Definition callback (w : world) (c : connecting) (cb : Reactor.callback) : world * connecting * outcome unit :=
  match cb with
  | Reactor.handle_read => (w, c, Ret tt)
  | Reactor.handle_write => handle_write w c
  | Reactor.handle_error | Reactor.handle_close => close w c
  end.

Fixpoint callbacks (w : world) (c : connecting) (cbs : list Reactor.callback) : world * connecting * outcome unit :=
  match cbs with
  | [] => (w, c, Ret tt)
  | cb :: cbs =>
      let '(w, c, res) := callback w c cb in
      match res with Ret _ => callbacks w c cbs | res => (w, c, res) end
  end.

(** [handle(state)]. *)
Definition handle (w : world) (c : connecting) (state : Z) : world * connecting * outcome unit :=
  callbacks w c (Reactor.callbacks state).
End connecting.
End Connecting.

(** ** Every connection goes to one shard, in turn *)
Section facts.
Context {K E : Type} {SA : socket_api K} {CO : connect_api K} {EA : epoll_api E}.
Import Listener.
Abbreviation world := (Listener.world K E).
Implicit Types (w : world) (k : nat) (j : job).

(** The shards that [n] turns choose, of [cpus]. *)
Definition turns (cpus : Z) (n : nat) : list nat := (fun i => Z.to_nat ((i + 1) mod cpus)) <$> seqZ 0 (Z.of_nat n).

Definition from (o : origin) (l : list (nat * job)) : list (nat * job) := filter (fun x => j_origin x.2 = o) l.

Definition places w : list (nat * Z) :=
  ((fun x => (x.1.1, x.2)) <$> pipes w) ++ lost w ++ ((fun x => (x.1, j_socket x.2)) <$> inbound w).

Definition announced (l : list upcall) : list Z :=
  l ≫= (fun u => match u with Accepted p | Connected p => [p] | _ => [] end).

Lemma announced_app l l' : announced (l ++ l') = announced l ++ announced l'.
Proof. apply bind_app. Qed.

Definition in_turn (cpus : Z) (o : origin) w : Prop :=
  (from o (dispatched w)).*1 = turns cpus (length (from o (dispatched w))) /\
  run_on w o = Z.of_nat (length (from o (dispatched w))) mod cpus.

(** [moving]: what is being moved from one list to another. *)
Record world_ok (cpus : Z) (moving : list (nat * Z)) w : Prop := {
  wo_cpus : zlen (reactors w) = cpus;
  wo_turns : forall o, in_turn cpus o w;
  wo_places : places w ++ moving ≡ₚ (fun x => (x.1, j_socket x.2)) <$> dispatched w;
  wo_announced : announced (told w ++ posted w) ≡ₚ (fun x => x.1.2) <$> pipes w;
  wo_fresh : NoDup ((fun x => x.1.2) <$> pipes w) /\ Forall (fun x => x.1.2 < next_pipe w) (pipes w)
}.

Lemma turns_snoc cpus n : 0 < cpus -> turns cpus (S n) = turns cpus n ++ [Z.to_nat ((Z.of_nat n mod cpus + 1) mod cpus)].
Proof.
  intros Hc. unfold turns. replace (Z.of_nat (S n)) with (Z.of_nat n + 1) by lia. rewrite seqZ_app by lia. rewrite fmap_app.
  f_equal. cbn. by rewrite Zplus_mod_idemp_l.
Qed.

(** A step that keeps the logs. *)
Definition same_logs w w' : Prop :=
  zlen (reactors w') = zlen (reactors w) /\ dispatched w' = dispatched w /\ run_on w' = run_on w.

Lemma on_shard_same w k f w' res : on_shard w k f = (w', res) -> exists l, w' = with_reactors l w /\ zlen l = zlen (reactors w).
Proof.
  unfold on_shard. destruct (reactors w !! k) as [r|]; [|intros [= <- _]; exists (reactors w); by destruct w].
  destruct (f r) as [r' res']. intros [= <- _]. eexists. split; [reflexivity|]. unfold zlen. by rewrite length_insert.
Qed.

Lemma on_shard_ok cpus l w k f w' res : world_ok cpus l w -> on_shard w k f = (w', res) -> world_ok cpus l w'.
Proof. intros [] (rs & -> & Hl)%on_shard_same. split; cbn; try done. lia. Qed.

(** The job [j], which is in no list, is run on shard [k]. *)
Lemma run_job_ok w k j w' res : run_job w k j = (w', res) ->
  same_logs w w' /\ inbound w' = inbound w /\ lost w' = lost w /\
  match res with
  | Ret _ => pipes w' = pipes w ++ [(k, next_pipe w, j_socket j)] /\ next_pipe w' = next_pipe w + 1 /\
             announced (told w' ++ posted w') ≡ₚ next_pipe w :: announced (told w ++ posted w)
  | _ => pipes w' = pipes w /\ next_pipe w' = next_pipe w + 1 /\ told w' = told w /\ posted w' = posted w
  end.
Proof.
  unfold run_job. destruct (on_shard _ k _) as [w1 r] eqn:Eo. apply on_shard_same in Eo as (l & -> & Hl).
  destruct r as [u| |e| |]; intros [= <- <-]; try (by repeat split).
  split; [by destruct (j_origin j)|]. split; [by destruct (j_origin j)|]. split; [by destruct (j_origin j)|].
  split; [by destruct (j_origin j)|]. split; [by destruct (j_origin j)|].
  destruct (j_origin j); cbn [told posted with_told tell with_pipes with_reactors]; rewrite !announced_app; cbn; solve_Permutation.
Qed.

(** A job that ran was attached or lost. *)
Lemma guarded_ok cpus w k j w' : world_ok cpus [(k, j_socket j)] w -> guarded k j (run_job w k j) = (w', Ret tt) -> world_ok cpus [] w'.
Proof.
  intros [H1 H2 H4 H5 [H6 H7]] Eg. destruct (run_job w k j) as [w1 res] eqn:Er.
  destruct (run_job_ok w k j w1 res Er) as ((R1 & R2 & R3) & R5 & R6 & R7).
  assert (Hlt : forall x, x ∈ (fun x => x.1.2) <$> pipes w -> x < next_pipe w).
  { intros x (y & -> & Hy)%list_elem_of_fmap. by apply (proj1 (list.Forall_forall _ _) H7). }
  destruct res as [u| |e| |]; cbn in Eg; try discriminate; injection Eg as <-.
  - destruct R7 as (P1 & P2 & P3). split; rewrite ?R1, ?R2, ?R3; [done|by unfold in_turn in *; rewrite R2, R3|..].
    + unfold places in *. rewrite P1, R5, R6, fmap_app. cbn. rewrite <- H4. solve_Permutation.
    + rewrite P3, H5, P1, fmap_app. cbn. solve_Permutation.
    + rewrite P1, P2, fmap_app. cbn. split.
      * apply list.NoDup_app. split; [done|]. split; [|apply NoDup_singleton]. intros x Hx ->%list_elem_of_singleton. specialize (Hlt _ Hx). lia.
      * apply list.Forall_app. split; [|by repeat constructor; cbn; lia]. apply (list.Forall_impl _ _ _ H7). lia.
  - destruct R7 as (P1 & P2 & P3 & P4). split; cbn [reactors dispatched run_on told posted pipes next_pipe with_lost];
      rewrite ?R1, ?R2, ?R3, ?P1, ?P2, ?P3, ?P4; [done| | |done|].
    + unfold in_turn in *. cbn [dispatched run_on with_lost]. by rewrite R2, R3.
    + unfold places in *. cbn [pipes lost inbound with_lost]. rewrite P1, R5, R6, app_nil_r, <- H4. solve_Permutation.
    + split; [done|]. apply (list.Forall_impl _ _ _ H7). lia.
Qed.

Lemma take_job_perm k l j l' : take_job k l = Some (j, l') -> l ≡ₚ (k, j) :: l'.
Proof.
  revert l'. induction l as [|[k' i] l IH]; intros l'; [done|]. cbn. destruct (decide (k' = k)) as [->|]; [by intros [= -> ->]|].
  destruct (take_job k l) as [[i' l1]|]; [|done]. intros [= -> <-]. rewrite (IH l1 eq_refl). by constructor.
Qed.

Lemma run_inbound_ok cpus w k w' : world_ok cpus [] w -> run_inbound w k = (w', Ret tt) -> world_ok cpus [] w'.
Proof.
  intros Hw. unfold run_inbound. destruct (take_job k (inbound w)) as [[j l]|] eqn:Et; [|by intros [= <-]].
  apply guarded_ok. apply take_job_perm in Et. destruct Hw as [H1 H2 H3 H4 H5]. split; try done.
  unfold places in *. cbn [pipes lost inbound with_inbound dispatched]. rewrite <- H3, Et. cbn. solve_Permutation.
Qed.

Lemma from_snoc o l x : from o (l ++ [x]) = if decide (j_origin x.2 = o) then from o l ++ [x] else from o l.
Proof. unfold from. rewrite list.filter_app, filter_cons, filter_nil. case_decide; [done|by rewrite app_nil_r]. Qed.

Lemma in_turn_next cpus w j n : 0 < cpus -> (forall o, in_turn cpus o w) -> n = (run_on w (j_origin j) + 1) mod cpus ->
  let w1 := with_turn (j_origin j) n w in
  forall o, in_turn cpus o (with_dispatched (dispatched w1 ++ [(Z.to_nat n, j)]) w1).
Proof.
  intros Hc Ht -> w1 o. destruct (Ht (j_origin j)) as [T1 T2], (Ht o) as [O1 O2]. unfold in_turn.
  assert (dispatched w1 = dispatched w) as Ed by done.
  cbn [dispatched with_dispatched]. rewrite Ed, from_snoc. cbn [snd]. case_decide as Eo.
  - subst o. rewrite length_app, fmap_app, T1. cbn [length fmap list_fmap fst]. rewrite Nat.add_1_r, turns_snoc, <- T2 by done.
    split; [done|]. transitivity ((run_on w (j_origin j) + 1) mod cpus); [cbn; by rewrite decide_True|].
    rewrite T2, Zplus_mod_idemp_l. f_equal. lia.
  - split; [done|]. rewrite <- O2. cbn. rewrite decide_False; [done|congruence].
Qed.

Lemma next_turn_mod cpus w n o : 0 < cpus < 2 ^ 16 -> zlen (reactors w) = cpus -> next_turn w o = Ret n ->
  n = (run_on w o + 1) mod cpus.
Proof.
  intros Hc Hw Hn. unfold next_turn in Hn. rewrite Hw, (proj2 (Z.eqb_neq _ _)) in Hn by lia. injection Hn as <-.
  pose proof (Z.mod_pos_bound (run_on w o + 1) cpus). apply u16_id. unfold_pow2. lia.
Qed.

Lemma dispatch_next_ok cpus self w j n w' : 0 < cpus < 2 ^ 16 -> world_ok cpus [] w -> next_turn w (j_origin j) = Ret n ->
  dispatch self (with_turn (j_origin j) n w) (Z.to_nat n) j = (w', Ret tt) -> world_ok cpus [] w'.
Proof.
  intros Hc [H1 H2 H3 H4 H5] Hn Hd. apply (next_turn_mod cpus) in Hn; [|done|done].
  pose proof (in_turn_next cpus w j n ltac:(lia) H2 Hn) as Ht. unfold dispatch in Hd. cbn zeta in Ht. set (w1 := with_dispatched _ _) in *.
  assert (Hw1 : world_ok cpus [(Z.to_nat n, j_socket j)] w1).
  { split; [by destruct (j_origin j)|done| |by destruct (j_origin j)|by destruct (j_origin j)].
    rewrite app_nil_r in H3. transitivity (places w ++ [(Z.to_nat n, j_socket j)]); [by destruct (j_origin j)|]. rewrite H3.
    transitivity (((fun x => (x.1, j_socket x.2)) <$> (dispatched w ++ [(Z.to_nat n, j)]))); [by rewrite fmap_app|by destruct (j_origin j)]. }
  case_decide; [by eapply guarded_ok|]. injection Hd as <-. destruct Hw1 as [G1 G2 G3 G4 G5]. split; try done.
  unfold places in *. cbn [pipes lost inbound with_inbound dispatched] in *. rewrite <- G3, fmap_app. cbn. solve_Permutation.
Qed.

(** ** Executions *)

Lemma told_ok cpus w u : world_ok cpus [] w -> announced [u] = [] -> world_ok cpus [] (tell w u).
Proof.
  intros [H1 H2 H3 H4 H5] Hu. split; try done. cbn [told posted tell with_told pipes]. rewrite <- H4, !announced_app, Hu, app_nil_r. done.
Qed.

Lemma kernel_ok cpus w (kn : K) : world_ok cpus [] w -> world_ok cpus [] (with_kernel kn w).
Proof. by intros []. Qed.

Lemma acceptor_read_ok cpus w a w' : 0 < cpus < 2 ^ 16 -> world_ok cpus [] w -> acceptor_read w a = (w', Ret tt) -> world_ok cpus [] w'.
Proof.
  intros Hc Hw. unfold acceptor_read. destruct (Socket.accept _ _ _) as [k [s|e]]; [|intros [= <-]; by apply told_ok; [apply kernel_ok|]].
  destruct (on_shard _ _ _) as [w1 res] eqn:Eo. apply (on_shard_ok cpus []) in Eo; [|by apply kernel_ok].
  destruct res as [u| |e| |]; try by intros. destruct (next_turn _ _) as [n| |e| |] eqn:En; try by intros.
  destruct (dispatch _ _ _ _) as [w2 res] eqn:Ed. destruct res as [[]| |e| |]; intros [= <-].
  - by apply (dispatch_next_ok cpus (ac_shard a) w1 (Job s (FromAcceptor (ac_family a))) n).
  - exfalso. revert Ed. unfold dispatch, guarded. case_decide; [|done]. by destruct (run_job _ _ _) as [? []].
Qed.

Lemma acceptor_close_ok cpus w a w' a' : world_ok cpus [] w -> acceptor_close w a = (w', a', Ret tt) -> world_ok cpus [] w'.
Proof.
  intros Hw. unfold acceptor_close. destruct (on_shard _ _ _) as [w1 res] eqn:Eo. apply (on_shard_ok cpus []) in Eo; [|done].
  destruct res as [u| |e| |]; try by intros. destruct (Socket.close _ _) as [[k s] r]. intros [= <- _]. by apply kernel_ok.
Qed.

Lemma continue_ok cpus af self w r w' : 0 < cpus < 2 ^ 16 -> world_ok cpus [] w -> Connecting.continue af self w r = (w', Ret tt) -> world_ok cpus [] w'.
Proof.
  intros Hc Hw. unfold Connecting.continue. destruct r as [s|e]; [|by intros [= <-]].
  destruct (next_turn _ _) as [n| |e| |] eqn:En; try by intros. by apply (dispatch_next_ok cpus self w (Job s (FromConnector af)) n).
Qed.

Lemma resolve_ok cpus w c r w' c' : 0 < cpus < 2 ^ 16 -> world_ok cpus [] w -> Connecting.resolve w c r = (w', c', Ret tt) -> world_ok cpus [] w'.
Proof.
  intros Hc Hw. unfold Connecting.resolve. destruct (Connecting.cs_waiting c); [|by intros [= <- _]].
  destruct (Connecting.continue _ _ _ _) as [w1 res] eqn:Ec. intros [= <- _ ->]. by eapply continue_ok.
Qed.

Lemma connecting_close_ok cpus w c w' c' : world_ok cpus [] w -> Connecting.close w c = (w', c', Ret tt) -> world_ok cpus [] w'.
Proof.
  intros Hw. unfold Connecting.close, Connecting.cancel. destruct (on_shard _ _ _) as [w1 res] eqn:Eo. apply (on_shard_ok cpus []) in Eo; [|done].
  destruct res as [u| |e| |]; try by intros. destruct (Socket.close _ _) as [[k s] r]. intros [= <- _]. by apply kernel_ok.
Qed.

Lemma connect_ok cpus w c w' c' : 0 < cpus < 2 ^ 16 -> world_ok cpus [] w -> Connecting.connect w c = (w', c', Ret tt) -> world_ok cpus [] w'.
Proof.
  intros Hc Hw. unfold Connecting.connect. destruct (Socket.connect _ _) as [k r]. pose proof (kernel_ok cpus w k Hw) as Hk. destruct r as [u|e].
  - unfold Connecting.cancel. destruct (on_shard _ _ _) as [w1 res] eqn:Eo. apply (on_shard_ok cpus []) in Eo; [|done].
    destruct res as [v| |e| |]; try by intros. destruct (Connecting.continue _ _ _ _) as [w2 res] eqn:Ec. intros [= <- _ ->]. by eapply continue_ok.
  - case_bool_decide.
    + destruct (on_shard _ _ _) as [w1 res] eqn:Eo. apply (on_shard_ok cpus []) in Eo; [|done]. by intros [= <- _ _].
    + destruct (Connecting.close _ _) as [[w1 c1] res] eqn:El. destruct res as [[]| |e'| |]; try by intros.
      apply (connecting_close_ok cpus) in El; [|done]. by intros [= <- _].
Qed.

Lemma handle_write_ok cpus w c w' c' : 0 < cpus < 2 ^ 16 -> world_ok cpus [] w -> Connecting.handle_write w c = (w', c', Ret tt) -> world_ok cpus [] w'.
Proof.
  intros Hc Hw. unfold Connecting.handle_write. destruct (sys_getsockopt_error _ _) as [[k err] [ret errno]]. case_if; [done|].
  pose proof (kernel_ok cpus w k Hw) as Hk. case_if.
  - destruct (Connecting.resolve _ _ _) as [[w1 c1] res] eqn:Er. destruct res as [[]| |e| |]; try by intros.
    apply (resolve_ok cpus) in Er; [|done..]. unfold Connecting.cancel. destruct (on_shard _ _ _) as [w2 res] eqn:Eo.
    apply (on_shard_ok cpus []) in Eo; [|done]. by intros [= <- _ _].
  - destruct (Connecting.resolve _ _ _) as [[w1 c1] res] eqn:Er. destruct res as [[]| |e| |]; try by intros.
    apply (resolve_ok cpus) in Er; [|done..]. by apply connecting_close_ok.
Qed.

Lemma callbacks_ok cpus cbs : forall w c w' c', 0 < cpus < 2 ^ 16 -> world_ok cpus [] w ->
  Connecting.callbacks w c cbs = (w', c', Ret tt) -> world_ok cpus [] w'.
Proof.
  induction cbs as [|cb cbs IH]; intros w c w' c' Hc Hw; cbn [Connecting.callbacks]; [by intros [= <- _]|].
  destruct (Connecting.callback w c cb) as [[w1 c1] res] eqn:Eb. destruct res as [[]| |e| |]; try by intros.
  apply IH; [done|]. destruct cb; cbn in Eb; [by injection Eb as <- _|by eapply handle_write_ok|by eapply connecting_close_ok|by eapply connecting_close_ok].
Qed.

(** Acceptors and connectors are called back, shards run what was dispatched to
    them, deferred calls are made; what else happens leaves the pipes alone. *)
Inductive step : world -> world -> Prop :=
  | step_acceptor w a cb w' a' : acceptor_callback w a cb = (w', a', Ret tt) -> step w w'
  | step_connect w c w' c' : Connecting.connect w c = (w', c', Ret tt) -> step w w'
  | step_connecting w c st w' c' : Connecting.handle w c st = (w', c', Ret tt) -> step w w'
  | step_inbound w k w' : run_inbound w k = (w', Ret tt) -> step w w'
  | step_posted w : step w (run_posted w)
  | step_world w l (kn : K) : zlen l = zlen (reactors w) -> step w (with_kernel kn (with_reactors l w)).

Definition starts w : Prop :=
  0 < zlen (reactors w) < 2 ^ 8 /\ inbound w = [] /\ (forall o, run_on w o = 0) /\ pipes w = [] /\
  lost w = [] /\ posted w = [] /\ told w = [] /\ dispatched w = [].

Lemma starts_ok w : starts w -> world_ok (zlen (reactors w)) [] w.
Proof.
  intros (Hc & Hi & Ha & Hp & Hl & Hpo & Ht & Hd). split; [done|..].
  - intros o. unfold in_turn. rewrite Hd. cbn. split; [done|]. rewrite Z.mod_0_l by lia. by destruct o.
  - unfold places. by rewrite Hp, Hl, Hi, Hd.
  - by rewrite Ht, Hpo, Hp.
  - rewrite Hp. by repeat constructor.
Qed.

Lemma listener_step_ok cpus w w' : 0 < cpus < 2 ^ 16 -> step w w' -> world_ok cpus [] w -> world_ok cpus [] w'.
Proof.
  intros Hc Hs Hw. destruct Hs as [w a cb w' a' Ea|w c w' c' Ec|w c st w' c' Eh|w k w' Ei|w|w l k Hl].
  - destruct cb; cbn in Ea.
    + destruct (acceptor_read w a) as [w1 res] eqn:Er. injection Ea as <- _ ->. by eapply acceptor_read_ok.
    + by injection Ea as <- _.
    + by eapply acceptor_close_ok.
    + by eapply acceptor_close_ok.
  - by eapply connect_ok.
  - by eapply callbacks_ok.
  - by eapply run_inbound_ok.
  - unfold run_posted. destruct (posted w) as [|u l] eqn:Ep; [done|]. destruct Hw as [H1 H2 H3 H4 H5]. split; try done.
    cbn [told posted with_told pipes]. rewrite <- H4, Ep, <- app_assoc. done.
  - destruct Hw as [H1 H2 H3 H4 H5]. split; try done. cbn. lia.
Qed.
End facts.

(** C26: Connections are spread over the shards in turn and none is lost on the
    way: in every execution, a callback being one step, the connections that acceptors
    of one address family dispatched, and those that connectors of one family dispatched,
    went to shards 1, 2, ..., 0, 1, ... in order; each is in one place: attached as a
    client pipe of its shard, waiting for its shard, or dropped by a shard that could not
    attach it; and each client pipe is announced once, to the pipe that asked for it. *)
Theorem listener_spreads_connections {K E : Type} `{socket_api K} `{connect_api K} `{epoll_api E} (w0 w : Listener.world K E) :
  starts w0 -> rtc step w0 w ->
  (forall o, (from o (Listener.dispatched w)).*1 = turns (zlen (Listener.reactors w0)) (length (from o (Listener.dispatched w)))) /\
  places w ≡ₚ (fun x => (x.1, j_socket x.2)) <$> Listener.dispatched w /\
  announced (Listener.told w ++ Listener.posted w) ≡ₚ (fun x => x.1.2) <$> Listener.pipes w /\
  NoDup ((fun x => x.1.2) <$> Listener.pipes w).
Proof.
  intros Hst Hs. assert (Hw : world_ok (zlen (Listener.reactors w0)) [] w).
  { pose proof (starts_ok w0 Hst) as Hok. destruct Hst as [Hc _]. generalize dependent (zlen (Listener.reactors w0)). intros cpus Hc.
    induction Hs as [w|w w1 w2 Hstep _ IH]; [done|]. intros Hok. apply IH. eapply listener_step_ok; [|done|done]. lia. }
  destruct Hw as [_ Ht Hp Ha [Hn _]]. split; [intros o; apply Ht|]. rewrite app_nil_r in Hp. done.
Qed.

(** ** What an event does to a socket that connects *)
Section connecting_facts.
Context {K E : Type} {SA : socket_api K} {CO : connect_api K} {EA : epoll_api E}.
Import Listener Connecting.
Abbreviation world := (Listener.world K E).
Implicit Types (w : world) (c : connecting) (k : nat) (p : Z).

(** Shard [k] has a handler at [p] with the property. *)
Definition knows w k p (Q : Reactor.handler -> Prop) : Prop :=
  exists r x, reactors w !! k = Some r /\ Reactor.handlers r !! p = Some x /\ Q x.

(** A call returns, or [epoll_ctl] or [getsockopt] has failed. *)
Definition returns {A : Type} (P : Prop) (res : outcome A) : Prop :=
  match res with Ret _ => P | Abort | Throw (system_error _) => True | _ => False end.

Definition settled w c : Prop := cs_socket c = -1 /\ knows w (cs_shard c) (cs_addr c) (fun x => Reactor.is_active x = false).

Lemma on_shard_id w k f r : reactors w !! k = Some r -> f r = (r, Ret tt) -> on_shard w k f = (w, Ret tt).
Proof. intros Hr Hf. unfold on_shard. rewrite Hr, Hf. f_equal. destruct w. unfold with_reactors. cbn in *. by rewrite list_insert_id. Qed.

Lemma cancel_returns w c : knows w (cs_shard c) (cs_addr c) (fun _ => True) ->
  returns (knows (cancel w c).1 (cs_shard c) (cs_addr c) (fun x => Reactor.is_active x = false)) (cancel w c).2.
Proof.
  intros (r & x & Hr & Hx & _). unfold cancel. destruct (Reactor.is_active x) eqn:Ha.
  - unfold on_shard, Reactor.cancel. rewrite Hr, Hx, Ha. unfold Reactor.event_cancel. rewrite Hx.
    unfold Reactor.is_active in Ha. destruct (Reactor.h_event x) as [ev|] eqn:Eev; [|done].
    unfold Reactor.del_event, Reactor.epoll_ctl. destruct (sys_epoll_ctl _ _ _ _ _) as [e [err|]]; [done|]. cbn.
    eexists _, _. split; [by apply list_lookup_insert_eq; eapply lookup_lt_Some|]. cbn. split; [apply lookup_insert_eq|done].
  - rewrite (on_shard_id w (cs_shard c) _ r Hr); [|unfold Reactor.cancel; by rewrite Hx, Ha]. exists r, x. done.
Qed.

Lemma close_settled w c : settled w c -> close w c = (w, c, Ret tt).
Proof.
  intros [Hs (r & x & Hr & Hx & Ha)]. unfold close, cancel.
  rewrite (on_shard_id w _ _ r Hr) by (unfold Reactor.cancel; by rewrite Hx, Ha).
  unfold Socket.close. rewrite Hs. cbn. destruct w, c. cbn in *. by subst.
Qed.

Lemma close_returns w c : knows w (cs_shard c) (cs_addr c) (fun _ => True) ->
  let '(w', c', res) := close w c in returns (settled w' c' /\ cs_resolved c' = cs_resolved c) res.
Proof.
  intros Hk. pose proof (cancel_returns w c Hk) as Hc. unfold close. destruct (cancel w c) as [w1 res]. cbn [fst snd] in Hc.
  destruct res as [u| |e| |]; try done. destruct (Socket.close (kernel w1) (cs_socket c)) as [[kn s] r] eqn:Es.
  assert (s = -1) as -> by (unfold Socket.close in Es; destruct (Z.eqb_spec (-1) (cs_socket c)); [congruence|destruct (sys_close _ _) as [? [? ?]]; congruence]).
  split; [|done]. by split.
Qed.

Lemma attach_other (r : Reactor.reactor E) p x : let '(r', res) := Reactor.attach_handler r p x in
  (forall q, q <> p -> Reactor.handlers r' !! q = Reactor.handlers r !! q) /\
  match res with Ret _ | Throw (system_error _) => True | _ => False end.
Proof.
  unfold Reactor.attach_handler, Reactor.event_arm, Reactor.arm_event, Reactor.epoll_ctl. cbn [Reactor.handlers Reactor.put Reactor.with_handlers].
  rewrite lookup_insert_eq. cbn [Reactor.h_event]. destruct (sys_epoll_ctl _ _ _ _ _) as [e [err|]]; (split; [|done]); intros q Hq; cbn.
  - by rewrite lookup_delete_ne, lookup_insert_ne.
  - by rewrite !lookup_insert_ne.
Qed.

Lemma run_job_knows w k' j k p Q : is_Some (reactors w !! k') -> p <> next_pipe w -> knows w k p Q ->
  knows (guarded k' j (run_job w k' j)).1 k p Q /\ (guarded k' j (run_job w k' j)).2 = Ret tt.
Proof.
  intros [r Hr] Hp Hk. unfold run_job, on_shard. cbn [reactors with_pipes]. rewrite Hr.
  pose proof (attach_other r (next_pipe w) (Reactor.handler_new (j_socket j) Reactor.kRead)) as Ha.
  destruct (Reactor.attach_handler r (next_pipe w) _) as [r' res]. destruct Ha as [Ha Hres].
  assert (Hk' : forall w', reactors w' = <[k' := r']> (reactors w) -> knows w' k p Q).
  { intros w' Ew. unfold knows. rewrite Ew. destruct Hk as (r1 & x & Hr1 & Hx & HQ). destruct (decide (k = k')) as [->|Hne].
    - exists r', x. rewrite list_lookup_insert_eq by (by eapply lookup_lt_Some). rewrite Ha by done. rewrite Hr in Hr1. injection Hr1 as ->. done.
    - exists r1, x. by rewrite list_lookup_insert_ne. }
  destruct res as [u| |[]| |]; try done; cbn; (split; [|done]); apply Hk'; by destruct (j_origin j).
Qed.

Definition in_service w c : Prop := cs_addr c <> next_pipe w /\ 0 < zlen (reactors w) < 2 ^ 16.

Lemma resolve_returns w c v Q : in_service w c -> knows w (cs_shard c) (cs_addr c) Q ->
  let '(w', c', res) := resolve w c v in
  c' = with_resolved (cs_resolved c ++ [v]) c /\ res = Ret tt /\ knows w' (cs_shard c) (cs_addr c) Q.
Proof.
  intros [Hp Hc] Hk. unfold resolve. destruct (cs_waiting c); [|done]. unfold continue. destruct v as [s|e]; [|done].
  unfold next_turn. rewrite (proj2 (Z.eqb_neq _ _)) by lia. set (n := u16 _).
  assert (Hn : is_Some (reactors w !! Z.to_nat n)).
  { apply lookup_lt_is_Some. pose proof (Z.mod_pos_bound (run_on w (FromConnector (cs_family c)) + 1) (zlen (reactors w))).
    unfold n. rewrite u16_id by (unfold_pow2; lia). unfold zlen in *. lia. }
  unfold dispatch. case_decide; [|done].
  destruct (run_job_knows (with_dispatched (dispatched w ++ [(Z.to_nat n, Job s (FromConnector (cs_family c)))]) (with_turn (FromConnector (cs_family c)) n w))
    (Z.to_nat n) (Job s (FromConnector (cs_family c))) (cs_shard c) (cs_addr c) Q Hn Hp Hk) as [H1 H2].
  cbn [dispatched with_turn] in *. destruct (guarded _ _ _) as [w1 res]. done.
Qed.

(** [handle_write] settles the socket, and fulfils the promise with the
    descriptor it gives away or with the error of the socket. *)
Lemma handle_write_returns w c : in_service w c -> knows w (cs_shard c) (cs_addr c) (fun _ => True) ->
  let '(w', c', res) := handle_write w c in
  returns (settled w' c' /\ exists v, cs_resolved c' = cs_resolved c ++ [v] /\
    match v with Value s => s = cs_socket c | Error e => exists errno, e = Errno errno /\ errno <> 0 end) res.
Proof.
  intros Hs Hk. unfold handle_write. destruct (sys_getsockopt_error _ _) as [[kn err] [ret errno]]. case_if; [done|].
  assert (Hk' : knows (with_kernel kn w) (cs_shard c) (cs_addr c) (fun _ => True)) by exact Hk.
  assert (Hs' : in_service (with_kernel kn w) c) by exact Hs. destruct (err =? 0) eqn:Ee.
  - pose proof (resolve_returns (with_kernel kn w) c (Value (cs_socket c)) _ Hs' Hk') as Hr.
    destruct (resolve _ _ _) as [[w1 c1] res]. destruct Hr as (-> & -> & Hr).
    pose proof (cancel_returns w1 (with_socket (-1) (with_resolved (cs_resolved c ++ [Value (cs_socket c)]) c)) Hr) as Hc.
    destruct (cancel _ _) as [w2 res]. destruct res as [u| |e| |]; try done. split; [by split|]. by eexists.
  - pose proof (resolve_returns (with_kernel kn w) c (Error (Errno err)) _ Hs' Hk') as Hr.
    destruct (resolve _ _ _) as [[w1 c1] res]. destruct Hr as (-> & -> & Hr).
    pose proof (close_returns w1 (with_resolved (cs_resolved c ++ [Error (Errno err)]) c) Hr) as Hc.
    destruct (close _ _) as [[w2 c2] res]. destruct res as [u| |e| |]; try done. destruct Hc as [Hc1 Hc2]. split; [done|].
    eexists. split; [exact Hc2|]. exists err. split; [done|]. by apply Z.eqb_neq.
Qed.

(** Once it is settled, nothing in the same event changes it. *)
Lemma callbacks_settled cbs w c : settled w c -> Reactor.handle_write ∉ cbs -> callbacks w c cbs = (w, c, Ret tt).
Proof.
  intros Hs. induction cbs as [|cb cbs IH]; [done|]. intros [Hne Hin]%not_elem_of_cons. cbn [callbacks].
  destruct cb; [by apply IH|done| |]; cbn [callback]; rewrite close_settled by done; by apply IH.
Qed.

Lemma callbacks_close w c cbs : knows w (cs_shard c) (cs_addr c) (fun _ => True) ->
  (forall cb, cb ∈ cbs -> cb = Reactor.handle_error \/ cb = Reactor.handle_close) ->
  let '(w', c', res) := callbacks w c cbs in
  returns (match cbs with [] => w' = w /\ c' = c | _ => settled w' c' /\ cs_resolved c' = cs_resolved c end) res.
Proof.
  intros Hk Hall. destruct cbs as [|cb cbs]; [done|]. cbn [callbacks].
  assert (callback w c cb = close w c) as -> by (destruct (Hall cb) as [-> | ->]; [by left|done|done]).
  pose proof (close_returns w c Hk) as Hc. destruct (close w c) as [[w1 c1] res]. destruct res as [[]| |e| |]; try done. destruct Hc as [Hc1 Hc2].
  rewrite callbacks_settled; [done|done|]. intros Hin. destruct (Hall Reactor.handle_write) as [|]; [by right|done|done].
Qed.
End connecting_facts.

(** C29: What one event does to a socket that connects.  If the event says that it is
    writable, the promise of the descriptor is fulfilled once, with the descriptor, which
    the socket gives up, or with the error the system reports.  If the event only says
    that the socket failed or was shut down, the socket is closed and the promise is not
    fulfilled at all: whoever waits for it is not told.  Otherwise nothing happens.
    After an event of the first two kinds the socket has no descriptor and its handler
    is inactive.  Nothing undefined happens: only failing system calls stop the
    program. *)
Theorem connecting_settles {K E : Type} `{socket_api K} `{connect_api K} `{epoll_api E} (w : Listener.world K E)
    (c : Connecting.connecting) (state : Z) :
  in_service w c -> knows w (Connecting.cs_shard c) (Connecting.cs_addr c) (fun _ => True) ->
  let '(w', c', res) := Connecting.handle w c state in
  returns
    (if Reactor.bit state Reactor.kWrite then
       settled w' c' /\ exists v, Connecting.cs_resolved c' = Connecting.cs_resolved c ++ [v] /\
         match v with Value s => s = Connecting.cs_socket c | Error e => exists errno, e = Errno errno /\ errno <> 0 end
     else if Reactor.bit state Reactor.kError || Reactor.bit state Reactor.kClose then
       settled w' c' /\ Connecting.cs_resolved c' = Connecting.cs_resolved c
     else w' = w /\ c' = c) res.
Proof.
  intros Hs Hk. unfold Connecting.handle, Reactor.callbacks.
  set (rest := (if Reactor.bit state Reactor.kError then _ else _) ++ _).
  assert (Hrest : forall cb, cb ∈ rest -> cb = Reactor.handle_error \/ cb = Reactor.handle_close).
  { intros cb. unfold rest. intros [Hin|Hin]%elem_of_app; case_match; try by apply not_elem_of_nil in Hin.
    - left. by apply list_elem_of_singleton in Hin.
    - right. by apply list_elem_of_singleton in Hin. }
  assert (forall l, Connecting.callbacks w c ((if Reactor.bit state Reactor.kRead then [Reactor.handle_read] else []) ++ l) = Connecting.callbacks w c l) as ->
    by (intros l; by case_match).
  destruct (Reactor.bit state Reactor.kWrite).
  - cbn [app Connecting.callbacks Connecting.callback]. pose proof (handle_write_returns w c Hs Hk) as Hw.
    destruct (Connecting.handle_write w c) as [[w1 c1] res]. destruct res as [[]| |e| |]; try done. destruct Hw as [Hw1 Hw2].
    rewrite callbacks_settled; [done|done|]. intros Hin. by destruct (Hrest _ Hin).
  - cbn [app]. pose proof (callbacks_close w c rest Hk Hrest) as Hc. destruct (Connecting.callbacks w c rest) as [[w1 c1] res].
    unfold rest in Hc. destruct (Reactor.bit state Reactor.kError), (Reactor.bit state Reactor.kClose); exact Hc.
Qed.

(** A connector that runs on one shard never connects: when its socket becomes
    writable the client pipe is made at once, on the descriptor that epoll still
    knows as the connecting socket's; it cannot be attached, its destructor closes
    the descriptor, and the shard is told of an exception.  Nobody is told of the
    connection. *)
Theorem connector_own_shard_fails {K E : Type} {SA : socket_api K} {CO : connect_api K} {EA : epoll_api E} {ES : epoll_spec E}
    (w : Listener.world K E) (c : Connecting.connecting) (r : Reactor.reactor E) (kn : K) (errno : Z) :
  Listener.reactors w = [r] -> Connecting.cs_shard c = 0%nat -> Connecting.cs_waiting c = true ->
  is_Some (interest (Reactor.epoll r) !! Connecting.cs_socket c) ->
  sys_getsockopt_error (Listener.kernel w) (Connecting.cs_socket c) = (kn, 0, (0, errno)) ->
  let '(w', c', _) := Connecting.handle_write w c in
  Connecting.cs_resolved c' = Connecting.cs_resolved c ++ [Value (Connecting.cs_socket c)] /\
  Listener.kernel w' = Socket.destroy kn (Connecting.cs_socket c) /\
  Listener.lost w' = Listener.lost w ++ [(0%nat, Connecting.cs_socket c)] /\
  Listener.pipes w' = Listener.pipes w /\ Listener.told w' = Listener.told w.
Proof.
  intros Hr Hk Hw Hint Hopt. unfold Connecting.handle_write. rewrite Hopt. cbn [Z.eqb].
  unfold Connecting.resolve. rewrite Hw. unfold Connecting.continue, Listener.next_turn. cbn [Listener.reactors Listener.with_kernel].
  rewrite Hr. change (zlen [r]) with 1. cbn [Z.eqb]. rewrite Z.mod_1_r. change (Z.to_nat (u16 0)) with 0%nat. rewrite Hk.
  unfold Listener.dispatch. rewrite decide_True by done. unfold Listener.run_job, Listener.on_shard. cbn [Listener.reactors Listener.with_pipes
    Listener.with_dispatched Listener.with_turn Listener.with_kernel]. rewrite Hr. cbn [lookup list_lookup].
  unfold Reactor.attach_handler, Reactor.event_arm, Reactor.arm_event, Reactor.epoll_ctl. cbn [Reactor.handlers Reactor.put Reactor.with_handlers].
  rewrite lookup_insert_eq. cbn [Reactor.h_event Reactor.descriptor Reactor.handler_new j_socket Reactor.epoll].
  destruct (sys_epoll_ctl _ _ _ _ _) as [e [err|]] eqn:Ee; [|apply ctl_add_ok in Ee as [Hn _]; cbn in Hn; destruct Hint; congruence].
  cbn. unfold Connecting.cancel. destruct (Listener.on_shard _ _ _) as [w2 res] eqn:Eo. apply on_shard_same in Eo as (l & -> & _). done.
Qed.

(** ** The properties at concrete inputs *)
#[export] Instance ex_connect_api : connect_api ex_kernel := {| sys_getsockopt_error k d := (k, 0, (0, 0)) |}.

(** One shard, whose reactor knows a socket that connects. *)
Definition ex_shard : Reactor.reactor (gmap Z (Z * Z)) :=
  (Reactor.attach_handler (Reactor.Reactor ∅ ∅ []) 64 (Reactor.handler_new 3 kWrite)).1.

Definition ex_world (l : list (Reactor.reactor (gmap Z (Z * Z)))) : Listener.world ex_kernel (gmap Z (Z * Z)) :=
  Listener.World ex_kernel1 l [] (fun _ => 0) 128 [] [] [] [] [].

Definition ex_connecting : Connecting.connecting := Connecting.Connecting kInet 0 64 3 true [].

Lemma connector_own_shard_fails_witness :
  Listener.lost (Connecting.handle_write (ex_world [ex_shard]) ex_connecting).1.1 = [(0%nat, 3)].
Proof.
  pose proof (connector_own_shard_fails (ex_world [ex_shard]) ex_connecting ex_shard ex_kernel1 0) as Hw.
  destruct (Connecting.handle_write (ex_world [ex_shard]) ex_connecting) as [[w' c'] res]. apply Hw.
  - reflexivity.
  - reflexivity.
  - reflexivity.
  - exists (event_state_to_short kWrite, 64). reflexivity.
  - reflexivity.
Defined.

Lemma connecting_settles_witness :
  Connecting.cs_socket (Connecting.handle (ex_world [ex_shard; ex_reactor]) ex_connecting kWrite).1.2 = -1.
Proof.
  pose proof (connecting_settles (ex_world [ex_shard; ex_reactor]) ex_connecting kWrite) as Hw.
  destruct (Connecting.handle (ex_world [ex_shard; ex_reactor]) ex_connecting kWrite) as [[w' c'] res] eqn:Eh.
  assert (res = Ret tt) as -> by (vm_compute in Eh; injection Eh; congruence).
  apply Hw.
  - split; [discriminate|]. split; reflexivity.
  - exists ex_shard, (Reactor.Handler 3 kWrite (Some (Reactor.Event kWrite true)) true). split; [reflexivity|]. split; [reflexivity|exact I].
Defined.

(** A connection that an acceptor takes goes to shard 1. *)
Definition ex_acceptor : Listener.acceptor := Listener.Acceptor kInet 0 64 3 [].
Definition ex_accepting : Listener.world ex_kernel (gmap Z (Z * Z)) := ex_world [ex_reactor; Reactor.Reactor ∅ ∅ []].
Definition ex_accepted : Listener.world ex_kernel (gmap Z (Z * Z)) := (Listener.acceptor_read ex_accepting ex_acceptor).1.
Definition ex_attached : Listener.world ex_kernel (gmap Z (Z * Z)) := (Listener.run_inbound ex_accepted 1).1.

Lemma listener_spreads_connections_witness :
  places ex_attached ≡ₚ (fun x => (x.1, j_socket x.2)) <$> Listener.dispatched ex_attached /\ Listener.pipes ex_attached = [(1%nat, 128, 4)].
Proof.
  split; [|vm_compute; reflexivity]. refine (proj1 (proj2 (listener_spreads_connections ex_accepting ex_attached _ _))).
  - split; [split; reflexivity|]. repeat (split; [reflexivity|]). reflexivity.
  - eapply rtc_l; [apply (step_acceptor ex_accepting ex_acceptor Reactor.handle_read ex_accepted ex_acceptor)|].
    { vm_compute. reflexivity. }
    eapply rtc_l; [apply (step_inbound ex_accepted 1 ex_attached)|apply rtc_refl]. vm_compute. reflexivity.
Defined.
