(* ===== verification/Datagram.v ===== *)
(** * Datagram: the datagram pipe of xi/io/net/async_channel.h

    [datagram_pipe] and its [data_sink], and the datagram sockets of
    src/io/net/socket2.cpp, over Socket and Reactor.  The addresses of peers are a
    type [A]; the kernel's calls for them are the class [datagram_api], and
    [datagram_spec] states what their documentation promises.  What the next filter
    does with a datagram is the parameter [react], as in Connection; [trace]
    records what was passed on and what was written, no definition reads it. *)
From S2P Require Import Prelude Bytes Guard Blob Fragment Buffer Alloc Socket Reactor Connection.

(** [sendmsg] with a [msg_name] and [recvmsg] into one, of which the bytes are
    what [msg_name] holds before and after. *)
Class datagram_api (K A : Type) := {
  sys_sendto : K -> Z -> A -> list Z -> K * (Z * Z);
  sys_recvfrom : K -> Z -> A -> Z -> K * A * list Z * (Z * Z)
}.

(** The kernel together with the endpoint [msg_name] points to. *)
#[local] Instance peer_api {K A : Type} `{socket_api K} `{datagram_api K A} : socket_api (K * A) := {|
  sys_sendmsg '(k, a) d bs := let '(k, r) := sys_sendto k d a bs in ((k, a), r);
  sys_recvmsg '(k, a) d room := let '(k, a, bs, r) := sys_recvfrom k d a room in ((k, a), bs, r);
  sys_close '(k, a) d := let '(k, r) := sys_close k d in ((k, a), r);
  sys_connect '(k, a) d := let '(k, r) := sys_connect k d in ((k, a), r);
  sys_accept4 '(k, a) d := let '(k, r) := sys_accept4 k d in ((k, a), r);
  sys_setsockopt '(k, a) d o := let '(k, r) := sys_setsockopt k d o in ((k, a), r)
|}.

(** [datagram< af >] and [error_code] on their way up. *)
Inductive received (A : Type) : Type :=
  | Received (remote : A) (data : buffer)
  | ReceiveError (e : io_error).
Arguments Received {A} _ _.
Arguments ReceiveError {A} _.

(** What a filter does with the pipe. *)
Inductive answer (A : Type) : Type :=
  | SendTo (remote : A) (data : buffer)
  | CloseDatagrams.
Arguments SendTo {A} _ _.
Arguments CloseDatagrams {A}.

Inductive noted (A : Type) : Type :=
  | Passed (remote : A) (bs : list Z)
  | NoDatagram (e : io_error)
  | Sent (remote : A) (bs : list Z) (r : expected Z).
Arguments Passed {A} _ _.
Arguments NoDatagram {A} _.
Arguments Sent {A} _ _ _.

Inductive socket_event : Type := kReadable | kWritable | kClosing.

Module Datagram.
Section datagram.
Context {K A E St : Type} `{socket_api K} `{datagram_api K A} `{epoll_api E} `{fragment_allocator St}.
Context (endpoint_new : A).

(** [closes]: how often [write(kClosing)] is deferred. *)
Record pipe := Pipe {
  kernel : K;
  memory : mem;
  guards : gheap;
  alloc : St;
  reactor : Reactor.reactor E;
  self : Z;
  sock : Socket.socket;
  closes : nat;
  trace : list (noted A)
}.

Definition with_socket (k : K) (m : mem) (h : gheap) (s : St) (c : pipe) : pipe :=
  Pipe k m h s (reactor c) (self c) (sock c) (closes c) (trace c).
Definition with_reactor (r : Reactor.reactor E) (c : pipe) : pipe :=
  Pipe (kernel c) (memory c) (guards c) (alloc c) r (self c) (sock c) (closes c) (trace c).
Definition with_closes (n : nat) (c : pipe) : pipe :=
  Pipe (kernel c) (memory c) (guards c) (alloc c) (reactor c) (self c) (sock c) n (trace c).
Definition note (c : pipe) (x : noted A) : pipe :=
  Pipe (kernel c) (memory c) (guards c) (alloc c) (reactor c) (self c) (sock c) (closes c) (trace c ++ [x]).

(** [read_buffer_from(b, remote)] and [write_buffer_to(b, remote)]. *)
Definition read_buffer_from (k : K) (m : mem) (s : Socket.socket) (b : buffer) (remote : A)
    : outcome (K * A * mem * buffer * expected Z) :=
  do '(ka, m, b, r) <- Socket.read (k, remote) m s b;; Ret (ka.1, ka.2, m, b, r).

Definition write_buffer_to (k : K) (m : mem) (h : gheap) (s : Socket.socket) (b : buffer) (remote : A)
    : outcome (K * gheap * buffer * expected Z) :=
  do '(ka, h, b, r) <- Socket.write (k, remote) m h s b;; Ret (ka.1, h, b, r).

(** [socket_base::close]. *)
Definition close (c : pipe) : pipe := with_closes (S (closes c)) c.

(** [data_sink::write(cx, datagram)]: the buffer is dropped at the end, sent or not. *)
Definition write (c : pipe) (remote : A) (b : buffer) : outcome pipe :=
  do '(k, h, b', r) <- write_buffer_to (kernel c) (memory c) (guards c) (sock c) b remote;;
  do h <- Buffer.destroy h b';;
  Ret (with_socket k (memory c) h (alloc c) (note c (Sent remote (Buffer.bytes (memory c) b) r))).

Section react.
Context (react : pipe -> received A -> list (answer A)).

Fixpoint do_answers (c : pipe) (l : list (answer A)) : outcome pipe :=
  match l with
  | [] => Ret c
  | SendTo remote b :: l => do c <- write c remote b;; do_answers c l
  | CloseDatagrams :: l => do_answers (close c) l
  end.

(** [cx->forward_read(u)]. *)
Definition forward_read (c : pipe) (u : received A) : outcome pipe :=
  let c := note c (match u with Received a b => Passed a (Buffer.bytes (memory c) b) | ReceiveError e => NoDatagram e end) in
  do_answers c (react c u).

(** The buffer goes out of scope. *)
Definition drop (c : pipe) (b : buffer) : outcome pipe :=
  do h <- Buffer.destroy (guards c) b;; Ret (with_socket (kernel c) (memory c) h (alloc c) c).

(** [data_sink::read(cx, e)]. *)
Definition read (c : pipe) (e : socket_event) : outcome pipe :=
  match e with
  | kReadable =>
      do '(s, h, f) <- fa_allocate (alloc c) (guards c) (Z.shiftl 1 16);;
      do '(h, b) <- Buffer.of_fragment h (Some f);;
      do '(k, remote, m, b, ret) <- read_buffer_from (kernel c) (memory c) (sock c) b endpoint_new;;
      let c := with_socket k m h s c in
      match ret with
      | Error error =>
          do c <- (if bool_decide (error = kEOF) then Ret (close c) else forward_read c (ReceiveError error));;
          drop c b
      | Value _ => forward_read c (Received remote b)
      end
  | kWritable | kClosing => Ret c
  end.

(** [data_sink::write(cx, e)]. *)
Definition write_event (c : pipe) (e : socket_event) : outcome pipe :=
  match e with
  | kClosing => let '(r, res) := Reactor.cancel (reactor c) (self c) in do _ <- res;; Ret (with_reactor r c)
  | kReadable | kWritable => Ret c
  end.

(** [socket_base::handle_read] and the others. *)
Definition on_callback (c : pipe) (cb : Reactor.callback) : outcome pipe :=
  match cb with
  | Reactor.handle_read => read c kReadable
  | Reactor.handle_write => read c kWritable
  | Reactor.handle_error | Reactor.handle_close => Ret (close c)
  end.

Fixpoint handle (c : pipe) (cbs : list Reactor.callback) : outcome pipe :=
  match cbs with
  | [] => Ret c
  | cb :: cbs => do c <- on_callback c cb;; handle c cbs
  end.

(** The next deferred [write(kClosing)]; the weak pointer of [defer] is empty once
    the reactor has dropped the pipe. *)
Definition run_posted (c : pipe) : outcome pipe :=
  match closes c with
  | O => Ret c
  | S n =>
      let c := with_closes n c in
      match Reactor.handlers (reactor c) !! self c with
      | None => Ret c
      | Some _ => write_event c kClosing
      end
  end.
End react.
End datagram.
Arguments pipe : clear implicits.
End Datagram.

(** ** What the kernel promises

    [outbox k d] are the datagrams the socket [d] has sent, [inbox k d] those it
    has handed out; one call sends or receives at most one, whole or, when there is
    no room for it, its front. *)
Class datagram_spec (K A : Type) `{datagram_api K A} := {
  outbox : K -> Z -> list (A * list Z);
  inbox : K -> Z -> list (A * list Z);
  sendto_ok k d a bs k' ret errno : sys_sendto k d a bs = (k', (ret, errno)) ->
    inbox k' = inbox k /\ (forall d', d' <> d -> outbox k' d' = outbox k d') /\
    ((ret = -1 /\ outbox k' d = outbox k d) \/
     (ret = zlen bs /\ ret < 2 ^ 31 /\ outbox k' d = outbox k d ++ [(a, bs)]));
  recvfrom_ok k d a room k' a' bs ret errno : 0 <= room -> sys_recvfrom k d a room = (k', a', bs, (ret, errno)) ->
    outbox k' = outbox k /\ (forall d', d' <> d -> inbox k' d' = inbox k d') /\
    ((ret = -1 /\ bs = [] /\ inbox k' d = inbox k d) \/
     (0 <= ret <= room /\ ret < 2 ^ 31 /\ zlen bs = ret /\ inbox k' d = inbox k d ++ [(a', bs)]))
}.

(** To a socket of Socket the datagrams are a stream. *)
#[local] Program Instance peer_spec {K A : Type} `{socket_api K} `{datagram_spec K A} : socket_spec (K * A) := {|
  wire ka d := outbox ka.1 d ≫= snd;
  heard ka d := inbox ka.1 d ≫= snd
|}.
Next Obligation.
  intros K A SA DA DS [k a] d bs [k' a'] ret errno E. cbn in E. destruct (sys_sendto k d a bs) as [k1 r] eqn:Es. injection E as -> <- ->.
  apply sendto_ok in Es as (Hi & Ho & Hr). cbn. rewrite Hi. split; [done|]. split; [intros d' Hd; by rewrite Ho|].
  destruct Hr as [[-> ->]|(-> & Hr & ->)]; [by left|right]. pose proof (zlen_nonneg bs). split; [lia|]. split; [done|].
  rewrite bind_app, ztake_ge by lia. cbn. by rewrite app_nil_r.
Qed.
Next Obligation.
  intros K A SA DA DS [k a] d room [k' a'] bs ret errno Hroom E. cbn in E.
  destruct (sys_recvfrom k d a room) as [[[k1 a1] bs1] r] eqn:Es. injection E as -> -> -> ->.
  apply recvfrom_ok in Es as (Ho & Hi & Hr); [|done]. cbn. rewrite Ho. split; [done|]. split; [intros d' Hd; by rewrite Hi|].
  destruct Hr as [(-> & -> & ->)|(Hret & H31 & Hz & ->)]; [by left|right]. do 3 (split; [done|]). rewrite bind_app. cbn. by rewrite app_nil_r.
Qed.

Section facts.
Context {K A E St : Type} {SA : socket_api K} {DA : datagram_api K A} {DS : datagram_spec K A} {EA : epoll_api E} {ES : epoll_spec E}
  {FA : fragment_allocator St} {FS : fragment_allocator_spec St} {CA : connection_allocator St}.
Import Datagram.
Abbreviation pipe := (Datagram.pipe K A E St).
Implicit Types (c : pipe) (live : list guard) (b : buffer) (m : mem).

(** What is owned outside of the pipe, which holds nothing between two calls. *)
Definition pipe_ok c live : Prop := guards_ok (guards c) live /\ fa_inv (alloc c) (guards c) live.

(** What was passed on of a trace, what was written with success, an empty buffer
    included, and what of that the socket sends: [write] reports an empty buffer as
    written without a call of the kernel. *)
Definition passed (l : list (noted A)) : list (A * list Z) := l ≫= (fun x => match x with Passed a bs => [(a, bs)] | _ => [] end).
Definition written (l : list (noted A)) : list (A * list Z) :=
  l ≫= (fun x => match x with Sent a bs (Value _) => [(a, bs)] | _ => [] end).
Definition nonempty (l : list (A * list Z)) : list (A * list Z) := filter (fun x => x.2 <> []) l.
Definition sent (l : list (noted A)) : list (A * list Z) := nonempty (written l).

Lemma passed_app l l' : passed (l ++ l') = passed l ++ passed l'.
Proof. apply bind_app. Qed.
Lemma sent_app l l' : sent (l ++ l') = sent l ++ sent l'.
Proof. unfold sent, nonempty, written. by rewrite bind_app, list.filter_app. Qed.

(** A pipe that owns nothing of what it has written or read loses no guard. *)
Lemma dgram_destroy_ok c b live : pipe_ok c (Buffer.guards b ++ live) ->
  exists h, Buffer.destroy (guards c) b = Ret h /\ guards_ok h live /\ fa_inv (alloc c) h live.
Proof.
  intros [Hg Ha]. destruct (dispose_ok (guards c) (bf_frags b) live Hg) as (h & Ed & Hok & Hp). exists h. split; [exact Ed|].
  split; [done|]. by apply (ca_stable _ _ _ _ _ Ha).
Qed.

(** A buffer that may be written: one datagram. *)
Definition legal_datagram b : Prop :=
  Buffer.wf b /\ bf_size b < 2 ^ 31 /\ zlen (data_ranges (bf_frags b)) < IovecAdapter.IOV_MAX.

(** One call of the kernel at most. *)
Lemma write_buffer_to_ok k m h s b remote live : legal_datagram b -> guards_ok h (Buffer.guards b ++ live) ->
  exists k' h' b' r, write_buffer_to k m h s b remote = Ret (k', h', b', r) /\ inbox k' = inbox k /\
    outbox k' s = outbox k s ++ sent [Sent remote (Buffer.bytes m b) r] /\
    guards_ok h' (Buffer.guards b' ++ live) /\
    pending h' (Buffer.guards b' ++ live) ++ frees h' ≡ₚ pending h (Buffer.guards b ++ live) ++ frees h.
Proof.
  intros (Hb & H31 & Hv) Hg. pose proof (buffer_size_range b Hb). pose proof (zlen_buffer m b Hb) as Hz.
  unfold write_buffer_to, Socket.write, Buffer.size. case_if.
  { cbn [bindO]. eexists k, h, b, (Value 0). split; [done|]. split; [done|]. split; [|done].
    unfold sent, nonempty. cbn [written mbind list_bind app]. rewrite list.filter_cons_False; [by rewrite app_nil_r|].
    intros Hn. apply Hn, zlen_zero. cbn. lia. }
  cbn [Socket.write_loop]. rewrite fill_readable_ok by (done || unfold IovecAdapter.IOV_MAX; lia). cbn [bindO]. rewrite ztake_ge by lia.
  assert (Socket.iov_bytes m (data_ranges (bf_frags b)) = Buffer.bytes m b) as Eb.
  { rewrite buffer_bytes_cat. by apply data_ranges_bytes, (Buffer.wf_frags _ Hb). }
  unfold Socket.write_iov. destruct (data_ranges (bf_frags b)) as [|r0 l] eqn:Er.
  { cbn in Eb. rewrite <- Eb, (zlen_nil (A := Z)) in Hz. lia. }
  rewrite Eb. cbn [sys_sendmsg peer_api]. destruct (sys_sendto k s remote (Buffer.bytes m b)) as [k1 [ret errno]] eqn:Es.
  apply sendto_ok in Es as (Hi & _ & [[-> Ho]|(-> & _ & Ho)]).
  - cbn [Z.eqb]. match goal with |- context [if ?e then Error kRetry else _] => destruct e end;
      (eexists k1, h, b, (Error _); split; [reflexivity|]; split; [done|]; split; [by rewrite Ho, app_nil_r|done]).
  - rewrite (proj2 (Z.eqb_neq (-1) _)), (proj2 (Z.eqb_neq 0 _)), Hz, u64_id by (unfold_pow2; lia).
    destruct (buffer_skip_ok m h b (bf_size b) true live Hb Hg ltac:(unfold_pow2; lia)) as (h1 & b1 & Ek & _ & _ & Hg1 & Hp1).
    rewrite Ek. cbn [bindO]. rewrite (proj2 (Z.leb_gt _ _)), (proj2 (Z.eqb_neq _ _)) by lia. cbn [bindO fst].
    exists k1, h1, b1, (Value (bf_size b)). split; [done|]. split; [done|]. split; [|done]. rewrite Ho. unfold sent, nonempty.
    cbn [written mbind list_bind app]. rewrite list.filter_cons_True; [done|]. cbn. intros En. rewrite En, (zlen_nil (A := Z)) in Hz. lia.
Qed.

(** What a call may change that passes nothing up: it only sends. *)
Definition only_sends c c' : Prop :=
  sock c' = sock c /\ self c' = self c /\ reactor c' = reactor c /\ inbox (kernel c') = inbox (kernel c) /\
  exists l, trace c' = trace c ++ l /\ passed l = [] /\ outbox (kernel c') (sock c) = outbox (kernel c) (sock c) ++ sent l.

Lemma only_sends_refl c : only_sends c c.
Proof. do 4 (split; [done|]). exists []. by rewrite !app_nil_r. Qed.

Lemma only_sends_trans c c1 c2 : only_sends c c1 -> only_sends c1 c2 -> only_sends c c2.
Proof.
  intros (A1 & A2 & A3 & A4 & l1 & A5 & A6 & A7) (B1 & B2 & B3 & B4 & l2 & B5 & B6 & B7).
  do 4 (split; [congruence|]). exists (l1 ++ l2). rewrite B5, A5, passed_app, sent_app, A6, B6, app_assoc. do 2 (split; [done|]).
  rewrite A1 in B7. by rewrite B7, A7, app_assoc.
Qed.

Lemma dgram_write_ok c remote b live : legal_datagram b -> pipe_ok c (Buffer.guards b ++ live) ->
  exists c', write c remote b = Ret c' /\ pipe_ok c' live /\ only_sends c c'.
Proof.
  intros Hl [Hg Ha]. destruct (write_buffer_to_ok (kernel c) (memory c) (guards c) (sock c) b remote live Hl Hg)
    as (k' & h' & b' & r & E1 & Hi & Ho & Hg' & Hp'). unfold write. rewrite E1. cbn [bindO].
  destruct (dgram_destroy_ok (with_socket k' (memory c) h' (alloc c) c) b' live) as (h2 & E2 & Hg2 & Ha2).
  { split; [exact Hg'|]. by apply (ca_stable _ _ _ _ _ Ha). }
  cbn [guards with_socket] in E2. rewrite E2. cbn [bindO]. eexists. split; [reflexivity|]. split; [by split|].
  do 4 (split; [done|]). eexists. split; [reflexivity|]. by split.
Qed.

(** An empty buffer is reported as written, and no datagram is sent for it. *)
Lemma empty_write_sends_nothing c remote b live : Buffer.wf b -> bf_size b = 0 -> pipe_ok c (Buffer.guards b ++ live) ->
  exists c', write c remote b = Ret c' /\ kernel c' = kernel c /\ trace c' = trace c ++ [Sent remote [] (Value 0)] /\ pipe_ok c' live.
Proof.
  intros Hb Hz Hc. destruct (dgram_destroy_ok c b live Hc) as (h & Ed & Hok).
  unfold write, write_buffer_to, Socket.write, Buffer.size. rewrite Hz. cbn. rewrite Ed. cbn [bindO].
  rewrite (zlen_zero (Buffer.bytes (memory c) b)) by (by rewrite zlen_buffer).
  eexists. do 3 (split; [reflexivity|]). exact Hok.
Qed.

(** ** The next filter *)

(** [live] guards what the next filter holds. *)
Fixpoint legal_answers live (l : list (answer A)) : Prop :=
  match l with
  | [] => True
  | SendTo _ b :: l => legal_datagram b /\ exists live', live ≡ₚ Buffer.guards b ++ live' /\ legal_answers live' l
  | CloseDatagrams :: l => legal_answers live l
  end.

Definition offered (u : received A) live : Prop :=
  match u with Received _ b => legal_datagram b /\ exists live', live ≡ₚ Buffer.guards b ++ live' | ReceiveError _ => True end.

Definition legal_react (react : pipe -> received A -> list (answer A)) : Prop :=
  forall c u live frame, pipe_ok c (live ++ frame) -> offered u live -> legal_answers live (react c u).

Lemma pipe_ok_perm c live live' : live ≡ₚ live' -> pipe_ok c live -> pipe_ok c live'.
Proof. intros Hp [H1 H2]. split; [by eapply guards_ok_perm|]. apply (ca_stable _ _ _ _ _ H2). unfold pending, owned. by rewrite Hp. Qed.

Lemma do_answers_ok l : forall c live frame, pipe_ok c (live ++ frame) -> legal_answers live l ->
  exists c' live', do_answers c l = Ret c' /\ pipe_ok c' (live' ++ frame) /\ only_sends c c'.
Proof.
  induction l as [|[a b|] l IH]; intros c live frame Hc Hl; cbn [do_answers legal_answers] in *.
  - exists c, live. split; [done|]. split; [done|apply only_sends_refl].
  - destruct Hl as (Hb & live1 & Hp & Hl). destruct (dgram_write_ok c a b (live1 ++ frame) Hb) as (c1 & E1 & Hc1 & Hs1).
    { apply (pipe_ok_perm _ (live ++ frame)); [by rewrite Hp, app_assoc|done]. }
    rewrite E1. cbn [bindO]. destruct (IH c1 live1 frame Hc1 Hl) as (c2 & live2 & E2 & Hc2 & Hs2).
    exists c2, live2. split; [done|]. split; [done|by apply (only_sends_trans c c1)].
  - destruct (IH (close c) live frame Hc Hl) as (c2 & live2 & E2 & Hc2 & Hs2). exists c2, live2. by split.
Qed.

(** ** Reading *)

(** What a call that reads may change: what was handed out is passed on, but for
    empty datagrams. *)
Definition transfers c c' : Prop :=
  sock c' = sock c /\ self c' = self c /\ exists l j, trace c' = trace c ++ l /\
    outbox (kernel c') (sock c) = outbox (kernel c) (sock c) ++ sent l /\
    inbox (kernel c') (sock c) = inbox (kernel c) (sock c) ++ j /\ passed l = nonempty j.

Lemma transfers_refl c : transfers c c.
Proof. do 2 (split; [done|]). exists [], []. by rewrite !app_nil_r. Qed.

Lemma transfers_trans c c1 c2 : transfers c c1 -> transfers c1 c2 -> transfers c c2.
Proof.
  intros (A1 & A2 & l1 & j1 & A3 & A4 & A5 & A6) (B1 & B2 & l2 & j2 & B3 & B4 & B5 & B6). rewrite A1 in B4, B5.
  do 2 (split; [congruence|]). exists (l1 ++ l2), (j1 ++ j2). unfold nonempty in *.
  by rewrite B3, A3, B4, A4, B5, A5, passed_app, sent_app, list.filter_app, A6, B6, !app_assoc.
Qed.

Lemma sends_transfers c c' : only_sends c c' -> transfers c c'.
Proof.
  intros (A1 & A2 & _ & A4 & l & A5 & A6 & A7). do 2 (split; [done|]). exists l, []. by rewrite A4, A6, app_nil_r.
Qed.

(** A call on the kernel hands out [j]. *)
Lemma read_buffer_from_ok c f a live : Fragment.wf f -> fr_size f = 0 -> 0 < Fragment.tailroom f ->
  let b := mk_buffer [f] 0 in
  exists k' a' m' b' r j, read_buffer_from (kernel c) (memory c) (sock c) b a = Ret (k', a', m', b', r) /\
    outbox k' = outbox (kernel c) /\ inbox k' (sock c) = inbox (kernel c) (sock c) ++ j /\
    Buffer.guards b' = [Fragment.guard f] /\ legal_datagram b' /\
    match r with
    | Value _ => j = [(a', Buffer.bytes m' b')] /\ Buffer.bytes m' b' <> []
    | Error e => nonempty j = [] /\ (j <> [] -> e = kEOF)
    end.
Proof.
  intros Hf Hs Ht b. assert (Hb : Buffer.wf b) by (split; cbn; [by constructor|lia|lia]).
  assert (Hpr : tail_private b) by (cbn; constructor; [|constructor]; right; left; lia).
  destruct (socket_read_ok (kernel c, a) (memory c) (sock c) b Hb Ht Hpr ltac:(cbn; lia))
    as ([k' a'] & m' & b' & r & bs & Er & (_ & _ & Hheard) & W1 & W2 & W3 & W4 & f0 & W5 & W6 & W7 & W8 & W9).
  unfold read_buffer_from. rewrite Er. cbn [bindO fst snd]. cbn in W5. injection W5 as <-.
  assert (Eb : Buffer.bytes (memory c) b = []) by (rewrite buffer_bytes_cat; cbn; unfold Fragment.bytes; by rewrite Hs).
  rewrite Eb in W3. cbn [app] in W3.
  assert (Hl : legal_datagram b').
  { split; [done|]. rewrite <- (zlen_buffer m' b' W1), W3. split; [done|].
    destruct (bf_frags b') as [|f1 [|f2 l]]; try discriminate W9. cbn. by case_decide. }
  assert (exists j, outbox k' = outbox (kernel c) /\ inbox k' (sock c) = inbox (kernel c) (sock c) ++ j /\
    match r with Value _ => j = [(a', bs)] | Error e => nonempty j = [] /\ (j <> [] -> e = kEOF) end) as (j & Ho & Hi & Hj).
  { unfold Socket.read, IovecAdapter.fill_writable_iovec in Er. cbn [bf_frags b list.last] in Er.
    rewrite (proj2 (Z.eqb_neq 0 _)) in Er by (cbn in Ht |- *; lia). unfold Range.empty in Er. cbn [Fragment.tail_range r_size] in Er.
    rewrite (proj2 (Z.eqb_neq _ 0)) in Er by (cbn in Ht; lia). unfold Socket.read_iov in Er. cbn [sys_recvmsg peer_api r_size Fragment.tail_range] in Er.
    destruct (sys_recvfrom _ _ _ _) as [[[k1 a1] bs1] [ret errno]] eqn:Es. apply recvfrom_ok in Es as (Ho & _ & Hr); [|cbn in Ht; lia].
    destruct Hr as [(-> & -> & Hi)|(Hret & _ & Hz & Hi)].
    - cbn [Z.eqb] in Er. destruct ((EAGAIN =? errno) || (EWOULDBLOCK =? errno)); [|destruct (ECONNRESET =? errno)];
        injection Er as <- <- <- <- <-; exists []; rewrite app_nil_r; by repeat split.
    - rewrite (proj2 (Z.eqb_neq (-1) ret)) in Er by lia. destruct (Z.eqb_spec 0 ret).
      + injection Er as <- <- <- <- <-. exists [(a1, bs1)]. split; [done|]. split; [done|]. assert (bs1 = []) as -> by (apply zlen_zero; lia). done.
      + destruct (IovecAdapter.report_written b (u64 ret)) eqn:Ew; try discriminate Er. injection Er as <- <- Em <- <-.
        exists [(a1, bs1)]. split; [done|]. split; [done|]. cbn in Hheard. rewrite Hi, bind_app in Hheard.
        cbn in Hheard. rewrite app_nil_r in Hheard. by apply app_inv_head in Hheard as ->. }
  exists k', a', m', b', r, j. rewrite W2. split; [done|]. split; [done|]. split; [done|]. split; [done|]. split; [done|].
  destruct r as [n|e]; [|done]. rewrite W3. split; [done|]. intros ->. destruct W4. rewrite (zlen_nil (A := Z)) in *. lia.
Qed.

Context (react : pipe -> received A -> list (answer A)) (Hreact : legal_react react).

Lemma forward_ok c u live frame : pipe_ok c (live ++ frame) -> offered u live ->
  exists c' live', forward_read react c u = Ret c' /\ pipe_ok c' (live' ++ frame) /\
    only_sends (note c (match u with Received a b => Passed a (Buffer.bytes (memory c) b) | ReceiveError e => NoDatagram e end)) c'.
Proof. intros Hc Ho. unfold forward_read. apply (do_answers_ok _ _ live frame); [exact Hc|]. by eapply Hreact. Qed.

Definition settles c (c' : pipe) : Prop := transfers c c' /\ reactor c' = reactor c /\ exists live', pipe_ok c' live'.

(** A step that hands out [j] and passes it on as [x]. *)
Lemma transfers_noted c c1 c2 x j : sock c1 = sock c -> self c1 = self c -> trace c1 = trace c ++ [x] ->
  outbox (kernel c1) = outbox (kernel c) -> sent [x] = [] -> inbox (kernel c1) (sock c) = inbox (kernel c) (sock c) ++ j ->
  passed [x] = nonempty j -> only_sends c1 c2 -> transfers c c2.
Proof.
  intros H1 H2 H3 H4 H5 H6 H7 Hs. apply (transfers_trans c c1); [|by apply sends_transfers].
  do 2 (split; [done|]). exists [x], j. by rewrite H4, H5, app_nil_r.
Qed.

Lemma dgram_drop_ok c b live : pipe_ok c (Buffer.guards b ++ live) -> exists c', drop c b = Ret c' /\ pipe_ok c' live /\ only_sends c c'.
Proof.
  intros Hc. destruct (dgram_destroy_ok c b live Hc) as (h & Ed & Hg & Ha). unfold drop. rewrite Ed. cbn [bindO]. eexists. split; [done|].
  split; [by split|]. do 4 (split; [done|]). exists []. by rewrite !app_nil_r.
Qed.

Lemma dgram_read_ok c : (exists live, pipe_ok c live) -> forall endpoint_new, exists c', read endpoint_new react c kReadable = Ret c' /\ settles c c'.
Proof.
  intros [live [Hg Ha]] a. unfold read. destruct (fa_allocate_ok (alloc c) (guards c) live (Z.shiftl 1 16) Ha Hg ltac:(vm_compute; done))
    as (s & h & f & Ef & Hf & Fs & _ & Ft & Hg1 & Ha1). rewrite Ef. cbn [bindO]. change (Z.shiftl 1 16) with 65536 in Ft.
  unfold Buffer.of_fragment. cbn [derefO bindO]. rewrite (proj2 (Z.eqb_neq (Fragment.tailroom f) 0)), andb_false_r by lia. cbn [bindO].
  unfold Fragment.size. rewrite Fs.
  destruct (read_buffer_from_ok c f a live Hf Fs ltac:(lia)) as (k & a' & m & b & r & j & Er & Ho & Hi & Hgb & Hl & Hj).
  rewrite Er. cbn [bindO]. set (c1 := with_socket k m h s c).
  assert (Hc1 : pipe_ok c1 (Buffer.guards b ++ live)) by (rewrite Hgb; by split).
  destruct r as [n|e].
  - destruct Hj as [-> Hne]. destruct (forward_ok c1 (Received a' b) (Buffer.guards b ++ live) []) as (c2 & live2 & E2 & Hc2 & Hs2).
    { by rewrite app_nil_r. }
    { split; [done|]. by exists live. }
    exists c2. split; [exact E2|]. split; [|split; [by apply Hs2|by exists (live2 ++ [])]].
    eapply (transfers_noted c _ c2 _ [(a', Buffer.bytes m b)]); [..|exact Hs2]; try done.
    cbn [kernel c1 with_socket]. unfold nonempty. by rewrite list.filter_cons_True.
  - destruct Hj as [Hne Heof]. case_bool_decide as Ee; cbn [bindO].
    + destruct (dgram_drop_ok (close c1) b live Hc1) as (c2 & E2 & Hc2 & Hs2). exists c2. split; [exact E2|].
      split; [|split; [by apply Hs2|by exists live]]. apply (transfers_trans c (close c1)); [|by apply sends_transfers].
      do 2 (split; [done|]). exists [], j. cbn [kernel trace close c1 with_closes with_socket sock]. by rewrite Ho, !app_nil_r, Hne.
    + assert (j = []) as -> by (destruct j; [done|]; destruct Ee; by apply Heof).
      destruct (forward_ok c1 (ReceiveError e) live (Buffer.guards b)) as (c2 & live2 & E2 & Hc2 & Hs2).
      { apply (pipe_ok_perm _ (Buffer.guards b ++ live)); [by rewrite Permutation_app_comm|done]. }
      { done. }
      rewrite E2. cbn [bindO]. destruct (dgram_drop_ok c2 b live2) as (c3 & E3 & Hc3 & Hs3).
      { apply (pipe_ok_perm _ (live2 ++ Buffer.guards b)); [by rewrite Permutation_app_comm|done]. }
      exists c3. split; [exact E3|]. split; [|split; [by rewrite (proj1 (proj2 (proj2 Hs3))), (proj1 (proj2 (proj2 Hs2)))|by exists live2]].
      apply (transfers_trans c c2); [|by apply sends_transfers]. by eapply (transfers_noted c _ c2 _ []); [..|exact Hs2].
Qed.

(** ** Events and executions *)

Definition attached c : Prop := reactor_ok (reactor c) /\ is_Some (Reactor.handlers (reactor c) !! self c).

(** What has happened is in the trace. *)
Definition accounted c : Prop :=
  outbox (kernel c) (sock c) = sent (trace c) /\ nonempty (inbox (kernel c) (sock c)) = passed (trace c) /\ exists live, pipe_ok c live.

Lemma transfers_accounted c c' : transfers c c' -> (exists live, pipe_ok c' live) -> accounted c -> accounted c'.
Proof.
  intros (A1 & A2 & l & j & A3 & A4 & A5 & A6) Hl (B1 & B2 & _). unfold accounted, nonempty in *.
  by rewrite A1, A3, A4, A5, sent_app, passed_app, list.filter_app, A6, B1, B2.
Qed.

Variable endpoint_new : A.

Lemma dgram_on_callback_ok c cb : attached c -> accounted c ->
  leads False (fun c' => attached c' /\ accounted c') (on_callback endpoint_new react c cb).
Proof.
  intros [Hr Hin] Hacc. destruct cb; cbn [on_callback].
  - destruct (dgram_read_ok c (proj2 (proj2 Hacc)) endpoint_new) as (c' & -> & Ht & Hr' & Hl). cbn [leads].
    split; [|by apply (transfers_accounted c)]. unfold attached. rewrite Hr'. by rewrite (proj1 (proj2 Ht)).
  - by split.
  - by split.
  - by split.
Qed.

Lemma dgram_handle_ok cbs : forall c, attached c -> accounted c ->
  leads False (fun c' => attached c' /\ accounted c') (handle endpoint_new react c cbs).
Proof.
  induction cbs as [|cb cbs IH]; intros c Ha Hc; [by split|]. cbn [handle].
  eapply leads_bind; [by apply dgram_on_callback_ok|]. intros c' [Ha' Hc']. by apply IH.
Qed.

Lemma dgram_run_posted_ok c : reactor_ok (reactor c) -> accounted c ->
  leads False (fun c' => reactor_ok (reactor c') /\ accounted c') (run_posted c).
Proof.
  intros Hr Hacc. unfold run_posted. destruct (closes c) as [|n]; [by split|]. cbn [write_event reactor self with_closes].
  destruct (Reactor.handlers (reactor c) !! self c) eqn:Eh; [|by split].
  destruct (cancel_ok (reactor c) (self c) Hr ltac:(by eexists)) as (H1 & H2 & _). pose proof (cancel_call (reactor c) (self c)) as H3.
  destruct (Reactor.cancel (reactor c) (self c)) as [r res]. cbn [fst snd] in *. destruct res as [u| |x| |]; cbn; [|done|by destruct x|done..].
  by split.
Qed.

Inductive step : pipe -> pipe -> Prop :=
  | step_write c remote b live c' : legal_datagram b -> pipe_ok c (Buffer.guards b ++ live) -> write c remote b = Ret c' -> step c c'
  | step_close c : step c (close c)
  | step_event c cbs c' : is_Some (Reactor.handlers (reactor c) !! self c) -> handle endpoint_new react c cbs = Ret c' -> step c c'
  | step_posted c c' : run_posted c = Ret c' -> step c c'
  | step_deferred c : step c (with_reactor (Reactor.run_deferred (reactor c)) c)
  | step_world c k m h s live : outbox k (sock c) = outbox (kernel c) (sock c) -> inbox k (sock c) = inbox (kernel c) (sock c) ->
      pipe_ok (with_socket k m h s c) live -> step c (with_socket k m h s c).

Definition starts c : Prop :=
  reactor_ok (reactor c) /\ trace c = [] /\ outbox (kernel c) (sock c) = [] /\ inbox (kernel c) (sock c) = [] /\ exists live, pipe_ok c live.

Lemma dgram_step_ok c c' : step c c' -> reactor_ok (reactor c) -> accounted c -> reactor_ok (reactor c') /\ accounted c'.
Proof.
  intros Hs Hr Hacc. destruct Hs as [c a b live c' Hb Hc Ew|c|c cbs c' Hin Eh|c c' Ep|c|c k m h s live Ho Hi Hc].
  - destruct (dgram_write_ok c a b live Hb Hc) as (c1 & E1 & Hc1 & Hs1). rewrite E1 in Ew. injection Ew as <-.
    rewrite (proj1 (proj2 (proj2 Hs1))). split; [done|]. apply (transfers_accounted c); [by apply sends_transfers|by exists live|done].
  - by split.
  - pose proof (dgram_handle_ok cbs c (conj Hr Hin) Hacc) as H. rewrite Eh in H. destruct H as [[H1 _] H2]. done.
  - pose proof (dgram_run_posted_ok c Hr Hacc) as H. by rewrite Ep in H.
  - split; [by apply run_deferred_ok|]. done.
  - split; [done|]. destruct Hacc as (H1 & H2 & _). unfold accounted. cbn [kernel sock trace with_socket]. rewrite Ho, Hi. do 2 (split; [done|]). by exists live.
Qed.

Lemma reachable_accounted c0 c : starts c0 -> rtc step c0 c -> reactor_ok (reactor c) /\ accounted c.
Proof.
  intros (H1 & H2 & H3 & H4 & H5) Hs. assert (Hacc : accounted c0) by (unfold accounted; by rewrite H2, H3, H4).
  clear H2 H3 H4 H5. revert H1 Hacc. induction Hs as [c|c c1 c2 Hstep _ IH]; [done|]. intros Hr Hacc.
  destruct (dgram_step_ok c c1 Hstep Hr Hacc) as [H1 H2]. by apply IH.
Qed.
End facts.

(** C27: In every execution of a datagram pipe whose filters write buffers of
    fewer than [IOV_MAX] fragments and 2^31 bytes that they own, the datagrams the socket has sent
    are the non-empty buffers that were written with success, each as one datagram to
    the address it was written for, in order; a write that failed is never sent, and
    a write of an empty buffer succeeds and sends nothing.  The datagrams the socket
    handed out are passed on in order with their addresses, except that empty ones
    are not.  The pipe keeps no fragment, an event is handled to its end, and only a
    failing [epoll_ctl] throws. *)
Theorem datagrams_keep_boundaries {K A E St : Type} {SA : socket_api K} {DA : datagram_api K A} {DS : datagram_spec K A}
    {EA : epoll_api E} {ES : epoll_spec E} {FA : fragment_allocator St} {FS : fragment_allocator_spec St} {CA : connection_allocator St}
    (react : Datagram.pipe K A E St -> received A -> list (answer A)) (endpoint_new : A) (c0 c : Datagram.pipe K A E St)
    (cbs : list Reactor.callback) :
  legal_react react -> starts c0 -> rtc (step react endpoint_new) c0 c ->
  outbox (Datagram.kernel c) (Datagram.sock c) = nonempty (written (Datagram.trace c)) /\
  nonempty (inbox (Datagram.kernel c) (Datagram.sock c)) = passed (Datagram.trace c) /\
  (exists live, guards_ok (Datagram.guards c) live) /\
  (is_Some (Reactor.handlers (Datagram.reactor c) !! Datagram.self c) ->
   leads False (step react endpoint_new c) (Datagram.handle endpoint_new react c cbs)) /\
  leads False (step react endpoint_new c) (Datagram.run_posted c).
Proof.
  intros Hreact Hst Hs. destruct (reachable_accounted react Hreact endpoint_new c0 c Hst Hs) as [Hr Hacc].
  pose proof Hacc as (H1 & H2 & live & H3 & _). split; [done|]. split; [done|]. split; [by exists live|]. split.
  - intros Hin. pose proof (dgram_handle_ok react Hreact endpoint_new cbs c (conj Hr Hin) Hacc) as H.
    destruct (Datagram.handle _ _ _ _) eqn:Eh; cbn in *; [by eapply step_event|done..].
  - pose proof (dgram_run_posted_ok c Hr Hacc) as H. destruct (Datagram.run_posted c) eqn:Ep; cbn in *; [by eapply step_posted|done..].
Qed.

(** An empty datagram, which a peer may send, closes the pipe: [recvmsg] returns
    0, the socket takes it for the end of a stream, and the sink defers the closing.
    Nothing is passed on. *)
Theorem empty_datagram_closes {K A E St : Type} {SA : socket_api K} {DA : datagram_api K A} {EA : epoll_api E}
    {FA : fragment_allocator St} {FS : fragment_allocator_spec St} {CA : connection_allocator St}
    (react : Datagram.pipe K A E St -> received A -> list (answer A)) (endpoint_new a' : A) (c : Datagram.pipe K A E St)
    (live : list guard) (k' : K) (errno : Z) :
  pipe_ok c live ->
  (forall room, 0 <= room -> sys_recvfrom (Datagram.kernel c) (Datagram.sock c) endpoint_new room = (k', a', [], (0, errno))) ->
  exists c', Datagram.on_callback endpoint_new react c Reactor.handle_read = Ret c' /\
    Datagram.closes c' = S (Datagram.closes c) /\ Datagram.trace c' = Datagram.trace c /\ pipe_ok c' live.
Proof.
  intros [Hg Ha] Hk. cbn [Datagram.on_callback]. unfold Datagram.read.
  destruct (fa_allocate_ok (Datagram.alloc c) (Datagram.guards c) live (Z.shiftl 1 16) Ha Hg ltac:(vm_compute; done))
    as (s & h & f & Ef & Hf & Fs & _ & Ft & Hg1 & Ha1). rewrite Ef. cbn [bindO]. change (Z.shiftl 1 16) with 65536 in Ft.
  unfold Buffer.of_fragment. cbn [derefO bindO]. rewrite (proj2 (Z.eqb_neq (Fragment.tailroom f) 0)), andb_false_r by lia. cbn [bindO].
  unfold Datagram.read_buffer_from, Socket.read, IovecAdapter.fill_writable_iovec, Range.empty. cbn [Buffer.tailroom bf_frags list.last].
  unfold Buffer.tailroom. cbn [bf_frags list.last Fragment.tail_range r_size]. rewrite (proj2 (Z.eqb_neq 0 _)), (proj2 (Z.eqb_neq _ 0)) by lia.
  unfold Socket.read_iov. cbn [sys_recvmsg peer_api r_size r_data Fragment.tail_range]. rewrite Hk by lia. cbn [Z.eqb bindO fst snd].
  rewrite bool_decide_eq_true_2 by done. cbn [bindO].
  set (c1 := Datagram.with_socket _ _ _ _ _). destruct (dgram_destroy_ok (Datagram.close c1) (mk_buffer [f] (Fragment.size f)) live) as (h2 & Ed & Hg2 & Ha2).
  { by split. }
  unfold Datagram.drop. cbn [Datagram.guards Datagram.close Datagram.with_closes c1 Datagram.with_socket] in Ed |- *. rewrite Ed. cbn [bindO].
  eexists. split; [reflexivity|]. split; [reflexivity|]. split; [reflexivity|]. by split.
Qed.

(** ** The properties at concrete inputs *)

(** What each socket has sent and handed out, and what the next calls answer: an
    [errno], or a datagram that arrives or, when sending, that there is room. *)
Record ex_network := Network { en_outbox : Z -> list (Z * list Z); en_inbox : Z -> list (Z * list Z); en_next : list (Z * list Z + Z) }.

Definition en_add (f : Z -> list (Z * list Z)) (d a : Z) (bs : list Z) : Z -> list (Z * list Z) :=
  fun x => if x =? d then f d ++ [(a, bs)] else f x.

#[export] Instance ex_network_socket : socket_api ex_network := {|
  sys_sendmsg k d bs := (k, (-1, EAGAIN));
  sys_recvmsg k d room := (k, [], (-1, EAGAIN));
  sys_close k d := (k, (0, 0));
  sys_connect k d := (k, (0, 0));
  sys_accept4 k d := (k, (-1, EAGAIN));
  sys_setsockopt k d o := (k, (0, 0))
|}.

#[export] Instance ex_network_api : datagram_api ex_network Z := {|
  sys_sendto k d a bs :=
    match en_next k with
    | inl _ :: l =>
        if zlen bs <? 2 ^ 31 then (Network (en_add (en_outbox k) d a bs) (en_inbox k) l, (zlen bs, 0)) else (k, (-1, EAGAIN))
    | inr e :: l => (Network (en_outbox k) (en_inbox k) l, (-1, e))
    | [] => (k, (-1, EAGAIN))
    end;
  sys_recvfrom k d a room :=
    match en_next k with
    | inl (a', bs) :: l =>
        let got := ek_clip room bs in (Network (en_outbox k) (en_add (en_inbox k) d a' got) l, a', got, (zlen got, 0))
    | inr e :: l => (Network (en_outbox k) (en_inbox k) l, a, [], (-1, e))
    | [] => (k, a, [], (-1, EAGAIN))
    end
|}.

Lemma en_add_same f d a bs : en_add f d a bs d = f d ++ [(a, bs)].
Proof. unfold en_add. by rewrite Z.eqb_refl. Qed.
Lemma en_add_other f d a bs d' : d' <> d -> en_add f d a bs d' = f d'.
Proof. intros Hd. unfold en_add. by rewrite (proj2 (Z.eqb_neq d' d)). Qed.

#[export] Program Instance ex_network_spec : datagram_spec ex_network Z := {| outbox := en_outbox; inbox := en_inbox |}.
Next Obligation.
  intros k d a bs k' ret errno Ek. cbn in Ek. destruct (en_next k) as [|[[a0 b0]|e] l]; [|destruct (Z.ltb_spec (zlen bs) (2 ^ 31))|];
    injection Ek as <- <- <-; cbn; (split; [done|]); (split; [intros d' Hd; by rewrite ?en_add_other|]); [by left| |by left..].
  right. rewrite en_add_same. by split.
Qed.
Next Obligation.
  intros k d a room k' a' bs ret errno Hr Ek. cbn in Ek. destruct (en_next k) as [|[[a0 b0]|e] l]; injection Ek as <- <- <- <- <-; cbn;
    (split; [done|]); (split; [intros d' Hd; by rewrite ?en_add_other|]); [by left| |by left].
  right. rewrite en_add_same. pose proof (ek_clip_len room b0 Hr) as (H1 & H2 & H3). split; [lia|]; split; [done|]; by split.
Qed.

#[local] Existing Instance simple_fragment_allocator.
Abbreviation ex_pipe_type := (Datagram.pipe ex_network Z (gmap Z (Z * Z)) Z).

(** An echo. *)
Definition ex_echo_datagram (c : ex_pipe_type) (u : received Z) : list (answer Z) :=
  match u with Received a b => [SendTo a b] | ReceiveError _ => [CloseDatagrams] end.

Lemma ex_echo_datagram_legal : legal_react ex_echo_datagram.
Proof. intros c [a b|e] live frame Hc Ho; [|done]. destruct Ho as (Hb & live' & Hp). split; [done|]. by exists live'. Qed.

(** A datagram from 7 arrives, then an empty one. *)
Definition ex_pipe : ex_pipe_type :=
  Datagram.Pipe (Network (fun _ => []) (fun _ => []) [inl (7, [1; 2; 3]); inl (0, []); inl (8, [])]) ∅ (mk_gheap ∅ 1 []) 1000000 ex_reactor 64 3 0 [].

Definition ex_pipe1 : ex_pipe_type :=
  match Datagram.handle 0 ex_echo_datagram ex_pipe [Reactor.handle_read] with Ret c => c | _ => ex_pipe end.

Lemma ex_pipe_starts : starts ex_pipe.
Proof.
  split; [apply ex_reactor_ok|]. do 3 (split; [done|]). exists []. split; [apply guards_ok_start|]. split; [done|constructor].
Qed.

Lemma ex_pipe1_reached : rtc (step ex_echo_datagram 0) ex_pipe ex_pipe1.
Proof.
  eapply rtc_l; [|apply rtc_refl]. apply (step_event ex_echo_datagram 0 ex_pipe [Reactor.handle_read]).
  - exists (Reactor.Handler 3 kRead (Some (Reactor.Event kRead true)) true). reflexivity.
  - vm_compute. reflexivity.
Qed.

Lemma datagrams_keep_boundaries_witness : outbox (Datagram.kernel ex_pipe1) 3 = [(7, [1; 2; 3])].
Proof.
  destruct (datagrams_keep_boundaries ex_echo_datagram 0 ex_pipe ex_pipe1 [] ex_echo_datagram_legal ex_pipe_starts ex_pipe1_reached) as (Hs & _).
  refine (eq_trans Hs _). vm_compute. reflexivity.
Defined.

Lemma empty_datagram_closes_witness : exists c, Datagram.on_callback 0 ex_echo_datagram ex_pipe1 Reactor.handle_read = Ret c /\ Datagram.closes c = 1%nat.
Proof.
  destruct (reachable_accounted ex_echo_datagram ex_echo_datagram_legal 0 ex_pipe ex_pipe1 ex_pipe_starts ex_pipe1_reached) as [_ (_ & _ & live & Hl)].
  destruct (empty_datagram_closes ex_echo_datagram 0 8 ex_pipe1 live
    (Network (en_outbox (Datagram.kernel ex_pipe1)) (en_add (en_inbox (Datagram.kernel ex_pipe1)) 3 8 []) []) 0) as (c & Hc & Hn & _).
  - exact Hl.
  - intros room Hroom. cbn [sys_recvfrom ex_network_api].
    replace (en_next (Datagram.kernel ex_pipe1)) with [inl (8, @nil Z) : Z * list Z + Z] by (vm_compute; reflexivity).
    unfold ek_clip, ztake. rewrite take_nil. reflexivity.
  - exists c. split; [exact Hc|exact Hn].
Defined.
