(* ===== verification/Startup.v ===== *)
(** * Startup: starting the worker threads

    [scheduler::start] (xi/core/scheduler.h) and [coordinator::start]
    (xi/core/coordinator.h) create a thread per core and meet all of them at a
    barrier; a thread registers its worker, sets the thread-local pointer to it,
    pins itself and waits.  What registering does is the parameter [register]:
    [start_worker] of the policy, or filling in a control block.  The barrier is
    boost's: a thread that arrived goes on when all have.  A step is one line of
    one thread; [None] says that it blocks. *)
From S2P Require Import Prelude Dispatch.

Inductive thread_pc : Type :=
  | not_created
  | created
  | registered
  | local_set
  | pinned
  | at_barrier
  | running.

Inductive main_pc : Type :=
  | launching (next : nat)
  | main_at_barrier
  | started.

#[export] Instance thread_pc_eq_dec : EqDecision thread_pc.
Proof. solve_decision. Defined.

Module Startup.
Section startup.
Context {R : Type} (register : nat -> R -> outcome R) (active_bit : nat -> Z) (pin : nat -> bool).

(** [arrived] counts at the barrier, [active] is [_active_workers]. *)
Record state := State {
  main : main_pc;
  threads : list thread_pc;
  arrived : nat;
  table : R;
  active : Z
}.

Definition with_main (m : main_pc) (s : state) : state := State m (threads s) (arrived s) (table s) (active s).
Definition with_thread (i : nat) (t : thread_pc) (s : state) : state := State (main s) (<[i := t]> (threads s)) (arrived s) (table s) (active s).
Definition arrive (s : state) : state := State (main s) (threads s) (S (arrived s)) (table s) (active s).
Definition with_table (t : R) (s : state) : state := State (main s) (threads s) (arrived s) t (active s).
Definition with_active (m : Z) (s : state) : state := State (main s) (threads s) (arrived s) (table s) m.

(** [make_unique< barrier >(cores + 1)]. *)
Definition barrier_open (s : state) : bool := bool_decide (arrived s = S (length (threads s))).

Definition init (cores : nat) (t : R) : state := State (launching 0) (replicate cores not_created) 0 t 0.

(** The thread that calls [start]. *)
Definition main_step (s : state) : outcome (option state) :=
  match main s with
  | launching n =>
      if (n <? length (threads s))%nat then Ret (Some (with_main (launching (S n)) (with_thread n created s)))
      else Ret (Some (with_main main_at_barrier (arrive s)))
  | main_at_barrier => Ret (if barrier_open s then Some (with_main started s) else None)
  | started => Ret None
  end.

(** Thread [i], up to [w->run()]. *)
Definition thread_step (s : state) (i : nat) : outcome (option state) :=
  match threads s !! i with
  | None | Some not_created | Some running => Ret None
  | Some created => do t <- register i (table s);; Ret (Some (with_table t (with_thread i registered s)))
  | Some registered => Ret (Some (with_thread i local_set s))
  | Some local_set => assertO (pin i) (Ret (Some (with_thread i pinned s)))
  | Some pinned => Ret (Some (arrive (with_active (Z.lor (active s) (active_bit i)) (with_thread i at_barrier s))))
  | Some at_barrier => Ret (if barrier_open s then Some (with_thread i running s) else None)
  end.

Inductive step (s : state) : state -> Prop :=
  | step_main s' : main_step s = Ret (Some s') -> step s s'
  | step_thread i s' : thread_step s i = Ret (Some s') -> step s s'.

Definition reachable (cores : nat) (t : R) : state -> Prop := rtc step (init cores t).
End startup.
Arguments state : clear implicits.

(** ** [scheduler::start(core_start, core_end)]: [_workers[idx]] is assigned to *)
Abbreviation block := (option nat).

Section scheduler.
Definition fill_block (core_start : Z) (i : nat) (blocks : list block) : outcome (list block) :=
  let idx := Z.to_nat (u64 (Z.of_nat i - core_start)) in
  match blocks !! idx with
  | None => Undef
  | Some _ => Ret (<[idx := Some i]> blocks)
  end.

Definition scheduler_bit (core_start : Z) (i : nat) : Z := Scheduler.bit (Z.to_nat (u64 (Z.of_nat i - core_start))).

(** [_workers.resize(cores)]. *)
Definition scheduler_start (core_start core_end : Z) : outcome (state (list block)) :=
  assertO (core_start <=? core_end)
    (Ret (init (Z.to_nat (core_end - core_start)) (replicate (Z.to_nat (core_end - core_start)) None))).
End scheduler.

(** ** [coordinator::start(cores)]: the policy's vector of workers *)
Definition start_worker (i : nat) (workers : list nat) : outcome (list nat) := Ret (workers ++ [i]).

Definition coordinator_start (cores : Z) : state (list nat) := init (Z.to_nat cores) [].
End Startup.

(** ** What has happened when [start] returns *)
Section facts.
Context {R : Type} (register : nat -> R -> outcome R) (active_bit : nat -> Z) (pin : nat -> bool).
Import Startup.
Abbreviation state := (Startup.state R).
Implicit Types (s : state) (i : nat).

(** How far a thread is. *)
Definition rank (t : thread_pc) : nat :=
  match t with not_created => 0 | created => 1 | registered => 2 | local_set => 3 | pinned => 4 | at_barrier => 5 | running => 6 end.
Definition main_rank (m : main_pc) : nat := match m with launching n => n | main_at_barrier => 0 | started => 1 end.

Definition waits (t : thread_pc) : bool := (5 <=? rank t)%nat.
Definition is_registered (t : thread_pc) : bool := (2 <=? rank t)%nat.

(** Registering the threads of a list, in turn. *)
Fixpoint register_all (l : list nat) (t : R) : outcome R :=
  match l with [] => Ret t | i :: l => do t <- register i t;; register_all l t end.

Definition main_arrived (m : main_pc) : nat := match m with launching _ => 0 | _ => 1 end.

Record startup_inv (t0 : R) s : Prop := {
  si_launched : forall n, main s = launching n -> (n <= length (threads s))%nat /\ forall i, (n <= i < length (threads s))%nat -> threads s !! i = Some not_created;
  si_created : forall i t, (forall n, main s = launching n -> (i < n)%nat) -> threads s !! i = Some t -> t <> not_created;
  si_arrived : arrived s = (length (filter (fun t => waits t = true) (threads s)) + main_arrived (main s))%nat;
  si_open : main s = started \/ running ∈ threads s -> arrived s = S (length (threads s));
  si_table : exists l, NoDup l /\ (forall i, i ∈ l <-> exists t, threads s !! i = Some t /\ is_registered t = true) /\ register_all l t0 = Ret (table s)
}.

Lemma register_all_snoc l i t : register_all (l ++ [i]) t = (do t <- register_all l t;; register i t).
Proof.
  revert t. induction l as [|j l IH]; intros t; cbn [app register_all].
  - cbn. by destruct (register i t).
  - destruct (register j t); cbn [bindO]; [apply IH|done..].
Qed.

Lemma waits_all (l : list thread_pc) : (length (filter (fun t => waits t = true) l) <= length l)%nat.
Proof. apply length_filter. Qed.

Definition b2n (b : bool) : nat := if b then 1 else 0.
Definition waiting s : nat := length (filter (fun t => waits t = true) (threads s)).

Lemma all_wait (l : list thread_pc) : Forall (fun t => waits t = true) l -> length (filter (fun t => waits t = true) l) = length l.
Proof. induction 1 as [|t l Ht Hl IH]; [done|]. rewrite filter_cons, decide_True by done. cbn [length]. by rewrite IH. Qed.

(** A thread that has not arrived keeps the barrier closed. *)
Lemma not_all_wait s i x : threads s !! i = Some x -> waits x = false -> (waiting s < length (threads s))%nat.
Proof.
  intros Hi Hx. pose proof (filter_insert_length waits (threads s) i x running Hi) as Hl. rewrite Hx in Hl. change (waits running) with true in Hl. cbv iota in Hl.
  pose proof (waits_all (<[i := running]> (threads s))) as Hw. rewrite length_insert in Hw. unfold waiting. lia.
Qed.

Lemma lookup_insert_thread (l : list thread_pc) i j y t : <[i := y]> l !! j = Some t -> (i = j /\ t = y) \/ (i <> j /\ l !! j = Some t).
Proof.
  intros Hj. destruct (decide (i = j)) as [->|Hne]; [|right; split; [done|by rewrite list_lookup_insert_ne in Hj]].
  left. split; [done|]. assert (j < length l)%nat by (apply lookup_lt_Some in Hj; by rewrite length_insert in Hj).
  rewrite list_lookup_insert_eq in Hj by done. by injection Hj.
Qed.

(** A thread moves on without registering. *)
Lemma thread_moves t0 s i x y n a : startup_inv t0 s -> threads s !! i = Some x -> x <> not_created -> y <> not_created ->
  is_registered y = is_registered x -> (n + b2n (waits x) = arrived s + b2n (waits y))%nat ->
  (y = running \/ main s = started \/ running ∈ threads s -> n = S (length (threads s))) ->
  startup_inv t0 (State (main s) (<[i := y]> (threads s)) n (table s) a).
Proof.
  intros [H1 H2 H3 H4 H5] Hi Hx Hy Hr Hn Ho. pose proof (lookup_lt_Some _ _ _ Hi) as Hlt. split; cbn [main threads arrived table]; rewrite ?length_insert.
  - intros m Hm. destruct (H1 m Hm) as [Hle Hnc]. split; [done|]. intros j Hj. rewrite list_lookup_insert_ne; [by apply Hnc|].
    intros ->. rewrite Hnc in Hi by lia. by injection Hi as <-.
  - intros j t Hj Hl. apply lookup_insert_thread in Hl as [[_ ->]|[? Hl]]; [done|by eapply H2].
  - pose proof (filter_insert_length waits (threads s) i x y Hi) as Hl. unfold b2n in Hn. lia.
  - intros Hs. apply Ho. destruct Hs as [Hs|Hs]; [by right; left|]. apply list_elem_of_lookup in Hs as [j Hj].
    apply lookup_insert_thread in Hj as [[_ <-]|[? Hj]]; [by left|]. right; right. apply list_elem_of_lookup. by exists j.
  - destruct H5 as (l & Hnd & Hl & Ht). exists l. split; [done|]. split; [|done]. intros j. rewrite Hl. split.
    + intros (t & Hj & Hreg). destruct (decide (i = j)) as [<-|Hne].
      * exists y. rewrite list_lookup_insert_eq by done. rewrite Hi in Hj. injection Hj as <-. by rewrite Hr.
      * exists t. by rewrite list_lookup_insert_ne.
    + intros (t & Hj & Hreg). apply lookup_insert_thread in Hj as [[<- ->]|[? Hj]]; [exists x; by rewrite <- Hr|by exists t].
Qed.

Lemma startup_init_inv cores t0 : startup_inv t0 (init cores t0).
Proof.
  split; cbn [init main threads arrived table].
  - intros n [= <-]. split; [lia|]. intros i Hi. rewrite length_replicate in Hi. apply lookup_replicate_2. lia.
  - intros i t Hi. specialize (Hi 0%nat eq_refl). lia.
  - induction cores as [|cores IH]; [done|]. exact IH.
  - intros [Hs|Hs]; [done|]. apply elem_of_replicate in Hs as [Hs _]. done.
  - exists []. split; [constructor|]. split; [|done]. intros i. split; [by intros ?%not_elem_of_nil|].
    intros (t & Ht & Hr). apply lookup_replicate in Ht as [-> _]. done.
Qed.

Lemma main_step_inv t0 s s' : main_step s = Ret (Some s') -> startup_inv t0 s -> startup_inv t0 s'.
Proof.
  unfold main_step. intros Hs Hinv. pose proof Hinv as [H1 H2 H3 H4 H5]. destruct (main s) as [n| |] eqn:Em; [|destruct (barrier_open s) eqn:Eo|]; try done.
  - destruct (H1 n eq_refl) as [Hle Hnc]. destruct (Nat.ltb_spec n (length (threads s))) as [Hn|Hn]; injection Hs as <-.
    + specialize (Hnc n ltac:(lia)) as Hi. split; cbn [main threads arrived table with_main with_thread]; rewrite ?length_insert.
      * intros m [= <-]. split; [lia|]. intros i Hi'. rewrite list_lookup_insert_ne by lia. apply Hnc. lia.
      * intros j t Hj Hl. specialize (Hj (S n) eq_refl). apply lookup_insert_thread in Hl as [[_ ->]|[? Hl]]; [done|].
        apply (H2 j t); [intros m [= <-]; lia|done].
      * pose proof (filter_insert_length waits (threads s) n not_created created Hi) as Hl.
        change (waits created) with false in Hl. change (waits not_created) with false in Hl. cbv iota in Hl. unfold main_arrived in *. lia.
      * intros [Hs|Hs]; [done|]. apply H4. right. apply list_elem_of_lookup in Hs as [j Hj].
        apply lookup_insert_thread in Hj as [[_ Hj]|[? Hj]]; [done|]. apply list_elem_of_lookup. by exists j.
      * destruct H5 as (l & Hnd & Hl & Ht). exists l. split; [done|]. split; [|done]. intros j. rewrite Hl. split; intros (t & Hj & Hr).
        { exists t. split; [|done]. rewrite list_lookup_insert_ne; [done|]. intros <-. rewrite Hi in Hj. by injection Hj as <-. }
        { apply lookup_insert_thread in Hj as [[_ ->]|[? Hj]]; [done|by exists t]. }
    + split; cbn; try done.
      * intros i t _ Hi. apply (H2 i t); [|done]. intros m [= <-]. apply lookup_lt_Some in Hi. lia.
      * rewrite H3. cbn. lia.
      * intros [Hs|Hs]; [done|]. specialize (H4 (or_intror Hs)). change (main_arrived (launching n)) with 0%nat in H3. pose proof (waits_all (threads s)). lia.
  - injection Hs as <-. apply bool_decide_eq_true in Eo. split; cbn; try done. intros i t _. by apply H2.
Qed.

Lemma thread_step_inv t0 s i s' : thread_step register active_bit pin s i = Ret (Some s') -> startup_inv t0 s -> startup_inv t0 s'.
Proof.
  unfold thread_step. intros Hs Hinv. pose proof Hinv as [H1 H2 H3 H4 H5]. destruct (threads s !! i) as [x|] eqn:Hi; [|done].
  pose proof (lookup_lt_Some _ _ _ Hi) as Hlt.
  assert (Hclosed : waits x = false -> main s = started \/ running ∈ threads s -> False).
  { intros Hx Ho. specialize (H4 Ho). pose proof (not_all_wait s i x Hi Hx). unfold waiting in *.
    assert (main_arrived (main s) <= 1)%nat by (destruct (main s); cbn; lia). lia. }
  destruct x; try done.
  - apply bindO_ret in Hs as (t & Hreg & Hs). injection Hs as <-.
    pose proof (thread_moves t0 s i created created (arrived s) (active s) Hinv Hi) as Hm.
    destruct H5 as (l & Hnd & Hl & Ht). split; cbn [main threads arrived table with_table with_thread]; rewrite ?length_insert.
    + intros m Hmn. destruct (H1 m Hmn) as [Hle Hnc]. split; [done|]. intros j Hj. rewrite list_lookup_insert_ne; [by apply Hnc|].
      intros ->. rewrite Hnc in Hi by lia. done.
    + intros j y Hj Hy. apply lookup_insert_thread in Hy as [[_ ->]|[? Hy]]; [done|by eapply H2].
    + pose proof (filter_insert_length waits (threads s) i created registered Hi) as Hf.
      change (waits created) with false in Hf. change (waits registered) with false in Hf. cbv iota in Hf. lia.
    + intros Ho. exfalso. apply Hclosed; [done|]. destruct Ho as [Ho|Ho]; [by left|right]. apply list_elem_of_lookup in Ho as [j Hj].
      apply lookup_insert_thread in Hj as [[_ Hj]|[? Hj]]; [done|]. apply list_elem_of_lookup. by exists j.
    + exists (l ++ [i]). split; [|split].
      * apply list.NoDup_app. split; [done|]. split; [|apply NoDup_singleton]. intros j Hj ->%list_elem_of_singleton.
        apply Hl in Hj as (y & Hy & Hr). rewrite Hi in Hy. by injection Hy as <-.
      * intros j. rewrite list.elem_of_app, list_elem_of_singleton, Hl. split.
        { intros [(y & Hy & Hr)| ->]; [|exists registered; by rewrite list_lookup_insert_eq]. exists y. split; [|done].
          rewrite list_lookup_insert_ne; [done|]. intros <-. rewrite Hi in Hy. by injection Hy as <-. }
        { intros (y & Hy & Hr). apply lookup_insert_thread in Hy as [[<- _]|[? Hy]]; [by right|left; by exists y]. }
      * rewrite register_all_snoc, Ht. exact Hreg.
  - injection Hs as <-. eapply (thread_moves t0 s i registered local_set); try done. intros [?|?]; [done|]. by apply H4.
  - unfold assertO in Hs. destruct (pin i); [|done]. injection Hs as <-. eapply (thread_moves t0 s i local_set pinned); try done.
    intros [?|?]; [done|]. by apply H4.
  - injection Hs as <-. eapply (thread_moves t0 s i pinned at_barrier); try done; [cbn; lia|]. intros [?|?]; [done|]. by destruct Hclosed.
  - destruct (barrier_open s) eqn:Eo; [|done]. injection Hs as <-. apply bool_decide_eq_true in Eo.
    eapply (thread_moves t0 s i at_barrier running); try done; lia.
Qed.

Lemma startup_reachable_inv cores t0 s : reachable register active_bit pin cores t0 s -> startup_inv t0 s /\ length (threads s) = cores.
Proof.
  apply (rtc_invariant (step register active_bit pin) (fun s => startup_inv t0 s /\ length (threads s) = cores)).
  - intros s1 s2 [s' Hs|i s' Hs] [H1 H2].
    + split; [by eapply main_step_inv|]. unfold main_step in Hs. repeat case_match; simplify_eq/=; try done. by rewrite length_insert.
    + split; [by eapply thread_step_inv|]. unfold thread_step, assertO in Hs.
      destruct (threads s1 !! i) as [[]|]; try done; repeat case_match; simplify_eq/=; rewrite ?length_insert; try done.
      apply bindO_ret in Hs as (t & _ & Hs). injection Hs as <-. cbn. by rewrite length_insert.
  - split; [apply startup_init_inv|]. apply length_replicate.
Qed.

(** Behind the barrier every thread has registered, once. *)
Lemma behind_barrier cores t0 s : reachable register active_bit pin cores t0 s -> main s = started \/ running ∈ threads s ->
  exists l, l ≡ₚ seq 0 cores /\ register_all l t0 = Ret (table s).
Proof.
  intros Hs Ho. apply startup_reachable_inv in Hs as [[H1 H2 H3 H4 (l & Hnd & Hl & Ht)] Hlen]. exists l. split; [|done].
  apply NoDup_Permutation; [done|apply NoDup_seq|]. intros i. rewrite Hl, list.elem_of_seq, <- Hlen. split.
  - intros (t & Hi & _). apply lookup_lt_Some in Hi. lia.
  - intros [_ Hi]. destruct (lookup_lt_is_Some_2 (threads s) i ltac:(lia)) as [t Ht']. exists t. split; [done|].
    destruct (waits t) eqn:Ew; [by destruct t|]. exfalso. specialize (H4 Ho). pose proof (not_all_wait s i t Ht' Ew) as Hn. unfold waiting in Hn.
    assert (main_arrived (main s) <= 1)%nat by (destruct (main s); cbn; lia). lia.
Qed.

(** ** Starting ends *)

Definition progress s : nat :=
  (sum_list (rank <$> threads s) + match main s with launching n => 0 | main_at_barrier => 1 | started => 2 end)%nat.

Lemma sum_list_cons a (l : list nat) : sum_list (a :: l) = (a + sum_list l)%nat.
Proof. done. Qed.

Lemma sum_insert (l : list thread_pc) i x y : l !! i = Some x -> (sum_list (rank <$> <[i := y]> l) + rank x = sum_list (rank <$> l) + rank y)%nat.
Proof.
  revert i. induction l as [|z l IH]; intros [|i] Hi; [done..| |].
  - injection Hi as ->. change (<[0%nat := y]> (x :: l)) with (y :: l). rewrite !fmap_cons, !sum_list_cons. lia.
  - change (<[S i := y]> (z :: l)) with (z :: <[i := y]> l). rewrite !fmap_cons, !sum_list_cons. specialize (IH i Hi). lia.
Qed.

Lemma step_progress t0 s s' : startup_inv t0 s -> step register active_bit pin s s' -> (progress s < progress s')%nat.
Proof.
  intros Hinv [s1 Hs|i s1 Hs]; unfold progress.
  - unfold main_step in Hs. destruct (main s) as [n| |] eqn:Em; [|destruct (barrier_open s); [|done]|done].
    + destruct (Nat.ltb_spec n (length (threads s))); injection Hs as <-; cbn [main threads with_main with_thread arrive]; [|lia].
      pose proof (sum_insert (threads s) n not_created created (proj2 (si_launched _ _ Hinv n Em) n ltac:(lia))). cbn [rank] in *. lia.
    + injection Hs as <-. cbn. lia.
  - unfold thread_step, assertO in Hs. destruct (threads s !! i) as [x|] eqn:Hi; [|done].
    pose proof (fun y => sum_insert (threads s) i x y Hi) as Hsum. destruct x; try done.
    + apply bindO_ret in Hs as (t & _ & Hs). injection Hs as <-. specialize (Hsum registered). cbn [rank main threads with_table with_thread] in *. lia.
    + injection Hs as <-. specialize (Hsum local_set). cbn [rank main threads with_thread] in *. lia.
    + destruct (pin i); [|done]. injection Hs as <-. specialize (Hsum pinned). cbn [rank main threads with_thread] in *. lia.
    + injection Hs as <-. specialize (Hsum at_barrier). cbn [rank main threads with_thread with_active arrive] in *. lia.
    + destruct (barrier_open s); [|done]. injection Hs as <-. specialize (Hsum running). cbn [rank main threads with_thread] in *. lia.
Qed.

Definition complete s : Prop := main s = started /\ Forall (fun t => t = running) (threads s).

(** Registering can be done whatever threads have come first. *)
Definition registers (cores : nat) (t0 : R) : Prop :=
  forall l i t, register_all l t0 = Ret t -> NoDup (l ++ [i]) -> (i < cores)%nat -> exists t', register i t = Ret t'.

(** When no thread can move, all have arrived. *)
Lemma stuck_arrived cores t0 s : startup_inv t0 s -> length (threads s) = cores -> registers cores t0 ->
  (forall i, (i < cores)%nat -> pin i = true) -> (forall n, main s <> launching n) ->
  (exists s', step register active_bit pin s s') \/ Forall (fun t => waits t = true) (threads s).
Proof.
  intros Hinv Hlen Hreg Hpin Hm. destruct (decide (Forall (fun t => waits t = true) (threads s))) as [Hall|Hne]; [by right|left].
  apply not_Forall_Exists in Hne; [|intros t; unfold Decision; decide equality]. apply list.Exists_exists in Hne as (t & Ht & Hw).
  apply list_elem_of_lookup in Ht as [i Hi]. pose proof (lookup_lt_Some _ _ _ Hi) as Hlt.
  pose proof (si_created _ _ Hinv i t ltac:(intros n Hn; by destruct (Hm n)) Hi) as Hc.
  assert (exists s', thread_step register active_bit pin s i = Ret (Some s')) as [s' Hs]; [|exists s'; by eapply step_thread].
  unfold thread_step, assertO. rewrite Hi. destruct t; [done| |by eexists|rewrite Hpin by lia; by eexists|by eexists|by destruct Hw|by destruct Hw].
  destruct (si_table _ _ Hinv) as (l & Hnd & Hl & Ht). destruct (Hreg l i (table s) Ht) as [t' ->]; [|lia|by eexists].
  apply list.NoDup_app. split; [done|]. split; [|apply NoDup_singleton]. intros j Hj ->%list_elem_of_singleton.
  apply Hl in Hj as (y & Hy & Hr). rewrite Hi in Hy. by injection Hy as <-.
Qed.

Lemma startup_moves cores t0 s : reachable register active_bit pin cores t0 s -> registers cores t0 ->
  (forall i, (i < cores)%nat -> pin i = true) -> complete s \/ exists s', step register active_bit pin s s'.
Proof.
  intros Hs Hreg Hpin. apply startup_reachable_inv in Hs as [Hinv Hlen]. destruct (main s) as [n| |] eqn:Em.
  - right. destruct (n <? length (threads s))%nat eqn:En; eexists; apply step_main; unfold main_step; by rewrite Em, En.
  - right. destruct (stuck_arrived cores t0 s Hinv Hlen Hreg Hpin ltac:(by rewrite Em)) as [Hst|Hall]; [done|].
    exists (with_main started s). apply step_main. unfold main_step, barrier_open. rewrite Em.
    rewrite bool_decide_eq_true_2; [done|]. rewrite (si_arrived _ _ Hinv), Em, (all_wait _ Hall). cbn [main_arrived]. lia.
  - destruct (stuck_arrived cores t0 s Hinv Hlen Hreg Hpin ltac:(by rewrite Em)) as [Hst|Hall]; [by right|].
    destruct (decide (Forall (fun t => t = running) (threads s))) as [Hrun|Hne]; [left; by split|right].
    apply not_Forall_Exists in Hne; [|intros t; apply _]. apply list.Exists_exists in Hne as (t & Ht & Hw).
    rewrite list.Forall_forall in Hall. specialize (Hall t Ht). apply list_elem_of_lookup in Ht as [i Hi].
    exists (with_thread i running s). apply (step_thread _ _ _ s i). unfold thread_step, barrier_open. rewrite Hi.
    destruct t; try done; [by rewrite bool_decide_eq_true_2 by (apply (si_open _ _ Hinv); by left)|by destruct Hw].
Qed.
End facts.

(** ** Both starts *)
Section starts.
Import Startup.

Lemma fill_block_ok cores i (t : list block) : (i < cores)%nat -> Z.of_nat cores < 2 ^ 16 -> length t = cores ->
  fill_block 0 i t = Ret (<[i := Some i]> t).
Proof.
  intros Hi Hc Hl. unfold fill_block. rewrite Z.sub_0_r, u64_id by (unfold_pow2; lia). rewrite Nat2Z.id.
  by destruct (lookup_lt_is_Some_2 t i ltac:(lia)) as [b ->].
Qed.

(** The blocks of the threads that have registered are filled in. *)
Lemma fill_all cores l : NoDup l -> Forall (fun i => (i < cores)%nat) l -> Z.of_nat cores < 2 ^ 16 ->
  exists t, register_all (fill_block 0) l (replicate cores None) = Ret t /\ length t = cores /\
    forall i, (i < cores)%nat -> t !! i = Some (if decide (i ∈ l) then Some i else None).
Proof.
  intros Hnd Hall Hc. induction l as [|j l IH] using rev_ind.
  - exists (replicate cores None). split; [done|]. split; [apply length_replicate|]. intros i Hi. rewrite decide_False by apply not_elem_of_nil.
    by apply lookup_replicate_2.
  - apply list.NoDup_app in Hnd as (Hnd & Hdis & _). apply list.Forall_app in Hall as [Hall Hj]. apply list.Forall_cons in Hj as [Hj _].
    destruct (IH Hnd Hall) as (t & Ht & Hlen & Hlk). exists (<[j := Some j]> t). rewrite register_all_snoc, Ht. cbn [bindO].
    split; [by eapply fill_block_ok|]. split; [by rewrite length_insert|]. intros i Hi. destruct (decide (i = j)) as [->|Hne].
    + rewrite list_lookup_insert_eq by lia. by rewrite decide_True by (apply list.elem_of_app; right; by left).
    + rewrite list_lookup_insert_ne by done. rewrite Hlk by done. f_equal.
      destruct (decide (i ∈ l)) as [Hin|Hin], (decide (i ∈ l ++ [j])) as [Hin'|Hin']; rewrite list.elem_of_app, list_elem_of_singleton in Hin'; tauto.
Qed.

Lemma fill_block_registers cores : Z.of_nat cores < 2 ^ 16 -> registers (fill_block 0) cores (replicate cores None).
Proof.
  intros Hc l i t Ht Hnd Hi. exists (<[i := Some i]> t). apply (fill_block_ok cores); [done|done|].
  assert (forall l t0 t1, register_all (fill_block 0) l t0 = Ret t1 -> length t1 = length t0) as Hlen.
  { clear. induction l as [|j l IH]; intros t0 t1 H1; [by injection H1 as <-|]. cbn [register_all] in H1. apply bindO_ret in H1 as (t2 & H2 & H1).
    rewrite (IH _ _ H1). unfold fill_block in H2. destruct (t0 !! _); [|done]. injection H2 as <-. by rewrite length_insert. }
  by rewrite (Hlen _ _ _ Ht), length_replicate.
Qed.

Lemma start_worker_all l t : register_all start_worker l t = Ret (t ++ l).
Proof.
  revert t. induction l as [|i l IH]; intros t; [by rewrite app_nil_r|]. cbn [register_all start_worker bindO]. by rewrite IH, <- app_assoc.
Qed.
End starts.

(** ** Properties *)

(** C19: Nobody uses a scheduler or a coordinator that is only partly started: in
    every interleaving of the starting threads, once [start] has returned, and
    before any worker runs, every control block of [_workers] is filled in with the
    worker of its own core, and the policy's vector holds every worker once, in some
    order. *)
Theorem startup_meets_at_barrier (cores : nat) (bit : nat -> Z) (pin : nat -> bool) :
  Z.of_nat cores < 2 ^ 16 ->
  (forall s, Startup.reachable (Startup.fill_block 0) bit pin cores (replicate cores None) s ->
     Startup.main s = started \/ running ∈ Startup.threads s -> Startup.table s = Some <$> seq 0 cores) /\
  (forall s, Startup.reachable Startup.start_worker bit pin cores [] s ->
     Startup.main s = started \/ running ∈ Startup.threads s -> Startup.table s ≡ₚ seq 0 cores).
Proof.
  intros Hc. split; intros s Hs Ho; destruct (behind_barrier _ _ _ cores _ s Hs Ho) as (l & Hp & Ht).
  - destruct (fill_all cores l) as (t & Ht' & Hlen & Hlk).
    { rewrite Hp. apply NoDup_seq. }
    { apply list.Forall_forall. intros i Hi. rewrite Hp, list.elem_of_seq in Hi. lia. }
    { done. }
    rewrite Ht in Ht'. injection Ht' as ->. apply list_eq. intros i. destruct (Nat.lt_ge_cases i cores) as [Hi|Hi].
    + rewrite Hlk, list_lookup_fmap, lookup_seq_lt by done. by rewrite decide_True by (rewrite Hp, list.elem_of_seq; lia).
    + rewrite !lookup_ge_None_2; [done|rewrite length_fmap, length_seq; lia|lia].
  - rewrite start_worker_all in Ht. injection Ht as <-. exact Hp.
Qed.

(** C20: Starting ends: when every thread can be pinned, a system of starting threads
    that is not complete can move, and every step of any thread makes progress,
    which is bounded: no thread waits at the barrier for ever. *)
Theorem startup_completes {R : Type} (register : nat -> R -> outcome R) (bit : nat -> Z) (pin : nat -> bool) (cores : nat) (t0 : R)
    (s : Startup.state R) :
  registers register cores t0 -> (forall i, (i < cores)%nat -> pin i = true) -> Startup.reachable register bit pin cores t0 s ->
  (complete s \/ exists s', Startup.step register bit pin s s') /\
  (forall s', Startup.step register bit pin s s' -> (progress s < progress s' <= 6 * cores + 2)%nat).
Proof.
  intros Hreg Hpin Hs. split; [by eapply startup_moves|]. intros s' Hstep.
  pose proof (proj1 (startup_reachable_inv _ _ _ _ _ _ Hs)) as Hinv. split; [by eapply step_progress|].
  assert (length (Startup.threads s') = cores) as <- by (eapply startup_reachable_inv; eapply rtc_r; [exact Hs|exact Hstep]).
  unfold progress. assert (forall l, sum_list (rank <$> l) <= 6 * length l)%nat as Hle.
  { induction l as [|t l IH]; [done|]. rewrite fmap_cons, sum_list_cons. cbn [length]. assert (rank t <= 6)%nat by (destruct t; cbn; lia). lia. }
  specialize (Hle (Startup.threads s')). destruct (Startup.main s'); lia.
Qed.

(** ** The properties at concrete inputs *)

(** One core: everything is started. *)
Definition ex_started : Startup.state (list (option nat)) := Startup.State started [running] 2 [Some 0%nat] 1.

Lemma ex_started_reached : Startup.reachable (Startup.fill_block 0) (Startup.scheduler_bit 0) (fun _ => true) 1 [None] ex_started.
Proof.
  eapply rtc_l; [apply Startup.step_main; vm_compute; reflexivity|].
  do 4 (eapply rtc_l; [apply Startup.step_thread with (i := 0%nat); vm_compute; reflexivity|]).
  do 2 (eapply rtc_l; [apply Startup.step_main; vm_compute; reflexivity|]).
  eapply rtc_l; [apply Startup.step_thread with (i := 0%nat); vm_compute; reflexivity|]. apply rtc_refl.
Qed.

Lemma startup_meets_at_barrier_witness : Startup.table ex_started = [Some 0%nat].
Proof.
  refine (proj1 (startup_meets_at_barrier 1 (Startup.scheduler_bit 0) (fun _ => true) eq_refl) ex_started ex_started_reached _).
  left. reflexivity.
Defined.

Lemma startup_completes_witness : complete ex_started \/ exists s', Startup.step (Startup.fill_block 0) (Startup.scheduler_bit 0) (fun _ => true) ex_started s'.
Proof.
  refine (proj1 (startup_completes (Startup.fill_block 0) (Startup.scheduler_bit 0) (fun _ => true) 1 [None] ex_started _ _ ex_started_reached)).
  - exact (fill_block_registers 1 eq_refl).
  - intros i Hi. reflexivity.
Defined.
