(* ===== verification/Runtime.v ===== *)
(** * Runtime: the two run times as a program uses them (src/core/runtime.cpp,
      xi/core/runtime.h, xi/core/spawn.h, xi/core/yield.h, xi/core/sleep.h)

    [v2::runtime] starts its scheduler at the first [spawn] and hands builders to
    it; the scheduler is Dispatch's.  The older [runtime] builds its coordinator at
    the first use; coordinator and workers are Isolation's.  Each keeps the worker
    of the calling thread in a thread-local pointer, and what a coroutine calls
    to wait goes through one of them.  Starting threads is Startup's. *)
From S2P Require Import Prelude Queues Worker Dispatch Isolation.

(** [LOCAL_WORKER] with its [_current_task], and [runtime_context::current_worker]
    with what [current_resumable] returns; [None] is a null pointer. *)
Record thread := Thread { local_worker : option (option Z); current_worker : option (option Z) }.

(** A thread of either run time while it runs [r]. *)
Definition v2_thread (r : Z) : thread := Thread (Some (Some r)) None.
Definition v1_thread (r : Z) : thread := Thread None (Some (Some r)).

(** What a coroutine gives its worker when it yields. *)
Inductive yielded : Type :=
  | Yield2 (r : Worker.result)
  | Yield1 (r : Isolation.resume_result).

(** ** [v2::runtime_environment::impl] *)
Module Environment.

(** [started] is the flag of [once]; [_cores] is not initialised. *)
Record environment := Env { started : bool; cores : option Z; round_robin_cnt : Z; schedulers : list Dispatch.world }.

Definition make : environment := Env false None 0 [].

Definition set_cores (e : environment) (n : Z) : environment := Env (started e) (Some (u8 n)) (round_robin_cnt e) (schedulers e).

(** [make< scheduler >()], then [start(0, _cores)] of all of them; [threads] will
    call it. *)
Definition start (threads : nat) (e : environment) : outcome environment :=
  match cores e with
  | None => Undef
  | Some n => Ret (Env true (cores e) (round_robin_cnt e) ((fun _ => Scheduler.init (Z.to_nat n) threads) <$> (schedulers e ++ [Scheduler.init 0 0])))
  end.

Definition with_scheduler (k : nat) (s : Dispatch.world) (e : environment) : environment :=
  Env (started e) (cores e) (round_robin_cnt e) (<[k := s]> (schedulers e)).

(** [runtime_environment::spawn] of thread [p]: starts the schedulers once, picks one
    and calls its [central_enqueue], which the thread goes through step by step
    ([Scheduler.producer_step]) among the steps of the others.  [None]: the thread is in
    such a call. *)
Definition spawn (threads p : nat) (e : environment) (rb : Z) : outcome (option environment) :=
  do e <- (if started e then Ret e else start threads e);;
  if zlen (schedulers e) =? 0 then Undef
  else
    let idx := Z.to_nat (round_robin_cnt e mod zlen (schedulers e)) in
    let e := Env (started e) (cores e) (u64 (round_robin_cnt e + 1)) (schedulers e) in
    do s <- derefO (schedulers e !! idx);;
    Ret ((fun s => with_scheduler idx s e) <$> Scheduler.submit s p rb).

(** What the calling coroutine yields: [w = LOCAL_WORKER], [assert(is_valid(w))],
    and the worker's [assert(is_valid(_current_task))]. *)
Definition yield_current (t : thread) (r : Worker.result) : outcome yielded :=
  match local_worker t with
  | Some (Some _) => Ret (Yield2 r)
  | Some None | None => Abort
  end.

Definition sleep_current_resumable (t : thread) (ns : Z) : outcome yielded := yield_current t (blocked_sleep ns).
Definition await_readable (t : thread) (fd : Z) : outcome yielded := yield_current t (blocked_port fd READ).
Definition await_writable (t : thread) (fd : Z) : outcome yielded := yield_current t (blocked_port fd WRITE).
End Environment.

(** ** [runtime_context] *)
Module Context1.
Section context.
Context {S : Type} `{timed_unlink S}.

(** [coordinator_builder] with its [_n_cores], and [COORDINATOR]. *)
Record context := Context_ { n_cores : Z; coordinator_ : option (Isolation.world (S := S)) }.

Definition make : context := Context_ 1 None.
Definition set_max_cores (c : context) (n : Z) : context := Context_ (u8 n) (coordinator_ c).

(** [build]: the coordinator with its workers, all started. *)
Definition build (c : context) : Isolation.world (S := S) := Isolation.World ∅ ∅ (replicate (Z.to_nat (n_cores c)) Isolation.worker_new) 0.

Definition coordinator (c : context) : context * Isolation.world (S := S) :=
  match coordinator_ c with
  | Some w => (c, w)
  | None => let w := build c in (Context_ (n_cores c) (Some w), w)
  end.

(** [core::spawn]: the coordinator schedules a [blocking_resumable], [maker]. *)
Definition spawn (c : context) (maker : Z) : outcome context :=
  let '(c, w) := coordinator c in
  do w <- Isolation.central_schedule w maker;;
  Ret (Context_ (n_cores c) (Some w)).

(** [maker]'s [resume] on worker [i]: [call] makes [r] there, and it is done. *)
Definition run_maker (w : Isolation.world (S := S)) (i : nat) (maker r : Z) : outcome (Isolation.world (S := S)) :=
  Isolation.run_task w i maker [Isolation.Spawn r] Isolation.EDone.
End context.
Arguments context : clear implicits.

(** [core::yield]: [runtime.local_worker()] is [*current_worker]. *)
Definition yield (t : thread) : outcome (option yielded) :=
  do r <- derefO (current_worker t);;
  Ret (match r with Some _ => Some (Yield1 Isolation.resume_later) | None => None end).

Definition sleep (t : thread) : outcome (option yielded) :=
  do r <- derefO (current_worker t);;
  Ret (match r with Some _ => Some (Yield1 Isolation.blocked) | None => None end).
End Context1.

(** ** Which worker gets a builder *)

(** Thread [ch_thread] decides for worker [ch_worker] while the mask of parked workers is
    [ch_mask]: it is about to put the builder into that worker's queue. *)
Record choice := Choice { ch_thread : nat; ch_job : Z; ch_mask : Z; ch_worker : nat }.

Definition chosen (s s' : Dispatch.world) (p : nat) : list choice :=
  match producers s' !! p with
  | Some (mk_producer (p_enqueue job idx) _) => [Choice p job (parked_workers s) idx]
  | _ => []
  end.

(** What a step of worker [i] takes from its queue. *)
Definition takes (s s' : Dispatch.world) (i : nat) : list (nat * Z) := (fun job => (i, job)) <$> drop (length (taken s)) (taken s').

(** Executions of a run time with [cores] workers and [threads] threads that spawn, with
    the log of the choices and that of what the workers took. *)
Inductive execution (cores : Z) (threads : nat) : list choice -> list (nat * Z) -> Environment.environment -> Prop :=
  | ex_new : execution cores threads [] [] (Environment.set_cores Environment.make cores)
  | ex_spawn l g e p rb e' : execution cores threads l g e ->
      Environment.spawn threads p e rb = Ret (Some e') -> execution cores threads l g e'
  | ex_producer l g e k s p s' : execution cores threads l g e ->
      Environment.schedulers e !! k = Some s -> (p < length (producers s))%nat -> Scheduler.producer_step s p = Ret s' ->
      execution cores threads (l ++ chosen s s' p) g (Environment.with_scheduler k s' e)
  | ex_worker l g e k s i b s' : execution cores threads l g e ->
      Environment.schedulers e !! k = Some s -> (i < length (controls s))%nat -> Scheduler.worker_step s i b = Ret (Some s') ->
      execution cores threads l (g ++ takes s s' i) (Environment.with_scheduler k s' e).

Section choices.
Context (n : nat) (Hn : (0 < n <= 64)%nat).
Implicit Types (s : Dispatch.world) (l : list choice) (g : list (nat * Z)) (x : producer).

(** A parked worker is preferred, the one with the lowest index. *)
Definition choice_ok (c : choice) : Prop :=
  ch_mask c <> 0 -> ch_worker c = count_trailing_zeroes (ch_mask c) /\ Z.testbit (ch_mask c) (Z.of_nat (ch_worker c)) = true.

(** The workers that thread [p] chose in turn, nobody being parked. *)
Definition turns (p : nat) l : list nat := ch_worker <$> filter (fun c => ch_thread c = p /\ ch_mask c = 0) l.

Definition chosen_for (i : nat) l : list Z := ch_job <$> filter (fun c => ch_worker c = i) l.
Definition taken_by (i : nat) g : list Z := snd <$> filter (fun t => fst t = i) g.

(** A builder for which no worker is chosen yet, and one on its way to worker [i]. *)
Definition undecided x : list Z := match p_pc x with p_load j | p_claim j _ _ => [j] | _ => [] end.
Definition held_for (i : nat) x : list Z := match p_pc x with p_enqueue j k => if decide (k = i) then [j] else [] | _ => [] end.

Definition claim_ok x : Prop := match p_pc x with p_claim _ m k => m <> 0 /\ k = count_trailing_zeroes m | _ => True end.

Record choices_ok l g s : Prop := {
  co_sched : sched_ok n s;
  co_parked : Forall choice_ok l;
  co_claims p x : producers s !! p = Some x -> claim_ok x;
  co_turns p x : producers s !! p = Some x -> Z.of_nat (length l) < 2 ^ 64 ->
    turns p l = (fun k => (k mod n)%nat) <$> seq 0 (length (turns p l)) /\ p_rr x = u64 (Z.of_nat (length (turns p l)));
  co_none p c : c ∈ l -> ch_thread c = p -> is_Some (producers s !! p);
  co_jobs : submitted s ≡ₚ (ch_job <$> l) ++ (producers s ≫= undecided);
  co_given i c : controls s !! i = Some c -> chosen_for i l ≡ₚ taken_by i g ++ c_input c ++ (producers s ≫= held_for i)
}.

Lemma turns_app p l c : turns p (l ++ [c]) = turns p l ++ (if decide (ch_thread c = p /\ ch_mask c = 0) then [ch_worker c] else []).
Proof. unfold turns. rewrite list.filter_app, fmap_app. f_equal. rewrite filter_cons, filter_nil. by case_decide. Qed.

Lemma chosen_for_app i l c : chosen_for i (l ++ [c]) = chosen_for i l ++ (if decide (ch_worker c = i) then [ch_job c] else []).
Proof. unfold chosen_for. rewrite list.filter_app, fmap_app. f_equal. rewrite filter_cons, filter_nil. by case_decide. Qed.

(** A producer moves without deciding or putting a builder anywhere. *)
Lemma choices_keep l g s s' p x y : choices_ok l g s -> sched_ok n s' -> submitted s' = submitted s ->
  producers s !! p = Some x -> producers s' = <[p := y]> (producers s) -> claim_ok y -> p_rr y = p_rr x ->
  undecided y = undecided x -> (forall i, held_for i y = held_for i x) ->
  (forall i c', controls s' !! i = Some c' -> exists c, controls s !! i = Some c /\ c_input c' = c_input c) -> choices_ok l g s'.
Proof.
  intros [H1 H2 H3 H4 H5 H6 H7] Hs Hsub Hx Hp Hy Hrr Hu Hh Hc. split; rewrite ?Hp, ?Hsub; try done.
  - intros q z Hz. apply list_lookup_insert_Some in Hz as [(-> & <- & _)|[_ Hz]]; [done|by apply (H3 q)].
  - intros q z Hz Hl. apply list_lookup_insert_Some in Hz as [(-> & <- & _)|[_ Hz]]; [rewrite Hrr; by apply H4|by apply H4].
  - intros q c Hin Hq. apply lookup_lt_is_Some. rewrite length_insert. apply lookup_lt_is_Some. by eapply H5.
  - by rewrite (bind_insert_same undecided _ _ _ _ Hx Hu).
  - intros i c' Hc'. destruct (Hc i c' Hc') as (c & Hci & ->). rewrite (bind_insert_same (held_for i) _ _ _ _ Hx (Hh i)). by apply H7.
Qed.

(** A producer decides. *)
Lemma choices_choose l g s s' p x job m idx rr : choices_ok l g s -> sched_ok n s' -> submitted s' = submitted s ->
  producers s !! p = Some x -> producers s' = <[p := mk_producer (p_enqueue job idx) rr]> (producers s) ->
  choice_ok (Choice p job m idx) -> undecided x = [job] -> (forall i, held_for i x = []) ->
  (if decide (m = 0) then idx = Z.to_nat (p_rr x mod Z.of_nat n) /\ rr = u64 (p_rr x + 1) else rr = p_rr x) ->
  (forall i c', controls s' !! i = Some c' -> exists c, controls s !! i = Some c /\ c_input c' = c_input c) ->
  choices_ok (l ++ [Choice p job m idx]) g s'.
Proof.
  intros [H1 H2 H3 H4 H5 H6 H7] Hs Hsub Hx Hp Hok Hu Hh Hrr Hc. split; rewrite ?Hp, ?Hsub; try done.
  - apply list.Forall_app. split; [done|]. by constructor.
  - intros q z Hz. apply list_lookup_insert_Some in Hz as [(-> & <- & _)|[_ Hz]]; [done|by apply (H3 q)].
  - intros q z Hz Hl. rewrite length_app in Hl. cbn [length] in Hl. rewrite turns_app. cbn [ch_thread ch_mask ch_worker].
    apply list_lookup_insert_Some in Hz as [(-> & <- & _)|[Hne Hz]].
    + destruct (H4 q x Hx ltac:(lia)) as [Ht Hr]. destruct (decide (m = 0)) as [Hm|Hm].
      * destruct Hrr as [-> ->]. rewrite decide_True by done. rewrite length_app. cbn [length p_rr]. rewrite Nat.add_1_r, seq_S, fmap_app, <- Ht. cbn.
        assert (Hlt : (length (turns q l) <= length l)%nat) by (unfold turns; rewrite length_fmap; apply length_filter).
        rewrite Hr, !(u64_id (Z.of_nat (length (turns q l)))) by (unfold_pow2; lia). split; [|f_equal; lia].
        do 2 f_equal. by rewrite <- Nat2Z.inj_mod, Nat2Z.id.
      * subst rr. rewrite decide_False by (by intros [_ ?]). by rewrite app_nil_r.
    + rewrite decide_False by (by intros [? _]). rewrite app_nil_r. apply H4; [done|lia].
  - intros q c [Hin|Hin]%elem_of_app Hq; apply lookup_lt_is_Some; rewrite length_insert; apply lookup_lt_is_Some; [by eapply H5|].
    apply list_elem_of_singleton in Hin as ->. cbn in Hq. subst q. by eexists.
  - rewrite fmap_app. cbn [fmap list_fmap ch_job]. pose proof (bind_insert undecided _ _ _ (mk_producer (p_enqueue job idx) rr) Hx) as Hb.
    rewrite Hu in Hb. change (undecided (mk_producer _ rr)) with (@nil Z) in Hb. rewrite app_nil_r in Hb. rewrite H6, <- Hb. permute.
  - intros i c' Hc'. destruct (Hc i c' Hc') as (c & Hci & ->). rewrite chosen_for_app. cbn [ch_worker ch_job].
    pose proof (bind_insert (held_for i) _ _ _ (mk_producer (p_enqueue job idx) rr) Hx) as Hb. rewrite Hh, app_nil_r in Hb.
    change (held_for i (mk_producer _ rr)) with (if decide (idx = i) then [job] else []) in Hb. rewrite Hb, (H7 i c Hci). permute.
Qed.

(** A producer puts the builder into the queue of the worker it has chosen. *)
Lemma choices_enqueue l g s s' p job idx rr c d : choices_ok l g s -> sched_ok n s' -> submitted s' = submitted s ->
  producers s !! p = Some (mk_producer (p_enqueue job idx) rr) -> producers s' = <[p := mk_producer (p_check idx) rr]> (producers s) ->
  controls s !! idx = Some c -> controls s' = <[idx := d]> (controls s) -> c_input d = c_input c ++ [job] -> choices_ok l g s'.
Proof.
  intros [H1 H2 H3 H4 H5 H6 H7] Hs Hsub Hx Hp Hc Hd Hi. split; rewrite ?Hp, ?Hsub, ?Hd; try done.
  - intros q z Hz. apply list_lookup_insert_Some in Hz as [(-> & <- & _)|[_ Hz]]; [done|by apply (H3 q)].
  - intros q z Hz Hl. apply list_lookup_insert_Some in Hz as [(-> & <- & _)|[_ Hz]]; [by apply (H4 q _ Hx Hl)|by apply H4].
  - intros q z Hin Hq. apply lookup_lt_is_Some. rewrite length_insert. apply lookup_lt_is_Some. by eapply H5.
  - by rewrite (bind_insert_same undecided _ _ _ (mk_producer (p_check idx) rr) Hx).
  - intros i z Hz. pose proof (bind_insert (held_for i) _ _ _ (mk_producer (p_check idx) rr) Hx) as Hb.
    change (held_for i (mk_producer (p_check idx) rr)) with (@nil Z) in Hb.
    change (held_for i (mk_producer (p_enqueue job idx) rr)) with (if decide (idx = i) then [job] else []) in Hb. rewrite app_nil_r in Hb.
    apply list_lookup_insert_Some in Hz as [(-> & <- & _)|[Hne Hz]].
    + rewrite decide_True in Hb by done. rewrite Hi, (H7 i c Hc), <- Hb. permute.
    + rewrite decide_False in Hb by done. rewrite app_nil_r in Hb. by rewrite (H7 i z Hz), Hb.
Qed.

(** A worker takes what is in its queue, perhaps nothing. *)
Lemma choices_take l g s s' i c d : choices_ok l g s -> sched_ok n s' -> submitted s' = submitted s -> producers s' = producers s ->
  controls s !! i = Some c -> controls s' = <[i := d]> (controls s) ->
  (c_input d = c_input c /\ taken s' = taken s \/ c_input d = [] /\ taken s' = taken s ++ c_input c) ->
  choices_ok l (g ++ takes s s' i) s'.
Proof.
  intros [H1 H2 H3 H4 H5 H6 H7] Hs Hsub Hp Hc Hd Hcase. split; rewrite ?Hp, ?Hsub, ?Hd; try done.
  assert (Ht : forall j jobs, taken_by j (g ++ ((fun job => (i, job)) <$> jobs)) = taken_by j g ++ (if decide (i = j) then jobs else [])).
  { intros j jobs. unfold taken_by. rewrite list.filter_app, fmap_app. f_equal. induction jobs as [|a jobs IH]; [by case_decide|].
    cbn [fmap list_fmap]. rewrite filter_cons. cbn [fst]. case_decide; [|done]. cbn [fmap list_fmap snd]. by rewrite IH. }
  intros j z Hz. unfold takes. rewrite Ht. assert (drop (length (taken s)) (taken s') = if decide (c_input d = c_input c /\ taken s' = taken s) then [] else c_input c) as ->.
  { case_decide as Hdec; [destruct Hdec as [_ ->]; by rewrite drop_all|]. destruct Hcase as [?|[_ ->]]; [done|]. apply drop_app_length. }
  apply list_lookup_insert_Some in Hz as [(-> & <- & _)|[Hne Hz]].
  - rewrite decide_True by done. rewrite (H7 j c Hc). case_decide as Hdec; [destruct Hdec as [-> _]; by rewrite app_nil_r|].
    destruct Hcase as [?|[-> _]]; [done|]. permute.
  - rewrite (decide_False (P := i = j)) by done. rewrite app_nil_r. by apply H7.
Qed.

Lemma choices_submit l g s p job s' : choices_ok l g s -> Scheduler.submit s p job = Some s' -> choices_ok l g s'.
Proof.
  intros Hco Hs. pose proof (submit_ok n Hn s p job s' (co_sched _ _ _ Hco) Hs) as Hok. unfold Scheduler.submit in Hs.
  destruct (producers s !! p) as [[[] rr]|] eqn:Hx; try done. injection Hs as <-. destruct Hco as [H1 H2 H3 H4 H5 H6 H7].
  split; cbn [producers controls submitted taken]; try done.
  - intros q z Hz. apply list_lookup_insert_Some in Hz as [(-> & <- & _)|[_ Hz]]; [done|by apply (H3 q)].
  - intros q z Hz Hl. apply list_lookup_insert_Some in Hz as [(-> & <- & _)|[_ Hz]]; [by apply (H4 q _ Hx Hl)|by apply H4].
  - intros q z Hin Hq. apply lookup_lt_is_Some. rewrite length_insert. apply lookup_lt_is_Some. by eapply H5.
  - pose proof (bind_insert undecided _ _ _ (mk_producer (p_load job) rr) Hx) as Hb.
    change (undecided (mk_producer p_idle rr)) with (@nil Z) in Hb. change (undecided (mk_producer (p_load job) rr)) with [job] in Hb.
    rewrite app_nil_r in Hb. rewrite Hb, H6. permute.
  - intros i c Hc. rewrite (bind_insert_same (held_for i) _ _ _ (mk_producer (p_load job) rr) Hx) by done. by apply H7.
Qed.

Lemma same_inputs s s' : controls s' = controls s -> forall i c', controls s' !! i = Some c' -> exists c, controls s !! i = Some c /\ c_input c' = c_input c.
Proof. intros -> i c' Hc. by exists c'. Qed.

Lemma one_control s s' k c d : controls s !! k = Some c -> controls s' = <[k := d]> (controls s) -> c_input d = c_input c ->
  forall i c', controls s' !! i = Some c' -> exists c, controls s !! i = Some c /\ c_input c' = c_input c.
Proof.
  intros Hc -> Hd i c' Hi. apply list_lookup_insert_Some in Hi as [(-> & <- & _)|[_ Hi]]; [by exists c|by exists c'].
Qed.

Lemma chosen_at s s' p x : (p < length (producers s))%nat -> producers s' = <[p := x]> (producers s) ->
  chosen s s' p = match x with mk_producer (p_enqueue job idx) _ => [Choice p job (parked_workers s) idx] | _ => [] end.
Proof. intros Hp Hs. unfold chosen. by rewrite Hs, list_lookup_insert_eq. Qed.

Lemma choices_producer l g s p s' : choices_ok l g s -> (p < length (producers s))%nat -> Scheduler.producer_step s p = Ret s' ->
  choices_ok (l ++ chosen s s' p) g s'.
Proof.
  intros Hco Hp Hs. pose proof (co_sched _ _ _ Hco) as Hok. destruct (producer_step_ok n Hn s p Hok Hp) as (s1 & E1 & Hok1).
  rewrite Hs in E1. injection E1 as <-. destruct (lookup_lt_is_Some_2 _ _ Hp) as [[pc rr] Hx].
  unfold Scheduler.producer_step in Hs. rewrite Hx in Hs. cbn [derefO bindO p_pc p_rr] in Hs.
  destruct pc as [|j|j parked idx|j idx|idx|idx].
  - injection Hs as <-. unfold chosen. rewrite Hx, app_nil_r. done.
  - apply assertO_ret in Hs as [Hz Hs]. apply Z.ltb_lt in Hz. destruct (Z.eqb_spec (parked_workers s) 0) as [Hm|Hm]; injection Hs as <-.
    + rewrite (chosen_at s _ p (mk_producer (p_enqueue j (Z.to_nat (rr mod zlen (controls s)))) (u64 (rr + 1))) Hp) by done.
      eapply (choices_choose l g s); [done|exact Hok1|done|exact Hx|reflexivity|done|done|done| |by apply same_inputs].
      rewrite decide_True by done. unfold zlen. by rewrite (sok_length _ _ Hok).
    + rewrite (chosen_at s _ p (mk_producer (p_claim j (parked_workers s) (count_trailing_zeroes (parked_workers s))) rr) Hp) by done. rewrite ?app_nil_r.
      by eapply (choices_keep l g s _ p _ _ Hco Hok1 eq_refl Hx eq_refl); [..|apply same_inputs].
  - destruct (Z.eqb_spec parked (parked_workers s)) as [Hm|Hm]; cbn [negb] in Hs.
    + change (controls (Scheduler.set_mask _ _)) with (controls s) in Hs. destruct (controls s !! idx) as [c|] eqn:Hc; [|done]. injection Hs as <-.
      rewrite (chosen_at s _ p (mk_producer (p_enqueue j idx) rr) Hp) by done. destruct (co_claims _ _ _ Hco p _ Hx) as [Hne Hidx].
      eapply (choices_choose l g s); [done|exact Hok1|done|exact Hx|reflexivity| |done|done| |by eapply one_control; [exact Hc|reflexivity|]].
      * intros _. cbn [ch_worker ch_mask]. rewrite <- Hm. split; [done|]. exact (sok_producers _ _ Hok p _ Hx).
      * by rewrite decide_False by congruence.
    + injection Hs as <-. rewrite (chosen_at s _ p (mk_producer (p_load j) rr) Hp) by done. rewrite ?app_nil_r.
      by eapply (choices_keep l g s _ p _ _ Hco Hok1 eq_refl Hx eq_refl); [..|apply same_inputs].
  - apply bindO_ret in Hs as (c & Hc & Hs). apply bindO_ret in Hs as (inp & Hi & Hs). injection Hs as <-. injection Hi as <-.
    destruct (controls s !! idx) as [c0|] eqn:Hc0; [|done]. injection Hc as ->.
    rewrite (chosen_at s _ p (mk_producer (p_check idx) rr) Hp) by done. rewrite ?app_nil_r.
    by eapply (choices_enqueue l g s _ p j idx rr c _ Hco Hok1 eq_refl Hx eq_refl Hc0 eq_refl).
  - apply bindO_ret in Hs as (c & Hc & Hs). injection Hs as <-.
    rewrite (chosen_at s _ p (mk_producer (if decide (c_state c = PARKED_NETPOLL) then p_unblock idx else p_idle) rr) Hp) by done.
    replace (match (if decide (c_state c = PARKED_NETPOLL) then p_unblock idx else p_idle) with p_enqueue job k => [Choice p job (parked_workers s) k] | _ => [] end)
      with (@nil choice) by (by case_decide). rewrite app_nil_r.
    eapply (choices_keep l g s _ p _ _ Hco Hok1 eq_refl Hx eq_refl); [by case_decide|done|by case_decide|intros i; by case_decide|by apply same_inputs].
  - apply bindO_ret in Hs as (c & Hc & Hs). injection Hs as <-. destruct (controls s !! idx) as [c0|] eqn:Hc0; [|done]. injection Hc as ->.
    rewrite (chosen_at s _ p (mk_producer p_idle rr) Hp) by done. rewrite ?app_nil_r.
    by eapply (choices_keep l g s _ p _ _ Hco Hok1 eq_refl Hx eq_refl); [..|eapply one_control; [exact Hc0|reflexivity|]].
Qed.

Lemma choices_worker l g s i b s' : choices_ok l g s -> (i < length (controls s))%nat -> Scheduler.worker_step s i b = Ret (Some s') ->
  choices_ok l (g ++ takes s s' i) s'.
Proof.
  intros Hco Hi Hs. pose proof (co_sched _ _ _ Hco) as Hok.
  destruct (worker_step_ok n Hn s i b Hok ltac:(by rewrite <- (sok_length _ _ Hok))) as (o & E1 & Hok1).
  rewrite Hs in E1. injection E1 as <-. specialize (Hok1 s' eq_refl).
  destruct (lookup_lt_is_Some_2 _ _ Hi) as [c Hc]. unfold Scheduler.worker_step in Hs. rewrite Hc in Hs. cbn [derefO bindO] in Hs.
  destruct (c_pc c).
  - destruct (c_input c) as [|j jobs] eqn:Hin.
    + injection Hs as <-. destruct b; eapply (choices_take l g s _ i c); try done; by left.
    + injection Hs as <-. eapply (choices_take l g s _ i c); try done. right. by rewrite Hin.
  - injection Hs as <-. eapply (choices_take l g s _ i c); try done. by left.
  - injection Hs as <-. eapply (choices_take l g s _ i c); try done. by left.
  - destruct b; [|destruct (c_wakeup c); [|done]]; injection Hs as <-; eapply (choices_take l g s _ i c); try done; by left.
  - injection Hs as <-. eapply (choices_take l g s _ i c); try done. by left.
  - injection Hs as <-. eapply (choices_take l g s _ i c); try done. by left.
Qed.

Lemma choices_start threads : choices_ok [] [] (Scheduler.init n threads).
Proof.
  pose proof (init_ok n threads) as Hok. split; try done.
  - intros p x Hx. apply lookup_replicate in Hx as [-> _]. done.
  - intros p x Hx _. apply lookup_replicate in Hx as [-> _]. done.
  - intros p c Hc. by apply not_elem_of_nil in Hc.
  - cbn [Scheduler.init submitted producers]. clear. by induction threads.
  - intros i c Hc. apply lookup_replicate in Hc as [-> _]. cbn. clear. by induction threads.
Qed.
End choices.

(** The environment of an execution. *)
Lemma execution_ok (cores : Z) (threads : nat) (l : list choice) (g : list (nat * Z)) (e : Environment.environment) :
  0 < cores <= 64 -> execution cores threads l g e ->
  (e = Environment.set_cores Environment.make cores /\ l = [] /\ g = []) \/
  (Environment.started e = true /\ exists s, Environment.schedulers e = [s] /\ choices_ok (Z.to_nat cores) l g s).
Proof.
  intros Hc. assert (Hn : (0 < Z.to_nat cores <= 64)%nat) by lia. assert (Hu : u8 cores = cores) by (apply Z.mod_small; lia).
  induction 1 as [|l g e p rb e' _ IH Hs|l g e k s p s' _ IH Hk Hp Hs|l g e k s i b s' _ IH Hk Hi Hs]; [by left|right..].
  - destruct IH as [(-> & -> & ->)|(Hst & s & Hsc & Hco)].
    + unfold Environment.spawn in Hs. cbn in Hs. rewrite Hu in Hs. injection Hs as Hs.
      apply fmap_Some in Hs as (s & Hs & ->). split; [done|]. exists s. split; [done|]. eapply choices_submit; [done| |exact Hs]. by apply choices_start.
    + destruct e as [st co rr scs]. cbn in Hst, Hsc. subst st scs. unfold Environment.spawn in Hs. cbn [Environment.started bindO Environment.schedulers] in Hs.
      change (zlen [s]) with 1 in Hs. cbn [Z.eqb] in Hs. rewrite Z.mod_1_r in Hs. cbn in Hs. injection Hs as Hs.
      apply fmap_Some in Hs as (s1 & Hs & ->). split; [done|]. exists s1. split; [done|]. by eapply choices_submit.
  - destruct IH as [(-> & -> & ->)|(Hst & s0 & Hsc & Hco)]; [done|]. split; [done|]. exists s'. rewrite Hsc in Hk. destruct k as [|k]; [|done].
    injection Hk as ->. split; [cbn; by rewrite Hsc|]. by apply choices_producer.
  - destruct IH as [(-> & -> & ->)|(Hst & s0 & Hsc & Hco)]; [done|]. split; [done|]. exists s'. rewrite Hsc in Hk. destruct k as [|k]; [|done].
    injection Hk as ->. split; [cbn; by rewrite Hsc|]. by eapply choices_worker.
Qed.

Section runtime_facts.
Import Environment.

(** Without [set_cores] the number of workers is not initialised; with none the
    assertion of the scheduler fails. *)
Lemma runtime_needs_cores threads p rb : (p < threads)%nat ->
  spawn threads p make rb = Undef /\
  exists e s, spawn threads p (set_cores make 0) rb = Ret (Some e) /\ schedulers e = [s] /\ Scheduler.producer_step s p = Abort.
Proof.
  intros Hp. split; [done|]. set (s0 := Scheduler.init 0 threads).
  set (s := Dispatch.mk_world 0 [] (<[p := mk_producer (p_load rb) 0]> (producers s0)) [rb] []).
  assert (Scheduler.submit s0 p rb = Some s) as Hs.
  { unfold Scheduler.submit. cbn [s0 Scheduler.init producers]. by rewrite lookup_replicate_2. }
  change (spawn threads p (set_cores make 0) rb) with
    (Ret ((fun s => with_scheduler 0 s (Env true (Some 0) 1 [s0])) <$> Scheduler.submit s0 p rb)). rewrite Hs.
  eexists _, s. split; [reflexivity|]. split; [reflexivity|]. unfold Scheduler.producer_step. cbn [s producers].
  by rewrite list_lookup_insert_eq by (cbn; by rewrite length_replicate).
Qed.
End runtime_facts.

(** ** Properties *)

(** C21: Which worker is given what is spawned, in every interleaving of threads that
    spawn with the workers.  The first [spawn] starts a scheduler with as many workers as
    [set_cores] said.  Every builder that was spawned is decided for one worker, once, or
    its thread is still choosing.  If some workers are parked when a thread decides, it
    takes the one with the lowest index; if none is, the next in that thread's turn:
    workers 0, 1, ..., 0, 1, ... (for fewer than [2 ^ 64] choices).  And what was decided
    for a worker is what it took from its queue, what waits there and what the threads
    are about to put into it. *)
Theorem runtime_chooses_worker (cores : Z) (threads : nat) (l : list choice) (g : list (nat * Z)) (e : Environment.environment) :
  0 < cores <= 64 -> Z.of_nat (length l) < 2 ^ 64 -> execution cores threads l g e -> Environment.started e = true ->
  exists s, Environment.schedulers e = [s] /\ zlen (controls s) = cores /\
    submitted s ≡ₚ (ch_job <$> l) ++ (producers s ≫= undecided) /\
    (forall c, c ∈ l -> ch_mask c <> 0 ->
       ch_worker c = count_trailing_zeroes (ch_mask c) /\ Z.testbit (ch_mask c) (Z.of_nat (ch_worker c)) = true) /\
    (forall p, turns p l = (fun k => (k mod Z.to_nat cores)%nat) <$> seq 0 (length (turns p l))) /\
    (forall i c, controls s !! i = Some c -> chosen_for i l ≡ₚ taken_by i g ++ c_input c ++ (producers s ≫= held_for i)).
Proof.
  intros Hc Hl Hx Hst. destruct (execution_ok cores threads l g e Hc Hx) as [(-> & _)|(_ & s & Hs & Hco)]; [done|].
  exists s. split; [done|]. destruct Hco as [H1 H2 H3 H4 H5 H6 H7]. split; [unfold zlen; rewrite (sok_length _ _ H1); lia|].
  split; [done|]. split; [|split; [|done]].
  - intros c Hin. by apply (proj1 (list.Forall_forall _ _) H2).
  - intros p. destruct (producers s !! p) as [x|] eqn:Hp; [by apply (H4 p x Hp Hl)|].
    assert (turns p l = []) as ->; [|done]. unfold turns.
    destruct (filter _ l) as [|c l'] eqn:Hf; [done|]. assert (c ∈ filter (fun c => ch_thread c = p /\ ch_mask c = 0) l) as Hin by (rewrite Hf; left).
    apply list_elem_of_filter in Hin as [[Hcp _] Hin]. destruct (H5 p c Hin Hcp) as [x Hx']. congruence.
Qed.

(** A resumable spawned in the older run time is made by a worker: [spawn] hands a
    maker to the workers in turn, attached to the worker, behind what others handed
    it, and wakes that worker; whenever it runs the maker, the new resumable is
    attached to the same worker and last in its ready queue, and the maker is
    deleted. *)
Theorem spawn_reaches_worker {S : Type} `{timed_unlink S} (c : Context1.context S) (maker : Z) :
  let w := (Context1.coordinator c).2 in
  Isolation.workers w <> [] ->
  let i := Z.to_nat (Isolation.next_worker_ w mod zlen (Isolation.workers w)) in
  (exists c' w' d d', Context1.spawn c maker = Ret c' /\ Context1.coordinator_ c' = Some w' /\
     Isolation.workers w !! i = Some d /\ Isolation.workers w' = <[i := d']> (Isolation.workers w) /\
     Isolation.external_queue d' = Isolation.external_queue d ++ [maker] /\ Isolation.executor w' !! maker = Some i /\
     Isolation.next_worker_ w' = u64 (Isolation.next_worker_ w + 1)) /\
  (forall (w1 : Isolation.world (S := S)) (r : Z) d1, Isolation.workers w1 !! i = Some d1 -> Isolation.executor w1 !! maker = Some i ->
     maker <> r -> r ∉ Isolation.ready_queue d1 ->
     exists w2 d2, Context1.run_maker w1 i maker r = Ret w2 /\ Isolation.workers w2 !! i = Some d2 /\
       Isolation.executor w2 = delete maker (<[r := i]> (Isolation.executor w1)) /\
       Isolation.ready_queue d2 = filter (fun x => x <> maker) (Isolation.ready_queue d1) ++ [r] /\ Isolation.current_task d2 = None).
Proof.
  intros w Hw i. split.
  - assert (i < length (Isolation.workers w))%nat as Hi.
    { unfold i, zlen. destruct (Isolation.workers w); [done|]. pose proof (Z.mod_pos_bound (Isolation.next_worker_ w) (Z.of_nat (length (w0 :: l)))). cbn [length] in *. lia. }
    destruct (lookup_lt_is_Some_2 _ _ Hi) as [d Hd]. unfold Context1.spawn. destruct (Context1.coordinator c) as [c1 w1]. cbn [snd] in w. subst w.
    assert (Isolation.next_worker w1 = Ret (Isolation.World (Isolation.times w1) (Isolation.executor w1) (Isolation.workers w1) (u64 (Isolation.next_worker_ w1 + 1)), i)) as En.
    { unfold Isolation.next_worker, i. by destruct (Isolation.workers w1). }
    unfold Isolation.central_schedule. rewrite En. cbn [bindO]. unfold Isolation.attach_executor, Isolation.worker_at. cbn [Isolation.workers Isolation.with_executor]. rewrite Hd. cbn [derefO bindO].
    eexists _, _, d, _. split; [reflexivity|]. split; [reflexivity|]. split; [done|]. split; [reflexivity|].
    split; [reflexivity|]. split; [|reflexivity]. cbn. apply lookup_insert_eq.
  - intros w1 r d1 Hd Hex Hne Hr. unfold Context1.run_maker, Isolation.run_task, Isolation.worker_at. rewrite Hd. cbn [derefO bindO].
    pose proof (lookup_lt_Some _ _ _ Hd) as Hlt. unfold Isolation.do_calls, Isolation.do_call, Isolation.spawn_resumable, Isolation.worker_at, Isolation.attach_executor.
    cbn [Isolation.workers Isolation.with_executor Isolation.set_worker Isolation.with_workers]. rewrite list_lookup_insert_eq by done. cbn [derefO bindO].
    destruct (Isolation.push_internally_eq (Isolation.with_current (Some maker) d1) r Hr) as (n & m & E1). rewrite E1. cbn [bindO Isolation.do_ending].
    unfold Isolation.finish_task, Isolation.destroy, Isolation.worker_at. cbn [Isolation.executor Isolation.set_worker Isolation.with_workers Isolation.with_executor Isolation.workers].
    rewrite lookup_insert_ne, Hex by done. cbn [derefO bindO]. rewrite bool_decide_eq_true_2 by done. cbn [assertO].
    rewrite list_insert_insert_eq, !list_lookup_insert_eq by (by rewrite ?length_insert). cbn [derefO bindO].
    cbn [Isolation.workers Isolation.set_worker Isolation.with_workers Isolation.with_executor].
    rewrite list_lookup_insert_eq by (by rewrite ?length_insert). cbn [derefO bindO].
    eexists _, _. split; [reflexivity|]. cbn [Isolation.workers Isolation.set_worker Isolation.with_workers Isolation.with_executor].
    split; [apply list_lookup_insert_eq; by rewrite ?length_insert|]. cbn. split; [done|]. split; [|done].
    rewrite list.filter_app. f_equal. by rewrite filter_cons_True.
Qed.

(** ** The properties at concrete inputs *)

(** Executions, step by step: a thread spawns, a thread or a worker of the scheduler moves. *)
Inductive ex_move := MSpawn (p : nat) (rb : Z) | MProducer (p : nat) | MWorker (i : nat) (b : bool).

Definition ex_step (threads : nat) (m : ex_move) (x : list choice * list (nat * Z) * Environment.environment) :
    option (list choice * list (nat * Z) * Environment.environment) :=
  let '(l, g, e) := x in
  match m with
  | MSpawn p rb => match Environment.spawn threads p e rb with Ret (Some e') => Some (l, g, e') | _ => None end
  | MProducer p =>
      match Environment.schedulers e !! 0%nat with
      | Some s =>
          if (p <? length (producers s))%nat then
            match Scheduler.producer_step s p with
            | Ret s' => Some (l ++ chosen s s' p, g, Environment.with_scheduler 0 s' e)
            | _ => None
            end
          else None
      | None => None
      end
  | MWorker i b =>
      match Environment.schedulers e !! 0%nat with
      | Some s =>
          if (i <? length (controls s))%nat then
            match Scheduler.worker_step s i b with
            | Ret (Some s') => Some (l, g ++ takes s s' i, Environment.with_scheduler 0 s' e)
            | _ => None
            end
          else None
      | None => None
      end
  end.

Definition ex_steps (threads : nat) (ms : list ex_move) x := foldl (fun o m => x ← o; ex_step threads m x) (Some x) ms.

Lemma ex_step_execution (cores : Z) (threads : nat) (m : ex_move) l g e l' g' e' :
  execution cores threads l g e -> ex_step threads m (l, g, e) = Some (l', g', e') -> execution cores threads l' g' e'.
Proof.
  intros Hx. destruct m as [p rb|p|i b]; cbn [ex_step]; intros Hs.
  - destruct (Environment.spawn threads p e rb) as [[e1|]| | | |] eqn:Es; try done. injection Hs as <- <- <-. by eapply ex_spawn.
  - destruct (Environment.schedulers e !! 0%nat) as [s|] eqn:Ee; [|done]. destruct (Nat.ltb_spec p (length (producers s))); [|done].
    destruct (Scheduler.producer_step s p) as [s'| | | |] eqn:Es; try done. injection Hs as <- <- <-. by eapply ex_producer.
  - destruct (Environment.schedulers e !! 0%nat) as [s|] eqn:Ee; [|done]. destruct (Nat.ltb_spec i (length (controls s))); [|done].
    destruct (Scheduler.worker_step s i b) as [[s'|]| | | |] eqn:Es; try done. injection Hs as <- <- <-. by eapply ex_worker.
Qed.

Lemma ex_steps_execution (cores : Z) (threads : nat) (ms : list ex_move) l g e :
  ex_steps threads ms ([], [], Environment.set_cores Environment.make cores) = Some (l, g, e) -> execution cores threads l g e.
Proof.
  revert l g e. induction ms as [|m ms IH] using rev_ind; intros l g e; unfold ex_steps.
  - intros [= <- <- <-]. apply ex_new.
  - rewrite foldl_app. cbn [foldl]. intros Hs. apply bind_Some in Hs as ([[l1 g1] e1] & H1 & H2).
    eapply ex_step_execution; [|exact H2]. by apply IH.
Qed.

(** Two workers.  Job 7 goes to worker 0 in turn; worker 1 parks, job 8 goes to it; job 9,
    spawned while it is still parked but already claimed, goes to worker 1 in turn. *)
Definition ex_moves : list ex_move :=
  [MSpawn 0 7; MProducer 0; MProducer 0; MProducer 0; MWorker 0 false; MWorker 1 true; MWorker 1 false; MWorker 1 false;
   MSpawn 0 8; MProducer 0; MProducer 0; MProducer 0; MProducer 0; MProducer 0; MSpawn 0 9; MProducer 0].
Definition ex_choices : list choice := [Choice 0 7 0 0; Choice 0 8 2 1; Choice 0 9 0 1].

Lemma runtime_chooses_worker_witness : exists e s,
  execution 2 1 ex_choices [(0%nat, 7)] e /\ Environment.schedulers e = [s] /\
  submitted s ≡ₚ [7; 8; 9] /\ turns 0 ex_choices = [0; 1]%nat /\
  (forall i c, controls s !! i = Some c -> chosen_for i ex_choices ≡ₚ taken_by i [(0%nat, 7)] ++ c_input c ++ (producers s ≫= held_for i)).
Proof.
  destruct (ex_steps 1 ex_moves ([], [], Environment.set_cores Environment.make 2)) as [[[l g] e]|] eqn:Hs; [|vm_compute in Hs; discriminate Hs].
  assert (l = ex_choices /\ g = [(0%nat, 7)] /\ Environment.started e = true /\ (forall s, Environment.schedulers e = [s] -> producers s ≫= undecided = [])) as (-> & -> & Hst & Hu).
  { vm_compute in Hs. injection Hs as <- <- <-. split; [reflexivity|]. split; [reflexivity|]. split; [reflexivity|]. by intros s [= <-]. }
  pose proof (ex_steps_execution 2 1 ex_moves ex_choices [(0%nat, 7)] e Hs) as Hx. exists e.
  destruct (runtime_chooses_worker 2 1 ex_choices [(0%nat, 7)] e) as (s & H1 & _ & H2 & _ & H3 & H4).
  - split; [reflexivity|discriminate].
  - reflexivity.
  - exact Hx.
  - exact Hst.
  - exists s. split; [exact Hx|]. split; [exact H1|]. rewrite (Hu s H1) in H2. split; [exact H2|]. split; [exact (H3 0%nat)|exact H4].
Defined.

Lemma spawn_reaches_worker_witness : exists c' w', Context1.spawn (S := list Z) Context1.make 64 = Ret c' /\
  Context1.coordinator_ c' = Some w' /\ Isolation.executor w' !! 64 = Some 0%nat.
Proof.
  destruct (spawn_reaches_worker (S := list Z) Context1.make 64) as [(c' & w' & d & d' & H1 & H2 & _ & _ & _ & H3 & _) _].
  - discriminate.
  - exists c', w'. split; [exact H1|]. split; [exact H2|exact H3].
Defined.
