(* ===== verification/Ports.v ===== *)
(** * Ports: the sockets of coroutines (src/io/net/socket.cpp,
      src/io/net/listener.cpp, src/io/pollable_fd.cpp)

    A coroutine calls a non-blocking system call and, when it would block, yields
    to its worker until epoll reports the descriptor.  The kernel is the class
    [port_api]; [suspended] is what happens between a yield and the resumption, of
    which [port_spec] and [undisturbed] say what the code relies on.  Which run
    time the coroutine runs in is its [thread] of Runtime.  A [co] carries the
    kernel, the memory and what the coroutine has yielded. *)
From S2P Require Import Prelude Bytes Socket Worker Isolation Runtime Channel.

(** Descriptor, then what is passed: [(ret, errno)]. *)
Class port_api (K : Type) := {
  sys_recv : K -> Z -> Z -> K * list Z * (Z * Z);
  sys_send : K -> Z -> list Z -> K * (Z * Z);
  sys_accept : K -> Z -> K * (Z * Z);
  fd_close : K -> Z -> K;
  suspended : K -> yielded -> K
}.

Definition EINTR : Z := 4.

(** [io::error::kEOF] as an [int]. *)
Definition kEOF_value : Z := 0.

Record co (K : Type) := Co { kernel : K; memory : mem; yields : list yielded }.
Arguments Co {K} _ _ _.
Arguments kernel {K} _.
Arguments memory {K} _.
Arguments yields {K} _.

Definition would_block (errno : Z) : bool := (errno =? EAGAIN) || (errno =? EWOULDBLOCK).

Section port.
Context {K : Type} `{port_api K}.
Implicit Types (t : thread) (c : co K) (fd data size : Z).

(** ** [class port]: its descriptor, -1 when it was moved from *)
Definition port_move (other : Z) : Z * Z := (other, -1).
Definition port_destroy (k : K) (fd : Z) : K := if negb (-1 =? fd) then fd_close k fd else k.

(** The coroutine gives up its worker, and goes on later. *)
Definition park_current c (y : yielded) : co K := Co (suspended (kernel c) y) (memory c) (yields c ++ [y]).

Definition await_readable t c fd : outcome (co K) := do y <- Environment.await_readable t fd;; Ret (park_current c y).
Definition await_writable t c fd : outcome (co K) := do y <- Environment.await_writable t fd;; Ret (park_current c y).

(** [yield()] is the older run time's. *)
Definition yield t c : outcome (co K) :=
  do y <- Context1.yield t;; Ret (match y with Some y => park_current c y | None => c end).

(** ** [class socket] *)

Fixpoint read_some (fuel : nat) t c fd data size : outcome (co K * Z) :=
  match fuel with
  | O => Diverge
  | S fuel =>
      let '(k, bs, (r, errno)) := sys_recv (kernel c) fd size in
      let c := Co k (store (memory c) data bs) (yields c) in
      if r <? 0 then
        if errno =? EINTR then do c <- yield t c;; read_some fuel t c fd data size
        else if would_block errno then do c <- await_readable t c fd;; read_some fuel t c fd data size
        else Ret (c, -1)
      else if r =? 0 then Ret (c, kEOF_value)
      else Ret (c, r)
  end.

Fixpoint write_some (fuel : nat) t c fd data size : outcome (co K * Z) :=
  match fuel with
  | O => Diverge
  | S fuel =>
      let '(k, (r, errno)) := sys_send (kernel c) fd (load (memory c) data size) in
      let c := Co k (memory c) (yields c) in
      if r <? 0 then
        if errno =? EINTR then write_some fuel t c fd data size
        else if would_block errno then do c <- await_writable t c fd;; write_some fuel t c fd data size
        else Ret (c, -1)
      else Ret (c, r)
  end.

(** The loop of [write_exactly]: at most [rounds] rounds, [fuel] for each. *)
Fixpoint exact_loop (rounds fuel : nat) t c fd p s size : outcome (co K * Z) :=
  match rounds with
  | O => Diverge
  | S rounds =>
      if s <? size then
        do '(c, ret) <- write_some fuel t c fd p (size - s);;
        if ret <? 0 then Ret (c, u64 ret) else exact_loop rounds fuel t c fd (p + ret) (u64 (s + ret)) size
      else Ret (c, s)
  end.

Definition write_exactly (fuel : nat) t c fd data size : outcome (co K * Z) :=
  exact_loop (S (Z.to_nat size)) fuel t c fd data 0 size.

(** ** [class listener] *)

Fixpoint accept (fuel : nat) t c fd : outcome (co K * expected Z) :=
  match fuel with
  | O => Diverge
  | S fuel =>
      let '(k, (sock, errno)) := sys_accept (kernel c) fd in
      let c := Co k (memory c) (yields c) in
      if sock <? 0 then
        if (errno =? 0) || would_block errno then do c <- await_readable t c fd;; accept fuel t c fd
        else Ret (c, Error (Errno errno))
      else Ret (c, Value sock)
  end.

(** [ch.send(sock)] of an unbuffered channel; [others] is what the rest of the
    program does with the bus while the sender is blocked. *)
Section channel.
Context (others : bus (T := Z) -> bus (T := Z)).

Fixpoint send (fuel : nat) t (c : co K) (b : bus (T := Z)) (sock : Z) : outcome (co K * bus (T := Z)) :=
  match fuel with
  | O => Diverge
  | S fuel =>
      let self := match current_worker t with Some (Some r) => r | _ => 0 end in
      let '(b, delivered) := put_once 0 b self sock in
      if (delivered : bool) then Ret (c, b)
      else
        do r <- derefO (current_worker t);;
        do _ <- derefO r;;
        send fuel t (park_current c (Yield1 Isolation.blocked)) (others b) sock
  end.

(** The coroutine of [as_channel]. *)
Fixpoint as_channel_loop (rounds fuel : nat) t c (b : bus (T := Z)) fd : outcome (co K * bus (T := Z)) :=
  match rounds with
  | O => Diverge
  | S rounds =>
      do '(c, r) <- accept fuel t c fd;;
      match r with
      | Error _ => Ret (c, b)
      | Value sock => do '(c, b) <- send fuel t c b sock;; as_channel_loop rounds fuel t c b fd
      end
  end.
End channel.

(** [spawn] is the older run time's, which runs it as the resumable [r]. *)
Definition as_channel (others : bus (T := Z) -> bus (T := Z)) (rounds fuel : nat) (r : Z) c (b : bus (T := Z)) fd
    : outcome (co K * bus (T := Z)) := as_channel_loop others rounds fuel (v1_thread r) c b fd.
End port.

(** ** What the kernel promises

    [outgoing k d] are the bytes the stream [d] has taken, [incoming k d] those it
    has handed out.  [patience k d] bounds how often calls on [d] will still be
    refused because they would block or were interrupted. *)
Class port_spec (K : Type) `{port_api K} := {
  outgoing : K -> Z -> list Z;
  incoming : K -> Z -> list Z;
  patience : K -> Z -> nat;
  send_ok k d bs k' ret errno : bs <> [] -> sys_send k d bs = (k', (ret, errno)) ->
    incoming k' d = incoming k d /\
    ((ret = -1 /\ outgoing k' d = outgoing k d /\ (errno = EINTR \/ would_block errno = true -> (patience k' d < patience k d)%nat)) \/
     (0 < ret <= zlen bs /\ ret < 2 ^ 31 /\ outgoing k' d = outgoing k d ++ ztake ret bs /\ (patience k' d <= patience k d)%nat));
  recv_ok k d room k' bs ret errno : 0 < room -> sys_recv k d room = (k', bs, (ret, errno)) ->
    outgoing k' d = outgoing k d /\
    ((ret = -1 /\ bs = [] /\ incoming k' d = incoming k d /\ (errno = EINTR \/ would_block errno = true -> (patience k' d < patience k d)%nat)) \/
     (0 <= ret <= room /\ ret < 2 ^ 31 /\ zlen bs = ret /\ incoming k' d = incoming k d ++ bs))
}.

(** Nobody else uses the stream [d] while its coroutine waits. *)
Definition undisturbed {K : Type} `{port_spec K} (d : Z) : Prop :=
  forall (k : K) y, outgoing (suspended k y) d = outgoing k d /\ incoming (suspended k y) d = incoming k d /\
    (patience (suspended k y) d <= patience k d)%nat.

Section facts.
Context {K : Type} `{port_spec K}.
Implicit Types (t : thread) (c : co K) (fd data size : Z).

(** What waiting for [fd] adds to the yields. *)
Definition waited (y : yielded) c c' : Prop := exists n, yields c' = yields c ++ replicate n y.

Lemma waited_refl y c k m : waited y c (Co k m (yields c)).
Proof. exists 0%nat. by rewrite app_nil_r. Qed.

Lemma waited_trans y c c1 c2 : waited y c c1 -> waited y c1 c2 -> waited y c c2.
Proof. intros [n En] [m Em]. exists (n + m)%nat. by rewrite Em, En, replicate_add, app_assoc. Qed.

Lemma waited_once y c k m : waited y c (park_current (Co k m (yields c)) y).
Proof. by exists 1%nat. Qed.

(** One call: bytes of the front are sent, or the call has failed for good. *)
Lemma write_some_ok t r fd data size : undisturbed fd -> local_worker t = Some (Some r) -> 0 < size ->
  forall fuel c, (patience (kernel c) fd < fuel)%nat ->
  exists c' v, write_some fuel t c fd data size = Ret (c', v) /\ memory c' = memory c /\ waited (Yield2 (blocked_port fd WRITE)) c c' /\
    incoming (kernel c') fd = incoming (kernel c) fd /\ ((patience (kernel c') fd <= patience (kernel c) fd)%nat \/ v = -1) /\
    ((v = -1 /\ outgoing (kernel c') fd = outgoing (kernel c) fd) \/
     (0 < v <= size /\ v < 2 ^ 31 /\ outgoing (kernel c') fd = outgoing (kernel c) fd ++ load (memory c) data v)).
Proof.
  intros Hu Ht Hs. induction fuel as [|fuel IH]; intros c Hf; [lia|]. cbn [write_some].
  assert (Hl : zlen (load (memory c) data size) = size) by (apply zlen_load; lia).
  destruct (sys_send (kernel c) fd _) as [k [ret errno]] eqn:Es. pose proof Es as Es'.
  apply send_ok in Es as (Hi & [(-> & Ho & Hp)|(Hr & H31 & Ho & Hp)]); [| |intros He; rewrite He in Hl; rewrite (zlen_nil (A := Z)) in Hl; lia].
  - change (-1 <? 0) with true. cbn iota. destruct (Z.eqb_spec errno EINTR) as [He|He]; [|destruct (would_block errno) eqn:Ew].
    + specialize (Hp (or_introl He)). destruct (IH (Co k (memory c) (yields c)) ltac:(cbn; lia)) as (c' & v & E1 & H1 & H2 & H3 & H4 & H5).
      exists c', v. cbn [kernel memory] in *. rewrite Hi in H3. rewrite Ho in H5. split; [done|]. split; [done|]. split; [done|]. split; [done|]. split; [lia|done].
    + specialize (Hp (or_intror eq_refl)). unfold await_writable, Environment.await_writable, Environment.yield_current. rewrite Ht. cbn [bindO].
      set (y := Yield2 _). destruct (Hu k y) as (U1 & U2 & U3).
      destruct (IH (park_current (Co k (memory c) (yields c)) y) ltac:(cbn; lia)) as (c' & v & E1 & H1 & H2 & H3 & H4 & H5).
      exists c', v. cbn [kernel memory park_current] in *. rewrite U2, Hi in H3. rewrite U1, Ho in H5.
      split; [done|]. split; [done|]. split; [by eapply waited_trans; [apply waited_once|]|]. split; [done|]. split; [lia|done].
    + eexists _, (-1). split; [reflexivity|]. split; [done|]. split; [apply waited_refl|]. split; [done|]. split; [by right|]. by left.
  - rewrite (proj2 (Z.ltb_ge _ _)) by lia. eexists _, ret. split; [reflexivity|]. split; [done|]. split; [apply waited_refl|]. split; [done|].
    split; [by left|]. right. split; [lia|]. split; [done|]. cbn [kernel]. rewrite Ho. f_equal. apply ztake_load. lia.
Qed.

Lemma exact_loop_ok t r fd data size fuel : undisturbed fd -> local_worker t = Some (Some r) -> 0 <= size < 2 ^ 63 ->
  forall rounds c s, 0 <= s <= size -> size - s < Z.of_nat rounds -> (patience (kernel c) fd < fuel)%nat ->
  exists c' v n, exact_loop rounds fuel t c fd (data + s) s size = Ret (c', v) /\ s <= n <= size /\ memory c' = memory c /\
    waited (Yield2 (blocked_port fd WRITE)) c c' /\ incoming (kernel c') fd = incoming (kernel c) fd /\
    outgoing (kernel c') fd = outgoing (kernel c) fd ++ load (memory c) (data + s) (n - s) /\
    (v = size /\ n = size \/ v = 2 ^ 64 - 1 /\ n < size).
Proof.
  intros Hu Ht Hsz. induction rounds as [|rounds IH]; intros c s Hs Hr Hf; [lia|]. cbn [exact_loop]. destruct (Z.ltb_spec s size) as [Hlt|Hge].
  - destruct (write_some_ok t r fd (data + s) (size - s) Hu Ht ltac:(lia) fuel c Hf) as (c1 & v & -> & M1 & W1 & I1 & P1 & O1). cbn [bindO].
    destruct O1 as [[-> O1]|(Hv & Hv31 & O1)].
    + exists c1, (2 ^ 64 - 1), s. split; [done|]. split; [lia|]. split; [done|]. split; [done|]. split; [done|].
      rewrite Z.sub_diag, load_nonpos, app_nil_r by lia. split; [done|]. right. split; [done|lia].
    + rewrite (proj2 (Z.ltb_ge _ _)) by lia. rewrite u64_id by (unfold_pow2; lia). rewrite <- Z.add_assoc.
      destruct (IH c1 (s + v)) as (c2 & v2 & n & E2 & Hn & M2 & W2 & I2 & O2 & R2); [lia|lia|destruct P1; lia|].
      exists c2, v2, n. split; [done|]. split; [lia|]. split; [by rewrite M2|]. split; [by eapply waited_trans|]. split; [by rewrite I2|].
      split; [|done]. rewrite O2, O1, M1, <- app_assoc. f_equal. replace (n - s) with (v + (n - (s + v))) by lia.
      rewrite Z.add_assoc. symmetry. apply load_app; lia.
  - exists c, s, size. assert (s = size) as -> by lia. split; [done|]. split; [lia|]. split; [done|].
    split; [exists 0%nat; by rewrite app_nil_r|]. split; [done|]. rewrite Z.sub_diag, load_nonpos, app_nil_r by lia. split; [done|]. by left.
Qed.

(** Reading, when no call is interrupted. *)
Lemma read_some_ok t r fd data size : undisturbed fd -> local_worker t = Some (Some r) -> 0 < size ->
  (forall k errno, (sys_recv k fd size).2 = (-1, errno) -> errno <> EINTR) ->
  forall fuel c, (patience (kernel c) fd < fuel)%nat ->
  exists c' v bs, read_some fuel t c fd data size = Ret (c', v) /\ waited (Yield2 (blocked_port fd READ)) c c' /\
    outgoing (kernel c') fd = outgoing (kernel c) fd /\ incoming (kernel c') fd = incoming (kernel c) fd ++ bs /\
    memory c' = store (memory c) data bs /\ zlen bs <= size /\ (v = zlen bs \/ v = -1 /\ bs = []).
Proof.
  intros Hu Ht Hs Hint. induction fuel as [|fuel IH]; intros c Hf; [lia|]. cbn [read_some].
  destruct (sys_recv (kernel c) fd size) as [[k bs] [ret errno]] eqn:Es. pose proof (Hint (kernel c) errno) as Hi. rewrite Es in Hi. cbn [snd] in Hi.
  apply recv_ok in Es as (Ho & [(-> & -> & Hin & Hp)|(Hr & H31 & Hz & Hin)]); [..|done].
  - change (-1 <? 0) with true. cbn iota. rewrite (proj2 (Z.eqb_neq errno EINTR)) by (by apply Hi). destruct (would_block errno) eqn:Ew.
    + specialize (Hp (or_intror eq_refl)). unfold await_readable, Environment.await_readable, Environment.yield_current. rewrite Ht. cbn [bindO].
      set (y := Yield2 _). destruct (Hu k y) as (U1 & U2 & U3). set (c1 := Co k _ _).
      destruct (IH (park_current c1 y) ltac:(cbn; lia)) as (c' & v & bs & E1 & W1 & O1 & I1 & M1 & Hv).
      exists c', v, bs. cbn [kernel memory park_current c1] in *. rewrite U1, Ho in O1. rewrite U2, Hin in I1.
      split; [done|]. split; [by eapply waited_trans; [apply waited_once|]|]. split; [done|]. split; [done|]. by split.
    + eexists _, (-1), []. split; [reflexivity|]. split; [apply waited_refl|]. split; [done|]. split; [by rewrite app_nil_r|]. split; [done|].
      split; [rewrite (zlen_nil (A := Z)); lia|by right].
  - rewrite (proj2 (Z.ltb_ge _ _)) by lia. destruct (Z.eqb_spec ret 0) as [->|Hne];
      (eexists _, _, bs; split; [reflexivity|]; split; [apply waited_refl|]; split; [done|]; split; [done|]; split; [done|]; split; [lia|left; unfold kEOF_value; lia]).
Qed.
End facts.

(** ** Properties *)

(** C23: [write_exactly], called in a coroutine of the v2 run time, ends: as long as
    the kernel refuses finitely often, it sends all bytes of the range in order and
    returns their number, or it returns the largest [size_t] when a call has failed,
    and then the stream has taken a front of the range whose length is lost.  Until
    then it has only yielded to wait for room. *)
Theorem port_write_exactly {K : Type} `{port_spec K} (t : thread) (r : Z) (c : co K) (fd data size : Z) (fuel : nat) :
  undisturbed fd -> local_worker t = Some (Some r) -> 0 <= size < 2 ^ 63 -> (patience (kernel c) fd < fuel)%nat ->
  exists c' v n, write_exactly fuel t c fd data size = Ret (c', v) /\ 0 <= n <= size /\ memory c' = memory c /\
    outgoing (kernel c') fd = outgoing (kernel c) fd ++ load (memory c) data n /\ incoming (kernel c') fd = incoming (kernel c) fd /\
    (v = size /\ n = size \/ v = 2 ^ 64 - 1 /\ n < size) /\
    exists m, yields c' = yields c ++ replicate m (Yield2 (blocked_port fd WRITE)).
Proof.
  intros Hu Ht Hs Hf. destruct (exact_loop_ok t r fd data size fuel Hu Ht Hs (S (Z.to_nat size)) c 0) as (c' & v & n & E1 & Hn & M & W & I & O & R); [lia..|].
  rewrite Z.add_0_r in E1, O. rewrite Z.sub_0_r in O. by exists c', v, n.
Qed.

(** [read_some] in a coroutine of the v2 run time stores the next bytes of the
    stream and returns how many, 0 at its end, or -1 when the call failed: waiting
    ends as long as the kernel refuses finitely often.  But when the call is
    interrupted it yields to the older run time, of which the thread has no worker:
    a null pointer is dereferenced. *)
Theorem port_read_some {K : Type} `{port_spec K} (r : Z) (c : co K) (fd data size : Z) (fuel : nat) :
  undisturbed fd -> 0 < size -> (patience (kernel c) fd < fuel)%nat ->
  ((forall k errno, (sys_recv k fd size).2 = (-1, errno) -> errno <> EINTR) ->
   exists c' v bs, read_some fuel (v2_thread r) c fd data size = Ret (c', v) /\
     outgoing (kernel c') fd = outgoing (kernel c) fd /\ incoming (kernel c') fd = incoming (kernel c) fd ++ bs /\
     memory c' = store (memory c) data bs /\ zlen bs <= size /\ (v = zlen bs \/ v = -1 /\ bs = [])) /\
  (forall k bs, sys_recv (kernel c) fd size = (k, bs, (-1, EINTR)) -> read_some fuel (v2_thread r) c fd data size = Undef).
Proof.
  intros Hu Hs Hf. split.
  - intros Hi. destruct (read_some_ok (v2_thread r) r fd data size Hu eq_refl Hs Hi fuel c Hf) as (c' & v & bs & E1 & _ & H1).
    by exists c', v, bs.
  - intros k bs Er. destruct fuel as [|fuel]; [lia|]. cbn [read_some]. by rewrite Er.
Qed.

(** No run time can run the coroutine of [as_channel]: it is spawned in the
    older one, but when no connection waits, [accept] awaits the port in the v2 run
    time, which the thread is not part of, and the assertion fails; a v2 thread
    could wait, but not block on the channel when no receiver does. *)
Theorem listener_channel_stops {K : Type} `{port_api K} (others : bus (T := Z) -> bus (T := Z)) (rounds fuel : nat) (r : Z)
    (c : co K) (b : bus (T := Z)) (fd : Z) (k : K) (errno : Z) :
  (errno = 0 \/ would_block errno = true) ->
  (sys_accept (kernel c) fd = (k, (-1, errno)) -> as_channel others (S rounds) (S fuel) r c b fd = Abort) /\
  (forall sock, 0 <= sock -> sys_accept (kernel c) fd = (k, (sock, 0)) -> blocked_receivers b = [] ->
     as_channel_loop others (S rounds) (S fuel) (v2_thread r) c b fd = Undef).
Proof.
  intros He. split.
  - intros Ha. unfold as_channel. cbn [as_channel_loop accept]. rewrite Ha. change (-1 <? 0) with true. cbn iota.
    assert ((errno =? 0) || would_block errno = true) as -> by (destruct He as [-> | ->]; [done|by rewrite orb_true_r]). done.
  - intros sock Hs Ha Hb. cbn [as_channel_loop accept]. rewrite Ha, (proj2 (Z.ltb_ge _ _)) by done. cbn [bindO send].
    unfold put_once, maybe_deliver. by rewrite Hb.
Qed.

(** ** The properties at concrete inputs

    The kernel of Socket, which takes everything and has nothing more to say when
    it has used up its answers. *)
#[export] Instance ex_port_api : port_api ex_kernel := {|
  sys_send k d bs :=
    match ek_next k with
    | inr e :: l => (Kernel (ek_wire k) (ek_heard k) l, (-1, e))
    | inl a :: l => let sent := ek_clip (Z.max 1 (zlen a)) bs in (Kernel (ek_add (ek_wire k) d sent) (ek_heard k) l, (zlen sent, 0))
    | [] => let sent := ek_clip (zlen bs) bs in (Kernel (ek_add (ek_wire k) d sent) (ek_heard k) [], (zlen sent, 0))
    end;
  sys_recv k d room :=
    match ek_next k with
    | inr e :: l => (Kernel (ek_wire k) (ek_heard k) l, [], (-1, e))
    | inl a :: l => let got := ek_clip room a in (Kernel (ek_wire k) (ek_add (ek_heard k) d got) l, got, (zlen got, 0))
    | [] => (k, [], (0, 0))
    end;
  sys_accept k d :=
    match ek_next k with
    | inr e :: l => (Kernel (ek_wire k) (ek_heard k) l, (-1, e))
    | _ :: l => (Kernel (ek_wire k) (ek_heard k) l, (d + 1, 0))
    | [] => (k, (-1, EAGAIN))
    end;
  fd_close k d := k;
  suspended k y := k
|}.

Definition refusals (l : list (list Z + Z)) : nat := length (filter (fun x => match x with inr _ => true | inl _ => false end = true) l).

Lemma ek_add_same f d bs : ek_add f d bs d = f d ++ bs.
Proof. unfold ek_add. by rewrite Z.eqb_refl. Qed.

Lemma ek_clip_some n bs : 1 <= n -> bs <> [] -> 0 < zlen (ek_clip n bs).
Proof.
  intros Hn Hb. unfold ek_clip. rewrite zlen_take by lia. assert (0 < zlen bs); [|lia]. destruct bs; [done|]. rewrite (zlen_cons (A := Z)).
  pose proof (zlen_nonneg bs). lia.
Qed.

Lemma ex_sent k d bs n l l' : bs <> [] -> 1 <= n -> (refusals l <= refusals l')%nat -> let sent := ek_clip n bs in
  0 < zlen sent <= zlen bs /\ zlen sent < 2 ^ 31 /\ ek_add (ek_wire k) d sent d = ek_wire k d ++ ztake (zlen sent) bs /\
  (refusals l <= refusals l')%nat.
Proof.
  intros Hb Hn Hl sent. pose proof (ek_clip_len n bs ltac:(lia)) as (H1 & H2 & H3). pose proof (ek_clip_some n bs Hn Hb).
  split; [unfold sent; lia|]. split; [done|]. split; [|done]. rewrite ek_add_same. unfold sent. by rewrite ek_clip_take by lia.
Qed.

#[export] Program Instance ex_port_spec : port_spec ex_kernel :=
  {| outgoing := ek_wire; incoming := ek_heard; patience k _ := refusals (ek_next k) |}.
Next Obligation.
  intros k d bs k' ret errno Hb Es. cbn in Es. destruct (ek_next k) as [|[a|e] l] eqn:En; injection Es as <- <- <-; cbn [ek_heard ek_wire ek_next]; (split; [done|]).
  - right. rewrite En. apply ex_sent; [done| |done]. assert (0 < zlen bs); [|lia]. destruct bs; [done|]. rewrite (zlen_cons (A := Z)). pose proof (zlen_nonneg bs). lia.
  - right. rewrite En. apply ex_sent; [done|lia|done].
  - left. split; [done|]. split; [done|]. intros _. rewrite En. unfold refusals. rewrite filter_cons_True by done. cbn [length]. lia.
Qed.
Next Obligation.
  intros k d room k' bs ret errno Hr Es. cbn in Es. destruct (ek_next k) as [|[a|e] l] eqn:En; injection Es as <- <- <- <-; cbn [ek_heard ek_wire ek_next]; (split; [done|]).
  - right. split; [lia|]. split; [done|]. split; [done|]. by rewrite app_nil_r.
  - right. pose proof (ek_clip_len room a ltac:(lia)) as (H1 & H2 & H3). split; [lia|]. split; [done|]. split; [done|]. apply ek_add_same.
  - left. split; [done|]. split; [done|]. split; [done|]. intros _. rewrite En. unfold refusals. rewrite filter_cons_True by done. cbn [length]. lia.
Qed.

Lemma ex_undisturbed d : undisturbed (K := ex_kernel) d.
Proof. by intros k y. Qed.

(** Two of five bytes, then the socket is full, then the rest. *)
Definition ex_co : co ex_kernel := Co (Kernel (fun _ => []) (fun _ => []) [inl [0; 0]; inr EAGAIN; inr EINTR]) (store ∅ 100 [1; 2; 3; 4; 5]) [].

Lemma port_write_exactly_witness : exists c v n, write_exactly 3 (v2_thread 9) ex_co 4 100 5 = Ret (c, v) /\ 0 <= n <= 5 /\
  outgoing (kernel c) 4 = load (memory ex_co) 100 n.
Proof.
  destruct (port_write_exactly (v2_thread 9) 9 ex_co 4 100 5 3) as (c & v & n & H1 & H2 & _ & H3 & _).
  - exact (ex_undisturbed 4).
  - reflexivity.
  - split; [discriminate|reflexivity].
  - exact (le_n 3).
  - exists c, v, n. split; [exact H1|]. split; [exact H2|exact H3].
Defined.

Definition ex_reader : co ex_kernel := Co (Kernel (fun _ => []) (fun _ => []) [inr EINTR]) ∅ [].

Lemma port_read_some_witness : read_some 2 (v2_thread 9) ex_reader 4 100 5 = Undef.
Proof.
  refine (proj2 (port_read_some 9 ex_reader 4 100 5 2 (ex_undisturbed 4) _ _) (Kernel (fun _ => []) (fun _ => []) []) [] _).
  - reflexivity.
  - exact (le_n 2).
  - reflexivity.
Defined.

Lemma listener_channel_stops_witness : as_channel (fun b => b) 1 1 9 (Co (Kernel (fun _ => []) (fun _ => []) []) ∅ []) (bus_new []) 3 = Abort.
Proof.
  refine (proj1 (listener_channel_stops (fun b => b) 0 0 9 (Co (Kernel (fun _ => []) (fun _ => []) []) ∅ []) (bus_new []) 3
    (Kernel (fun _ => []) (fun _ => []) []) EAGAIN _) _).
  - right. reflexivity.
  - reflexivity.
Defined.
