(* ===== verification/Endpoint.v ===== *)
(** * Endpoint: addresses and options of sockets (xi/io/net/endpoint.h,
      xi/io/net/ip_address.h, xi/io/net/socket_option.h,
      xi/io/net/channel_options.h)

    An address is the bytes of its [sockaddr] on a little-endian machine; a byte
    that was never written is [None].  [setsockopt] and [getsockopt] are the class
    [option_api]. *)
From S2P Require Import Prelude Socket.

Definition AF_UNIX : Z := 1.
Definition AF_INET : Z := 2.

(** [htons] and [ntohs] of a little-endian machine. *)
Definition swap16 (x : Z) : Z := Z.lor (Z.shiftl (Z.land x 0xff) 8) (Z.land (Z.shiftr x 8) 0xff).

(** The bytes of an integer in memory, and the integer of bytes. *)
Fixpoint bytes_of (n : nat) (x : Z) : list Z :=
  match n with O => [] | S n => Z.land x 0xff :: bytes_of n (Z.shiftr x 8) end.
Fixpoint int_of (bs : list Z) : Z :=
  match bs with [] => 0 | b :: bs => b + 2 ^ 8 * int_of bs end.

(** ** [ip4_address]: [in_addr_t], whose bytes are in network order *)
Module Address.
Definition make : Z := 0.
Definition of_bytes (bytes : list Z) : Z := int_of bytes.
Definition any : Z := 0.
Definition to_bytes (a : Z) : list Z := bytes_of 4 a.
End Address.

(** ** [endpoint< kInet >] *)
Module Inet.
Record sockaddr_in := SockaddrIn { sin_family : Z; sin_port : Z; s_addr : Z }.

Definition make (p : Z) : sockaddr_in := SockaddrIn AF_INET (swap16 (u16 p)) Address.any.
(** [endpoint(-1)]. *)
Definition make_default : sockaddr_in := make (-1).
Definition port (e : sockaddr_in) : Z := swap16 (sin_port e).
Definition address (e : sockaddr_in) : Z := s_addr e.
(** The 16 bytes and their number. *)
Definition to_posix (e : sockaddr_in) : list Z * Z :=
  (bytes_of 2 (sin_family e) ++ bytes_of 2 (sin_port e) ++ bytes_of 4 (s_addr e) ++ replicate 8 0, 16).
End Inet.

(** ** [endpoint< kUnix >] *)
Module Unix.
Definition sun_path_size : nat := 108.
Definition sockaddr_un : Type := list (option Z).

(** [bzero(&_addr, sizeof(sockaddr_in))] of a new [sockaddr_un], the family, and
    [memcpy] to [sun_path]. *)
Definition fill (path : list Z) : sockaddr_un :=
  let zeroed := replicate 16 (Some 0) ++ replicate (2 + sun_path_size - 16) None in
  (Some <$> bytes_of 2 AF_UNIX) ++ (Some <$> path) ++ drop (2 + length path) zeroed.

(** From an array, which ends in a zero byte that is copied. *)
Definition of_literal (path : list Z) : sockaddr_un := fill (path ++ [0]).

Definition of_pointer (path : list Z) (len : Z) : outcome sockaddr_un :=
  let len := if len =? 2 ^ 64 - 1 then zlen path else len in
  assertO (len <=? Z.of_nat sun_path_size) (Ret (fill (ztake len path))).

(** [path()], read as a string: to the first zero byte. *)
Fixpoint c_string (bs : sockaddr_un) : outcome (list Z) :=
  match bs with
  | [] | None :: _ => Undef
  | Some c :: bs => if c =? 0 then Ret [] else do s <- c_string bs;; Ret (c :: s)
  end.

Definition path (e : sockaddr_un) : outcome (list Z) := c_string (drop 2 e).
Definition to_posix (e : sockaddr_un) : sockaddr_un * Z := (e, Z.of_nat (length e)).
End Unix.

(** ** [socket_option] *)
Record socket_option := SocketOption { level : Z; name : Z; length_ : nat }.

#[export] Instance socket_option_eq_dec : EqDecision socket_option.
Proof. solve_decision. Defined.

(** [setsockopt] and [getsockopt]: descriptor, level, name, bytes or room. *)
Class option_api (K : Type) := {
  sys_set_option : K -> Z -> Z -> Z -> list Z -> K * (Z * Z);
  sys_get_option : K -> Z -> Z -> Z -> nat -> K * list Z * (Z * Z)
}.

Module Options.
Definition IPPROTO_IP : Z := 0.
Definition SOL_SOCKET : Z := 1.
Definition IPPROTO_TCP : Z := 6.
Definition IPPROTO_UDP : Z := 17.

(** [boolean_socket_option] and [numeric_socket_option]: an [int]. *)
Definition bool_opt (l n : Z) : socket_option := SocketOption l n 4.
Definition num_opt (l n : Z) : socket_option := SocketOption l n 4.

(** The options of the namespaces [socket], [ip], [tcp] and [udp]. *)
Definition socket_options : list socket_option :=
  [bool_opt SOL_SOCKET 2; bool_opt SOL_SOCKET 30; bool_opt SOL_SOCKET 6; bool_opt SOL_SOCKET 5; bool_opt SOL_SOCKET 9;
   bool_opt SOL_SOCKET 10; bool_opt SOL_SOCKET 29; num_opt SOL_SOCKET 4; num_opt SOL_SOCKET 12; num_opt SOL_SOCKET 8;
   num_opt SOL_SOCKET 33; num_opt SOL_SOCKET 7; num_opt SOL_SOCKET 32; num_opt SOL_SOCKET 18; num_opt SOL_SOCKET 19;
   num_opt SOL_SOCKET 38; num_opt SOL_SOCKET 3].
Definition ip_options : list socket_option :=
  [bool_opt IPPROTO_IP 15; bool_opt IPPROTO_IP 10; bool_opt IPPROTO_IP 34; bool_opt IPPROTO_IP 19;
   num_opt IPPROTO_IP 14; num_opt IPPROTO_IP 33; num_opt IPPROTO_IP 2; SocketOption IPPROTO_IP 1 4].
(** [syn_retransmit_count] is a [u8]. *)
Definition syn_retransmit_count : socket_option := SocketOption IPPROTO_TCP 7 1.
Definition tcp_options : list socket_option :=
  [bool_opt IPPROTO_TCP 3; bool_opt IPPROTO_TCP 1; bool_opt IPPROTO_TCP 12; num_opt IPPROTO_TCP 6; num_opt IPPROTO_TCP 4;
   num_opt IPPROTO_TCP 5; num_opt IPPROTO_TCP 8; num_opt IPPROTO_TCP 2; syn_retransmit_count].
Definition udp_options : list socket_option := [bool_opt IPPROTO_UDP 1].

Section options.
Context {K : Type} `{option_api K}.

Definition set_option (k : K) (s : Socket.socket) (o : socket_option) (value : Z) : K * expected unit :=
  let '(k, (ret, errno)) := sys_set_option k s (level o) (name o) (bytes_of (length_ o) value) in
  (k, if -1 =? ret then Error (Errno errno) else Value tt).

(** The local [value], of which the kernel writes the first bytes; [i32] or [u8]. *)
Definition value_of (o : socket_option) (bs : list Z) : outcome Z :=
  if (length bs <? length_ o)%nat then Undef
  else Ret (if (length_ o =? 4)%nat then i32 (int_of bs) else int_of bs).

Definition get_option (k : K) (s : Socket.socket) (o : socket_option) : K * outcome (expected Z) :=
  let '(k, bs, (ret, errno)) := sys_get_option k s (level o) (name o) (length_ o) in
  (k, if -1 =? ret then Ret (Error (Errno errno)) else do v <- value_of o bs;; Ret (Value v)).
End options.
End Options.

(** ** Bytes in memory *)

Lemma length_bytes_of n x : length (bytes_of n x) = n.
Proof. revert x. induction n as [|n IH]; intros x; simpl; [done|]. by rewrite IH. Qed.

Lemma int_of_bytes_of n x : int_of (bytes_of n x) = wrap (8 * Z.of_nat n) x.
Proof.
  revert x. induction n as [|n IH]; intros x; [symmetry; apply Z.mod_1_r|].
  cbn [bytes_of int_of]. rewrite IH. unfold wrap. change 0xff with (Z.ones 8).
  rewrite Z.land_ones, Z.shiftr_div_pow2 by lia.
  replace (8 * Z.of_nat (S n)) with (8 + 8 * Z.of_nat n) by lia.
  rewrite (Z.pow_add_r 2 8) by lia. rewrite (Z.rem_mul_r x) by lia. lia.
Qed.

Lemma swap16_spec x : swap16 x = x mod 2 ^ 8 * 2 ^ 8 + x / 2 ^ 8 mod 2 ^ 8.
Proof.
  unfold swap16. change 0xff with (Z.ones 8). rewrite !Z.land_ones, Z.shiftr_div_pow2 by lia.
  rewrite <- Z.shiftl_mul_pow2 by lia. symmetry. apply Z.add_nocarry_lor.
  apply Z.bits_inj'. intros n Hn. rewrite Z.land_spec, Z.bits_0.
  destruct (Z.ltb_spec n 8) as [Hlt|Hge].
  - by rewrite Z.shiftl_spec_low.
  - rewrite (Z.mod_pow2_bits_high _ 8) by lia. apply andb_false_r.
Qed.

Lemma swap16_range x : 0 <= swap16 x < 2 ^ 16.
Proof.
  rewrite swap16_spec. pose proof (Z.mod_pos_bound x (2 ^ 8)). pose proof (Z.mod_pos_bound (x / 2 ^ 8) (2 ^ 8)). lia.
Qed.

(** The two bytes of a swapped number. *)
Lemma swap16_low x : 0 <= x < 2 ^ 16 -> swap16 x mod 2 ^ 8 = x / 2 ^ 8.
Proof.
  intros Hx. pose proof (Z.div_pos x (2 ^ 8)). pose proof (Z.div_lt_upper_bound x (2 ^ 8) (2 ^ 8)).
  rewrite swap16_spec, Z.add_comm, Z.mod_add, Z.mod_mod by lia. apply Z.mod_small. lia.
Qed.

Lemma swap16_high x : swap16 x / 2 ^ 8 = x mod 2 ^ 8.
Proof.
  pose proof (Z.mod_pos_bound (x / 2 ^ 8) (2 ^ 8)).
  rewrite swap16_spec, Z.div_add_l, Z.div_small by lia. lia.
Qed.

Lemma swap16_twice x : 0 <= x < 2 ^ 16 -> swap16 (swap16 x) = x.
Proof.
  intros Hx. rewrite swap16_spec, swap16_low, swap16_high, Z.mod_mod by lia.
  pose proof (Z.div_mod x (2 ^ 8)). lia.
Qed.

(** An internet endpoint made for a port gives back that port modulo [2^16]
    and the any-address, and its [sockaddr_in] is 16 bytes that hold the port in
    network order, the high byte first. *)
Theorem inet_endpoint_roundtrip (p : Z) :
  Inet.port (Inet.make p) = u16 p /\ Inet.address (Inet.make p) = Address.any /\
  (exists rest, (Inet.to_posix (Inet.make p)).1 = [2; 0; u16 p / 2 ^ 8; u16 p mod 2 ^ 8] ++ rest /\ length rest = 12%nat) /\
  Z.of_nat (length (Inet.to_posix (Inet.make p)).1) = (Inet.to_posix (Inet.make p)).2.
Proof.
  assert (Hp : 0 <= u16 p < 2 ^ 16) by (apply Z.mod_pos_bound; lia).
  split; [by apply swap16_twice|]. split; [done|]. split; [|done].
  exists (bytes_of 4 Address.any ++ replicate 8 0). split; [|done].
  cbn -[Z.land Z.shiftr Z.pow Z.div Z.modulo u16 swap16].
  change 255 with (Z.ones 8). rewrite !Z.land_ones, !Z.shiftr_div_pow2 by lia.
  by rewrite swap16_low, swap16_high, Z.mod_mod by lia.
Qed.

(** ** Unix paths *)

Lemma c_string_app (p : list Z) (rest : Unix.sockaddr_un) :
  Forall (fun c => c <> 0) p ->
  Unix.c_string ((Some <$> p) ++ rest) = (do s <- Unix.c_string rest;; Ret (p ++ s)).
Proof.
  induction 1 as [|c p Hc Hp IH]; [cbn; by destruct (Unix.c_string rest)|].
  cbn. rewrite (proj2 (Z.eqb_neq c 0)), IH by done. by destruct (Unix.c_string rest).
Qed.

Lemma path_fill (p : list Z) :
  Unix.path (Unix.fill p)
  = Unix.c_string ((Some <$> p) ++ drop (length p) (replicate 14 (Some 0) ++ replicate 94 None)).
Proof. done. Qed.

(** C34: A unix endpoint made from an array of at most 108 bytes, its terminator
    included, gives back its path; made from a pointer, the path is given back
    when it has at most 13 characters; from 14 to 108 characters no terminator was
    ever written and reading the path reads indeterminate bytes; more stop the
    program. *)
Theorem unix_endpoint_path (p : list Z) (len : Z)
    (Hp : Forall (fun c => c <> 0) p) (Hlen : len = zlen p \/ len = 2 ^ 64 - 1) (Hsize : zlen p < 2 ^ 64 - 1) :
  ((length p < 108)%nat -> Unix.path (Unix.of_literal p) = Ret p) /\
  (do e <- Unix.of_pointer p len;; Unix.path e)
  = if (length p <=? 13)%nat then Ret p else if (length p <=? 108)%nat then Undef else Abort.
Proof.
  split.
  - intros _. unfold Unix.of_literal. rewrite path_fill, fmap_app, <- app_assoc, c_string_app by done.
    cbn. by rewrite app_nil_r.
  - unfold Unix.of_pointer. assert ((if len =? 2 ^ 64 - 1 then zlen p else len) = zlen p) as ->.
    { destruct Hlen as [-> | ->]; [|done]. rewrite (proj2 (Z.eqb_neq (zlen p) (2 ^ 64 - 1))); [done|lia]. }
    unfold zlen at 1. change (Z.of_nat Unix.sun_path_size) with (Z.of_nat 108).
    destruct (Nat.leb_spec (length p) 108) as [Hfit|Hbig].
    + rewrite (proj2 (Z.leb_le _ _)) by lia. cbn [assertO bindO]. unfold ztake, zlen. rewrite Nat2Z.id, firstn_all.
      rewrite path_fill, c_string_app, skipn_app, length_replicate by done.
      rewrite !drop_replicate. destruct (Nat.leb_spec (length p) 13) as [Hs|Hl].
      * destruct (14 - length p)%nat eqn:Hk; [lia|]. cbn. by rewrite app_nil_r.
      * replace (14 - length p)%nat with 0%nat by lia. cbn [replicate app].
        by destruct (94 - (length p - 14))%nat.
    + rewrite (proj2 (Z.leb_gt _ _)) by lia. by rewrite (proj2 (Nat.leb_gt _ _)) by lia.
Qed.

Lemma unix_endpoint_path_witness :
  (do e <- Unix.of_pointer (replicate 20 65) (2 ^ 64 - 1);; Unix.path e) = Undef.
Proof.
  refine (proj2 (unix_endpoint_path (replicate 20 65) (2 ^ 64 - 1) _ (or_intror eq_refl) _)); [|done].
  by apply list.Forall_replicate.
Defined.

(** ** Options *)

(** No two options have the same level and name. *)
Lemma options_distinct :
  NoDup ((fun o => (level o, name o)) <$>
    Options.socket_options ++ Options.ip_options ++ Options.tcp_options ++ Options.udp_options).
Proof. apply (bool_decide_unpack _). by vm_compute. Qed.

(** An [int]-sized option everywhere but in [syn_retransmit_count]. *)
Lemma options_int_sized :
  filter (fun o => length_ o <> 4%nat)
    (Options.socket_options ++ Options.ip_options ++ Options.tcp_options ++ Options.udp_options)
  = [Options.syn_retransmit_count].
Proof. done. Qed.

(** When the kernel keeps the bytes of an option that was set, the option is
    read back with that value: an [int] as the [i32] of its bytes and
    [syn_retransmit_count] as a byte; a call the kernel refuses returns its error
    code. *)
Theorem socket_option_roundtrip {K : Type} `{option_api K} (k k' : K) (s : Socket.socket) (o : socket_option)
    (v ret errno : Z) (Ho : length_ o = 4%nat \/ o = Options.syn_retransmit_count)
    (Hset : sys_set_option k s (level o) (name o) (bytes_of (length_ o) v) = (k', (ret, errno)))
    (Hret : ret = 0 \/ ret = -1) :
  Options.set_option k s o v = (k', if ret =? 0 then Value tt else Error (Errno errno)) /\
  (ret = 0 ->
   sys_get_option k' s (level o) (name o) (length_ o) = (k', bytes_of (length_ o) v, (0, errno)) ->
   Options.get_option k' s o
   = (k', Ret (Value (if bool_decide (o = Options.syn_retransmit_count) then u8 v else i32 v)))).
Proof.
  split.
  - unfold Options.set_option. rewrite Hset. by destruct Hret as [-> | ->].
  - intros -> Hkept. unfold Options.get_option. rewrite Hkept. cbn [Z.eqb]. unfold Options.value_of.
    rewrite length_bytes_of, (proj2 (Nat.ltb_ge _ _)), int_of_bytes_of by lia.
    case_bool_decide as Hsyn; [by rewrite Hsyn|].
    destruct Ho as [-> | ->]; [|done]. cbn. do 3 f_equal. unfold i32, u32, wrap. by rewrite Z.mod_mod.
Qed.

(** A kernel that stores options by descriptor, level and name, newest first. *)
Definition ex_options : Type := list (Z * Z * Z * list Z).

Definition ex_find (k : ex_options) (d l n : Z) : list Z :=
  match list_find (fun kept => kept.1 = (d, l, n)) k with Some (_, (_, bs)) => bs | None => [] end.

#[export] Instance ex_option_api : option_api ex_options := {
  sys_set_option k d l n bs := ((d, l, n, bs) :: k, (0, 0));
  sys_get_option k d l n room := (k, ex_find k d l n, (0, 0))
}.

Lemma socket_option_roundtrip_witness :
  let ttl := Options.num_opt Options.IPPROTO_IP 2 in
  let '(k, _) := Options.set_option ([] : ex_options) 3 ttl (-7) in
  (Options.get_option k 3 ttl).2 = Ret (Value (-7)).
Proof.
  exact (f_equal snd (proj2 (socket_option_roundtrip (K := ex_options) [] [(3, 0, 2, bytes_of 4 (-7))]
    3 (Options.num_opt 0 2) (-7) 0 0 (or_introl eq_refl) eq_refl (or_introl eq_refl)) eq_refl eq_refl)).
Defined.
