(* ===== verification/Posix.v ===== *)
(** * Posix: the socket of [net::posix] (xi/io/net/socket/posix.hpp)

    A C++ [socket] object is its [_descriptor]; its moves are the compiler's, which
    copy an integer, and its destructor closes it.  The kernel is the class
    [posix_api]; [posix_spec] states which descriptors are open.  Addresses are
    numbers. *)
From S2P Require Import Prelude Bytes Socket.

Definition EBADF : Z := 9.

(** The system calls: the descriptor, then what is passed; [(ret, errno)]. *)
Class posix_api (K : Type) := {
  px_socket : K -> Z -> Z -> Z -> K * (Z * Z);
  px_close : K -> Z -> K * (Z * Z);
  px_sendmsg : K -> Z -> option Z -> list Z -> K * (Z * Z);
  px_recvmsg : K -> Z -> option Z -> list Z -> K * list Z * (Z * Z);
  px_bind : K -> Z -> Z -> K * (Z * Z);
  px_listen : K -> Z -> Z -> K * (Z * Z);
  px_accept4 : K -> Z -> K * (Z * Z)
}.

Module Posix.
Section posix.
Context {K : Type} `{posix_api K}.

(** [class socket]. *)
Definition socket : Type := Z.

Definition construct (d : Z) : outcome socket := if d <? 0 then Throw runtime_error else Ret d.

Definition open (k : K) (address_family sock_type protocol : Z) : K * outcome socket :=
  let '(k, (d, _)) := px_socket k address_family sock_type protocol in (k, construct d).

(** The defaulted move constructor: the new object and the one moved from. *)
Definition move (s : socket) : socket * socket := (s, s).

Definition close (k : K) (s : socket) : K := fst (px_close k s).
Definition destroy (k : K) (s : socket) : K := close k s.
Definition native_handle (s : socket) : Z := s.

(** [read] and [write]. *)
Definition write_error (retval errno : Z) : io_error :=
  if (EAGAIN =? errno) || (EWOULDBLOCK =? errno) then kRetry
  else if (ECONNRESET =? retval) || (EPIPE =? retval) then kEOF
  else Errno errno.

Definition write (k : K) (m : mem) (s : socket) (iov : list byte_range) (remote : option Z) : K * expected Z :=
  if (length iov =? 0)%nat then (k, Value 0)
  else
    let '(k, (retval, errno)) := px_sendmsg k s remote (iov ≫= Range.bytes m) in
    (k,
     if -1 =? retval then Error (write_error retval errno)
     else if 0 =? retval then Error kRetry
     else Value (u32 retval)).

Definition read_error (errno : Z) : io_error :=
  if (EAGAIN =? errno) || (EWOULDBLOCK =? errno) then kRetry
  else if ECONNRESET =? errno then kEOF
  else Errno errno.

(** The bytes that [recvmsg] stores, range after range. *)
Fixpoint scatter (m : mem) (iov : list byte_range) (bs : list Z) : mem :=
  match iov with
  | [] => m
  | r :: iov => scatter (store m (r_data r) (ztake (r_size r) bs)) iov (zdrop (r_size r) bs)
  end.

Definition read (k : K) (m : mem) (s : socket) (iov : list byte_range) (remote : option Z) : K * mem * expected Z :=
  if (length iov =? 0)%nat then (k, m, Value 0)
  else
    let '(k, bs, (retval, errno)) := px_recvmsg k s remote (r_size <$> iov) in
    (k, scatter m iov bs,
     if -1 =? retval then Error (read_error errno)
     else if 0 =? retval then Error kEOF
     else Value (u32 retval)).

(** [posix_to_result]. *)
Definition posix_to_result (call : K * (Z * Z)) : K * expected Z :=
  let '(k, (ret, errno)) := call in (k, if -1 =? ret then Error (Errno errno) else Value ret).

Definition bind (k : K) (s : socket) (local : Z) : K * expected unit :=
  let '(k, (ret, errno)) := px_bind k s local in
  (k, if -1 =? ret then Error (Errno errno) else Value tt).

(** [result< void >::then]. *)
Definition then_ (r : expected unit) (k : K) (f : K -> K * expected unit) : K * expected unit :=
  match r with Error e => (k, Error e) | Value _ => f k end.

Definition listen (k : K) (s : socket) (local : Z) (queue_length : option Z) : K * expected unit :=
  let '(k, r) := bind k s local in
  then_ r k (fun k =>
    let '(k, (ret, errno)) := px_listen k (native_handle s) (default 1024 queue_length) in
    (k, if -1 =? ret then Error (Errno errno) else Value tt)).

(** [ok(socket(retval))]: the temporary is moved into the result and destroyed. *)
Definition accept (k : K) (s : socket) : K * outcome (expected socket) :=
  let '(k, (retval, errno)) := px_accept4 k (native_handle s) in
  if -1 =? retval then (k, Ret (Error (Errno errno)))
  else
    match construct retval with
    | Ret temporary =>
        let '(value, temporary) := move temporary in
        (destroy k temporary, Ret (Value value))
    | Abort => (k, Abort)
    | Throw e => (k, Throw e)
    | Undef => (k, Undef)
    | Diverge => (k, Diverge)
    end.

(** [result::unwrap()] of a result that holds a socket: the value is moved out and
    the one left in the result is destroyed. *)
Definition unwrap (k : K) (s : socket) : K * socket :=
  let '(value, kept) := move s in (destroy k kept, value).
End posix.
End Posix.

(** ** What the kernel promises

    [opened k] are the open descriptors: a new one was not open; calls on one that
    is not open fail. *)
Class posix_spec (K : Type) `{posix_api K} := {
  opened : K -> gset Z;
  px_close_opened k d : opened (fst (px_close k d)) = (opened k ∖ {[d]});
  px_socket_opened k af ty proto k' d errno : px_socket k af ty proto = (k', (d, errno)) ->
    (d = -1 /\ opened k' = opened k) \/ (0 <= d /\ (d ∉ opened k) /\ opened k' = ({[d]} ∪ opened k));
  px_accept_opened k s k' d errno : px_accept4 k s = (k', (d, errno)) ->
    (d = -1 /\ opened k' = opened k) \/ (0 <= d /\ (d ∉ opened k) /\ opened k' = ({[d]} ∪ opened k));
  px_recv_closed k d remote sizes : d ∉ opened k -> px_recvmsg k d remote sizes = (k, [], (-1, EBADF));
  px_send_closed k d remote bs : d ∉ opened k -> px_sendmsg k d remote bs = (k, (-1, EBADF))
}.

(** ** Objects and descriptors *)
Section objects.
Context {K : Type} `{posix_spec K}.
Implicit Types (k : K) (s d : Z).

(** What may happen in a program: [l] are the objects that came from [accept], by their
    descriptors; each is destroyed once, which closes its descriptor.  [o] are the
    descriptors that the constructor from an address family has opened and nobody has
    closed since.  Other sockets are closed at any time; what else happens opens and
    closes nothing. *)
Inductive holds : K -> list Z -> gset Z -> Prop :=
  | holds_none k : holds k [] ∅
  | holds_accept k k' l o s d : holds k l o -> Posix.accept k s = (k', Ret (Value d)) -> holds k' (d :: l) (o ∖ {[d]})
  | holds_unwrap k k' l1 l2 o s d : holds k (l1 ++ s :: l2) o -> Posix.unwrap k s = (k', d) -> holds k' (l1 ++ d :: l2) (o ∖ {[s]})
  | holds_destroy k l1 l2 o s : holds k (l1 ++ s :: l2) o -> holds (Posix.destroy k s) (l1 ++ l2) (o ∖ {[s]})
  | holds_open k k' l o af ty proto d : holds k l o -> Posix.open k af ty proto = (k', Ret d) -> holds k' l ({[d]} ∪ o)
  | holds_close k l o s : holds k l o -> holds (Posix.close k s) l (o ∖ {[s]})
  | holds_other k k' l o : holds k l o -> opened k' = opened k -> holds k' l o.

Lemma accept_value k s k' d :
  Posix.accept k s = (k', Ret (Value d)) -> 0 <= d /\ (d ∉ opened k) /\ opened k' = opened k.
Proof.
  unfold Posix.accept. destruct (px_accept4 k (Posix.native_handle s)) as [k1 [r errno]] eqn:Ha.
  apply px_accept_opened in Ha as [[-> _]|(Hr & Hn & Ho)]; [done|].
  rewrite (proj2 (Z.eqb_neq (-1) r)) by lia. unfold Posix.construct. rewrite (proj2 (Z.ltb_ge r 0)) by lia.
  cbn. intros [= <- <-]. split; [done|]. split; [done|]. unfold Posix.destroy, Posix.close.
  rewrite px_close_opened, Ho. set_solver.
Qed.

Lemma open_value k af ty proto k' d : Posix.open k af ty proto = (k', Ret d) -> opened k' = ({[d]} ∪ opened k).
Proof.
  unfold Posix.open. destruct (px_socket k af ty proto) as [k1 [r errno]] eqn:Ha. apply px_socket_opened in Ha as [[-> _]|(Hr & _ & Ho)].
  - done.
  - unfold Posix.construct. rewrite (proj2 (Z.ltb_ge r 0)) by lia. by intros [= <- <-].
Qed.

(** An object from [accept] has an open descriptor only if another socket was given it. *)
Lemma holds_owned k (l : list Z) (o : gset Z) : holds k l o -> forall d, d ∈ l -> d ∈ opened k -> d ∈ o.
Proof.
  induction 1 as [k|k k' l o s d _ IH Ha|k k' l1 l2 o s d _ IH Hu|k l1 l2 o s _ IH|k k' l o af ty proto d _ IH Ho|k l o s _ IH|k k' l o _ IH Ho];
    intros x Hx Hox.
  - by apply not_elem_of_nil in Hx.
  - apply accept_value in Ha as (_ & Hd & Ho). rewrite Ho in Hox. apply elem_of_cons in Hx as [->|Hx]; [done|].
    specialize (IH x Hx Hox). set_solver.
  - injection Hu as <- <-. unfold Posix.destroy, Posix.close in Hox. rewrite px_close_opened in Hox.
    apply elem_of_difference in Hox as [Hox Hne]. specialize (IH x Hx Hox). set_solver.
  - unfold Posix.destroy, Posix.close in Hox. rewrite px_close_opened in Hox. apply elem_of_difference in Hox as [Hox Hne].
    assert (x ∈ l1 ++ s :: l2) as Hx' by set_solver. specialize (IH x Hx' Hox). set_solver.
  - apply open_value in Ho. rewrite Ho in Hox. apply elem_of_union in Hox as [Hox|Hox]; [set_solver|]. specialize (IH x Hx Hox). set_solver.
  - unfold Posix.close in Hox. rewrite px_close_opened in Hox. apply elem_of_difference in Hox as [Hox Hne]. specialize (IH x Hx Hox). set_solver.
  - rewrite Ho in Hox. by apply IH.
Qed.

Lemma use_closed k m s (iov : list byte_range) (remote : option Z) :
  s ∉ opened k -> iov <> [] ->
  Posix.write k m s iov remote = (k, Error (Errno EBADF)) /\
  Posix.read k m s iov remote = (k, Posix.scatter m iov [], Error (Errno EBADF)).
Proof.
  intros Hs Hiov. unfold Posix.write, Posix.read. rewrite (proj2 (Nat.eqb_neq (length iov) 0)).
  - by rewrite px_send_closed, px_recv_closed.
  - by destruct iov.
Qed.
End objects.

(** ** Properties *)
Section properties.
Context {K : Type} `{posix_spec K}.
Implicit Types (k : K) (s d : Z).

(** C24: No socket that came from [accept] owns a descriptor.  The one it is given was
    new and is closed when [accept] returns, since the temporary it was moved from has
    the same one.  From then on, whatever the program does with its sockets, every read
    and write of at least one range by such an object fails with [EBADF], unless a socket was opened since that
    got the same number and is still open: then the calls go to the descriptor of that
    other socket. *)
Theorem posix_accepted_unusable k (m : mem) (l : list Z) (o : gset Z) (d : Z) (iov : list byte_range) (remote : option Z) :
  holds k l o -> d ∈ l -> iov <> [] ->
  (snd (Posix.read k m d iov remote) = Error (Errno EBADF) /\ snd (Posix.write k m d iov remote) = Error (Errno EBADF)) \/
  (d ∈ o /\ d ∈ opened k).
Proof.
  intros Hl Hd Hiov. destruct (decide (d ∈ opened k)) as [Ho|Ho].
  - right. split; [by eapply holds_owned|done].
  - left. destruct (use_closed k m d iov remote Ho Hiov) as [Hw Hr]. by rewrite Hw, Hr.
Qed.

(** An accepted socket is closed when [accept] returns. *)
Lemma posix_accept_closes k s k' d : Posix.accept k s = (k', Ret (Value d)) -> (d ∉ opened k') /\ opened k' = opened k.
Proof. intros Ha. apply accept_value in Ha as (_ & Hd & Ho). by rewrite Ho. Qed.
End properties.

Section results.
Context {K : Type} `{posix_api K}.

(** C28: What a read and a write return for each answer of the kernel: no bytes
    read, and a reset connection, are the end of the file; a write says [kRetry] for
    no bytes and reports a broken or reset connection as the plain error code, never
    as the end of the file, because it compares the return value instead of [errno]. *)
Theorem posix_results (k : K) (m : mem) (s : Z) (iov : list byte_range) (remote : option Z) (Hiov : iov <> []) :
  (let '(_, _, (ret, errno)) := px_recvmsg k s remote (r_size <$> iov) in
   snd (Posix.read k m s iov remote)
   = if ret =? -1 then
       if errno =? EAGAIN then Error kRetry else if errno =? ECONNRESET then Error kEOF else Error (Errno errno)
     else if ret =? 0 then Error kEOF else Value (u32 ret)) /\
  (let '(_, (ret, errno)) := px_sendmsg k s remote (iov ≫= Range.bytes m) in
   snd (Posix.write k m s iov remote)
   = if ret =? -1 then if errno =? EAGAIN then Error kRetry else Error (Errno errno)
     else if ret =? 0 then Error kRetry else Value (u32 ret)).
Proof.
  unfold Posix.read, Posix.write. assert (length iov <> 0%nat) as Hn by by destruct iov.
  rewrite (proj2 (Nat.eqb_neq _ _)) by done. split.
  - destruct (px_recvmsg k s remote (r_size <$> iov)) as [[k' bs] [ret errno]]. cbn [snd].
    rewrite (Z.eqb_sym (-1)), (Z.eqb_sym 0). unfold Posix.read_error, EWOULDBLOCK.
    rewrite orb_diag, (Z.eqb_sym EAGAIN), (Z.eqb_sym ECONNRESET). by repeat case_match.
  - destruct (px_sendmsg k s remote (iov ≫= Range.bytes m)) as [k' [ret errno]]. cbn [snd].
    rewrite (Z.eqb_sym (-1)), (Z.eqb_sym 0). unfold Posix.write_error, EWOULDBLOCK.
    rewrite orb_diag, (Z.eqb_sym EAGAIN). destruct (Z.eqb_spec ret (-1)) as [->|]; [|done].
    cbn. by case_match.
Qed.

(** Listening: no [listen] after a [bind] that failed; 1024 connections wait by
    default. *)
Lemma posix_listen (k : K) (s local : Z) (queue_length : option Z) :
  let '(k1, (b, e1)) := px_bind k s local in
  let '(k2, (l, e2)) := px_listen k1 s (default 1024 queue_length) in
  Posix.listen k s local queue_length
  = if -1 =? b then (k1, Error (Errno e1)) else (k2, if -1 =? l then Error (Errno e2) else Value tt).
Proof.
  unfold Posix.listen, Posix.bind, Posix.native_handle. destruct (px_bind k s local) as [k1 [b e1]].
  destruct (px_listen k1 s (default 1024 queue_length)) as [k2 [l e2]] eqn:Hl.
  destruct (-1 =? b); [done|]. cbn. by rewrite Hl.
Qed.
End results.

(** ** Witnesses: a kernel that is the list of its open descriptors *)

Definition ex_fresh (k : list Z) : Z := foldr (fun d n => Z.max (d + 1) n) 0 k.

Lemma ex_fresh_spec (k : list Z) : 0 <= ex_fresh k /\ Forall (fun d => d < ex_fresh k) k.
Proof.
  induction k as [|d k [IH1 IH2]]; [done|]. change (ex_fresh (d :: k)) with (Z.max (d + 1) (ex_fresh k)).
  split; [lia|]. constructor; [lia|]. eapply list.Forall_impl; [exact IH2|]. cbn beta. lia.
Qed.

#[export] Instance ex_posix_api : posix_api (list Z) := {
  px_socket k af ty proto := (ex_fresh k :: k, (ex_fresh k, 0));
  px_close k d := (filter (fun x => x <> d) k, (0, 0));
  px_sendmsg k d remote bs := (k, if bool_decide (d ∈ k) then (zlen bs, 0) else (-1, EBADF));
  px_recvmsg k d remote sizes := (k, [], if bool_decide (d ∈ k) then (0, 0) else (-1, EBADF));
  px_bind k d local := (k, (0, 0));
  px_listen k d n := (k, (0, 0));
  px_accept4 k d := (ex_fresh k :: k, (ex_fresh k, 0))
}.

Definition ex_opened (k : list Z) : gset Z := list_to_set k.

Lemma ex_close_opened (k : list Z) (d : Z) : ex_opened (fst (px_close k d)) = (ex_opened k ∖ {[d]}).
Proof. unfold ex_opened. cbn. apply set_eq. intros x. rewrite elem_of_difference, !elem_of_list_to_set, list_elem_of_filter. set_solver. Qed.

Lemma ex_accept_opened (k : list Z) (s : Z) (k' : list Z) (d errno : Z) :
  px_accept4 k s = (k', (d, errno)) ->
  (d = -1 /\ ex_opened k' = ex_opened k) \/ (0 <= d /\ (d ∉ ex_opened k) /\ ex_opened k' = ({[d]} ∪ ex_opened k)).
Proof.
  cbn. intros [= <- <- <-]. right. destruct (ex_fresh_spec k) as [Hpos Hall]. split; [done|]. split; [|done].
  unfold ex_opened. rewrite elem_of_list_to_set. intros Hin. rewrite list.Forall_forall in Hall. specialize (Hall _ Hin). lia.
Qed.

Lemma ex_socket_opened (k : list Z) (af ty proto : Z) (k' : list Z) (d errno : Z) :
  px_socket k af ty proto = (k', (d, errno)) ->
  (d = -1 /\ ex_opened k' = ex_opened k) \/ (0 <= d /\ (d ∉ ex_opened k) /\ ex_opened k' = ({[d]} ∪ ex_opened k)).
Proof. apply (ex_accept_opened k af). Qed.

Lemma ex_recv_closed (k : list Z) (d : Z) (remote : option Z) (sizes : list Z) :
  d ∉ ex_opened k -> px_recvmsg k d remote sizes = (k, [], (-1, EBADF)).
Proof. unfold ex_opened. rewrite elem_of_list_to_set. intros Hd. cbn. by rewrite bool_decide_eq_false_2. Qed.

Lemma ex_send_closed (k : list Z) (d : Z) (remote : option Z) (bs : list Z) :
  d ∉ ex_opened k -> px_sendmsg k d remote bs = (k, (-1, EBADF)).
Proof. unfold ex_opened. rewrite elem_of_list_to_set. intros Hd. cbn. by rewrite bool_decide_eq_false_2. Qed.

#[export] Instance ex_posix_spec : posix_spec (list Z) := {
  opened := ex_opened; px_close_opened := ex_close_opened; px_socket_opened := ex_socket_opened; px_accept_opened := ex_accept_opened;
  px_recv_closed := ex_recv_closed; px_send_closed := ex_send_closed
}.

(** A socket opened after an [accept] gets the number of the accepted one, which then
    writes to the new one. *)
Example posix_accepted_reuses :
  let '(k, r) := Posix.accept [3; 0] 3 in
  let '(k', r') := Posix.open k 2 1 0 in
  r = Ret (Value 4) /\ r' = Ret 4 /\ holds k' [4] {[4]} /\ snd (Posix.write k' ∅ 4 [mk_range 100 1] None) = Value 1.
Proof.
  cbn. split; [reflexivity|]. split; [reflexivity|]. split; [|reflexivity].
  assert (H : holds [3; 0] [4] (∅ ∖ {[4]})) by (apply (holds_accept [3; 0] [3; 0] [] ∅ 3 4 (holds_none [3; 0])); reflexivity).
  apply (holds_open [3; 0] [4; 3; 0] [4] _ 2 1 0 4) in H; [|reflexivity]. by replace ({[4]} ∪ ∅ ∖ {[4]}) with ({[4]} : gset Z) in H by set_solver.
Qed.

Lemma posix_accepted_unusable_witness :
  let '(k, r) := Posix.accept [3; 0] 3 in
  r = Ret (Value 4) /\ snd (Posix.write k ∅ 4 [mk_range 100 1] None) = Error (Errno EBADF).
Proof.
  split; [reflexivity|]. destruct (posix_accepted_unusable [3; 0] ∅ [4] (∅ ∖ {[4]}) 4 [mk_range 100 1] None) as [[_ Hw]|[Ho _]].
  - apply (holds_accept [3; 0] [3; 0] [] ∅ 3 4 (holds_none [3; 0])). reflexivity.
  - by apply list_elem_of_singleton.
  - discriminate.
  - exact Hw.
  - exfalso. revert Ho. set_solver.
Defined.

Lemma posix_results_witness :
  snd (Posix.write [3] ∅ 3 [mk_range 100 2] None) = Value 2.
Proof. exact (proj2 (posix_results [3] ∅ 3 [mk_range 100 2] None ltac:(discriminate))). Defined.
