(* ===== verification/Bootstrap.v ===== *)
(** * Bootstrap: setting up the shards (xi/core/bootstrap.h,
      src/core/bootstrap.cpp, the loop of src/core/shard.cpp)

    [configure] counts the cpus, launches a thread for every shard but the first and
    sets up the first one; [run] meets the threads at a barrier, runs the shards
    and deletes them.  A step is one line of one thread; [None] says that it blocks.
    What a shard does in a turn of its loop is in Shard; here a turn ends, or begins a
    shutdown, which clears the [_running] of the shards one by one while the other
    threads go on.  [pin] says whether a thread could be pinned, [make_barrier] whether
    boost makes a barrier for so many threads. *)
From S2P Require Import Prelude.

(** An element of [_shards]: indeterminate, constructed, initialised, deleted. *)
Inductive shard_cell := Garbage | Built | Ready | Deleted.

(** Where a thread is in [_run_shard] behind the barrier: before [_running = true], in
    [poll()], at the loops of [_initiate_shutdown] ([r_stop k]: about to shut shard
    [k] down), at the test of [_running], about to delete its shard. *)
Inductive run_pc := r_enter | r_poll | r_hooks | r_stop (k : nat) | r_check | r_leave.

Inductive thread_pc := t_none | t_created | t_built | t_ready | t_waits | t_running (r : run_pc) | t_done.
Inductive main_pc :=
  | m_launch (i : nat)
  | m_prepare
  | m_built
  | m_queues (k : nat)
  | m_configured
  | m_waits
  | m_running (r : run_pc)
  | m_joining
  | m_joined.

#[export] Instance shard_cell_eq_dec : EqDecision shard_cell.
Proof. solve_decision. Defined.
#[export] Instance run_pc_eq_dec : EqDecision run_pc.
Proof. solve_decision. Defined.
#[export] Instance bootstrap_pc_eq_dec : EqDecision thread_pc.
Proof. solve_decision. Defined.

(** What a thread does as to [_run_shard]: setting up, behind the barrier, at its end. *)
Inductive phase := ph_setup | ph_run (r : run_pc) | ph_over.

#[export] Instance phase_eq_dec : EqDecision phase.
Proof. solve_decision. Defined.

(** Thread [i] of [_launcher] has shard [S i]; [flags] are the [_running] of the shards,
    [hooks] the number of functions in [_before_shutdown].  A bus is the pair of the
    pointers it was made of; [None] is an indeterminate one. *)
Record state := State {
  main : main_pc;
  threads : list thread_pc;
  cells : list shard_cell;
  flags : list bool;
  hooks : nat;
  buses : list (option nat * option nat);
  arrived : nat
}.

Definition with_main (m : main_pc) (s : state) : state :=
  State m (threads s) (cells s) (flags s) (hooks s) (buses s) (arrived s).
Definition with_thread (i : nat) (t : thread_pc) (s : state) : state :=
  State (main s) (<[i := t]> (threads s)) (cells s) (flags s) (hooks s) (buses s) (arrived s).
Definition with_cell (i : nat) (c : shard_cell) (s : state) : state :=
  State (main s) (threads s) (<[i := c]> (cells s)) (flags s) (hooks s) (buses s) (arrived s).
Definition with_flag (i : nat) (b : bool) (s : state) : state :=
  State (main s) (threads s) (cells s) (<[i := b]> (flags s)) (hooks s) (buses s) (arrived s).
Definition no_hooks (s : state) : state :=
  State (main s) (threads s) (cells s) (flags s) 0 (buses s) (arrived s).
Definition arrive (s : state) : state :=
  State (main s) (threads s) (cells s) (flags s) (hooks s) (buses s) (S (arrived s)).
Definition with_bus (b : option nat * option nat) (s : state) : state :=
  State (main s) (threads s) (cells s) (flags s) (hooks s) (buses s ++ [b]) (arrived s).

Module Bootstrap.
Section bootstrap.
Context (pin : nat -> bool) (make_barrier : nat -> outcome unit).

(** [_cpu_count]: a [u8]; [arg] is [argv[2]] read by [atoi]. *)
Definition cpu_count (arg : option Z) : nat := Z.to_nat (u8 (default 1 arg)).

(** [configure], up to its loop; [h] functions will be given to [before_shutdown]
    before [run], which is the first to look at them. *)
Definition configure (arg : option Z) (h : nat) : outcome state :=
  do _ <- make_barrier (cpu_count arg);;
  Ret (State (m_launch 0) (replicate (cpu_count arg - 1) t_none) (replicate (cpu_count arg) Garbage)
    (replicate (cpu_count arg) false) h [] 0).

Definition cpus (s : state) : nat := length (cells s).
Definition barrier_open (s : state) : bool := bool_decide (arrived s = cpus s).

(** [_prepare_shard(cpu)]: up to the assignments, then [init]. *)
Definition build (cpu : nat) (s : state) : outcome state :=
  assertO (pin cpu) (if (cpu <? cpus s)%nat then Ret (with_cell cpu Built s) else Undef).
Definition init (cpu : nat) (s : state) : state := with_cell cpu Ready s.

(** The [k]th bus of [_create_queues]: the constructor keeps the two elements of
    [_shards], whatever they hold. *)
Definition read_shard (s : state) (i : nat) : option nat :=
  match cells s !! i with None | Some Garbage => None | Some _ => Some i end.
Definition create_queue (k : nat) (s : state) : state :=
  with_bus (read_shard s (k / cpus s), read_shard s (k mod cpus s)) s.

(** [bootstrap::shard_at(id)->post(...)] of a thread. *)
Definition post_to (s : state) (id : nat) : outcome unit :=
  match cells s !! id with Some Ready => Ret tt | _ => Undef end.

(** [_shards[k]->shutdown()]. *)
Definition shutdown (k : nat) (s : state) : outcome state := do _ <- post_to s k;; Ret (with_flag k false s).

(** [shard->run()] returned: [delete this_shard]. *)
Definition leave (cpu : nat) (s : state) : state := with_cell cpu Deleted s.

(** A step behind the barrier; [shut]: the turn begins a shutdown (an interrupt on
    shard 0, an exception anywhere).  The functions of [_before_shutdown] are
    dispatched to shard 0.  No position is left when the shard is deleted. *)
Definition run_step (cpu : nat) (shut : bool) (r : run_pc) (s : state) : outcome (state * option run_pc) :=
  match r with
  | r_enter => Ret (with_flag cpu true s, Some r_poll)
  | r_poll => Ret (s, Some (if shut then r_hooks else r_check))
  | r_hooks =>
      if (hooks s =? 0)%nat then Ret (s, Some (r_stop 0))
      else do _ <- post_to s 0;; Ret (no_hooks s, Some (r_stop 0))
  | r_stop k =>
      if (k <? cpus s)%nat then do s <- shutdown k s;; Ret (s, Some (r_stop (S k))) else Ret (s, Some r_poll)
  | r_check => Ret (s, Some (if default false (flags s !! cpu) then r_poll else r_leave))
  | r_leave => Ret (leave cpu s, None)
  end.

Definition main_of (o : option run_pc) : main_pc := match o with Some r => m_running r | None => m_joining end.
Definition thread_of (o : option run_pc) : thread_pc := match o with Some r => t_running r | None => t_done end.

Definition main_step (shut : bool) (s : state) : outcome (option state) :=
  match main s with
  | m_launch i =>
      if (i <? length (threads s))%nat then Ret (Some (with_main (m_launch (S i)) (with_thread i t_created s)))
      else Ret (Some (with_main m_prepare s))
  | m_prepare => do s <- build 0 s;; Ret (Some (with_main m_built s))
  | m_built => Ret (Some (with_main (m_queues 0) (init 0 s)))
  | m_queues k =>
      if (k <? cpus s * cpus s)%nat then Ret (Some (with_main (m_queues (S k)) (create_queue k s)))
      else Ret (Some (with_main m_configured s))
  | m_configured => Ret (Some (arrive (with_main m_waits s)))
  | m_waits => Ret (if barrier_open s then Some (with_main (m_running r_enter) s) else None)
  | m_running r => do '(s, o) <- run_step 0 shut r s;; Ret (Some (with_main (main_of o) s))
  | m_joining => Ret (if bool_decide (Forall (fun t => t = t_done) (threads s)) then Some (with_main m_joined s) else None)
  | m_joined => Ret None
  end.

Definition thread_step (shut : bool) (s : state) (i : nat) : outcome (option state) :=
  match threads s !! i with
  | None | Some t_none | Some t_done => Ret None
  | Some t_created => do s <- build (S i) s;; Ret (Some (with_thread i t_built s))
  | Some t_built => Ret (Some (with_thread i t_ready (init (S i) s)))
  | Some t_ready => Ret (Some (arrive (with_thread i t_waits s)))
  | Some t_waits => Ret (if barrier_open s then Some (with_thread i (t_running r_enter) s) else None)
  | Some (t_running r) => do '(s, o) <- run_step (S i) shut r s;; Ret (Some (with_thread i (thread_of o) s))
  end.

(** The thread of shard [c]. *)
Definition cpu_step (c : nat) (shut : bool) (s : state) : outcome (option state) :=
  match c with O => main_step shut s | S i => thread_step shut s i end.

Inductive step (s : state) : state -> Prop :=
  | step_cpu c shut s' : cpu_step c shut s = Ret (Some s') -> step s s'.

Definition reachable (arg : option Z) (h : nat) (s : state) : Prop := exists s0, configure arg h = Ret s0 /\ rtc step s0 s.
End bootstrap.
End Bootstrap.

(** ** The invariant *)
Section facts.
Context (pin : nat -> bool) (make_barrier : nat -> outcome unit).
Implicit Types (s : state) (i c : nat) (t : thread_pc) (m : main_pc) (r : run_pc).

(** What a thread has done to its shard, and the main thread to the first one. *)
Definition cell_of_thread t : shard_cell :=
  match t with t_none | t_created => Garbage | t_built => Built | t_done => Deleted | _ => Ready end.
Definition cell_of_main m : shard_cell :=
  match m with m_launch _ | m_prepare => Garbage | m_built => Built | m_joining | m_joined => Deleted | _ => Ready end.

Definition thread_arrived t : bool := match t with t_waits | t_running _ | t_done => true | _ => false end.
Definition main_arrived m : nat := match m with m_waits | m_running _ | m_joining | m_joined => 1 | _ => 0 end.
Definition passed t : Prop := match t with t_running _ | t_done => True | _ => False end.
Definition main_passed m : Prop := match m with m_running _ | m_joining | m_joined => True | _ => False end.

(** An end of a bus: the shard, or what was there before its thread assigned it, which
    does not happen to the first one.  The [k]th bus, and how many there are. *)
Definition bus_end (i : nat) (e : option nat) : Prop := e = Some i \/ (e = None /\ i <> 0%nat).
Definition bus (n k : nat) (b : option nat * option nat) : Prop :=
  bus_end (k / n)%nat (fst b) /\ bus_end (k mod n)%nat (snd b).
Definition buses_made (n : nat) m : nat :=
  match m with m_launch _ | m_prepare | m_built => 0 | m_queues k => k | _ => n * n end.

Record boot_inv s : Prop := {
  bi_cells : cells s = cell_of_main (main s) :: (cell_of_thread <$> threads s);
  bi_flags : length (flags s) = Bootstrap.cpus s;
  bi_arrived : arrived s = (length (filter (fun t => thread_arrived t = true) (threads s)) + main_arrived (main s))%nat;
  bi_open : main_passed (main s) \/ Exists passed (threads s) -> arrived s = Bootstrap.cpus s;
  bi_buses : Forall2 (bus (Bootstrap.cpus s)) (seq 0 (buses_made (Bootstrap.cpus s) (main s))) (buses s);
  bi_queues : forall k, main s = m_queues k -> (k <= Bootstrap.cpus s * Bootstrap.cpus s)%nat;
  bi_launched : forall n, main s = m_launch n ->
    (n <= length (threads s))%nat /\ forall i, (n <= i < length (threads s))%nat -> threads s !! i = Some t_none;
  bi_created : forall i t, (forall n, main s = m_launch n -> (i < n)%nat) -> threads s !! i = Some t -> t <> t_none
}.

Lemma boot_cpus s : boot_inv s -> Bootstrap.cpus s = S (length (threads s)).
Proof. intros Hi. unfold Bootstrap.cpus. rewrite (bi_cells s Hi). cbn. by rewrite length_fmap. Qed.

Lemma boot_cell s i t : boot_inv s -> threads s !! i = Some t -> cells s !! S i = Some (cell_of_thread t).
Proof.
  intros Hinv Hi. rewrite (bi_cells s Hinv).
  change ((cell_of_thread <$> threads s) !! i = Some (cell_of_thread t)). by rewrite list_lookup_fmap, Hi.
Qed.

Lemma boot_cell_id s i t x : boot_inv s -> threads s !! i = Some t -> cell_of_thread t = x -> <[S i := x]> (cells s) = cells s.
Proof. intros Hinv Hi <-. apply list_insert_id. by apply boot_cell. Qed.

Definition b2n (b : bool) : nat := if b then 1 else 0.

(** A thread goes from [x] to [y]. *)
Lemma boot_thread s i x y fl h n : boot_inv s -> threads s !! i = Some x -> x <> t_none -> y <> t_none ->
  (n + b2n (thread_arrived x) = arrived s + b2n (thread_arrived y))%nat ->
  (passed y \/ main_passed (main s) \/ Exists passed (threads s) -> n = Bootstrap.cpus s) ->
  length fl = length (flags s) ->
  boot_inv (State (main s) (<[i := y]> (threads s)) (<[S i := cell_of_thread y]> (cells s)) fl h (buses s) n).
Proof.
  intros Hinv Hi Hx Hy Hn Ho Hfl. pose proof Hinv as [H1 Hf H2 H3 H4 H5 H6 H7]. pose proof (lookup_lt_Some _ _ _ Hi) as Hlt.
  assert (Hc : Bootstrap.cpus (State (main s) (<[i := y]> (threads s)) (<[S i := cell_of_thread y]> (cells s)) fl h (buses s) n) = Bootstrap.cpus s)
    by (unfold Bootstrap.cpus; cbn [cells]; by rewrite length_insert).
  split; cbn [main threads cells flags buses arrived]; rewrite ?Hc; try done; try congruence.
  - rewrite H1. cbn. by rewrite list_fmap_insert.
  - pose proof (filter_insert_length thread_arrived (threads s) i x y Hi) as Hl. unfold b2n in Hn. lia.
  - intros Hs. apply Ho. destruct Hs as [Hs|Hs]; [by right; left|].
    apply list.Exists_exists in Hs as (t & Ht & Hp). apply list_elem_of_lookup in Ht as [j Hj].
    destruct (decide (i = j)) as [<-|Hne].
    + rewrite list_lookup_insert_eq in Hj by done. injection Hj as <-. by left.
    + rewrite list_lookup_insert_ne in Hj by done. right; right. apply list.Exists_exists. exists t. split; [|done].
      apply list_elem_of_lookup. by exists j.
  - intros k Hk. destruct (H6 k Hk) as [Hle Hnone]. rewrite length_insert. split; [done|]. intros j Hj.
    rewrite list_lookup_insert_ne; [by apply Hnone|]. intros ->. rewrite Hnone in Hi by lia. by injection Hi as <-.
  - intros j t Hj Ht. destruct (decide (i = j)) as [<-|Hne].
    + rewrite list_lookup_insert_eq in Ht by done. by injection Ht as <-.
    + rewrite list_lookup_insert_ne in Ht by done. by eapply H7.
Qed.

(** The main thread goes on after launching. *)
Lemma boot_main s m fl h bs n : boot_inv s -> (forall k, main s = m_launch k -> k = length (threads s)) -> (forall k, m <> m_launch k) ->
  (n + main_arrived (main s) = arrived s + main_arrived m)%nat ->
  (main_passed m \/ Exists passed (threads s) -> n = Bootstrap.cpus s) ->
  (forall k, m = m_queues k -> (k <= Bootstrap.cpus s * Bootstrap.cpus s)%nat) ->
  length fl = length (flags s) -> Forall2 (bus (Bootstrap.cpus s)) (seq 0 (buses_made (Bootstrap.cpus s) m)) bs ->
  boot_inv (State m (threads s) (<[0%nat := cell_of_main m]> (cells s)) fl h bs n).
Proof.
  intros [H1 Hf H2 H3 H4 H5 H6 H7] Hl Hm Hn Ho Hq Hfl Hbs.
  assert (Hc : Bootstrap.cpus (State m (threads s) (<[0%nat := cell_of_main m]> (cells s)) fl h bs n) = Bootstrap.cpus s)
    by (unfold Bootstrap.cpus; cbn [cells]; by rewrite length_insert).
  split; cbn [main threads cells flags buses arrived]; rewrite ?Hc; try done; [by rewrite H1|congruence|lia| |].
  - intros k ->. by destruct (Hm k).
  - intros i t _ Ht. apply (H7 i t); [|done]. intros k Hk. rewrite (Hl k Hk). by apply lookup_lt_Some in Ht.
Qed.

Lemma boot_all_arrived s : boot_inv s -> arrived s = Bootstrap.cpus s ->
  (forall i x, threads s !! i = Some x -> thread_arrived x = true) /\ main_arrived (main s) = 1%nat.
Proof.
  intros Hinv Ha. rewrite (boot_cpus s Hinv), (bi_arrived s Hinv) in Ha.
  pose proof (length_filter (fun t => thread_arrived t = true) (threads s)) as Hle.
  assert (main_arrived (main s) <= 1)%nat by (destruct (main s); cbn; lia). split; [|lia]. intros i x Hi.
  destruct (thread_arrived x) eqn:Hx; [done|]. pose proof (filter_lt thread_arrived (threads s) i x Hi Hx). lia.
Qed.

(** Someone who has not arrived keeps the barrier closed. *)
Lemma boot_closed s i x : boot_inv s -> threads s !! i = Some x -> thread_arrived x = false ->
  main_passed (main s) \/ Exists passed (threads s) -> False.
Proof.
  intros Hinv Hi Hx Hp. apply (bi_open s Hinv) in Hp. destruct (boot_all_arrived s Hinv Hp) as [Hall _].
  specialize (Hall i x Hi). congruence.
Qed.

Lemma boot_main_closed s : boot_inv s -> main_arrived (main s) = 0%nat -> main_passed (main s) \/ Exists passed (threads s) -> False.
Proof.
  intros Hinv Hm Hp. apply (bi_open s Hinv) in Hp. destruct (boot_all_arrived s Hinv Hp) as [_ Hone]. lia.
Qed.

Lemma boot_init arg h s : (forall n, make_barrier n = Ret tt -> n <> 0%nat) ->
  Bootstrap.configure make_barrier arg h = Ret s -> boot_inv s.
Proof.
  intros Hb Hs. apply bindO_ret in Hs as ([] & Hbar & Hs). injection Hs as <-. apply Hb in Hbar.
  destruct (Bootstrap.cpu_count arg) as [|n]; [done|].
  split; cbn [main threads cells flags buses arrived]; try done.
  - cbn. by rewrite Nat.sub_0_r, fmap_replicate.
  - unfold Bootstrap.cpus. cbn [cells]. by rewrite !length_replicate.
  - cbn. rewrite Nat.sub_0_r. clear. by induction n.
  - intros [H|H]; [done|]. apply list.Exists_exists in H as (t & Ht & Hp). by apply elem_of_replicate in Ht as [-> _].
  - intros k [= <-]. split; [lia|]. intros i Hi. rewrite length_replicate in Hi. apply lookup_replicate_2. lia.
  - intros i t Hi. specialize (Hi 0%nat eq_refl). lia.
Qed.

(** Behind the barrier a step changes flags and hooks, and deletes the own shard. *)
Lemma run_step_shape c shut r s s1 o : Bootstrap.run_step c shut r s = Ret (s1, o) ->
  length (flags s1) = length (flags s) /\
  s1 = State (main s) (threads s) (match o with None => <[c := Deleted]> (cells s) | Some _ => cells s end)
    (flags s1) (hooks s1) (buses s) (arrived s).
Proof.
  destruct s as [m ts cs fl h bs n]. unfold Bootstrap.run_step, Bootstrap.shutdown. intros Hs. destruct r; cbn [hooks] in Hs.
  - injection Hs as <- <-. cbn. by rewrite length_insert.
  - by injection Hs as <- <-.
  - destruct (h =? 0)%nat; [by injection Hs as <- <-|]. apply bindO_ret in Hs as ([] & _ & Hs). by injection Hs as <- <-.
  - destruct (k <? _)%nat; [|by injection Hs as <- <-]. apply bindO_ret in Hs as (s2 & Hk & Hs). injection Hs as <- <-.
    apply bindO_ret in Hk as ([] & _ & Hk). injection Hk as <-. cbn. by rewrite length_insert.
  - by injection Hs as <- <-.
  - by injection Hs as <- <-.
Qed.

Lemma run_step_cpus c shut r s s1 o : Bootstrap.run_step c shut r s = Ret (s1, o) -> length (cells s1) = length (cells s).
Proof.
  intros Hr. apply run_step_shape in Hr as [_ ->]. cbn [cells]. destruct o; [done|apply length_insert].
Qed.

Lemma boot_thread_step shut s i s' : Bootstrap.thread_step pin shut s i = Ret (Some s') -> boot_inv s -> boot_inv s'.
Proof using pin.
  clear make_barrier.
  unfold Bootstrap.thread_step. intros Hs Hinv. destruct (threads s !! i) as [x|] eqn:Hi; [|done].
  pose proof (boot_closed s i x Hinv Hi) as Hcl. pose proof (bi_open s Hinv) as Hop.
  pose proof (fun y => boot_thread s i x y (flags s) (hooks s)) as Hgo.
  destruct x as [| | | | |r|]; try done.
  - apply bindO_ret in Hs as (s1 & Hb & Hs). injection Hs as <-. unfold Bootstrap.build, assertO in Hb.
    destruct (pin (S i)); [|done]. destruct (_ <? _)%nat; [|done]. injection Hb as <-.
    apply (Hgo t_built (arrived s)); try done. intros [[]|?]; tauto.
  - injection Hs as <-. apply (Hgo t_ready (arrived s)); try done. intros [[]|?]; tauto.
  - injection Hs as <-. unfold arrive. cbn [main threads cells flags hooks buses arrived with_thread].
    rewrite <- (boot_cell_id s i t_ready Ready Hinv Hi eq_refl). apply (Hgo t_waits); try done; [cbn; lia|]. intros [[]|?]; tauto.
  - destruct (Bootstrap.barrier_open s) eqn:Eo; [|done]. injection Hs as <-. apply bool_decide_eq_true in Eo.
    unfold with_thread. rewrite <- (boot_cell_id s i t_waits Ready Hinv Hi eq_refl). by apply (Hgo (t_running r_enter)).
  - apply bindO_ret in Hs as ([s1 o] & Hr & Hs). injection Hs as <-. apply run_step_shape in Hr as [Hl ->].
    assert (Exists passed (threads s)) as He.
    { apply list.Exists_exists. exists (t_running r). split; [apply list_elem_of_lookup; by exists i|done]. }
    unfold with_thread. cbn [main threads cells flags hooks buses arrived].
    replace (match o with Some _ => cells s | None => <[S i := Deleted]> (cells s) end)
      with (<[S i := cell_of_thread (Bootstrap.thread_of o)]> (cells s))
      by (destruct o; [by apply (boot_cell_id s i (t_running r))|done]).
    apply (boot_thread s i (t_running r)); try done; [by destruct o|by destruct o|by intros; apply Hop; right].
Qed.

(** A bus made while some shards may not be assigned. *)
Lemma boot_create_queue s k : boot_inv s -> main s = m_queues k -> (k < Bootstrap.cpus s * Bootstrap.cpus s)%nat ->
  exists b, Bootstrap.create_queue k s = with_bus b s /\ bus (Bootstrap.cpus s) k b.
Proof.
  intros Hinv Hm Hk. eexists. split; [reflexivity|].
  assert (forall i, (i < Bootstrap.cpus s)%nat -> bus_end i (Bootstrap.read_shard s i)) as He.
  { intros i Hi. unfold Bootstrap.read_shard, bus_end. destruct (lookup_lt_is_Some_2 (cells s) i Hi) as [x Hx]. rewrite Hx.
    destruct x; try by left. right. split; [done|]. intros ->. rewrite (bi_cells s Hinv), Hm in Hx. done. }
  split; apply He; [by apply Nat.Div0.div_lt_upper_bound|]. apply Nat.mod_upper_bound. lia.
Qed.

(** The first thread: the cell is the one its position says. *)
Lemma boot_main_cell s m : boot_inv s -> cell_of_main m = cell_of_main (main s) -> <[0%nat := cell_of_main m]> (cells s) = cells s.
Proof. intros Hinv Hm. rewrite (bi_cells s Hinv), Hm. done. Qed.

Lemma boot_launch s i : boot_inv s -> main s = m_launch i -> (i < length (threads s))%nat ->
  boot_inv (with_main (m_launch (S i)) (with_thread i t_created s)).
Proof.
  intros Hinv Hm Hi. destruct (bi_launched s Hinv i Hm) as [_ Hnone]. pose proof (Hnone i ltac:(lia)) as Hni.
  pose proof Hinv as [H1 Hf H2 H3 H4 H5 H6 H7]. rewrite Hm in *.
  split; cbn [main threads cells flags buses arrived with_main with_thread]; try done.
  - rewrite H1, list_fmap_insert. f_equal. symmetry. apply list_insert_id. by rewrite list_lookup_fmap, Hni.
  - pose proof (filter_insert_length thread_arrived (threads s) i t_none t_created Hni) as Hl.
    change (thread_arrived t_none) with false in Hl. change (thread_arrived t_created) with false in Hl. cbn in H2 |- *. lia.
  - intros [?|Hp]; [done|]. exfalso. apply (boot_main_closed s Hinv); [by rewrite Hm|]. right.
    apply list.Exists_exists in Hp as (t & Ht & Hp). apply list_elem_of_lookup in Ht as [j Hj].
    apply list.Exists_exists. exists t. split; [|done]. apply list_elem_of_lookup. exists j.
    destruct (decide (i = j)) as [<-|Hne]; [|by rewrite list_lookup_insert_ne in Hj].
    rewrite list_lookup_insert_eq in Hj by done. by injection Hj as <-.
  - intros k [= <-]. rewrite length_insert. split; [lia|]. intros j Hj. rewrite list_lookup_insert_ne by lia. apply Hnone. lia.
  - intros j t Hj Ht. specialize (Hj (S i) eq_refl). destruct (decide (i = j)) as [<-|Hne].
    + rewrite list_lookup_insert_eq in Ht by done. by injection Ht as <-.
    + rewrite list_lookup_insert_ne in Ht by done. apply (H7 j t); [intros k [= <-]; lia|done].
Qed.

Lemma boot_main_step shut s s' : Bootstrap.main_step pin shut s = Ret (Some s') -> boot_inv s -> boot_inv s'.
Proof using pin.
  clear make_barrier.
  unfold Bootstrap.main_step. intros Hs Hinv. pose proof (boot_main_closed s Hinv) as Hcl. pose proof (bi_open s Hinv) as Hop.
  pose proof (bi_buses s Hinv) as Hbu.
  pose proof (fun m fl h bs n (Hlow : forall k, main s <> m_launch k) => boot_main s m fl h bs n Hinv (fun k Hk => match Hlow k Hk with end)) as Hmove.
  destruct (main s) as [i| | |k| | |r| |] eqn:Em; cbn [main_arrived buses_made] in Hcl, Hmove, Hbu; try done.
  - destruct (Nat.ltb_spec i (length (threads s))) as [Hi|Hi]; injection Hs as <-; [by apply boot_launch|].
    destruct (bi_launched s Hinv i Em) as [Hle _]. unfold with_main.
    rewrite <- (boot_main_cell s m_prepare Hinv) by (by rewrite Em).
    apply (boot_main s m_prepare); try done; [intros k; rewrite Em; intros [= <-]; lia|by rewrite Em].
  - apply bindO_ret in Hs as (s1 & Hb & Hs). injection Hs as <-. unfold Bootstrap.build, assertO in Hb.
    destruct (pin 0%nat); [|done]. destruct (_ <? _)%nat; [|done]. injection Hb as <-.
    apply (Hmove m_built (flags s) (hooks s) (buses s) (arrived s)); try done.
  - injection Hs as <-. apply (Hmove (m_queues 0) (flags s) (hooks s) (buses s) (arrived s)); try done; [intros k [= <-]; lia].
  - pose proof (bi_queues s Hinv k Em) as Hk. destruct (Nat.ltb_spec k (Bootstrap.cpus s * Bootstrap.cpus s)) as [Hlt|Hge]; injection Hs as <-.
    + destruct (boot_create_queue s k Hinv Em Hlt) as (b & -> & Hb).
      unfold with_main, with_bus. cbn. rewrite <- (boot_main_cell s (m_queues (S k)) Hinv) by (by rewrite Em).
      apply (Hmove (m_queues (S k))); try done; [by intros j [= <-]|].
      cbn [buses_made]. rewrite seq_S. apply Forall2_app; [done|]. constructor; [exact Hb|constructor].
    + unfold with_main. rewrite <- (boot_main_cell s m_configured Hinv) by (by rewrite Em).
      apply (Hmove m_configured); try done. cbn [buses_made]. by replace (Bootstrap.cpus s * Bootstrap.cpus s)%nat with k by lia.
  - injection Hs as <-. unfold arrive, with_main. cbn. rewrite <- (boot_main_cell s m_waits Hinv) by (by rewrite Em).
    apply (Hmove m_waits); try done; [cbn; lia|intros [[]|?]; tauto].
  - destruct (Bootstrap.barrier_open s) eqn:Eo; [|done]. injection Hs as <-. apply bool_decide_eq_true in Eo. unfold with_main.
    rewrite <- (boot_main_cell s (m_running r_enter) Hinv) by (by rewrite Em). by apply (Hmove (m_running r_enter)).
  - apply bindO_ret in Hs as ([s1 o] & Hr & Hs). injection Hs as <-. apply run_step_shape in Hr as [Hl ->]. unfold with_main.
    cbn [threads cells flags hooks buses arrived].
    replace (match o with Some _ => cells s | None => <[0%nat := Deleted]> (cells s) end)
      with (<[0%nat := cell_of_main (Bootstrap.main_of o)]> (cells s))
      by (destruct o; [apply boot_main_cell; [done|by rewrite Em]|done]).
    apply Hmove; try done; by destruct o.
  - destruct (bool_decide _); [|done]. injection Hs as <-. unfold with_main.
    rewrite <- (boot_main_cell s m_joined Hinv) by (by rewrite Em). by apply (Hmove m_joined).
Qed.

Lemma cpu_step_inv c shut s s' : Bootstrap.cpu_step pin c shut s = Ret (Some s') -> boot_inv s -> boot_inv s'.
Proof using pin. destruct c; [apply boot_main_step|apply boot_thread_step]. Qed.

Lemma step_inv s s' : Bootstrap.step pin s s' -> boot_inv s -> boot_inv s'.
Proof. intros [c shut s1 Hs]. by eapply cpu_step_inv. Qed.

(** ** Behind the barrier *)


Definition phase_of_main m : phase :=
  match m with m_running r => ph_run r | m_joining | m_joined => ph_over | _ => ph_setup end.
Definition phase_of_thread t : phase :=
  match t with t_running r => ph_run r | t_done => ph_over | _ => ph_setup end.
Definition phases s : list phase := phase_of_main (main s) :: (phase_of_thread <$> threads s).

Definition set_phase c (o : option run_pc) s : state :=
  match c with O => with_main (Bootstrap.main_of o) s | S i => with_thread i (Bootstrap.thread_of o) s end.


Lemma phase_thread s i t : threads s !! i = Some t -> phases s !! S i = Some (phase_of_thread t).
Proof. intros Hi. change ((phase_of_thread <$> threads s) !! i = Some (phase_of_thread t)). by rewrite list_lookup_fmap, Hi. Qed.

Lemma phase_thread_inv s i p : phases s !! S i = Some p -> exists t, threads s !! i = Some t /\ phase_of_thread t = p.
Proof. change (phases s !! S i) with ((phase_of_thread <$> threads s) !! i). intros Hp. apply list_lookup_fmap_Some in Hp as (t & -> & Ht). eauto. Qed.

Lemma cpu_run c shut r s : phases s !! c = Some (ph_run r) ->
  Bootstrap.cpu_step pin c shut s = (do '(s1, o) <- Bootstrap.run_step c shut r s;; Ret (Some (set_phase c o s1))).
Proof.
  destruct c as [|i]; intros Hp.
  - injection Hp as Hp. cbn [Bootstrap.cpu_step]. unfold Bootstrap.main_step. destruct (main s); try done. by injection Hp as ->.
  - apply phase_thread_inv in Hp as (t & Ht & Hp). cbn [Bootstrap.cpu_step]. unfold Bootstrap.thread_step. rewrite Ht.
    destruct t; try done. by injection Hp as ->.
Qed.







(** A running thread goes on, unless it is about to use a deleted shard. *)
Lemma run_step_total c shut r s : (exists x, Bootstrap.run_step c shut r s = Ret x) \/ Bootstrap.run_step c shut r s = Undef.
Proof.
  unfold Bootstrap.run_step, Bootstrap.shutdown, Bootstrap.post_to. destruct r; try (left; by eexists).
  - destruct (hooks s =? 0)%nat; [left; by eexists|]. repeat case_match; cbn; eauto.
  - destruct (k <? _)%nat; [|left; by eexists]. repeat case_match; cbn; eauto.
Qed.

Lemma cpu_run_steps c r s : phases s !! c = Some (ph_run r) ->
  (exists s', Bootstrap.step pin s s') \/ exists x, Bootstrap.cpu_step pin x false s = Undef.
Proof.
  intros Hp. destruct (run_step_total c false r s) as [[[s1 o] Hr]|Hr].
  - left. eexists. apply (Bootstrap.step_cpu pin s c false). by rewrite (cpu_run c false r s Hp), Hr.
  - right. exists c. by rewrite (cpu_run c false r s Hp), Hr.
Qed.

(** ** No thread waits for ever for the others to come *)

Lemma thread_goes s i x : boot_inv s -> (forall c, pin c = true) -> threads s !! i = Some x -> x <> t_none -> x <> t_done ->
  (x = t_waits -> Bootstrap.barrier_open s = true) ->
  (exists s', Bootstrap.step pin s s') \/ exists c, Bootstrap.cpu_step pin c false s = Undef.
Proof.
  intros Hinv Hpin Hi Hn Hd Hw. pose proof (lookup_lt_Some _ _ _ Hi) as Hlt.
  assert (forall s', Bootstrap.thread_step pin false s i = Ret (Some s') -> exists s', Bootstrap.step pin s s') as Hgo
    by (intros s' Hs; exists s'; by apply (Bootstrap.step_cpu pin s (S i) false)).
  unfold Bootstrap.thread_step in Hgo. rewrite Hi in Hgo. destruct x as [| | | | |r|]; try done; try (left; by eapply Hgo).
  - unfold Bootstrap.build in Hgo. rewrite Hpin, (proj2 (Nat.ltb_lt _ _)) in Hgo by (rewrite (boot_cpus s Hinv); lia). left. by eapply Hgo.
  - rewrite Hw in Hgo by done. left. by eapply Hgo.
  - apply (cpu_run_steps (S i) r). by apply (phase_thread s i (t_running r)).
Qed.

Lemma some_thread_goes s : boot_inv s -> (forall c, pin c = true) -> (forall k, main s <> m_launch k) ->
  arrived s = Bootstrap.cpus s -> Forall (fun t => t = t_done) (threads s) \/
  (exists s', Bootstrap.step pin s s') \/ exists c, Bootstrap.cpu_step pin c false s = Undef.
Proof.
  intros Hinv Hpin Hl Ho. destruct (decide (Forall (fun t => t = t_done) (threads s))) as [Hall|Hnot]; [by left|right].
  apply not_Forall_Exists in Hnot; [|apply _]. apply list.Exists_exists in Hnot as (x & Hx & Hd). apply list_elem_of_lookup in Hx as [i Hi].
  apply (thread_goes s i x Hinv Hpin Hi).
  - eapply (bi_created s Hinv i); [|done]. intros n Hn. by destruct (Hl n).
  - exact Hd.
  - intros _. by apply bool_decide_eq_true_2.
Qed.

Lemma boot_progress s : boot_inv s -> (forall c, pin c = true) ->
  (main s = m_joined /\ Forall (fun t => t = t_done) (threads s)) \/
  (exists s', Bootstrap.step pin s s') \/ exists c, Bootstrap.cpu_step pin c false s = Undef.
Proof.
  intros Hinv Hpin. pose proof (bi_open s Hinv) as Hop. pose proof (some_thread_goes s Hinv Hpin) as Hth.
  assert (Hgo : forall s', Bootstrap.main_step pin false s = Ret (Some s') -> exists s', Bootstrap.step pin s s')
    by (intros s' Hs; exists s'; by apply (Bootstrap.step_cpu pin s 0 false)).
  unfold Bootstrap.main_step in Hgo. destruct (main s) as [i| | |k| | |r| |] eqn:Em; try (right; left; eapply Hgo; reflexivity).
  - right; left. destruct (i <? length (threads s))%nat; by eapply Hgo.
  - right; left. unfold Bootstrap.build in Hgo. rewrite Hpin, (boot_cpus s Hinv) in Hgo. by eapply Hgo.
  - right; left. destruct (k <? _)%nat; by eapply Hgo.
  - right. destruct (Bootstrap.barrier_open s) eqn:Eo; [left; by eapply Hgo|].
    pose proof (bi_arrived s Hinv) as Ha. rewrite Em in Ha. cbn in Ha.
    assert (exists i x, threads s !! i = Some x /\ thread_arrived x = false) as (i & x & Hi & Hx).
    { destruct (decide (Exists (fun t => thread_arrived t = false) (threads s))) as [He|He].
      - apply list.Exists_exists in He as (x & Hin & Hx). apply list_elem_of_lookup in Hin as [i Hi]. eauto.
      - apply bool_decide_eq_false in Eo. destruct Eo. rewrite (boot_cpus s Hinv), Ha, filter_all; [lia|].
        intros x Hin. destruct (thread_arrived x) eqn:Hx; [done|]. destruct He. apply list.Exists_exists. by exists x. }
    apply (thread_goes s i x Hinv Hpin Hi); [|by intros ->|by intros ->].
    eapply (bi_created s Hinv i); [|done]. intros n Hn. congruence.
  - right. apply (cpu_run_steps 0 r). unfold phases. by rewrite Em.
  - destruct Hth as [Hall|Hs]; [done|by apply Hop; left| |by right].
    right; left. rewrite bool_decide_eq_true_2 in Hgo by done. by eapply Hgo.
  - destruct Hth as [Hall|Hs]; [done|by apply Hop; left|by left|by right].
Qed.

(** ** A shutdown *)


(** The next step of [x] is another turn of a shard that was not told to stop. *)
Definition idle x s : bool :=
  match flags s !! x, phases s !! x with
  | Some true, Some (ph_run r_poll) | Some true, Some (ph_run r_check) => true
  | _, _ => false
  end.

(** Steps in which no turn begins a shutdown; [k] of them are not idle. *)
Inductive quiet : nat -> state -> state -> Prop :=
  | quiet_refl s : quiet 0 s s
  | quiet_step k s x s1 s2 : Bootstrap.cpu_step pin x false s = Ret (Some s1) -> quiet k s1 s2 ->
      quiet (if idle x s then k else S k) s s2.




End facts.



Section shutdown.
Context (pin : nat -> bool).
Implicit Types (s : state) (i c j : nat) (r : run_pc).







Lemma idle_false s x b p : flags s !! x = Some b -> phases s !! x = Some p ->
  (p = ph_run r_poll \/ p = ph_run r_check -> b = false) -> idle x s = false.
Proof. intros Hb Hp Hx. unfold idle. rewrite Hb, Hp. destruct b; [|done]. destruct p as [|[]|]; try done; exfalso; specialize (Hx ltac:(auto)); done. Qed.

Lemma idle_running s x b p : flags s !! x = Some b -> phases s !! x = Some p ->
  p = ph_run r_poll \/ p = ph_run r_check -> idle x s = b.
Proof. intros Hb Hp [-> | ->]; unfold idle; rewrite Hb, Hp; by destruct b. Qed.











End shutdown.



(** ** Properties *)
Section properties.
Context (pin : nat -> bool) (make_barrier : nat -> outcome unit) (barrier_needs : forall n, make_barrier n = Ret tt -> n <> 0%nat).
Implicit Types (s : state).

Lemma boot_reachable_inv arg h s : Bootstrap.reachable pin make_barrier arg h s -> boot_inv s.
Proof using barrier_needs.
  intros (s0 & H0 & Hr). eapply rtc_invariant; [|by eapply boot_init|exact Hr]. intros y y' Hy Hi. by eapply step_inv.
Qed.

Lemma reachable_cpus arg h s : Bootstrap.reachable pin make_barrier arg h s -> Bootstrap.cpus s = Bootstrap.cpu_count arg.
Proof using Type.
  clear barrier_needs. intros (s0 & H0 & Hr). apply bindO_ret in H0 as ([] & _ & H0). injection H0 as <-.
  refine (rtc_invariant _ (fun s => Bootstrap.cpus s = Bootstrap.cpu_count arg) _ _ _ _ Hr); [|cbn; apply length_replicate].
  unfold Bootstrap.cpus. intros y y' [[|i] shut s1 Hs] Hy; rewrite <- Hy.
  - cbn [Bootstrap.cpu_step] in Hs. unfold Bootstrap.main_step, Bootstrap.build, assertO in Hs.
    repeat case_match; try done; repeat (apply bindO_ret in Hs as (? & ? & Hs)); simplify_eq; cbn; rewrite ?length_insert; try done.
    case_match. simplify_eq. cbn [cells with_main with_thread]. by eapply run_step_cpus.
  - cbn [Bootstrap.cpu_step] in Hs. unfold Bootstrap.thread_step, Bootstrap.build, assertO in Hs.
    repeat case_match; try done; repeat (apply bindO_ret in Hs as (? & ? & Hs)); simplify_eq; cbn; rewrite ?length_insert; try done.
    case_match. simplify_eq. cbn [cells with_main with_thread]. by eapply run_step_cpus.
Qed.

(** C35: No shard runs before all are ready: when a thread has passed the barrier,
    every shard was constructed and initialised (and is, until its own thread deletes
    it), and there is a message bus for every pair of shards, in order.  An end of a
    bus is its shard, or the indeterminate element of [_shards] that was there before
    the shard's thread assigned it (the first thread does not wait for the others
    before it makes the buses); the first shard is never missed. *)
Theorem bootstrap_runs_prepared (arg : option Z) (h : nat) s :
  Bootstrap.reachable pin make_barrier arg h s -> main_passed (main s) \/ Exists passed (threads s) ->
  Forall (fun c => c = Ready \/ c = Deleted) (cells s) /\
  Forall2 (bus (Bootstrap.cpu_count arg)) (seq 0 (Bootstrap.cpu_count arg * Bootstrap.cpu_count arg)) (buses s).
Proof.
  intros Hr Hp. pose proof (boot_reachable_inv arg h s Hr) as Hinv.
  destruct (boot_all_arrived s Hinv (bi_open s Hinv Hp)) as [Hall Hmain]. split.
  - rewrite (bi_cells s Hinv). constructor; [destruct (main s); cbn in *; auto; lia|].
    apply Forall_fmap, list.Forall_forall. intros t Ht. apply list_elem_of_lookup in Ht as [i Hi]. specialize (Hall i t Hi).
    destruct t; cbn in *; auto; done.
  - rewrite <- (reachable_cpus arg h s Hr). pose proof (bi_buses s Hinv) as Hb. by destruct (main s).
Qed.

(** No thread waits for ever for the others: as long as all can be pinned, some thread
    can go on until the first one has joined them, unless one is about to use a
    deleted shard. *)
Theorem bootstrap_never_stuck (arg : option Z) (h : nat) s : (forall c, pin c = true) ->
  Bootstrap.reachable pin make_barrier arg h s ->
  (main s = m_joined /\ Forall (fun t => t = t_done) (threads s)) \/
  (exists s', Bootstrap.step pin s s') \/ exists c, Bootstrap.cpu_step pin c false s = Undef.
Proof. intros Hpin Hr. apply boot_progress; [by eapply boot_reachable_inv|done]. Qed.

End properties.

(** ** Witnesses: two cpus *)

Definition ex_pin (cpu : nat) : bool := true.
Definition ex_barrier (n : nat) : outcome unit := if (n =? 0)%nat then Throw invalid_argument else Ret tt.

Lemma ex_barrier_needs n : ex_barrier n = Ret tt -> n <> 0%nat.
Proof. by intros H ->. Qed.

(** A run of two threads, by who makes the next step, and whether its turn begins a
    shutdown. *)
Fixpoint ex_run (l : list (nat * bool)) (s : state) : outcome (option state) :=
  match l with
  | [] => Ret (Some s)
  | (c, shut) :: l =>
      do o <- Bootstrap.cpu_step ex_pin c shut s;;
      match o with None => Ret None | Some s => ex_run l s end
  end.

Lemma ex_run_steps (l : list (nat * bool)) (s s' : state) :
  ex_run l s = Ret (Some s') -> rtc (Bootstrap.step ex_pin) s s'.
Proof.
  revert s. induction l as [|[c shut] l IH]; intros s; cbn [ex_run].
  - intros [= ->]. apply rtc_refl.
  - intros Hs. apply bindO_ret in Hs as ([s1|] & Hw & Hs); [|done]. eapply rtc_l; [by eapply Bootstrap.step_cpu|by apply IH].
Qed.



Definition ex_start (h : nat) : state := State (m_launch 0) [t_none] [Garbage; Garbage] [false; false] h [] 0.

Lemma ex_start_run (h : nat) (l : list (nat * bool)) (s : state) : ex_run l (ex_start h) = Ret (Some s) ->
  Bootstrap.reachable ex_pin ex_barrier (Some 2) h s.
Proof. intros Hl. exists (ex_start h). split; [reflexivity|]. by eapply ex_run_steps. Qed.

Definition by_ (l : list nat) : list (nat * bool) := (fun c => (c, false)) <$> l.
Definition ex_buses : list (option nat * option nat) := [(Some 0%nat, Some 0%nat); (Some 0%nat, Some 1%nat); (Some 1%nat, Some 0%nat); (Some 1%nat, Some 1%nat)].

(** The second shard is set up before the buses are made; both enter their loops. *)
Definition ex_meets : list (nat * bool) := by_ [0; 0; 1; 1; 0; 0; 0; 0; 0; 0; 0; 0; 1; 0; 1; 0; 1]%nat.
Definition ex_both : state :=
  State (m_running r_poll) [t_running r_poll] [Ready; Ready] [true; true] 1 ex_buses 2.

Lemma ex_both_reached : ex_run ex_meets (ex_start 1) = Ret (Some ex_both).
Proof. reflexivity. Qed.

(** The buses are made before the second thread begins: three of them hold a pointer
    that was never assigned. *)
Definition ex_raced : state :=
  State (m_running r_enter) [t_waits] [Ready; Ready] [false; false] 0
    [(Some 0%nat, Some 0%nat); (Some 0%nat, None); (None, Some 0%nat); (None, None)] 2.

Lemma bootstrap_queues_race : Bootstrap.reachable ex_pin ex_barrier (Some 2) 0 ex_raced /\
  main_passed (main ex_raced) /\ buses ex_raced !! 3%nat = Some (None, None).
Proof. split; [|done]. apply (ex_start_run 0 (by_ [0; 0; 0; 0; 0; 0; 0; 0; 0; 0; 1; 1; 1; 0]%nat)). reflexivity. Qed.

(** A shard that has left its loop is deleted while another one still runs and may
    post to it: here the first one has shut both down. *)
Lemma bootstrap_delete_race : exists s, Bootstrap.reachable ex_pin ex_barrier (Some 2) 1 s /\
  threads s = [t_running r_poll] /\ Bootstrap.post_to s 0 = Undef.
Proof.
  exists (State m_joining [t_running r_poll] [Deleted; Ready] [false; false] 0 ex_buses 2). split; [|done].
  apply (ex_start_run 1 (ex_meets ++ (0%nat, true) :: by_ [0; 0; 0; 0; 0; 0; 0]%nat)). reflexivity.
Qed.

(** A shutdown is lost on a shard that has not entered its loop: [run] sets [_running]
    again.  Without another shutdown that shard runs, and the first thread waits for it,
    for ever; a shutdown it begins itself uses the deleted first shard. *)
Definition ex_lost (r : run_pc) : state := State m_joining [t_running r] [Deleted; Ready] [false; true] 0 ex_buses 2.

Lemma bootstrap_shutdown_lost : Bootstrap.reachable ex_pin ex_barrier (Some 2) 0 (ex_lost r_poll) /\
  (forall k s, quiet ex_pin k (ex_lost r_poll) s -> s = ex_lost r_poll \/ s = ex_lost r_check) /\
  Bootstrap.reachable ex_pin ex_barrier (Some 2) 0 (ex_lost (r_stop 0)) /\ Bootstrap.cpu_step ex_pin 1 false (ex_lost (r_stop 0)) = Undef.
Proof.
  pose (l := by_ [0; 0; 1; 1; 0; 0; 0; 0; 0; 0; 0; 0; 1; 0; 1; 0]%nat ++ (0%nat, true) :: by_ [0; 0; 0; 0; 0; 0; 0; 1]%nat).
  split; [apply (ex_start_run 0 l); reflexivity|]. split; [|split].
  - assert (forall k s s', quiet ex_pin k s s' -> s = ex_lost r_poll \/ s = ex_lost r_check -> s' = ex_lost r_poll \/ s' = ex_lost r_check) as H.
    { induction 1 as [s|k s x s1 s2 Hs _ IH]; intros H; [done|]. apply IH.
      destruct x as [|[|x]], H as [-> | ->]; try done; injection Hs as <-; solve [by left|by right]. }
    intros k s Hq. eapply H; [exact Hq|]. by left.
  - apply (ex_start_run 0 (l ++ (1%nat, true) :: by_ [1]%nat)). reflexivity.
  - reflexivity.
Qed.

Lemma bootstrap_runs_prepared_witness : Bootstrap.reachable ex_pin ex_barrier (Some 2) 0 ex_raced /\
  Forall2 (bus 2) [0; 1; 2; 3]%nat (buses ex_raced).
Proof.
  assert (Hr : Bootstrap.reachable ex_pin ex_barrier (Some 2) 0 ex_raced)
    by (apply (ex_start_run 0 (by_ [0; 0; 0; 0; 0; 0; 0; 0; 0; 0; 1; 1; 1; 0]%nat)); reflexivity).
  split; [exact Hr|].
  exact (proj2 (bootstrap_runs_prepared ex_pin ex_barrier ex_barrier_needs (Some 2) 0 ex_raced Hr (or_introl I))).
Defined.


