(* ===== verification/Kernel.v ===== *)
(** * Kernel: the kernel and the pollers of a shard (src/core/kernel.cpp,
      xi/core/kernel.h, src/core/shard.cpp)

    The vector of pollers has items and a capacity; what a [poll] does to it is a
    list of actions, which [shard::dispatch] runs at once on the shard's own thread.
    A kernel keeps pointers to the shards of a [world] (Shard), or null.
    [make_shard] is virtual: the class has one that returns null. *)
From S2P Require Import Prelude Shard.

(** ** [shard::_pollers] *)
Inductive registered := mk_registered (p_id : Z) (p_acts : list action)
with action := Register (p : registered) | Deregister (id : Z).

Definition p_id (p : registered) : Z := match p with mk_registered i _ => i end.
Definition p_acts (p : registered) : list action := match p with mk_registered _ a => a end.

Record vector := mk_vector { items : list registered; capacity : nat }.

Module Pollers.
Section pollers.
(** [end_stays]: whether the past-the-end iterator stays valid when the elements stay
    where they are.  C++ does not promise it, a vector whose iterators are pointers
    (libstdc++, libc++) does it. *)
Context (grow : nat -> nat) (end_stays : bool).

(** [emplace_back]: whether the iterators stay valid. *)
Definition emplace_back (v : vector) (p : registered) : vector * bool :=
  if (length (items v) <? capacity v)%nat then (mk_vector (items v ++ [p]) (capacity v), end_stays)
  else (mk_vector (items v ++ [p]) (grow (capacity v)), false).

(** [erase(remove_if(...), end)]: the end moves when something is erased. *)
Definition erase_id (v : vector) (id : Z) : vector * bool :=
  (mk_vector (filter (fun p => p_id p <> id) (items v)) (capacity v), end_stays && bool_decide (id ∉ p_id <$> items v)).

(** [register_poller] and [deregister_poller] on the shard's own thread. *)
Definition register_poller (v : vector) (p : registered) : vector * bool * Z := (emplace_back v p, p_id p).
Definition deregister_poller (v : vector) (id : Z) : vector * bool := erase_id v id.

Definition act (v : vector) (a : action) : vector * bool :=
  match a with Register p => fst (register_poller v p) | Deregister id => deregister_poller v id end.

Fixpoint run_acts (v : vector) (acts : list action) : vector * bool :=
  match acts with
  | [] => (v, true)
  | a :: acts =>
      let '(v, ok1) := act v a in
      let '(v, ok2) := run_acts v acts in
      (v, ok1 && ok2)
  end.

(** The loop of [shard::poll] from index [i]; [end_] is taken before it. *)
Fixpoint poll_from (n : nat) (v : vector) (i end_ : nat) : outcome (vector * list Z) :=
  match n with
  | O => Ret (v, [])
  | S n =>
      if (i <? end_)%nat then
        match items v !! i with
        | None => Undef
        | Some p =>
            let '(v, valid) := run_acts v (p_acts p) in
            if valid : bool then do '(v, ids) <- poll_from n v (S i) end_;; Ret (v, p_id p :: ids) else Undef
        end
      else Ret (v, [])
  end.

Definition poll (v : vector) : outcome (vector * list Z) := poll_from (length (items v)) v 0 (length (items v)).
End pollers.
End Pollers.

(** ** The kernel *)
Record kernel := mk_kernel {
  k_cpus : nat;                             (** [_machine.cpus().size()] *)
  k_queue_size : Z;
  k_shards : list (option nat);
  k_filter : option (exn -> bool);
  k_exit : option exn
}.

(** What a [future] holds: nothing yet was ever pending. *)
Inductive settled := ready | failed (e : exn).

Module Kernel.
(** [kernel(machine)]. *)
Definition make (cpus : nat) : kernel := mk_kernel cpus (2 ^ 12) [] (Some (fun _ => false)) None.

Definition core_count (k : kernel) : Z := u32 (Z.of_nat (length (k_shards k))).

(** [_shards.resize(count)]. *)
Definition resize (l : list (option nat)) (count : nat) : list (option nat) := take count l ++ replicate (count - length l) None.

Definition start (k : kernel) (count per_core_queue_size : Z) : kernel * settled :=
  if count <? 1 then (k, failed invalid_argument)
  else if Z.of_nat (k_cpus k) <? count then (k, failed invalid_argument)
  else (mk_kernel (k_cpus k) per_core_queue_size (resize (k_shards k) (Z.to_nat count)) (k_filter k) (k_exit k), ready).

Definition set_shard (k : kernel) (id : nat) (p : option nat) : kernel :=
  mk_kernel (k_cpus k) (k_queue_size k) (<[id := p]> (k_shards k)) (k_filter k) (k_exit k).

(** The checked access of [mut_shard], [post], [dispatch], [register_poller],
    [deregister_poller] and [poll_core]. *)
Definition shard_of (k : kernel) (core : nat) : outcome (option nat) :=
  match k_shards k !! core with None => Throw invalid_argument | Some p => Ret p end.

Definition mut_shard (k : kernel) (core : Z) : outcome (option nat) := shard_of k (Z.to_nat (u16 core)).

(** [make_shard] of this class. *)
Definition make_shard (id : nat) : option nat := None.

Section kernel.
Context (make_shard : nat -> option nat).

(** [startup] and [cleanup] take a [u16] and do not check it; the result of
    [startup] is [this_shard]. *)
Definition startup (k : kernel) (id : Z) : outcome (kernel * option nat) :=
  let id := Z.to_nat (u16 id) in
  match k_shards k !! id with
  | None => Undef
  | Some p => assertO (bool_decide (p = None)) (Ret (set_shard k id (make_shard id), make_shard id))
  end.

Definition cleanup (k : kernel) (id : Z) : outcome kernel :=
  let id := Z.to_nat (u16 id) in
  match k_shards k !! id with
  | None => Undef
  | Some p => assertO (negb (bool_decide (p = None))) (Ret (set_shard k id None))
  end.

(** [post]: [this_shard] is [self]. *)
Definition post (k : kernel) (self : option nat) (w : world) (core : nat) (t : task) : outcome world :=
  do p <- shard_of k core;;
  do j <- derefO p;;
  match self with None => Abort | Some self => Ret (Shard.post self w j t) end.

Definition dispatch (fuel : nat) (k : kernel) (self : option nat) (w : world) (core : nat) (t : task) : outcome world :=
  do p <- shard_of k core;;
  do j <- derefO p;;
  if bool_decide (self = Some j) then
    let w := Shard.run_task j w t in
    if t_fails t then Shard.initiate_shutdown fuel j w else Ret w
  else post k self w core t.

(** The task [shutdown_signal.received = true]. *)
Definition SHUTDOWN : Z := -2.
Definition shutdown_task : task := mk_task SHUTDOWN [] false.

Fixpoint post_all (k : kernel) (self : option nat) (w : world) (core n : nat) : outcome world :=
  match n with
  | O => Ret w
  | S n => do w <- post k self w core shutdown_task;; post_all k self w (S core) n
  end.

Definition initiate_shutdown (k : kernel) (self : option nat) (w : world) : outcome world :=
  post_all k self w 0 (length (k_shards k)).

Definition await_shutdown (k : kernel) : outcome unit := match k_exit k with Some e => Throw e | None => Ret tt end.

Definition exception_filter (k : kernel) (f : option (exn -> bool)) : kernel :=
  mk_kernel (k_cpus k) (k_queue_size k) (k_shards k) f (k_exit k).

Definition handle_exception (k : kernel) (self : option nat) (w : world) (e : exn) : kernel * outcome world :=
  if match k_filter k with None => true | Some f => negb (f e) end then
    let k := mk_kernel (k_cpus k) (k_queue_size k) (k_shards k) (k_filter k) (Some e) in
    (k, initiate_shutdown k self w)
  else (k, Ret w).

Definition poll_core (fuel : nat) (k : kernel) (w : world) (id : nat) (events : list task) (interrupted : bool) : outcome world :=
  do p <- shard_of k id;;
  do j <- derefO p;;
  Shard.poll fuel j events interrupted w.

(** [shutdown_signal.received] of the thread of shard [j], since [from] tasks. *)
Definition received (w : world) (j from : nat) : bool := bool_decide ((j, SHUTDOWN) ∈ drop from (ran w)).

(** The loop of [run_on_core], a turn for an element of [turns]. *)
Fixpoint run_loop (fuel : nat) (k : kernel) (w : world) (id from : nat) (turns : list (list task * bool)) : outcome (world * bool) :=
  if match shard_of k id with Ret (Some j) => received w j from | _ => false end then Ret (w, false)
  else
    match turns with
    | [] => Ret (w, true)
    | (events, interrupted) :: turns =>
        do w <- poll_core fuel k w id events interrupted;;
        run_loop fuel k w id from turns
    end.

Definition run_on_core (fuel : nat) (k : kernel) (w : world) (id : nat) (turns : list (list task * bool)) : outcome (kernel * world * bool) :=
  do '(k, _) <- startup k (Z.of_nat id);;
  do '(w, going) <- run_loop fuel k w id (length (ran w)) turns;;
  if going : bool then Ret (k, w, true) else do k <- cleanup k (Z.of_nat id);; Ret (k, w, false).
End kernel.
End Kernel.

(** ** Pollers *)
Section poller_facts.
Context (grow : nat -> nat) (end_stays : bool).
Import Pollers.
Implicit Types (v : vector) (p : registered) (a : action).

(** What the actions add, and whether they leave the iterators alone: everything
    added fits, and nothing is found to be removed (and an end that did not move counts
    as valid). *)
Definition added (acts : list action) : list registered :=
  acts ≫= fun a => match a with Register p => [p] | Deregister _ => [] end.

Fixpoint harmless (ids : list Z) (room : nat) (acts : list action) : bool :=
  match acts with
  | [] => true
  | Register p :: acts => end_stays && (length ids <? room)%nat && harmless (ids ++ [p_id p]) room acts
  | Deregister id :: acts => end_stays && bool_decide (id ∉ ids) && harmless ids room acts
  end.

Abbreviation ids_of l := (p_id <$> l).

Lemma added_app (l1 l2 : list action) : added (l1 ++ l2) = added l1 ++ added l2.
Proof. apply bind_app. Qed.

Lemma harmless_app (l1 l2 : list action) (ids : list Z) (room : nat) :
  harmless ids room (l1 ++ l2) = harmless ids room l1 && harmless (ids ++ ids_of (added l1)) room l2.
Proof.
  revert ids. induction l1 as [|[p|id] l1 IH]; intros ids; cbn [app harmless]; [by rewrite app_nil_r|..]; rewrite IH, !andb_assoc.
  - change (added (Register p :: l1)) with (p :: added l1). cbn. by rewrite <- app_assoc.
  - done.
Qed.

Lemma run_acts_ok (acts : list action) v :
  let '(v', valid) := run_acts grow end_stays v acts in
  valid = harmless (ids_of (items v)) (capacity v) acts /\
  (valid = true -> v' = mk_vector (items v ++ added acts) (capacity v)).
Proof.
  revert v. induction acts as [|[p|id] acts IH]; intros v.
  - cbn. rewrite app_nil_r. by destruct v.
  - cbn [run_acts act register_poller fst harmless]. unfold emplace_back. rewrite length_fmap.
    destruct (length (items v) <? capacity v)%nat eqn:Hr.
    + specialize (IH (mk_vector (items v ++ [p]) (capacity v))). destruct (run_acts grow end_stays _ acts) as [v' valid].
      cbn [items capacity] in IH. rewrite fmap_app in IH. destruct IH as [-> IH]. rewrite andb_true_r. split; [done|]. intros [_ Hv]%andb_prop.
      rewrite (IH Hv), <- app_assoc. done.
    + destruct (run_acts grow end_stays _ acts). by rewrite andb_false_r.
  - cbn [run_acts act harmless]. unfold deregister_poller, erase_id. case_bool_decide as Hid.
    + rewrite filter_all by (intros p Hp <-; apply Hid; by apply list_elem_of_fmap_2).
      specialize (IH (mk_vector (items v) (capacity v))). destruct (run_acts grow end_stays _ acts) as [v' valid]. cbn [items capacity] in IH.
      destruct IH as [-> IH]. split; [done|]. intros [_ Hv]%andb_prop. by apply IH.
    + destruct (run_acts grow end_stays _ acts). by rewrite andb_false_r.
Qed.

Lemma poll_from_ok (n i : nat) (l : list registered) v (before : list action) :
  items v = l ++ added before -> (length l <= i + n)%nat -> (i <= length l)%nat ->
  poll_from grow end_stays n v i (length l)
  = if harmless (ids_of (items v)) (capacity v) (drop i l ≫= p_acts)
    then Ret (mk_vector (items v ++ added (drop i l ≫= p_acts)) (capacity v), ids_of (drop i l)) else Undef.
Proof.
  revert i v before. induction n as [|n IH]; intros i v before Hv Hn Hi.
  - rewrite drop_ge by lia. cbn. rewrite app_nil_r. by destruct v.
  - cbn [poll_from]. destruct (Nat.ltb_spec i (length l)) as [Hlt|Hge].
    + destruct (lookup_lt_is_Some_2 l i Hlt) as [p Hp]. rewrite Hv, lookup_app_l, Hp by done.
      rewrite (drop_S l p i Hp), bind_cons, harmless_app. pose proof (run_acts_ok (p_acts p) v) as Ha.
      destruct (run_acts grow end_stays v (p_acts p)) as [v' valid]. destruct Ha as [Hva Hv']. rewrite <- Hv, <- Hva.
      destruct valid; [|done]. rewrite (Hv' eq_refl) in *. cbn [andb].
      rewrite (IH (S i) _ (before ++ p_acts p)); cbn [items capacity]; [|by rewrite Hv, <- app_assoc, added_app|lia|lia].
      rewrite fmap_app. case_match; [|done]. cbn [bindO]. rewrite added_app, app_assoc. done.
    + rewrite drop_ge by lia. cbn. rewrite app_nil_r. by destruct v.
Qed.

(** C15: One turn polls the registered pollers once each, in the order of their
    registration, and what they register themselves is appended and first polled in
    the next turn; but a poller that registers more than the vector has room for, or
    removes a registered one, leaves the loop with invalid iterators (and so does one
    that registers anything where the past-the-end iterator does not survive that). *)
Theorem pollers_polled_in_order v :
  poll grow end_stays v
  = if harmless (ids_of (items v)) (capacity v) (items v ≫= p_acts)
    then Ret (mk_vector (items v ++ added (items v ≫= p_acts)) (capacity v), ids_of (items v)) else Undef.
Proof. unfold poll. by rewrite (poll_from_ok _ 0 (items v) v []) by (rewrite ?app_nil_r; done || lia). Qed.
End poller_facts.

(** ** Starting and shutting down *)
Section kernel_facts.
Import Kernel.
Implicit Types (k : kernel) (w : world) (s : shard).

Lemma length_resize (l : list (option nat)) (n : nat) : length (resize l n) = n.
Proof. unfold resize. rewrite length_app, length_take, length_replicate. lia. Qed.

(** Shards [0] to [n - 1] of a world are those of the kernel. *)
Definition manages k w : Prop := forall i, (i < length (k_shards k))%nat -> k_shards k !! i = Some (Some i) /\ is_Some (shards w !! i).

Lemma post_ok k self w (core : nat) (t : task) : manages k w -> (core < length (k_shards k))%nat ->
  post k (Some self) w core t = Ret (Shard.post self w core t).
Proof. intros Hm Hc. destruct (Hm core Hc) as [Hs _]. unfold post, shard_of. by rewrite Hs. Qed.

Lemma shards_post self w (core : nat) (t : task) (i : nat) :
  shards (Shard.post self w core t) !! i = extend self i (if decide (i = core) then [t] else []) <$> shards w !! i.
Proof.
  unfold Shard.post. case_decide as Hc; rewrite on_shard_lookup; case_decide as Hi; subst.
  - destruct (shards w !! core); [|done]. cbn. unfold extend. by rewrite decide_False.
  - destruct (shards w !! i); [|done]. cbn. by rewrite extend_nil.
  - destruct (shards w !! self); [|done]. cbn. unfold extend. by rewrite decide_True.
  - destruct (shards w !! i); [|done]. cbn. by rewrite extend_nil.
Qed.

Lemma post_all_ok k self w (core n : nat) : manages k w -> (core + n <= length (k_shards k))%nat ->
  exists w', post_all k (Some self) w core n = Ret w' /\ ran w' = ran w /\ manages k w' /\
    forall i, shards w' !! i = extend self i (if decide (core <= i < core + n)%nat then [shutdown_task] else []) <$> shards w !! i.
Proof.
  revert w core. induction n as [|n IH]; intros w core Hm Hc.
  - exists w. do 3 (split; [done|]). intros i. rewrite decide_False by lia.
    destruct (shards w !! i); [|done]. cbn. by rewrite extend_nil.
  - cbn [post_all]. rewrite post_ok by (done || lia). cbn [bindO]. set (w1 := Shard.post self w core shutdown_task).
    assert (Hm1 : manages k w1).
    { intros i Hi. destruct (Hm i Hi) as [H1 [s Hs]]. split; [done|]. unfold w1. rewrite shards_post, Hs. by eexists. }
    destruct (IH w1 (S core) Hm1 ltac:(lia)) as (w' & Hp & Hr & Hm' & Hs). exists w'. split; [done|].
    split; [rewrite Hr; unfold w1, Shard.post; by case_decide|]. split; [done|]. intros i. rewrite Hs. unfold w1. rewrite shards_post.
    destruct (shards w !! i); [|done]. cbn. rewrite extend_app. do 2 f_equal. repeat case_decide; try done; lia.
Qed.
End kernel_facts.

(** ** Properties of the kernel *)
Section kernel_properties.
Import Kernel.
Implicit Types (k : kernel) (w : world) (s : shard).

(** Starting checks the number of cores; an accepted one is the number of shards,
    of which those that were there are kept. *)
Lemma kernel_start_checks k (count size : Z) : 0 <= count < 2 ^ 32 ->
  let '(k', r) := start k count size in
  if (count <? 1) || (Z.of_nat (k_cpus k) <? count) then k' = k /\ r = failed invalid_argument
  else r = ready /\ core_count k' = count /\
    forall i, (i < Z.to_nat count)%nat -> k_shards k' !! i = Some (default None (k_shards k !! i)).
Proof.
  intros Hc. unfold start. destruct (count <? 1); [done|]. cbn [orb]. destruct (_ <? count); [done|]. split; [done|]. split.
  - unfold core_count. cbn [k_shards]. rewrite length_resize, Z2Nat.id by lia. apply Z.mod_small. lia.
  - cbn [k_shards]. intros i Hi. unfold resize. destruct (Nat.lt_ge_cases i (length (k_shards k))) as [Hlt|Hge].
    + rewrite lookup_app_l by (rewrite length_take; lia). rewrite lookup_take_lt by lia.
      by destruct (lookup_lt_is_Some_2 (k_shards k) i Hlt) as [x ->].
    + rewrite lookup_app_r by (rewrite length_take; lia). rewrite (lookup_ge_None_2 (k_shards k)) by lia.
      apply lookup_replicate_2. rewrite length_take. lia.
Qed.

(** A core that is not there is refused before anything happens: getting,
    posting, dispatching, polling and registering throw [invalid_argument]. *)
Lemma kernel_checks_core k (fuel core : nat) (self : option nat) w (t : task) (ev : list task) (b : bool) :
  (length (k_shards k) <= core)%nat ->
  shard_of k core = Throw invalid_argument /\ post k self w core t = Throw invalid_argument /\
  dispatch fuel k self w core t = Throw invalid_argument /\ poll_core fuel k w core ev b = Throw invalid_argument.
Proof.
  intros Hc. assert (shard_of k core = Throw invalid_argument) as Hs by (unfold shard_of; by rewrite lookup_ge_None_2).
  unfold post, dispatch, poll_core. by rewrite Hs.
Qed.

(** With the [make_shard] of the class itself the first turn of a core uses a null
    pointer. *)
Theorem kernel_has_no_shards k w (fuel id : nat) (turn : list task * bool) (turns : list (list task * bool)) :
  Z.of_nat id < 2 ^ 16 -> k_shards k !! id = Some None -> run_on_core make_shard fuel k w id (turn :: turns) = Undef.
Proof.
  intros Hid Hs. unfold run_on_core, startup.
  assert (Z.to_nat (u16 (Z.of_nat id)) = id) as ->.
  { rewrite u16_id; [apply Nat2Z.id|lia]. }
  rewrite Hs, bool_decide_eq_true_2 by done. cbn [assertO bindO make_shard].
  assert (shard_of (set_shard k id None) id = Ret None) as Hn.
  { unfold shard_of, set_shard. cbn [k_shards]. rewrite list_lookup_insert_eq; [done|]. by eapply lookup_lt_Some. }
  unfold make_shard. destruct turn as [ev b]. cbn [run_loop]. rewrite Hn. unfold poll_core. by rewrite Hn.
Qed.

(** Shutting a kernel down reaches every core: each of its shards is given
    one task more, behind what was posted before, and the loop of a core whose tasks
    return ends with the turn that runs it. *)
Theorem kernel_shutdown_ends_cores k w (fuel self from : nat) :
  manages k w -> (from <= length (ran w))%nat ->
  exists w', initiate_shutdown k (Some self) w = Ret w' /\ ran w' = ran w /\
    forall i s, (i < length (k_shards k))%nat -> shards w !! i = Some s -> s_pollers s = Shard.init_pollers ->
      shards w' !! i = Some (extend self i [shutdown_task] s) /\
      (Forall (fun t => t_fails t = false) (s_tasks s ++ s_deferred s ++ s_inbound s) ->
       exists w'', run_loop fuel k w' i from [([], false)] = Ret (w'', false)).
Proof.
  intros Hm Hfrom. destruct (post_all_ok k self w 0 (length (k_shards k)) Hm ltac:(lia)) as (w' & Hp & Hr & Hm' & Hs).
  exists w'. split; [exact Hp|]. split; [done|]. intros i s Hi Hsi Hpol.
  assert (Hsi' : shards w' !! i = Some (extend self i [shutdown_task] s)) by (rewrite Hs, Hsi, decide_True by lia; done).
  split; [done|]. intros Hf. destruct (Hm' i Hi) as [Hk _].
  assert (Hso : shard_of k i = Ret (Some i)) by (unfold shard_of; by rewrite Hk).
  cbn [run_loop]. rewrite Hso. destruct (received w' i from); [by eexists|].
  unfold poll_core. rewrite Hso. cbn [bindO derefO].
  set (s' := extend self i [shutdown_task] s) in *. set (ts := s_tasks s' ++ s_deferred s' ++ s_inbound s').
  assert (Hts : ts ≡ₚ shutdown_task :: s_tasks s ++ s_deferred s ++ s_inbound s).
  { unfold ts, s', extend. case_decide; cbn [s_tasks s_deferred s_inbound].
    - rewrite <- app_assoc. cbn [app]. by rewrite !Permutation_middle.
    - rewrite !app_assoc. by rewrite <- Permutation_cons_append. }
  assert (s_pollers s' = Shard.init_pollers) as Hpol' by (unfold s', extend; by case_decide).
  destruct (shard_turn_ok fuel i w' s' ts Hsi' Hpol' eq_refl) as (w'' & Hpoll & Hran & _).
  { rewrite Hts. by constructor. }
  rewrite Hpoll. cbn [bindO]. exists w''. unfold received. rewrite bool_decide_eq_true_2; [done|].
  rewrite Hran, skipn_app. apply list.elem_of_app. right.
  rewrite (proj2 (Nat.sub_0_le from (length (ran w')))) by (rewrite Hr; lia). cbn [drop]. unfold tagged. rewrite Hts. apply list_elem_of_here.
Qed.
End kernel_properties.

(** ** Witnesses *)

Definition ex_idle : shard := mk_shard Shard.init_pollers [] [] [mk_task 7 [] false] true.
Definition ex_kernel : kernel := mk_kernel 4 4096 [Some 0%nat; Some 1%nat] None None.
Definition ex_cores : world := mk_world [ex_idle; ex_idle] [] [].

Lemma ex_manages : manages ex_kernel ex_cores.
Proof. intros [|[|i]] Hi; [by split..|cbn in Hi; lia]. Qed.

Lemma kernel_shutdown_ends_cores_witness :
  exists w', Kernel.initiate_shutdown ex_kernel (Some 0%nat) ex_cores = Ret w' /\
    exists w'', Kernel.run_loop 1 ex_kernel w' 1 0 [([], false)] = Ret (w'', false).
Proof.
  destruct (kernel_shutdown_ends_cores ex_kernel ex_cores 1 0 0 ex_manages (le_n 0)) as (w' & Hw & _ & Hs).
  exists w'. split; [exact Hw|]. refine (proj2 (Hs 1%nat ex_idle _ eq_refl eq_refl) _).
  - cbn. lia.
  - apply Forall_cons_2; [reflexivity|apply Forall_nil_2].
Defined.

Lemma kernel_has_no_shards_witness :
  Kernel.run_on_core Kernel.make_shard 1 (fst (Kernel.start (Kernel.make 4) 2 100)) ex_cores 1 [([], false)] = Undef.
Proof. refine (kernel_has_no_shards (fst (Kernel.start (Kernel.make 4) 2 100)) ex_cores 1 1 ([], false) [] _ eq_refl). reflexivity. Defined.
