(* ===== verification/Server.v ===== *)
(** * Server: opening, binding and accepting (src/io/net/socket2.cpp,
      xi/io/net/socket2.h, [acceptor_pipe] of xi/io/net/async_channel.h)

    What Socket leaves out: how a socket is opened, bound to an endpoint and made
    to listen, and the options an accepted socket is given, which are those of
    Endpoint.  A [stream_server_socket] keeps its descriptor twice, once in its base
    [bindable_socket_adapter]. *)
From S2P Require Import Prelude Socket Endpoint.

(** The system calls: what is passed, then [(ret, errno)]. *)
Class server_api (K : Type) := {
  sv_socket : K -> Z -> Z -> Z -> K * (Z * Z);
  sv_bind : K -> Z -> list (option Z) -> Z -> K * (Z * Z);
  sv_listen : K -> Z -> Z -> K * (Z * Z);
  sv_fionread : K -> Z -> K * list Z * (Z * Z)
}.

Definition SOCK_STREAM : Z := 1.
Definition SOCK_DGRAM : Z := 2.
Definition SOCK_NONBLOCK : Z := 2048.
Definition SOCK_CLOEXEC : Z := 524288.

(** [(level, name, value, length)]. *)
Definition option_t : Type := Z * Z * Z * nat.

Record server := mk_server { sv_fd : Z; sv_bound_fd : Z; sv_child_options : list option_t }.

Module Server.
Section server.
Context {K : Type} `{socket_api K} `{server_api K} `{option_api K}.

(** [socket(descriptor)] and [socket(af, socktype, proto)]. *)
Definition construct (d errno : Z) : outcome Socket.socket := if -1 =? d then Throw (system_error errno) else Ret d.

Definition open (k : K) (af socktype proto : Z) : K * outcome Socket.socket :=
  let '(k, (d, errno)) := sv_socket k af (Z.lor (Z.lor socktype SOCK_NONBLOCK) SOCK_CLOEXEC) proto in
  (k, construct d errno).

(** [socket::create]: without the flags. *)
Definition create (k : K) (af socktype proto : Z) : K * expected Socket.socket :=
  let '(k, (d, errno)) := sv_socket k af socktype proto in
  (k, if -1 =? d then Error (Errno errno) else Value d).

(** [stream_server_socket(af, proto)]. *)
Definition make (k : K) (af proto : Z) : K * outcome server :=
  let '(k, s) := open k af SOCK_STREAM proto in
  (k, do s <- s;; Ret (mk_server s s [])).

(** [bindable_socket_adapter::bind]: an address and its length. *)
Definition adapter_bind (k : K) (d : Z) (local : list (option Z) * Z) : K * outcome unit :=
  let '(k, (ret, errno)) := sv_bind k d (fst local) (snd local) in
  (k, if -1 =? ret then Throw (system_error errno) else Ret tt).

Definition bind (k : K) (s : server) (local : list (option Z) * Z) : K * outcome unit :=
  let '(k, r) := adapter_bind k (sv_bound_fd s) local in
  match r with
  | Ret _ =>
      let '(k, (ret, errno)) := sv_listen k (sv_fd s) 1024 in
      (k, if -1 =? ret then Throw (system_error errno) else Ret tt)
  | r => (k, r)
  end.

(** [acceptor_pipe::bind] of an internet and of a unix endpoint. *)
Definition bind_inet (k : K) (s : server) (ep : Inet.sockaddr_in) : K * outcome unit :=
  let '(bytes, len) := Inet.to_posix ep in bind k s (Some <$> bytes, len).
Definition bind_unix (k : K) (s : server) (ep : Unix.sockaddr_un) : K * outcome unit := bind k s (Unix.to_posix ep).

(** [close()] of the base class [socket]; the adapter keeps the number. *)
Definition close (k : K) (s : server) : K * server * expected unit :=
  let '(k, d, r) := Socket.close k (sv_fd s) in (k, mk_server d (sv_bound_fd s) (sv_child_options s), r).

(** ** Options of accepted sockets *)

Definition make_tuple_from_option (o : socket_option) (value : Z) : option_t := (level o, name o, value, length_ o).

Definition set_child_options (s : server) (options : list (socket_option * Z)) : server :=
  mk_server (sv_fd s) (sv_bound_fd s) (sv_child_options s ++ ((fun o => make_tuple_from_option (fst o) (snd o)) <$> options)).

(** [&get< 2 >(o)] is the address of an [int]. *)
Fixpoint apply_options (k : K) (d : Z) (options : list option_t) : K * expected unit :=
  match options with
  | [] => (k, Value tt)
  | (l, n, v, len) :: options =>
      let '(k, (ret, errno)) := sys_set_option k d l n (take len (bytes_of 4 v)) in
      if -1 =? ret then (k, Error (Errno errno)) else apply_options k d options
  end.

Definition accept (k : K) (s : server) : K * outcome (expected Socket.socket) :=
  let '(k, (retval, errno)) := sys_accept4 k (sv_fd s) in
  if -1 =? retval then (k, Ret (Error (Errno errno)))
  else
    let '(k, res) := apply_options k retval (sv_child_options s) in
    match res with
    | Error e => (k, Ret (Error e))
    | Value _ => (k, do d <- construct retval 0;; Ret (Value d))
    end.

(** [ioctl(FIONREAD)] stores an [int] in the low bytes of a [usize] that is 0. *)
Definition readable_bytes (k : K) (s : Socket.socket) : K * expected Z :=
  let '(k, bs, (retval, errno)) := sv_fionread k s in
  (k, if -1 =? retval then Error (Errno errno) else Value (int_of (take 4 bs))).
End server.
End Server.

(** ** Properties *)
Section properties.
Context {K : Type} `{socket_api K} `{server_api K} `{option_api K}.
Import Server.
Implicit Types (k : K) (s : server).

(** A kernel all of whose answers are noted: which options were set on a descriptor
    from [k] to [k'], all with success. *)
Inductive sets_all (d : Z) : K -> list option_t -> K -> Prop :=
  | sets_none k : sets_all d k [] k
  | sets_one k k1 k2 l n v len os ret errno :
      sys_set_option k d l n (take len (bytes_of 4 v)) = (k1, (ret, errno)) -> ret <> -1 ->
      sets_all d k1 os k2 -> sets_all d k ((l, n, v, len) :: os) k2.

Lemma apply_options_ok (d : Z) (os : list option_t) : forall k k', apply_options k d os = (k', Value tt) <-> sets_all d k os k'.
Proof.
  induction os as [|[[[l n] v] len] os IH]; intros k k'; cbn [apply_options].
  - split; [intros [= <-]; constructor|by inversion 1].
  - destruct (sys_set_option k d l n (take len (bytes_of 4 v))) as [k1 [ret errno]] eqn:Hs. split.
    + destruct (Z.eqb_spec (-1) ret) as [|Hr]; [done|]. intros Ha. econstructor; [exact Hs|congruence|by apply IH].
    + inversion 1; subst. rewrite Hs in *. simplify_eq. rewrite (proj2 (Z.eqb_neq _ _)) by congruence. by apply IH.
Qed.

Lemma apply_options_error (d : Z) (os : list option_t) : forall k k' e, apply_options k d os = (k', Error e) ->
  exists pre l n v len rest k1 errno, os = pre ++ (l, n, v, len) :: rest /\ sets_all d k pre k1 /\
    sys_set_option k1 d l n (take len (bytes_of 4 v)) = (k', (-1, errno)) /\ e = Errno errno.
Proof.
  induction os as [|[[[l n] v] len] os IH]; intros k k' e; cbn [apply_options]; [done|].
  destruct (sys_set_option k d l n (take len (bytes_of 4 v))) as [k1 [ret errno]] eqn:Hs.
  destruct (Z.eqb_spec (-1) ret) as [<-|Hr].
  - intros [= -> <-]. exists [], l, n, v, len, os, k, errno. split; [done|]. split; [constructor|done].
  - intros Ha. destruct (IH _ _ _ Ha) as (pre & l' & n' & v' & len' & rest & k2 & errno' & -> & Hp & He & ->).
    exists ((l, n, v, len) :: pre), l', n', v', len', rest, k2, errno'. split; [done|]. split; [|done].
    econstructor; [exact Hs|congruence|done].
Qed.

(** A server socket returns a connection exactly when the kernel accepted one
    and took every child option, each set on the new descriptor in the order the
    options were given; the first one refused is the error returned, and the
    options behind it are not tried. *)
Theorem accept_applies_options k s k' (r : expected Socket.socket) :
  accept k s = (k', Ret r) ->
  let '(k1, (retval, errno)) := sys_accept4 k (sv_fd s) in
  match r with
  | Value d => d = retval /\ retval <> -1 /\ sets_all d k1 (sv_child_options s) k'
  | Error e =>
      (retval = -1 /\ k' = k1 /\ e = Errno errno) \/
      (retval <> -1 /\ exists pre l n v len rest k2 errno', sv_child_options s = pre ++ (l, n, v, len) :: rest /\
         sets_all retval k1 pre k2 /\ sys_set_option k2 retval l n (take len (bytes_of 4 v)) = (k', (-1, errno')) /\
         e = Errno errno')
  end.
Proof.
  unfold accept. destruct (sys_accept4 k (sv_fd s)) as [k1 [retval errno]].
  destruct (Z.eqb_spec (-1) retval) as [<-|Hr]; [intros [= -> <-]; by left|].
  destruct (apply_options k1 retval (sv_child_options s)) as [k2 [[]|e]] eqn:Ha.
  - unfold construct. rewrite (proj2 (Z.eqb_neq _ _)) by done. intros [= -> <-]. split; [done|]. split; [congruence|].
    by apply apply_options_ok.
  - intros [= -> <-]. right. split; [congruence|]. by apply apply_options_error.
Qed.

(** Binding a server to an endpoint: the bytes of its address are bound, then the
    socket listens with a queue of 1024; a refused call throws its error. *)
Lemma server_binds_then_listens k s (p : Z) :
  let '(bytes, len) := Inet.to_posix (Inet.make p) in
  let '(k1, (b, e1)) := sv_bind k (sv_bound_fd s) (Some <$> bytes) len in
  let '(k2, (l, e2)) := sv_listen k1 (sv_fd s) 1024 in
  bind_inet k s (Inet.make p)
  = if -1 =? b then (k1, Throw (system_error e1)) else (k2, if -1 =? l then Throw (system_error e2) else Ret tt).
Proof.
  unfold bind_inet, bind, adapter_bind. destruct (Inet.to_posix (Inet.make p)) as [bytes len]. cbn [fst snd].
  destruct (sv_bind k (sv_bound_fd s) (Some <$> bytes) len) as [k1 [b e1]].
  destruct (sv_listen k1 (sv_fd s) 1024) as [k2 [l e2]]. by destruct (-1 =? b).
Qed.

(** After [close] the socket binds the number it had, which may be another's. *)
Lemma bind_after_close k s (local : list (option Z) * Z) : sv_fd s = sv_bound_fd s -> sv_fd s <> -1 ->
  let '(k', s', _) := close k s in
  sv_fd s' = -1 /\ fst (adapter_bind k' (sv_bound_fd s') local) = fst (sv_bind k' (sv_fd s) (fst local) (snd local)).
Proof.
  intros Hs Hd. unfold close, Socket.close. rewrite (proj2 (Z.eqb_neq _ _)) by congruence.
  destruct (sys_close k (sv_fd s)) as [k1 [ret errno]]. split; [done|]. cbn [sv_bound_fd]. unfold adapter_bind. rewrite Hs.
  by destruct (sv_bind k1 (sv_bound_fd s) (fst local) (snd local)) as [? []].
Qed.
End properties.

(** ** Witness: a kernel that accepts descriptor 5 and keeps options *)

#[export] Instance ex_server_sockets : socket_api ex_options := {
  sys_sendmsg k d bs := (k, (zlen bs, 0));
  sys_recvmsg k d room := (k, [], (0, 0));
  sys_close k d := (k, (0, 0));
  sys_connect k d := (k, (0, 0));
  sys_accept4 k d := (k, (5, 0));
  sys_setsockopt k d o := (k, (0, 0))
}.

Definition ex_server : server := Server.set_child_options (mk_server 3 3 []) [(Options.bool_opt 6 1, 1)].

Lemma accept_applies_options_witness :
  sets_all 5 ([] : ex_options) (sv_child_options ex_server) [(5, 6, 1, [1; 0; 0; 0])].
Proof.
  exact (proj2 (proj2 (accept_applies_options (K := ex_options) [] ex_server [(5, 6, 1, [1; 0; 0; 0])] (Value 5) eq_refl))).
Defined.
