(* ===== verification/Util.v ===== *)
(** * Util: two small utilities (xi/ext/number.h, the stack allocator of
      xi/core/generic_resumable.h)

    [distinct_numeric_type< T >] at an unsigned type of [w] bits; an operator that
    changes its object returns it.  [mmap] and [munmap] are the class [mmap_api]. *)
From S2P Require Import Prelude.

Module Number.
Section number.
Context (w : Z).

Record distinct := mk_distinct { value : Z }.

Definition make (v : Z) : distinct := mk_distinct v.
Definition of_ (n : distinct) : Z := value n.

(** The assignment from a [T] ends without a return statement. *)
Definition assign (n : distinct) (v : Z) : distinct * outcome distinct := (mk_distinct v, Undef).

Definition eqb (n m : distinct) : bool := value n =? value m.
Definition neqb (n m : distinct) : bool := negb (value n =? value m).
Definition ltb (n m : distinct) : bool := value n <? value m.
Definition leb (n m : distinct) : bool := value n <=? value m.
Definition gtb (n m : distinct) : bool := value m <? value n.
Definition geb (n m : distinct) : bool := value m <=? value n.

(** [operator+] and [operator-] compute a value and drop it. *)
Definition add (n m : distinct) : distinct := let _ := wrap w (value n + value m) in n.
Definition sub (n m : distinct) : distinct := let _ := wrap w (value n - value m) in n.
Definition add_assign (n m : distinct) : distinct := mk_distinct (wrap w (value n + value m)).
Definition sub_assign (n m : distinct) : distinct := mk_distinct (wrap w (value n - value m)).
End number.
End Number.

(** [mmap] of so many anonymous bytes, at an address or [MAP_FAILED]. *)
Class mmap_api (K : Type) := {
  sys_mmap : K -> Z -> K * Z;
  sys_munmap : K -> Z -> Z -> K
}.

Module Stack.
Definition MAP_FAILED : Z := 2 ^ 64 - 1.
Definition max_size : Z := 2 ^ 20.

Record stack_context := mk_stack { sp : Z; size : Z }.

Section stack.
Context {K : Type} `{mmap_api K}.

(** The check is on the end of the stack. *)
Definition allocate (k : K) : K * outcome stack_context :=
  let '(k, p) := sys_mmap k max_size in
  let ctx := mk_stack (u64 (p + max_size)) max_size in
  (k, if MAP_FAILED =? sp ctx then Throw bad_alloc else Ret ctx).

Definition deallocate (k : K) (ctx : stack_context) : K := sys_munmap k (u64 (sp ctx - max_size)) max_size.
End stack.
End Stack.

(** ** Properties *)

(** The comparisons are a total order, the assigning operators wrap around, and
    assigning a sum and then a difference gives the number back. *)
Lemma number_ops (w : Z) (n m : Number.distinct) : 0 <= w -> 0 <= Number.value n < 2 ^ w ->
  Number.sub_assign w (Number.add_assign w n m) m = n /\
  Number.neqb n m = negb (Number.eqb n m) /\ Number.leb n m = negb (Number.ltb m n) /\
  Number.geb n m = Number.leb m n /\ Number.gtb n m = Number.ltb m n /\
  (Number.leb n m = true -> Number.leb m n = true -> n = m).
Proof.
  intros Hw Hn. destruct n as [n], m as [m]. cbn in *. split.
  - unfold Number.sub_assign, Number.add_assign, wrap. cbn. f_equal.
    rewrite Zminus_mod_idemp_l, Z.add_simpl_r. by apply Z.mod_small.
  - unfold Number.neqb, Number.eqb, Number.leb, Number.ltb, Number.geb, Number.gtb. cbn.
    split; [done|]. split; [apply Z.leb_antisym|]. do 2 (split; [done|]). intros ?%Z.leb_le ?%Z.leb_le. f_equal. lia.
Qed.

(** A sum of two numbers is its first operand. *)
Lemma number_plus_loses (w : Z) (n m : Number.distinct) : Number.add w n m = n /\ Number.sub w n m = n.
Proof. done. Qed.

(** A stack is unmapped where it was mapped; a failed [mmap] is never noticed. *)
Lemma stack_allocate {K : Type} `{mmap_api K} (k : K) :
  let '(k', p) := sys_mmap k Stack.max_size in
  (p = Stack.MAP_FAILED -> Stack.allocate k = (k', Ret (Stack.mk_stack (2 ^ 20 - 1) Stack.max_size))) /\
  (0 <= p < 2 ^ 64 - 2 ^ 20 - 1 -> Stack.allocate k = (k', Ret (Stack.mk_stack (p + 2 ^ 20) Stack.max_size)) /\
     Stack.deallocate k' (Stack.mk_stack (p + 2 ^ 20) Stack.max_size) = sys_munmap k' p Stack.max_size).
Proof.
  unfold Stack.allocate. destruct (sys_mmap k Stack.max_size) as [k' p]. split; [by intros ->|]. intros Hp. split.
  - unfold Stack.max_size, Stack.MAP_FAILED. rewrite u64_id by lia. cbn [Stack.sp].
    by rewrite (proj2 (Z.eqb_neq _ _)) by lia.
  - unfold Stack.deallocate, Stack.max_size. cbn [Stack.sp]. by rewrite Z.add_simpl_r, u64_id by lia.
Qed.
