(* ===== verification/Epoll.v ===== *)
(** * Epoll: setting up the poller of the older scheduler
      (src/core/reactor/epoll.cpp, xi/core/reactor/epoll.h)

    What [epoll::epoll], [epoll::~epoll] and the quota monitor do to the signals
    of their thread, to timers and to descriptors; waiting and dispatching is in
    Isolation.  A set of signals is a finite set of numbers; the results of the
    system calls that may fail are given to the constructor. *)
From S2P Require Import Prelude.

Definition SIGINT : Z := 2.
Definition SIGRTMIN : Z := 34.
Definition WAKEUP_SIGNAL : Z := SIGRTMIN.
Definition QUOTA_SIGNAL : Z := WAKEUP_SIGNAL + 1.

(** What is installed for a signal, with whether interrupted calls are restarted. *)
Inductive disposition := action_handler (restart : bool) | quota_handler (restart : bool).

Record thread := mk_thread {
  blocked : gset Z;
  actions : gmap Z disposition;
  open_fds : gset Z;
  interest : list Z;                    (** the descriptors [_epoll] watches *)
  quota : option (option (Z * Z));      (** the timer, and the time it is armed for *)
  signals : Z                           (** [SIGNALS] *)
}.

Record epoll := mk_epoll { ep_fd : Z; ep_wakeup : Z; ep_timer : Z }.

Module Epoll.
Definition with_blocked (b : gset Z) (t : thread) : thread := mk_thread b (actions t) (open_fds t) (interest t) (quota t) (signals t).
Definition with_actions (a : gmap Z disposition) (t : thread) : thread :=
  mk_thread (blocked t) a (open_fds t) (interest t) (quota t) (signals t).
Definition with_fds (f : gset Z) (l : list Z) (t : thread) : thread :=
  mk_thread (blocked t) (actions t) f l (quota t) (signals t).
Definition with_quota (q : option (option (Z * Z))) (t : thread) : thread :=
  mk_thread (blocked t) (actions t) (open_fds t) (interest t) q (signals t).

(** ** Sets of signals: [sigfillset] leaves out the two of the C library *)
Definition make_full_sigset_mask : gset Z := list_to_set (seqZ 1 31 ++ seqZ 34 31).
Definition make_empty_sigset_mask : gset Z := ∅.
Definition make_sigset_mask (signo : Z) : gset Z := {[signo]}.

Definition block_all_signals (t : thread) : thread :=
  with_blocked (blocked t ∪ (make_full_sigset_mask ∖ {[SIGINT]})) t.
Definition unblock_all_signals (t : thread) : thread := with_blocked (blocked t ∖ make_full_sigset_mask) t.
Definition unblock_signal (signo : Z) (t : thread) : thread := with_blocked (blocked t ∖ make_sigset_mask signo) t.

(** The handlers. *)
Definition action (signo : Z) (t : thread) : thread :=
  mk_thread (blocked t) (actions t) (open_fds t) (interest t) (quota t) (Z.lor (signals t) (u64 (Z.shiftl 1 signo))).
Definition yield_current_task (signo : Z) (t : thread) : thread := t.

(** A [sigaction] that was accepted, with [SA_RESTART] in the first case. *)
Definition handle_signal (ok : bool) (signo : Z) (t : thread) : outcome thread :=
  assertO ok (Ret (unblock_signal signo (with_actions (<[signo := action_handler true]> (actions t)) t))).

(** [epoll_create1], [eventfd], [timerfd_create]: a descriptor or -1; [epoll_ctl]
    of the two, [timer_create] and [sigaction]: whether they succeed.  [exit] ends
    the program. *)
Record results := mk_results {
  r_epoll : Z; r_wakeup : Z; r_timer : Z;
  r_add_wakeup : bool; r_add_timer : bool; r_timer_create : bool; r_sigaction : bool
}.

Definition open_fd (d : Z) (t : thread) : thread := if d <? 0 then t else with_fds ({[d]} ∪ open_fds t) (interest t) t.

Definition make (r : results) (t : thread) : outcome (thread * epoll) :=
  let t := open_fd (r_timer r) (open_fd (r_wakeup r) (open_fd (r_epoll r) t)) in
  assertO (0 <=? r_epoll r) (
  if negb (r_add_wakeup r) then Abort
  else if negb (r_add_timer r) then Abort
  else
    let t := with_fds (open_fds t) (interest t ++ [r_wakeup r; r_timer r]) t in
    assertO (r_timer_create r) (
    let t := block_all_signals (with_quota (Some None) t) in
    do t <- handle_signal (r_sigaction r) WAKEUP_SIGNAL t;;
    do t <- handle_signal (r_sigaction r) QUOTA_SIGNAL t;;
    let t := with_actions (<[QUOTA_SIGNAL := quota_handler false]> (actions t)) t in
    assertO (r_sigaction r) (Ret (t, mk_epoll (r_epoll r) (r_wakeup r) (r_timer r))))).

(** The destructor; the interest list goes with its descriptor. *)
Definition destroy (e : epoll) (t : thread) : outcome thread :=
  assertO (0 <=? ep_fd e) (
  Ret (unblock_all_signals (with_quota None (with_fds (open_fds t ∖ {[ep_fd e]}) [] t)))).

(** ** The quota of a task: [timer_settime]; a zero time disarms the timer *)
Definition settime (sec nsec : Z) : option (Z * Z) := if (sec =? 0) && (nsec =? 0) then None else Some (sec, nsec).

Definition begin_task_quota_monitor (ns : Z) (t : thread) : thread :=
  with_quota (Some (settime (Z.quot ns 1000000000) (Z.rem ns 1000000000))) t.
Definition end_task_quota_monitor (t : thread) : thread := with_quota (Some (settime 0 0)) t.
End Epoll.

(** ** Properties *)
Section properties.
Import Epoll.

(** What a successful set-up leaves behind, in terms of what there was. *)
Lemma make_inv (r : results) (t t' : thread) (e : epoll) :
  make r t = Ret (t', e) ->
  e = mk_epoll (r_epoll r) (r_wakeup r) (r_timer r) /\ 0 <= r_epoll r /\
  t' = mk_thread ((blocked t ∪ (make_full_sigset_mask ∖ {[SIGINT]})) ∖ {[WAKEUP_SIGNAL]} ∖ {[QUOTA_SIGNAL]})
         (<[QUOTA_SIGNAL := quota_handler false]> (<[QUOTA_SIGNAL := action_handler true]>
           (<[WAKEUP_SIGNAL := action_handler true]> (actions t))))
         (open_fds (open_fd (r_timer r) (open_fd (r_wakeup r) (open_fd (r_epoll r) t))))
         (interest t ++ [r_wakeup r; r_timer r]) (Some None) (signals t).
Proof.
  unfold make, handle_signal, assertO.
  destruct (0 <=? r_epoll r) eqn:He, (r_add_wakeup r), (r_add_timer r), (r_timer_create r), (r_sigaction r);
    cbn -[make_full_sigset_mask union difference insert open_fd WAKEUP_SIGNAL QUOTA_SIGNAL SIGINT]; intros [= <- <-];
    split_and!; [done|lia|].
  unfold open_fd. by repeat case_match.
Qed.

Lemma elem_of_open_fd (d x : Z) (t : thread) : x ∈ open_fds (open_fd d t) <-> (x = d /\ 0 <= d) \/ x ∈ open_fds t.
Proof. unfold open_fd. destruct (d <? 0) eqn:Hd; cbn; [|rewrite elem_of_union, elem_of_singleton]; intuition lia. Qed.

(** A thread whose poller was set up takes three signals only: the interrupt, if
    it was not blocked before, the wakeup and the quota signal.  The
    wakeup signal goes to [action], with interrupted calls restarted; the quota
    signal has the handler that does nothing, and interrupts them. *)
Lemma epoll_setup_signals (r : results) (t t' : thread) (e : epoll) :
  make r t = Ret (t', e) ->
  (forall s, s ∈ make_full_sigset_mask ->
     s ∉ blocked t' <-> s = WAKEUP_SIGNAL \/ s = QUOTA_SIGNAL \/ (s = SIGINT /\ s ∉ blocked t)) /\
  actions t' !! WAKEUP_SIGNAL = Some (action_handler true) /\ actions t' !! QUOTA_SIGNAL = Some (quota_handler false) /\
  (forall s, s <> WAKEUP_SIGNAL -> s <> QUOTA_SIGNAL -> actions t' !! s = actions t !! s).
Proof.
  intros (-> & _ & ->)%make_inv. cbn [blocked actions]. split_and!; [|by rewrite !lookup_insert_ne, lookup_insert_eq by done|by rewrite lookup_insert_eq|].
  - intros s Hs. rewrite !elem_of_difference, elem_of_union, elem_of_difference, !elem_of_singleton.
    assert (WAKEUP_SIGNAL <> SIGINT /\ QUOTA_SIGNAL <> SIGINT) as [Hw Hq] by done.
    destruct (decide (s = QUOTA_SIGNAL)) as [->|]; [tauto|]. destruct (decide (s = WAKEUP_SIGNAL)) as [->|]; [tauto|].
    destruct (decide (s = SIGINT)) as [->|]; tauto.
  - intros s H1 H2. by rewrite !lookup_insert_ne by done.
Qed.

(** The destructor closes one of the three descriptors the constructor opened:
    the event and the timer descriptors stay open. *)
Lemma epoll_destroy_leaves_two (r : results) (t t1 t2 : thread) (e : epoll) :
  make r t = Ret (t1, e) -> destroy e t1 = Ret t2 -> 0 <= ep_wakeup e -> 0 <= ep_timer e ->
  ep_wakeup e <> ep_fd e -> ep_timer e <> ep_fd e -> ep_fd e ∉ open_fds t ->
  forall d, d ∈ open_fds t2 <-> d = ep_wakeup e \/ d = ep_timer e \/ d ∈ open_fds t.
Proof.
  intros (-> & H0 & ->)%make_inv. unfold destroy, assertO. cbn [ep_fd ep_wakeup ep_timer].
  replace (0 <=? r_epoll r) with true by lia. intros [= <-] Hw Ht Hwe Hte Hnew d. cbn.
  rewrite elem_of_difference, !elem_of_open_fd, elem_of_singleton.
  split; [tauto|]. intros [->|[->|Hd]]; [tauto..|]. split; [tauto|]. by intros ->.
Qed.

(** Nor does it give the signals back as they were: every signal is let through. *)
Lemma epoll_destroy_unblocks (e : epoll) (t t' : thread) :
  destroy e t = Ret t' -> quota t' = None /\ forall s, s ∈ make_full_sigset_mask -> s ∉ blocked t'.
Proof.
  unfold destroy, assertO. case_match; intros [= <-]. split; [done|]. intros s Hs. cbn -[make_full_sigset_mask].
  rewrite elem_of_difference. tauto.
Qed.

(** A quota of at least a nanosecond arms the timer for exactly that time; ending
    the quota, and a quota of nothing, disarm it. *)
Lemma quota_monitor (ns : Z) (t : thread) : 0 <= ns ->
  (forall s n, quota (begin_task_quota_monitor ns t) = Some (Some (s, n)) <-> 0 < ns /\ 0 <= s /\ 0 <= n < 1000000000 /\ ns = s * 1000000000 + n) /\
  quota (end_task_quota_monitor (begin_task_quota_monitor ns t)) = Some None.
Proof.
  intros Hns. split; [|done]. intros s n. unfold begin_task_quota_monitor, settime. cbn [quota with_quota].
  rewrite Z.quot_div_nonneg, Z.rem_mod_nonneg by lia.
  pose proof (Z.div_mod ns 1000000000 ltac:(lia)). pose proof (Z.mod_pos_bound ns 1000000000 ltac:(lia)).
  pose proof (Z.div_pos ns 1000000000 Hns ltac:(lia)).
  destruct ((ns / 1000000000 =? 0) && (ns mod 1000000000 =? 0)) eqn:E; split.
  - discriminate.
  - lia.
  - intros Hq. simplify_eq. lia.
  - intros (? & ? & ? & Hn). do 3 f_equal; lia.
Qed.

(** A poller set up and destroyed. *)
Example epoll_ex :
  (let r := mk_results 3 4 5 true true true true in
   let t := mk_thread {[15]} ∅ {[0; 1; 2]} [] None 0 in
   do p <- make r t;; do t <- destroy p.2 p.1;; Ret (elements (open_fds p.1), elements (open_fds t), elements (blocked t)))
  = Ret (elements ({[0; 1; 2; 3; 4; 5]} : gset Z), elements ({[0; 1; 2; 4; 5]} : gset Z), []).
Proof. vm_compute. reflexivity. Qed.
End properties.
