(* ===== verification/Ends.v ===== *)
(** * Ends: the ends of channels and who owns their bus (xi/core/channel.h,
      xi/util/ownership.h)

    [channel], [ichannel] and [channel_iterator] hold an [own] of a message bus.
    A bus is a [std_shared], so its [own] is a [shared_ptr]: copies and conversions
    of an end share one bus, which goes with the last of them.  The buses are the
    worlds of Channel; an end is a number, and names its bus.  [ochannel] cannot be
    made from a channel (its constructor is protected) and is left out. *)
From S2P Require Import Prelude Channel.

(** ** [own]: the pointer that the bases of a class select *)

Inductive base_class := std_shared | rc_shared | rc_counter | arc_shared | arc_counter | unique.
Inductive policy := kSTD | kRC | kARC | kUnique.
Inductive own_type := shared_ptr | intrusive_ptr | unique_ptr | value.

#[export] Instance base_class_eq_dec : EqDecision base_class.
Proof. solve_decision. Defined.
#[export] Instance policy_eq_dec : EqDecision policy.
Proof. solve_decision. Defined.

Module Own.
(** [is_shared_with_policy] and [enable_if_unique]. *)
Definition has_policy (bases : list base_class) (p : policy) : bool :=
  match p with
  | kSTD => bool_decide (std_shared ∈ bases)
  | kRC => bool_decide (rc_shared ∈ bases) || bool_decide (rc_counter ∈ bases)
  | kARC => bool_decide (arc_shared ∈ bases) || bool_decide (arc_counter ∈ bases)
  | kUnique => bool_decide (unique ∈ bases)
  end.

Definition pointer (p : policy) : own_type :=
  match p with kSTD => shared_ptr | kRC | kARC => intrusive_ptr | kUnique => unique_ptr end.

(** [detail::own]: the specialisation whose condition holds, else the class
    itself; two that hold are ambiguous. *)
Definition own (bases : list base_class) : option own_type :=
  match List.filter (has_policy bases) [kSTD; kRC; kARC; kUnique] with
  | [] => Some value
  | [p] => Some (pointer p)
  | _ => None
  end.
End Own.

Definition abstract_message_bus : list base_class := [std_shared].

Inductive end_kind := channel | ichannel | channel_iterator.

#[export] Instance end_kind_eq_dec : EqDecision end_kind.
Proof. solve_decision. Defined.

Section ends.
Context {T : Type} `{Inhabited T} (Size : Z).

(** What [shared_ptr] allocates: the object with the number of its owners. *)
Record control := mk_control { use_count : nat; object : world (T := T) }.

(** [handles] are the ends that exist, [calls] the processes inside [send] with
    the end they called. *)
Record ends := mk_ends { buses : gmap Z control; handles : gmap Z (end_kind * Z); calls : gmap Z Z }.

Definition ends_new : ends := mk_ends ∅ ∅ ∅.

Definition bus_of (e : ends) (h : Z) : option Z := snd <$> handles e !! h.
Definition world_of (e : ends) (b : Z) : option world := object <$> buses e !! b.

(** *** [shared_ptr]: making, copying, dropping *)
Definition make_shared (b : Z) (w : world) (m : gmap Z control) : gmap Z control := <[b := mk_control 1 w]> m.
Definition own_copy (b : Z) (m : gmap Z control) : gmap Z control := alter (fun c => mk_control (S (use_count c)) (object c)) b m.
Definition own_drop (b : Z) (m : gmap Z control) : gmap Z control :=
  match m !! b with
  | Some c => if decide (use_count c <= 1)%nat then delete b m else <[b := mk_control (use_count c - 1) (object c)]> m
  | None => m
  end.
Definition with_object (b : Z) (w : world) (m : gmap Z control) : gmap Z control := alter (fun c => mk_control (use_count c) w) b m.

(** [is_shared] of a pointer that owns, and of the object itself: the latter asks
    the [shared_ptr] that [shared_from_this] makes for its count. *)
Definition is_shared (b : Z) (m : gmap Z control) : bool :=
  match m !! b with Some c => bool_decide (1 < use_count c)%nat | None => false end.
Definition is_shared_object (b : Z) (m : gmap Z control) : bool := is_shared b (own_copy b m).

(** *** The operations of the ends *)

(** [make_channel]: [h] and [b] are new. *)
Definition make_channel (h b : Z) (queue : list T) (e : ends) : ends :=
  mk_ends (make_shared b (world_new queue) (buses e)) (<[h := (channel, b)]> (handles e)) (calls e).

(** Copying an end, the conversion to [ichannel], [begin] and [end]. *)
Definition converts (from to : end_kind) : bool :=
  match from with channel => true | _ => bool_decide (from = to) end.

Definition convert (h h' : Z) (to : end_kind) (e : ends) : option ends :=
  match handles e !! h with
  | Some (from, b) =>
      if converts from to then Some (mk_ends (own_copy b (buses e)) (<[h' := (to, b)]> (handles e)) (calls e)) else None
  | None => None
  end.

(** The destructor of an end. *)
Definition destroy (h : Z) (e : ends) : ends :=
  match bus_of e h with
  | Some b => mk_ends (own_drop b (buses e)) (delete h (handles e)) (calls e)
  | None => e
  end.

(** [send] of process [p] up to its first block; only a channel has it. *)
Definition send (h p : Z) (v : T) (e : ends) : option ends :=
  match handles e !! h with
  | Some (channel, b) =>
      match world_of e b with
      | Some w =>
          let '(s, done) := put_once Size (w_bus w) p v in
          let ps := if (done : bool) then sending w else <[p := v]> (sending w) in
          let cs := if (done : bool) then calls e else <[p := h]> (calls e) in
          Some (mk_ends (with_object b (mk_cworld s ps (v :: sent w) (gets w)) (buses e)) (handles e) cs)
      | None => None
      end
  | _ => None
  end.

(** The next turn of a process that was woken inside [send]. *)
Definition resume (p : Z) (e : ends) : option ends :=
  match calls e !! p ≫= bus_of e with
  | Some b =>
      match world_of e b with
      | Some w =>
          match sending w !! p with
          | Some v =>
              let '(s, done) := put_once Size (w_bus w) p v in
              let ps := if (done : bool) then delete p (sending w) else sending w in
              let cs := if (done : bool) then delete p (calls e) else calls e in
              Some (mk_ends (with_object b (mk_cworld s ps (sent w) (gets w)) (buses e)) (handles e) cs)
          | None => None
          end
      | None => None
      end
  | None => None
  end.

(** [recv], and [operator*] of an iterator. *)
Definition recv (h p storage : Z) (e : ends) : option ends :=
  match bus_of e h with
  | Some b =>
      match world_of e b with
      | Some w =>
          let '(s, done) := get Size (w_bus w) p storage in
          Some (mk_ends (with_object b (mk_cworld s (sending w) (sent w) (storage :: gets w)) (buses e)) (handles e) (calls e))
      | None => None
      end
  | None => None
  end.

(** [operator==] and [operator!=] of iterators, and a loop over a channel: the
    body takes what [operator*] returns, [operator++] does nothing. *)
Definition iterator_eqb (i j : Z) : bool := false.
Definition iterator_neqb (i j : Z) : bool := negb (iterator_eqb i j).

Fixpoint for_each {S : Type} (fuel : nat) (deref : nat -> T) (body : S -> T -> S) (begin_ end_ : Z) (n : nat) (s : S) : outcome S :=
  match fuel with
  | O => Diverge
  | Datatypes.S fuel =>
      if iterator_neqb begin_ end_ then for_each fuel deref body begin_ end_ (Datatypes.S n) (body s (deref n)) else Ret s
  end.

(** ** Ends in use

    A process is in one call at a time, and an end is not destroyed while a
    process is inside [send] of it; a woken process is not blocked. *)
Inductive ends_step : ends -> ends -> Prop :=
  | ends_make h b queue e :
      handles e !! h = None -> buses e !! b = None -> ends_step e (make_channel h b queue e)
  | ends_convert h h' to e e' : handles e !! h' = None -> convert h h' to e = Some e' -> ends_step e e'
  | ends_destroy h e : (forall p, calls e !! p <> Some h) -> ends_step e (destroy h e)
  | ends_send h p v e e' : calls e !! p = None -> send h p v e = Some e' -> ends_step e e'
  | ends_resume p e e' :
      (forall b w, calls e !! p ≫= bus_of e = Some b -> world_of e b = Some w -> p ∉ blocked_senders (w_bus w)) ->
      resume p e = Some e' -> ends_step e e'
  | ends_recv h p storage e e' : calls e !! p = None -> recv h p storage e = Some e' -> ends_step e e'.

Definition ends_reachable : ends -> Prop := rtc ends_step ends_new.

(** The ends of a bus. *)
Definition owners (b : Z) (hs : gmap Z (end_kind * Z)) : gmap Z (end_kind * Z) := filter (fun kv => kv.2.2 = b) hs.
End ends.

(** ** Counting owners *)
Section counting.
Implicit Types (hs : gmap Z (end_kind * Z)).

Lemma owners_insert hs (h b b' : Z) (k : end_kind) : hs !! h = None ->
  size (owners b (<[h := (k, b')]> hs)) = ((if decide (b' = b) then 1 else 0) + size (owners b hs))%nat.
Proof.
  intros Hh. unfold owners. case_decide as Hb.
  - rewrite map_filter_insert_True by done. rewrite map_size_insert_None; [done|].
    apply map_lookup_filter_None. by left.
  - rewrite map_filter_insert_False by done. by rewrite delete_id.
Qed.

Lemma owners_delete hs (h b b' : Z) (k : end_kind) : hs !! h = Some (k, b') ->
  size (owners b hs) = ((if decide (b' = b) then 1 else 0) + size (owners b (delete h hs)))%nat.
Proof.
  intros Hh. rewrite <- (insert_delete_id hs h (k, b')) at 1 by done.
  apply owners_insert, lookup_delete_eq.
Qed.

Lemma owners_pos hs (h b : Z) (k : end_kind) : hs !! h = Some (k, b) -> (0 < size (owners b hs))%nat.
Proof. intros Hh. rewrite (owners_delete hs h b b k Hh), decide_True by done. lia. Qed.

Lemma owners_none hs (b : Z) : (forall h k b', hs !! h = Some (k, b') -> b' <> b) -> size (owners b hs) = 0%nat.
Proof.
  intros Hn. apply map_size_empty_iff, map_empty. intros h. apply map_lookup_filter_None. right.
  intros [k b'] Hh Hb. by apply (Hn h k b').
Qed.
End counting.

(** ** The invariant of a program that uses ends *)
Section invariant.
Context {T : Type} `{Inhabited T} (Size : Z).
Implicit Types (e : ends (T := T)) (w : world (T := T)).

Record ends_ok e : Prop := {
  ok_counts : forall b c, buses e !! b = Some c -> use_count c = size (owners b (handles e)) /\ (0 < use_count c)%nat;
  ok_live : forall h b, bus_of e h = Some b -> is_Some (buses e !! b);
  ok_calls : forall p h, calls e !! p = Some h -> is_Some (bus_of e h);
  ok_sending : forall b w p, world_of e b = Some w ->
    is_Some (sending w !! p) <-> exists h, calls e !! p = Some h /\ bus_of e h = Some b;
  ok_worlds : forall b w, world_of e b = Some w -> exists queue, reachable Size queue w
}.

Lemma handles_bus e h k b : handles e !! h = Some (k, b) -> bus_of e h = Some b.
Proof. unfold bus_of. by intros ->. Qed.

Lemma bus_of_inv e h b : bus_of e h = Some b -> exists k, handles e !! h = Some (k, b).
Proof. unfold bus_of. intros ([k b'] & Hh & Hb)%fmap_Some. exists k. by rewrite Hh, Hb. Qed.

(** An operation on bus [b] moves its world to [w'] and leaves the calls [cs]. *)
Lemma ends_with_object_ok e b w w' (cs : gmap Z Z) :
  ends_ok e -> world_of e b = Some w -> step Size w w' ->
  (forall p, is_Some (sending w' !! p) <-> exists h, cs !! p = Some h /\ bus_of e h = Some b) ->
  (forall p h, bus_of e h <> Some b -> cs !! p = Some h <-> calls e !! p = Some h) ->
  (forall p h, cs !! p = Some h -> is_Some (bus_of e h)) ->
  ends_ok (mk_ends (with_object b w' (buses e)) (handles e) cs).
Proof.
  intros [H1 H2 H3 H4 H5] Hw Hs Hin Hout Hbus. unfold with_object.
  assert (forall b0, world_of (mk_ends (alter (fun c => mk_control (use_count c) w') b (buses e)) (handles e) cs) b0 =
    if decide (b0 = b) then Some w' else world_of e b0) as Hwo.
  { intros b0. unfold world_of in *. cbn. case_decide as Hb; [subst b0|by rewrite lookup_alter_ne].
    rewrite lookup_alter_eq. apply fmap_Some in Hw as (c & -> & _). done. }
  split.
  - cbn. intros b0 c [(-> & c0 & Hc & ->)|[_ Hc]]%lookup_alter_Some; [|by apply H1]. exact (H1 b0 c0 Hc).
  - cbn. intros h b0 Hb. rewrite lookup_alter_is_Some. by apply (H2 h).
  - exact Hbus.
  - intros b0 w0 q. rewrite Hwo. case_decide as Hb; [intros [= <-]; subst b0; apply Hin|].
    intros Hw0. rewrite (H4 b0 w0 q Hw0).
    split; intros (h & Hq & Hh); change (bus_of e h = Some b0) in Hh; exists h; (split; [|exact Hh]); apply Hout; try done; congruence.
  - intros b0 w0. rewrite Hwo. case_decide; [|by apply H5]. intros [= <-].
    destruct (H5 b w Hw) as [queue Hq]. exists queue. by eapply rtc_r.
Qed.

(** A call of [p] begins or ends together with its entry in the world of its bus. *)
Lemma call_begins (ps : gmap Z T) (cs : gmap Z Z) (bus : Z -> option Z) (b h p : Z) (v : T) :
  bus h = Some b -> cs !! p = None ->
  (forall q, is_Some (ps !! q) <-> exists h', cs !! q = Some h' /\ bus h' = Some b) ->
  (forall q, is_Some (<[p := v]> ps !! q) <-> exists h', <[p := h]> cs !! q = Some h' /\ bus h' = Some b) /\
  (forall q h', bus h' <> Some b -> <[p := h]> cs !! q = Some h' <-> cs !! q = Some h').
Proof.
  intros Hb Hp Hin. split.
  - intros q. destruct (decide (q = p)) as [->|Hq]; [|by rewrite !lookup_insert_ne by done].
    rewrite !lookup_insert_eq. split; [by exists h|by eexists].
  - intros q h' Hh. destruct (decide (q = p)) as [->|Hq]; [|by rewrite lookup_insert_ne by done].
    rewrite lookup_insert_eq, Hp. split; [intros [= <-]|]; done.
Qed.

Lemma call_ends (ps : gmap Z T) (cs : gmap Z Z) (bus : Z -> option Z) (b h p : Z) :
  bus h = Some b -> cs !! p = Some h ->
  (forall q, is_Some (ps !! q) <-> exists h', cs !! q = Some h' /\ bus h' = Some b) ->
  (forall q, is_Some (delete p ps !! q) <-> exists h', delete p cs !! q = Some h' /\ bus h' = Some b) /\
  (forall q h', bus h' <> Some b -> delete p cs !! q = Some h' <-> cs !! q = Some h').
Proof.
  intros Hb Hp Hin. split.
  - intros q. destruct (decide (q = p)) as [->|Hq]; [|by rewrite !lookup_delete_ne by done].
    rewrite !lookup_delete_eq. split; [by intros []|by intros (? & ? & _)].
  - intros q h' Hh. destruct (decide (q = p)) as [->|Hq]; [|by rewrite lookup_delete_ne by done].
    rewrite lookup_delete_eq, Hp. split; [done|]. intros [= <-]. done.
Qed.

Lemma world_live e b : is_Some (buses e !! b) -> is_Some (world_of e b).
Proof. unfold world_of. by rewrite fmap_is_Some. Qed.

Lemma ends_send_ok e e' (h p : Z) (v : T) : ends_ok e -> calls e !! p = None -> send Size h p v e = Some e' -> ends_ok e'.
Proof.
  intros Hok Hp. unfold send. destruct (handles e !! h) as [[[] b]|] eqn:Hh; try done.
  apply handles_bus in Hh. destruct (world_of e b) as [w|] eqn:Hw; [|done].
  destruct (put_once Size (w_bus w) p v) as [s done] eqn:Hput. intros [= <-].
  pose proof (ok_sending e Hok b w) as Hin.
  assert (sending w !! p = None) as Hps.
  { apply eq_None_not_Some. intros (h' & Hc & _)%(Hin p Hw). congruence. }
  apply (ends_with_object_ok e b w); [done|done| |..].
  - destruct w as [bs ps vs gs]. by apply step_put.
  - intros q. destruct done; [by apply Hin|].
    exact (proj1 (call_begins _ _ (bus_of e) b h p v Hh Hp (fun q => Hin q Hw)) q).
  - intros q h'. destruct done; [done|]. exact (proj2 (call_begins _ _ (bus_of e) b h p v Hh Hp (fun q => Hin q Hw)) q h').
  - intros q h'. destruct done; [apply (ok_calls e Hok)|].
    intros [[_ <-]|[_ Hq]]%lookup_insert_Some; [by exists b|by apply (ok_calls e Hok q)].
Qed.

Lemma ends_resume_ok e e' (p : Z) : ends_ok e ->
  (forall b w, calls e !! p ≫= bus_of e = Some b -> world_of e b = Some w -> p ∉ blocked_senders (w_bus w)) ->
  resume Size p e = Some e' -> ends_ok e'.
Proof.
  intros Hok Hnb. unfold resume. destruct (calls e !! p) as [h|] eqn:Hp; [|done]. cbn in *.
  destruct (bus_of e h) as [b|] eqn:Hh; [|done]. destruct (world_of e b) as [w|] eqn:Hw; [|done].
  destruct (sending w !! p) as [v|] eqn:Hps; [|done].
  destruct (put_once Size (w_bus w) p v) as [s done] eqn:Hput. intros [= <-].
  pose proof (ok_sending e Hok b w) as Hin.
  apply (ends_with_object_ok e b w); [done|done| |..].
  - destruct w as [bs ps vs gs]. apply (step_resume Size bs ps vs gs p v); [done|exact (Hnb b _ eq_refl Hw)|done].
  - intros q. destruct done; [|by apply Hin].
    exact (proj1 (call_ends _ _ (bus_of e) b h p Hh Hp (fun q => Hin q Hw)) q).
  - intros q h'. destruct done; [|done]. exact (proj2 (call_ends _ _ (bus_of e) b h p Hh Hp (fun q => Hin q Hw)) q h').
  - intros q h'. destruct done; [|apply (ok_calls e Hok)].
    intros [_ Hq]%lookup_delete_Some. by apply (ok_calls e Hok q).
Qed.

Lemma ends_recv_ok e e' (h p storage : Z) : ends_ok e -> recv Size h p storage e = Some e' -> ends_ok e'.
Proof.
  intros Hok. unfold recv. destruct (bus_of e h) as [b|] eqn:Hh; [|done].
  destruct (world_of e b) as [w|] eqn:Hw; [|done]. destruct (get Size (w_bus w) p storage) as [s done] eqn:Hget.
  intros [= <-]. apply (ends_with_object_ok e b w); [done|done| |..].
  - destruct w as [bs ps vs gs]. by eapply step_get.
  - intros q. exact (ok_sending e Hok b w q Hw).
  - done.
  - apply (ok_calls e Hok).
Qed.

(** A new end [h] of a bus that the invariant holds of but for this owner. *)
Lemma bus_of_insert (e : ends (T := T)) m cs (h h0 b : Z) k :
  bus_of (mk_ends (T := T) m (<[h := (k, b)]> (handles e)) cs) h0 = if decide (h0 = h) then Some b else bus_of e h0.
Proof. unfold bus_of. cbn. case_decide as Hh; [subst h0; by rewrite lookup_insert_eq|by rewrite lookup_insert_ne by done]. Qed.

Lemma calls_bus e m (h b b0 p : Z) k : ends_ok e -> handles e !! h = None ->
  (exists h0, calls e !! p = Some h0 /\ bus_of (mk_ends (T := T) m (<[h := (k, b)]> (handles e)) (calls e)) h0 = Some b0) <->
  (exists h0, calls e !! p = Some h0 /\ bus_of e h0 = Some b0).
Proof.
  intros Hok Hh.
  assert (calls e !! p <> Some h) as Hno.
  { intros [? Hx]%(ok_calls e Hok). unfold bus_of in Hx. by rewrite Hh in Hx. }
  split; intros (h0 & Hp & Hb); exists h0; (split; [done|]); revert Hb; rewrite bus_of_insert; case_decide; congruence.
Qed.

Lemma ends_make_channel_ok e (h b : Z) (queue : list T) :
  ends_ok e -> handles e !! h = None -> buses e !! b = None -> ends_ok (make_channel h b queue e).
Proof.
  intros Hok Hh Hb.
  assert (forall h0, bus_of e h0 <> Some b) as Hno.
  { intros h0 [? Hx]%(ok_live e Hok). congruence. }
  assert (size (owners b (handles e)) = 0%nat) as H0.
  { apply owners_none. intros h0 k b' Hh0%handles_bus ->. by apply (Hno h0). }
  unfold make_channel, make_shared. split.
  - cbn. intros b0 c [[<- <-]|[Hne Hc]]%lookup_insert_Some; cbn [use_count].
    + rewrite owners_insert, decide_True by done. lia.
    + rewrite owners_insert, decide_False by done. by apply (ok_counts e Hok).
  - intros h0 b0. rewrite bus_of_insert. cbn. case_decide; [intros [= <-]; by rewrite lookup_insert_eq|].
    intros Hb0. destruct (decide (b0 = b)) as [->|]; [by rewrite lookup_insert_eq|].
    rewrite lookup_insert_ne by done. by apply (ok_live e Hok h0).
  - intros p h0. rewrite bus_of_insert. case_decide; [done|]. by apply (ok_calls e Hok).
  - intros b0 w p. unfold world_of. cbn [buses calls]. rewrite calls_bus by done.
    destruct (decide (b0 = b)) as [->|].
    + rewrite lookup_insert_eq. intros [= <-]. cbn. rewrite lookup_empty.
      split; [by intros []|]. intros (h0 & _ & Hx). by destruct (Hno h0).
    + rewrite lookup_insert_ne by done. by apply (ok_sending e Hok).
  - intros b0 w. unfold world_of. cbn [buses]. destruct (decide (b0 = b)) as [->|].
    + rewrite lookup_insert_eq. intros [= <-]. exists queue. apply rtc_refl.
    + rewrite lookup_insert_ne by done. by apply (ok_worlds e Hok).
Qed.

Lemma world_of_copy e (b b0 : Z) hs cs : world_of (mk_ends (own_copy b (buses e)) hs cs) b0 = world_of e b0.
Proof.
  unfold world_of, own_copy. cbn. destruct (decide (b0 = b)) as [->|]; [|by rewrite lookup_alter_ne].
  rewrite lookup_alter_eq. by destruct (buses e !! b).
Qed.

Lemma ends_convert_ok e e' (h h' : Z) (to : end_kind) :
  ends_ok e -> handles e !! h' = None -> convert h h' to e = Some e' -> ends_ok e'.
Proof.
  intros Hok Hh'. unfold convert. destruct (handles e !! h) as [[from b]|] eqn:Hh; [|done].
  destruct (converts from to); [intros [= <-]|done]. apply handles_bus in Hh. split.
  - cbn. intros b0 c Hc. rewrite owners_insert by done. unfold own_copy in Hc.
    apply lookup_alter_Some in Hc as [(-> & c0 & Hc & ->)|[Hne Hc]]; cbn [use_count];
      destruct (ok_counts e Hok _ _ Hc) as [Hcnt Hpos].
    + rewrite decide_True by done. lia.
    + rewrite decide_False by done. lia.
  - intros h0 b0. rewrite bus_of_insert. cbn. unfold own_copy. rewrite lookup_alter_is_Some.
    case_decide; [intros [= <-]; by apply (ok_live e Hok h)|by apply (ok_live e Hok)].
  - intros p h0. rewrite bus_of_insert. case_decide; [done|]. by apply (ok_calls e Hok).
  - intros b0 w p. rewrite world_of_copy. cbn [calls]. rewrite calls_bus by done. by apply (ok_sending e Hok).
  - intros b0 w. rewrite world_of_copy. by apply (ok_worlds e Hok).
Qed.

Lemma bus_of_delete (e : ends (T := T)) m cs (h h0 : Z) : h0 <> h ->
  bus_of (mk_ends (T := T) m (delete h (handles e)) cs) h0 = bus_of e h0.
Proof. intros Hne. unfold bus_of. cbn. by rewrite lookup_delete_ne. Qed.

Lemma own_drop_Some (b b0 : Z) (m : gmap Z control) (c : control (T := T)) :
  own_drop b m !! b0 = Some c -> exists c0, m !! b0 = Some c0 /\ object c = object c0 /\
    use_count c = (use_count c0 - (if decide (b0 = b) then 1 else 0))%nat /\ (b0 = b -> 1 < use_count c0)%nat.
Proof.
  unfold own_drop. destruct (m !! b) as [c1|] eqn:Hb.
  - case_decide as Hle.
    + intros [Hne Hc]%lookup_delete_Some. exists c. rewrite decide_False by done. split_and!; [done..|lia|done].
    + intros [[<- <-]|[Hne Hc]]%lookup_insert_Some; [exists c1|exists c]; cbn.
      * rewrite decide_True by done. split_and!; [done..|lia].
      * rewrite decide_False by done. split_and!; [done..|lia|done].
  - intros Hc. exists c. assert (b0 <> b) by congruence. rewrite decide_False by done. split_and!; [done..|lia|done].
Qed.

Lemma own_drop_live (b b0 : Z) (m : gmap Z control) (c0 : control (T := T)) :
  m !! b0 = Some c0 -> (b0 = b -> 1 < use_count c0)%nat -> is_Some (own_drop b m !! b0).
Proof.
  intros Hc Hgt. unfold own_drop. destruct (decide (b0 = b)) as [->|Hne].
  - rewrite Hc, decide_False by lia. by rewrite lookup_insert_eq.
  - destruct (m !! b); [|by eexists]. case_decide; [rewrite lookup_delete_ne by done|rewrite lookup_insert_ne by done]; by exists c0.
Qed.

Lemma ends_destroy_ok e (h : Z) : ends_ok e -> (forall p, calls e !! p <> Some h) -> ends_ok (destroy h e).
Proof.
  intros Hok Hno. unfold destroy. destruct (bus_of e h) as [b|] eqn:Hb; [|done].
  destruct (bus_of_inv e h b Hb) as [k Hh].
  assert (forall b0, size (owners b0 (handles e)) = ((if decide (b = b0) then 1 else 0) + size (owners b0 (delete h (handles e))))%nat) as Hsz.
  { intros b0. by apply (owners_delete _ _ _ _ k). }
  assert (forall p h0, calls e !! p = Some h0 -> h0 <> h) as Hcall by (intros p h0 Hp ->; by apply (Hno p)).
  assert (forall b0 w, world_of (mk_ends (own_drop b (buses e)) (delete h (handles e)) (calls e)) b0 = Some w -> world_of e b0 = Some w) as Hw.
  { intros b0 w. unfold world_of. cbn. intros (c & (c0 & Hc0 & Ho & _)%own_drop_Some & ->)%fmap_Some.
    by rewrite Hc0, Ho. }
  split.
  - cbn. intros b0 c (c0 & Hc0 & _ & Hcnt & Hgt)%own_drop_Some. destruct (ok_counts e Hok b0 c0 Hc0) as [H1 H2].
    specialize (Hsz b0). destruct (decide (b0 = b)) as [->|]; [rewrite decide_True in Hsz by done|rewrite decide_False in Hsz by done]; lia.
  - intros h0 b0 (k0 & Hh0)%bus_of_inv. cbn in Hh0 |- *. pose proof (owners_pos _ _ _ _ Hh0) as Hpos.
    apply lookup_delete_Some in Hh0 as [_ Hh0%handles_bus]. destruct (ok_live e Hok h0 b0 Hh0) as [c0 Hc0].
    apply (own_drop_live _ _ _ c0 Hc0). intros ->. destruct (ok_counts e Hok b c0 Hc0). specialize (Hsz b).
    rewrite decide_True in Hsz by done. lia.
  - intros p h0 Hp. rewrite bus_of_delete by (by eapply Hcall). by apply (ok_calls e Hok p).
  - intros b0 w p Hw0. rewrite (ok_sending e Hok b0 w p (Hw b0 w Hw0)).
    split; intros (h0 & Hp & Hx); exists h0; (split; [done|]); revert Hx; rewrite bus_of_delete by (by eapply Hcall); done.
  - intros b0 w Hw0. by apply (ok_worlds e Hok b0 w), Hw.
Qed.

Lemma ends_step_ok e e' : ends_step Size e e' -> ends_ok e -> ends_ok e'.
Proof.
  intros [h b queue e0 Hh Hb|h h' to e0 e1 Hh Hc|h e0 Hno|h p v e0 e1 Hp Hs|p e0 e1 Hnb Hr|h p st e0 e1 Hp Hr] Hok.
  - by apply ends_make_channel_ok.
  - by apply (ends_convert_ok e0 e1 h h' to).
  - by apply ends_destroy_ok.
  - by apply (ends_send_ok e0 e1 h p v).
  - by apply (ends_resume_ok e0 e1 p).
  - by apply (ends_recv_ok e0 e1 h p st).
Qed.

Lemma ends_reachable_ok e : ends_reachable Size e -> ends_ok e.
Proof.
  apply (rtc_invariant (ends_step Size) ends_ok); [by apply ends_step_ok|].
  split; unfold world_of, bus_of; cbn; intros *; rewrite ?lookup_empty; done.
Qed.

(** An object that is owned is said to be shared. *)
Lemma owned_is_shared e b : ends_reachable Size e -> is_Some (buses e !! b) -> is_shared_object b (buses e) = true.
Proof.
  intros Hok%ends_reachable_ok [c Hc]. destruct (ok_counts e Hok b c Hc) as [_ Hpos].
  unfold is_shared_object, is_shared, own_copy. rewrite lookup_alter_eq, Hc. cbn. apply bool_decide_eq_true. lia.
Qed.

(** What a process that is inside [send] finds when it is woken. *)
Lemma ends_resume_defined e p h : ends_reachable Size e -> calls e !! p = Some h -> is_Some (resume Size p e).
Proof.
  intros Hok%ends_reachable_ok Hp. unfold resume. rewrite Hp. cbn.
  destruct (ok_calls e Hok p h Hp) as [b Hb]. rewrite Hb.
  destruct (world_live e b (ok_live e Hok h b Hb)) as [w Hw]. rewrite Hw.
  destruct (proj2 (ok_sending e Hok b w p Hw) (ex_intro _ h (conj Hp Hb))) as [v ->].
  destruct (put_once Size (w_bus w) p v) as [s done]. by eexists.
Qed.
End invariant.

(** ** Properties *)

(** C38: the ends of a channel share one bus for as long as one of them exists: in
    every execution each end names a bus that exists, a bus has as many owners as
    ends name it and at least one, a process woken inside [send] finds its bus and
    its value, and on every bus (without a buffer, the default) the values sent
    through any of its ends are those delivered to any of them and those on their
    way, each once, the calls of [recv] are served in their order, and no wake-up
    is lost. *)
Theorem ends_share_their_bus {T : Type} `{Inhabited T} (e : ends (T := T)) :
  ends_reachable 0 e ->
  (forall h b, bus_of e h = Some b -> is_Some (world_of e b)) /\
  (forall b c, buses e !! b = Some c -> use_count c = size (owners b (handles e)) /\ (0 < use_count c)%nat) /\
  (forall p h, calls e !! p = Some h -> is_Some (resume 0 p e)) /\
  (forall b w, world_of e b = Some w ->
    (snd <$> stored (w_bus w)) ++ in_flight w ≡ₚ sent w /\
    rev (fst <$> blocked_receivers (w_bus w)) ++ (fst <$> stored (w_bus w)) = gets w /\
    (blocked_senders (w_bus w) <> [] ->
     (length (blocked_receivers (w_bus w)) <= size (sending w) - length (blocked_senders (w_bus w)))%nat)).
Proof.
  intros Hr. pose proof (ends_reachable_ok 0 e Hr) as Hok. split_and!.
  - intros h b Hb. by apply world_live, (ok_live 0 e Hok h).
  - apply (ok_counts 0 e Hok).
  - intros p h. by apply ends_resume_defined.
  - intros b w Hw. destruct (ok_worlds 0 e Hok b w Hw) as [queue Hq].
    destruct (rendezvous_reachable queue w Hq) as [_ _ H3 H4 H5]. split_and!; [done..|].
    intros Hne. destruct H5 as [H5|H5]; [done|lia].
Qed.

(** A loop over a channel never ends: no two iterators are equal. *)
Lemma for_each_never_ends {T S : Type} (fuel : nat) (deref : nat -> T) (body : S -> T -> S) (i j : Z) (n : nat) (s : S) :
  for_each fuel deref body i j n s = Diverge.
Proof. revert n s. induction fuel as [|fuel IH]; intros n s; [done|]. apply IH. Qed.

(** The bus of a channel is held by a [shared_ptr]; a class takes exactly one
    kind of pointer unless its bases ask for two policies. *)
Lemma own_shared : Own.own abstract_message_bus = Some shared_ptr.
Proof. reflexivity. Qed.

Lemma own_ambiguous (bases : list base_class) :
  Own.own bases = None <-> exists p p', p <> p' /\ Own.has_policy bases p = true /\ Own.has_policy bases p' = true.
Proof.
  unfold Own.own. cbn [List.filter].
  destruct (Own.has_policy bases kSTD) eqn:H1, (Own.has_policy bases kRC) eqn:H2, (Own.has_policy bases kARC) eqn:H3,
    (Own.has_policy bases kUnique) eqn:H4; split; try done;
    try (intros ([] & [] & ? & ? & ?); congruence);
    intros _; first [by exists kSTD, kRC|by exists kSTD, kARC|by exists kSTD, kUnique|by exists kRC, kARC|by exists kRC, kUnique|by exists kARC, kUnique].
Qed.

(** One process sends through a channel and waits; another receives through an
    [ichannel] converted from it; the channel that is left keeps the bus. *)
Definition ex_ends : option (ends (T := Z)) :=
  let e := make_channel 1 7 [0] ends_new in
  e ← convert 1 2 ichannel e; e ← send 0 1 10 42 e; e ← recv 0 2 20 500 e; e ← resume 0 10 e; Some (destroy 1 e).

Lemma ex_ends_reachable : exists e, ex_ends = Some e /\ ends_reachable 0 e.
Proof.
  eexists. split; [vm_compute; reflexivity|].
  eapply rtc_l; [apply (ends_make 0 1 7 [0]); done|].
  eapply rtc_l; [eapply (ends_convert 0 1 2 ichannel); [done|vm_compute; reflexivity]|].
  eapply rtc_l; [eapply (ends_send 0 1 10 42); [done|vm_compute; reflexivity]|].
  eapply rtc_l; [eapply (ends_recv 0 2 20 500); [done|vm_compute; reflexivity]|].
  eapply rtc_l; [eapply (ends_resume 0 10); [|vm_compute; reflexivity]|].
  { intros b w. vm_compute. intros [= <-] [= <-]. apply not_elem_of_nil. }
  eapply rtc_l; [apply (ends_destroy 0 1)|].
  { intros p. vm_compute. done. }
  apply rtc_done. vm_compute. reflexivity.
Qed.

Lemma ends_share_their_bus_witness :
  exists e, ex_ends = Some e /\ forall b w, world_of e b = Some w -> (snd <$> stored (w_bus w)) ++ in_flight w ≡ₚ sent w.
Proof.
  destruct ex_ends_reachable as (e & He & Hr). exists e. split; [exact He|].
  intros b w Hw. exact (proj1 (proj2 (proj2 (proj2 (ends_share_their_bus e Hr))) b w Hw)).
Defined.
