(* ===== verification/Netpoll.v ===== *)
(** * Netpoll: the poller of the v2 scheduler (src/core/netpoller.cpp)

    The poller over epoll, with the parameter and the documented behaviour of
    Reactor ([epoll_api], [epoll_spec]) and what the manual says of [epoll_wait]:
    it reports armed descriptors, each once, and disarms those that were
    registered for one shot.  Worker has the same calls with the answers of epoll
    as inputs; [await_as_worker] and [poll_as_worker] relate the two. *)
From S2P Require Import Prelude Queues Worker Reactor.

Definition EPOLLONESHOT : Z := Netpoller.EPOLLONESHOT.
Definition EPOLLET : Z := Netpoller.EPOLLET.

(** [epoll_wait]. *)
Class epoll_wait_api (E : Type) := { sys_epoll_wait : E -> Z -> bool -> E * Netpoller.wait_result }.

Module Netpoll.
Section netpoll.
Context {E : Type} `{epoll_api E} `{epoll_wait_api E}.

(** [netpoller::impl]; the last field counts what was written to the event
    descriptor and not read. *)
Record impl := mk_impl { np_epoll : E; np_wakeup_fd : Z; np_wakeups : Z }.

(** [ev.data.fd = _wakeup_fd] sets the low half of 64 bits. *)
Definition wakeup_data (fd junk : Z) : Z := u64 (Z.lor (u32 fd) (Z.shiftl junk 32)).

Definition impl_new (e : E) (wakeup_fd junk : Z) : outcome impl :=
  match sys_epoll_ctl e EPOLL_CTL_ADD wakeup_fd (Z.lor EPOLLIN EPOLLET) (wakeup_data wakeup_fd junk) with
  | (e, None) => Ret (mk_impl e wakeup_fd 0)
  | (_, Some _) => Abort
  end.

Definition with_epoll (e : E) (i : impl) : impl := mk_impl e (np_wakeup_fd i) (np_wakeups i).

(** [await_readable] and [await_writable] differ in the event; the result says
    whether epoll holds the resumable. *)
Definition await (events : Z) (i : impl) (r fd : Z) : outcome (impl * bool) :=
  let ev := Z.lor (Z.lor events EPOLLET) EPOLLONESHOT in
  let '(e, err) := sys_epoll_ctl (np_epoll i) EPOLL_CTL_MOD fd ev r in
  match err with
  | None => Ret (with_epoll e i, true)
  | Some errno =>
      if errno =? Netpoller.ENOENT then
        let '(e, err) := sys_epoll_ctl e EPOLL_CTL_ADD fd ev r in
        match err with
        | None => Ret (with_epoll e i, true)
        | Some errno => if errno =? Netpoller.EEXIST then Ret (with_epoll e i, false) else Abort
        end
      else Ret (with_epoll e i, false)
  end.

Definition impl_await_readable : impl -> Z -> Z -> outcome (impl * bool) := await EPOLLIN.
Definition impl_await_writable : impl -> Z -> Z -> outcome (impl * bool) := await EPOLLOUT.

Definition impl_poll_into (i : impl) (q : worker_queue) (n : Z) (block : bool) : outcome (impl * worker_queue * Z) :=
  let '(e, res) := sys_epoll_wait (np_epoll i) (Z.min n Netpoller.MAX_EVENTS) block in
  match res with
  | Netpoller.w_errno errno => if errno =? Netpoller.EINTR then Ret (with_epoll e i, q, 0) else Abort
  | Netpoller.w_events events =>
      do '(q, woken) <- Netpoller.collect (np_wakeup_fd i) events q false;;
      Ret (mk_impl e (np_wakeup_fd i) (if (woken : bool) then 0 else np_wakeups i), q, zlen events)
  end.

Definition impl_unblock_one (i : impl) : impl := mk_impl (np_epoll i) (np_wakeup_fd i) (np_wakeups i + 1).

(** [class netpoller]: [_impl]. *)
Definition netpoller : Type := option impl.
Definition start (e : E) (wakeup_fd junk : Z) (p : netpoller) : outcome netpoller :=
  do i <- impl_new e wakeup_fd junk;; Ret (Some i).
Definition stop (p : netpoller) : netpoller := None.

Definition with_impl {A : Type} (p : netpoller) (f : impl -> outcome A) : outcome A :=
  match p with Some i => f i | None => Abort end.

Definition await_readable (fd r : Z) (p : netpoller) : outcome netpoller :=
  with_impl p (fun i => do '(i, _) <- impl_await_readable i r fd;; Ret (Some i)).
Definition await_writable (fd r : Z) (p : netpoller) : outcome netpoller :=
  with_impl p (fun i => do '(i, _) <- impl_await_writable i r fd;; Ret (Some i)).
Definition poll_into (q : worker_queue) (n : Z) (p : netpoller) : outcome (netpoller * worker_queue * Z) :=
  with_impl p (fun i => do '(i, q, cnt) <- impl_poll_into i q n false;; Ret (Some i, q, cnt)).
Definition blocking_poll_into (q : worker_queue) (n : Z) (p : netpoller) : outcome (netpoller * worker_queue * Z) :=
  with_impl p (fun i => do '(i, q, cnt) <- impl_poll_into i q n true;; Ret (Some i, q, cnt)).
Definition unblock_one (p : netpoller) : outcome netpoller :=
  with_impl p (fun i => Ret (Some (impl_unblock_one i))).
End netpoll.
End Netpoll.

(** ** What the manual says of [epoll_wait] *)
Definition armed (fl : Z) : bool := negb (Z.land fl (Z.lor EPOLLIN EPOLLOUT) =? 0).
Definition disarm (fl : Z) : Z := if bit fl EPOLLONESHOT then Z.land fl (Z.lor EPOLLONESHOT EPOLLET) else fl.
Definition disarm_all (fds : list Z) (m : gmap Z (Z * Z)) : gmap Z (Z * Z) :=
  foldr (alter (fun x => (disarm x.1, x.2))) m fds.

Class epoll_wait_spec (E : Type) `{epoll_spec E} `{epoll_wait_api E} := {
  wait_events e n block e' ds : sys_epoll_wait e n block = (e', Netpoller.w_events ds) ->
    exists fds, NoDup fds /\ interest e' = disarm_all fds (interest e) /\
      Forall2 (fun fd d => exists fl, interest e !! fd = Some (fl, d) /\ armed fl = true) fds ds;
  wait_errno e n block e' err : sys_epoll_wait e n block = (e', Netpoller.w_errno err) -> interest e' = interest e
}.

(** ** What epoll holds for the poller *)
Section parked.
Context (wfd : Z).
Implicit Types (m : gmap Z (Z * Z)).

(** An armed registration of a resumable. *)
Definition held (x : Z * Z) : bool := armed x.1 && negb (Netpoller.data_fd x.2 =? wfd).
Definition parked m : list Z := (fun kv => kv.2.2) <$> map_to_list (filter (fun kv : Z * (Z * Z) => held kv.2 = true) m).

(** Every registration but the poller's own is for one shot. *)
Definition one_shot m : Prop :=
  map_Forall (fun _ x => Netpoller.data_fd x.2 = wfd \/ bit x.1 EPOLLONESHOT = true) m.

Lemma armed_disarm (fl : Z) : bit fl EPOLLONESHOT = true -> armed (disarm fl) = false.
Proof.
  intros Hb. unfold armed, disarm. rewrite Hb, <- Z.land_assoc.
  replace (Z.land (Z.lor EPOLLONESHOT EPOLLET) (Z.lor EPOLLIN EPOLLOUT)) with 0 by reflexivity. by rewrite Z.land_0_r.
Qed.

Lemma one_shot_disarm (fl : Z) : bit fl EPOLLONESHOT = true -> bit (disarm fl) EPOLLONESHOT = true.
Proof. intros Hb. unfold disarm. rewrite Hb. unfold bit in *. by rewrite <- Z.land_assoc. Qed.

Lemma parked_insert m (fd : Z) (x : Z * Z) :
  (forall y, m !! fd = Some y -> held y = false) -> held x = true -> parked (<[fd := x]> m) ≡ₚ x.2 :: parked m.
Proof.
  intros Hno Hx. unfold parked. rewrite map_filter_insert_True by done.
  rewrite map_to_list_insert; [done|]. apply map_lookup_filter_None. right. intros y Hy. cbn. by rewrite (Hno y Hy).
Qed.

Lemma parked_none m : (forall fd x, m !! fd = Some x -> held x = false) -> parked m = [].
Proof.
  intros Hno. unfold parked. replace (filter _ m) with (∅ : gmap Z (Z * Z)); [done|]. symmetry. apply map_empty.
  intros fd. apply map_lookup_filter_None. right. intros x Hx. cbn. by rewrite (Hno fd x Hx).
Qed.

Lemma parked_insert_not m (fd : Z) (x : Z * Z) :
  (forall y, m !! fd = Some y -> held y = false) -> held x = false -> parked (<[fd := x]> m) = parked m.
Proof.
  intros Hno Hx. unfold parked. rewrite map_filter_insert_False by (cbn; by rewrite Hx).
  rewrite map_filter_delete, delete_id; [done|].
  apply map_lookup_filter_None. right. intros y Hy. cbn. by rewrite (Hno y Hy).
Qed.

Lemma parked_delete m (fd : Z) (x : Z * Z) :
  m !! fd = Some x -> held x = true -> parked m ≡ₚ x.2 :: parked (delete fd m).
Proof.
  intros Hm Hx. rewrite <- (insert_delete_id m fd x Hm) at 1. apply parked_insert; [|done].
  intros y. by rewrite lookup_delete_eq.
Qed.

(** A report disarms the registration of the resumable it is about. *)
Lemma parked_disarm m (fd fl d : Z) :
  m !! fd = Some (fl, d) -> armed fl = true -> one_shot m ->
  parked m ≡ₚ (if Netpoller.data_fd d =? wfd then [] else [d]) ++ parked (alter (fun x => (disarm x.1, x.2)) fd m).
Proof.
  intros Hm Ha Ho. rewrite (alter_alt_Some _ m fd (fl, d)) by done. cbn [fst snd].
  destruct (Netpoller.data_fd d =? wfd) eqn:Hd; cbn [app].
  - assert (forall fl', held (fl', d) = false) as Hh by (intros fl'; unfold held; cbn; by rewrite Hd, andb_false_r).
    rewrite parked_insert_not; [done| |by apply Hh]. intros y Hy. rewrite Hm in Hy. injection Hy as <-. apply Hh.
  - assert (bit fl EPOLLONESHOT = true) as Hb by (destruct (Ho fd (fl, d) Hm); [cbn in *; lia|done]).
    rewrite (parked_delete m fd (fl, d) Hm) by (unfold held; cbn; by rewrite Ha, Hd). cbn [snd]. f_equiv.
    rewrite <- insert_delete_eq, parked_insert_not; [done| |].
    + intros y. by rewrite lookup_delete_eq.
    + unfold held. cbn. by rewrite armed_disarm.
Qed.

Lemma disarm_all_ne (fds : list Z) m (fd : Z) : fd ∉ fds -> disarm_all fds m !! fd = m !! fd.
Proof.
  induction fds as [|fd' fds IH]; intros Hfd; [done|]. apply not_elem_of_cons in Hfd as [Hne Hfd].
  cbn. rewrite lookup_alter_ne by done. by apply IH.
Qed.

Lemma one_shot_disarm_all (fds : list Z) m : one_shot m -> one_shot (disarm_all fds m).
Proof.
  intros Ho. induction fds as [|fd fds IH]; [done|]. cbn. intros fd' x Hx.
  apply lookup_alter_Some in Hx as [(_ & y & Hy & ->)|[_ Hx]]; [|by apply (IH fd')].
  cbn. destruct (IH fd' y Hy) as [?|Hb]; [by left|right]. by apply one_shot_disarm.
Qed.

Lemma parked_report m (fds ds : list Z) : NoDup fds -> one_shot m ->
  Forall2 (fun fd d => exists fl, m !! fd = Some (fl, d) /\ armed fl = true) fds ds ->
  parked m ≡ₚ filter (fun d => Netpoller.data_fd d <> wfd) ds ++ parked (disarm_all fds m).
Proof.
  intros Hnd Ho Hf. induction Hf as [|fd d fds ds (fl & Hm & Ha) Hf IH]; [done|].
  apply list.NoDup_cons in Hnd as [Hfd Hnd]. rewrite (IH Hnd).
  rewrite (parked_disarm (disarm_all fds m) fd fl d) by (rewrite ?disarm_all_ne; eauto using one_shot_disarm_all).
  cbn [disarm_all foldr]. destruct (Netpoller.data_fd d =? wfd) eqn:Hd; cbn [app].
  - by rewrite filter_cons_False by lia.
  - rewrite filter_cons_True by lia. cbn [app]. solve_Permutation.
Qed.
End parked.

(** ** The poller in use *)
Section use.
Context {E : Type} `{epoll_wait_spec E}.
Import Netpoll.
Implicit Types (i : impl (E := E)) (q dropped handed : list Z).

(** The poller, the queue it fills, the resumables it was given and those epoll
    refused, latest first. *)
Record state := mk_state { st_impl : impl (E := E); st_queue : worker_queue; st_dropped : list Z; st_handed : list Z }.

(** A resumable waits for a descriptor that no other waits for; the low half of
    its address is not the number of the event descriptor. *)
Inductive np_step : state -> state -> Prop :=
  | np_await events r fd i i' ok q dr hd :
      events = EPOLLIN \/ events = EPOLLOUT -> Netpoller.data_fd r <> np_wakeup_fd i ->
      (forall x, interest (np_epoll i) !! fd = Some x -> held (np_wakeup_fd i) x = false) ->
      await events i r fd = Ret (i', ok) ->
      np_step (mk_state i q dr hd) (mk_state i' q (if (ok : bool) then dr else r :: dr) (r :: hd))
  | np_poll n block i i' q q' cnt dr hd :
      impl_poll_into i q n block = Ret (i', q', cnt) ->
      np_step (mk_state i q dr hd) (mk_state i' q' dr hd)
  | np_unblock i q dr hd : np_step (mk_state i q dr hd) (mk_state (impl_unblock_one i) q dr hd).

(** The same steps as a program. *)
Inductive call := call_await (events r fd : Z) | call_poll (n : Z) (block : bool) | call_unblock.

Definition np_run_one (c : call) (s : state) : option state :=
  let i := st_impl s in
  match c with
  | call_await events r fd =>
      if bool_decide (events = EPOLLIN \/ events = EPOLLOUT) && negb (Netpoller.data_fd r =? np_wakeup_fd i) &&
         negb (from_option (held (np_wakeup_fd i)) false (interest (np_epoll i) !! fd)) then
        match await events i r fd with
        | Ret (i, ok) => Some (mk_state i (st_queue s) (if (ok : bool) then st_dropped s else r :: st_dropped s) (r :: st_handed s))
        | _ => None
        end
      else None
  | call_poll n block =>
      match impl_poll_into i (st_queue s) n block with
      | Ret (i, q, _) => Some (mk_state i q (st_dropped s) (st_handed s))
      | _ => None
      end
  | call_unblock => Some (mk_state (impl_unblock_one i) (st_queue s) (st_dropped s) (st_handed s))
  end.

Fixpoint np_run (l : list call) (s : state) : option state :=
  match l with
  | [] => Some s
  | c :: l => match np_run_one c s with Some s => np_run l s | None => None end
  end.

Definition parked_by i : list Z := parked (np_wakeup_fd i) (interest (np_epoll i)).

Record np_ok (s : state) : Prop := {
  np_one_shot : one_shot (np_wakeup_fd (st_impl s)) (interest (np_epoll (st_impl s)));
  np_conserved : parked_by (st_impl s) ++ st_queue s ++ st_dropped s ≡ₚ st_handed s
}.

(** What a call of [await] does to the registrations. *)
Lemma await_cases events i i' r fd ok :
  await events i r fd = Ret (i', ok) ->
  np_wakeup_fd i' = np_wakeup_fd i /\
  interest (np_epoll i') =
    if ok then <[fd := (Z.lor (Z.lor events EPOLLET) EPOLLONESHOT, r)]> (interest (np_epoll i)) else interest (np_epoll i).
Proof.
  unfold await. destruct (sys_epoll_ctl (np_epoll i) EPOLL_CTL_MOD fd _ r) as [e1 [err1|]] eqn:E1.
  - pose proof (ctl_error _ _ _ _ _ _ _ E1) as Hi1. case_if.
    + destruct (sys_epoll_ctl e1 EPOLL_CTL_ADD fd _ r) as [e2 [err2|]] eqn:E2.
      * case_if; [|done]. intros [= <- <-]. split; [done|]. cbn. by rewrite (ctl_error _ _ _ _ _ _ _ E2).
      * intros [= <- <-]. split; [done|]. cbn. destruct (ctl_add_ok _ _ _ _ _ E2) as [_ ->]. by rewrite Hi1.
    + intros [= <- <-]. split; [done|]. cbn. done.
  - intros [= <- <-]. split; [done|]. cbn. by destruct (ctl_mod_ok _ _ _ _ _ E1) as [_ ->].
Qed.

Lemma oneshot_events events r wfd : events = EPOLLIN \/ events = EPOLLOUT -> Netpoller.data_fd r <> wfd ->
  held wfd (Z.lor (Z.lor events EPOLLET) EPOLLONESHOT, r) = true /\ bit (Z.lor (Z.lor events EPOLLET) EPOLLONESHOT) EPOLLONESHOT = true.
Proof.
  intros Hev Hr. unfold held. cbn [fst snd]. replace (Netpoller.data_fd r =? wfd) with false by lia.
  by destruct Hev as [-> | ->].
Qed.

Lemma np_step_ok s s' : np_step s s' -> np_ok s -> np_ok s'.
Proof.
  intros Hs [Ho Hc]. destruct Hs as [events r fd i i' ok q dr hd Hev Hr Hno Ha|n block i i' q q' cnt dr hd Hp|i q dr hd];
    unfold parked_by in *; cbn [st_impl st_queue st_dropped st_handed] in *.
  - destruct (await_cases _ _ _ _ _ _ Ha) as [Hw Hi]. destruct (oneshot_events events r _ Hev Hr) as [Hh Hb].
    split; unfold parked_by; cbn [st_impl st_queue st_dropped st_handed]; rewrite Hw, Hi; destruct ok; try done.
    + apply map_Forall_insert_2; [by right|done].
    + rewrite parked_insert by done. cbn [snd app]. by rewrite Hc.
    + rewrite <- Hc. solve_Permutation.
  - unfold impl_poll_into in Hp. destruct (sys_epoll_wait (np_epoll i) _ block) as [e [ds|err]] eqn:Hwait.
    + destruct (wait_events _ _ _ _ _ Hwait) as (fds & Hnd & Hi & Hf).
      destruct (collect_ok (np_wakeup_fd i) ds q false) as [woken Hcol]. rewrite Hcol in Hp. injection Hp as <- <- _.
      split; unfold parked_by; cbn [st_impl st_queue st_dropped st_handed np_wakeup_fd np_epoll]; rewrite Hi.
      * by apply one_shot_disarm_all.
      * rewrite <- Hc, (parked_report _ _ fds ds Hnd Ho Hf). solve_Permutation.
    + destruct (err =? Netpoller.EINTR); [|done]. injection Hp as <- <- _. pose proof (wait_errno _ _ _ _ _ Hwait) as Hi.
      split; unfold parked_by; cbn [st_impl st_queue st_dropped st_handed np_wakeup_fd np_epoll with_epoll]; by rewrite Hi.
  - by split.
Qed.

Lemma np_run_reaches (l : list call) (s s' : state) : np_run l s = Some s' -> rtc np_step s s'.
Proof.
  revert s. induction l as [|c l IH]; intros s; cbn [np_run]; [intros [= <-]; apply rtc_refl|].
  destruct (np_run_one c s) as [s1|] eqn:Hc; [|done]. intros Hl. eapply rtc_l; [|by apply IH].
  destruct s as [i q dr hd], c as [events r fd|n block|]; cbn [np_run_one st_impl st_queue st_dropped st_handed] in Hc.
  - case_match eqn:Hb; [|done]. destruct (await events i r fd) as [[i1 ok]| | | |] eqn:Ha; try done. injection Hc as <-.
    apply andb_true_iff in Hb as [[Hev%bool_decide_eq_true Hr]%andb_true_iff Hh].
    apply (np_await events r fd i); [done|lia| |done]. intros x Hx. rewrite Hx in Hh. cbn in Hh. by apply negb_true_iff in Hh.
  - destruct (impl_poll_into i q n block) as [[[i1 q1] cnt]| | | |] eqn:Hp; try done. injection Hc as <-. by eapply np_poll.
  - injection Hc as <-. apply np_unblock.
Qed.

(** The same calls with the answers of epoll as inputs, in Worker. *)
Lemma await_as_worker events i r fd :
  let '(e1, err1) := sys_epoll_ctl (np_epoll i) EPOLL_CTL_MOD fd (Z.lor (Z.lor events EPOLLET) EPOLLONESHOT) r in
  let '(_, err2) := sys_epoll_ctl e1 EPOLL_CTL_ADD fd (Z.lor (Z.lor events EPOLLET) EPOLLONESHOT) r in
  (do '(_, ok) <- await events i r fd;; Ret ok) = Netpoller.await_events (Netpoller.mk_ctl err1 err2).
Proof.
  unfold await, Netpoller.await_events. cbv zeta. destruct (sys_epoll_ctl (np_epoll i) EPOLL_CTL_MOD fd _ r) as [e1 err1].
  destruct (sys_epoll_ctl e1 EPOLL_CTL_ADD fd _ r) as [e2 err2] eqn:E2. cbn [Netpoller.ctl_mod Netpoller.ctl_add].
  destruct err1; [|done]. case_if; [|done]. destruct err2; [|done]. by case_if.
Qed.

Lemma poll_as_worker i q n block :
  (do '(_, q, cnt) <- impl_poll_into i q n block;; Ret (q, cnt)) =
  (do '(q, _, cnt) <- Netpoller.poll_into (np_wakeup_fd i) (fun n block => (sys_epoll_wait (np_epoll i) n block).2) q n block;; Ret (q, cnt)).
Proof.
  unfold impl_poll_into, Netpoller.poll_into. destruct (sys_epoll_wait (np_epoll i) _ block) as [e [ds|err]]; cbn [snd].
  - by destruct (Netpoller.collect (np_wakeup_fd i) ds q false) as [[]| | | |].
  - by case_if.
Qed.
Lemma data_fd_wakeup (fd junk : Z) : - 2 ^ 31 <= fd < 2 ^ 31 -> Netpoller.data_fd (wakeup_data fd junk) = fd.
Proof.
  intros Hfd. unfold Netpoller.data_fd, wakeup_data, i32.
  replace (u32 (u64 (Z.lor (u32 fd) (Z.shiftl junk 32)))) with (u32 fd).
  - unfold u32, wrap. change (2 ^ 32) with 4294967296 in *. change (2 ^ 31) with 2147483648 in *.
    pose proof (Z.div_mod fd 4294967296 ltac:(done)). pose proof (Z.mod_pos_bound fd 4294967296 ltac:(done)).
    destruct (fd mod 4294967296 <? 2147483648) eqn:E1; lia.
  - symmetry. unfold u32, u64, wrap. apply Z.bits_inj'. intros n Hn.
    destruct (Z.ltb_spec n 32); [|by rewrite !Z.mod_pow2_bits_high by lia].
    rewrite !Z.mod_pow2_bits_low, Z.lor_spec, Z.shiftl_spec_low, orb_false_r, Z.mod_pow2_bits_low by lia. done.
Qed.

Lemma impl_new_ok (e : E) (wakeup_fd junk : Z) i :
  map_Forall (fun _ x => armed x.1 = false /\ bit x.1 EPOLLONESHOT = true) (interest e) -> - 2 ^ 31 <= wakeup_fd < 2 ^ 31 ->
  impl_new e wakeup_fd junk = Ret i -> np_ok (mk_state i [] [] []).
Proof.
  intros He Hfd Hn. unfold impl_new in Hn.
  destruct (sys_epoll_ctl e EPOLL_CTL_ADD wakeup_fd _ _) as [e1 [|]] eqn:E1; [done|]. injection Hn as <-.
  destruct (ctl_add_ok _ _ _ _ _ E1) as [_ Hi]. pose proof (data_fd_wakeup wakeup_fd junk Hfd) as Hd.
  assert (forall fd x, interest e !! fd = Some x -> held wakeup_fd x = false) as Hno.
  { intros fd x Hx. unfold held. by rewrite (proj1 (He fd x Hx)). }
  split; unfold parked_by; cbn [st_impl st_queue st_dropped st_handed np_wakeup_fd np_epoll]; rewrite Hi.
  - apply map_Forall_insert_2; [by left|]. intros fd x Hx. right. exact (proj2 (He fd x Hx)).
  - rewrite parked_insert_not; [|by apply Hno|unfold held; cbn [fst snd]; by rewrite Hd, Z.eqb_refl, andb_false_r].
    by rewrite parked_none.
Qed.
End use.

(** ** Properties *)

(** C31: The poller loses no resumable: in every execution in which a descriptor
    is waited for by one resumable at a time, those given to it are the ones epoll
    holds armed, the ones it put into the queue and the ones epoll refused, each
    once. *)
Theorem netpoller_keeps_resumables {E : Type} `{epoll_wait_spec E} (e : E) (wakeup_fd junk : Z)
    (i : Netpoll.impl (E := E)) (s : state (E := E)) :
  interest e = ∅ -> - 2 ^ 31 <= wakeup_fd < 2 ^ 31 ->
  Netpoll.impl_new e wakeup_fd junk = Ret i -> rtc np_step (mk_state i [] [] []) s ->
  parked_by (st_impl s) ++ st_queue s ++ st_dropped s ≡ₚ st_handed s.
Proof.
  intros He Hfd Hn Hr. apply np_conserved. revert Hr. apply (rtc_invariant np_step np_ok); [by apply np_step_ok|].
  apply (impl_new_ok e wakeup_fd junk); [|done..]. rewrite He. apply map_Forall_empty.
Qed.

(** Without that proviso it does: a second resumable that waits for a descriptor
    takes the place of the first, which nothing holds any more. *)
Lemma netpoller_second_wait_replaces {E : Type} `{epoll_wait_spec E} (i i' : Netpoll.impl (E := E)) (fd r : Z) :
  Netpoll.impl_await_writable i r fd = Ret (i', true) -> Netpoller.data_fd r <> Netpoll.np_wakeup_fd i ->
  parked_by i' ≡ₚ r :: parked (Netpoll.np_wakeup_fd i) (delete fd (interest (Netpoll.np_epoll i))).
Proof.
  intros Ha Hr. destruct (await_cases _ _ _ _ _ _ Ha) as [Hw Hi]. unfold parked_by. rewrite Hw, Hi, <- insert_delete_eq.
  apply parked_insert; [intros y; by rewrite lookup_delete_eq|]. by apply oneshot_events; [right|].
Qed.

(** A poller that was stopped refuses every call. *)
Lemma stopped_poller_aborts {E : Type} `{epoll_api E} `{epoll_wait_api E} (p : Netpoll.netpoller (E := E)) (fd r n : Z) (q : worker_queue) :
  Netpoll.await_readable fd r (Netpoll.stop p) = Abort /\ Netpoll.await_writable fd r (Netpoll.stop p) = Abort /\
  Netpoll.poll_into q n (Netpoll.stop p) = Abort /\ Netpoll.blocking_poll_into q n (Netpoll.stop p) = Abort /\
  Netpoll.unblock_one (Netpoll.stop p) = Abort.
Proof. by split_and!. Qed.

(** ** An epoll that reports what a script says is ready *)
#[export] Instance script_epoll : epoll_api (gmap Z (Z * Z) * list (list Z)) :=
  {| sys_epoll_ctl e op fd fl d := let '(m, err) := ctl_list e.1 op fd fl d in ((m, e.2), err) |}.

#[export] Program Instance script_epoll_spec : epoll_spec (gmap Z (Z * Z) * list (list Z)) := {| interest e := e.1 |}.
Next Obligation. intros [m l] fd flags p e' E. cbn in E. destruct (m !! fd) eqn:El; by simplify_eq. Qed.
Next Obligation. intros [m l] fd flags p e' E. cbn in E. destruct (m !! fd) eqn:El; by simplify_eq. Qed.
Next Obligation. intros [m l] fd flags p e' E. cbn in E. destruct (m !! fd) eqn:El; by simplify_eq. Qed.
Next Obligation.
  intros [m l] op fd flags p e' err E. cbn in E. unfold ctl_list in E. destruct op, (m !! fd); by simplify_eq.
Qed.

Definition script_ready (m : gmap Z (Z * Z)) (n : Z) (fds : list Z) : list Z :=
  take (Z.to_nat n) (remove_dups (filter (fun fd => from_option (fun x => armed x.1) false (m !! fd) = true) fds)).

Definition script_wait (e : gmap Z (Z * Z) * list (list Z)) (n : Z) (block : bool) : (gmap Z (Z * Z) * list (list Z)) * Netpoller.wait_result :=
  match e.2 with
  | [] => (e, Netpoller.w_events [])
  | fds :: rest =>
      let fds := script_ready e.1 n fds in
      ((disarm_all fds e.1, rest), Netpoller.w_events ((fun fd => (e.1 !!! fd).2) <$> fds))
  end.

#[export] Instance script_wait_api : epoll_wait_api (gmap Z (Z * Z) * list (list Z)) := {| sys_epoll_wait := script_wait |}.

#[export] Program Instance script_wait_spec : epoll_wait_spec (gmap Z (Z * Z) * list (list Z)).
Next Obligation.
  intros [m [|fds rest]] n block e' ds E; cbn in E; injection E as <- <-.
  - exists []. split_and!; [by apply NoDup_nil_2|done|done].
  - exists (script_ready m n fds). split_and!; [|done|].
    + eapply sublist_NoDup; [apply NoDup_remove_dups|apply sublist_take].
    + apply Forall2_fmap_r, list.Forall_Forall2_diag, list.Forall_forall. intros fd Hfd.
      apply elem_of_take in Hfd as (k & Hk & _). apply list_elem_of_lookup_2, elem_of_remove_dups, list_elem_of_filter in Hk as [Ha _].
      destruct (m !! fd) as [[fl d]|] eqn:Hm; [|done]. exists fl. cbn [interest script_epoll_spec fst]. by rewrite (lookup_total_correct m fd (fl, d)).
Qed.
Next Obligation. intros [m [|fds rest]] n block e' err E; done. Qed.

(** Two resumables wait for two descriptors; another thread writes to the event
    descriptor; what is reported is the wake-up and the first descriptor. *)
Definition ex_epoll : gmap Z (Z * Z) * list (list Z) := (∅, [[5; 7; 7]; [7]]).
Definition ex_netpoll : option (state (E := gmap Z (Z * Z) * list (list Z))) :=
  match Netpoll.impl_new ex_epoll 5 77 with
  | Ret i => np_run [call_await EPOLLIN 4096 7; call_await EPOLLOUT 8192 9; call_unblock; call_poll 64 true] (mk_state i [] [] [])
  | _ => None
  end.

Example netpoll_ex :
  (s ← ex_netpoll; Some (parked_by (st_impl s), st_queue s, Netpoll.np_wakeups (st_impl s))) = Some ([8192], [4096], 0).
Proof. vm_compute. reflexivity. Qed.

(** A reader and a writer of one descriptor: the reader is lost. *)
Example netpoll_reader_lost :
  (do i <- Netpoll.impl_new ex_epoll 5 77;;
   do '(i, ok1) <- Netpoll.impl_await_readable i 4096 7;;
   do '(i, ok2) <- Netpoll.impl_await_writable i 8192 7;;
   do '(i, q, _) <- Netpoll.impl_poll_into i [] 64 true;;
   Ret (ok1, ok2, parked_by i, q)) = Ret (true, true, [], [8192]).
Proof. vm_compute. reflexivity. Qed.

Lemma netpoller_keeps_resumables_witness :
  exists s, ex_netpoll = Some s /\ parked_by (st_impl s) ++ st_queue s ++ st_dropped s ≡ₚ st_handed s.
Proof.
  destruct (Netpoll.impl_new ex_epoll 5 77) as [i| | | |] eqn:Hi; try (vm_compute in Hi; discriminate).
  destruct ex_netpoll as [s|] eqn:Hs; [|vm_compute in Hs; discriminate]. exists s. split; [reflexivity|].
  apply (netpoller_keeps_resumables ex_epoll 5 77 i s); [reflexivity|lia|exact Hi|].
  unfold ex_netpoll in Hs. rewrite Hi in Hs. exact (np_run_reaches _ _ _ Hs).
Defined.
