(* ===== verification/HttpCodec.v ===== *)
(** * HttpCodec: the HTTP/1 codec (xi/io/proto/http/codec.h)

    A filter that appends what it is given to a buffer and decodes that.  What is
    appended is a [chunk]; the law of appending is an interface, which the buffer
    and plain byte lists implement.  The context is not used by [read].

    As it stands no program constructs a [codec]: its decoder has only the
    constructor that takes a buffer allocator, and the codec declares none that
    passes one.  There is no definition of a new codec here; what is stated of
    [read] is stated of a codec given with the state a new decoder has. *)
From S2P Require Import Prelude Bytes Guard Blob Fragment Buffer FragString Reader Input Http.

Class chunked (B C : Type) := { in_push_back : B -> C -> B }.

Record codec {B : Type} := mk_codec { c_decoder : decoder; c_read_buf : B }.
Arguments codec : clear implicits.
Arguments mk_codec {B} _ _.

Module HttpCodec.
Section codec.
Context {B C : Type} `{input B} `{chunked B C}.

(** [read(cx, in)], with the fuel of the decoder. *)
Definition read (fuel : nat) (c : codec B) (x : C) : outcome (codec B) :=
  do '(d, b) <- Decoder.decode fuel (c_decoder c) (in_push_back (c_read_buf c) x);; Ret (mk_codec d b).

(** What arrives one after the other. *)
Fixpoint read_all (fuel : nat) (c : codec B) (xs : list C) : outcome (codec B) :=
  match xs with
  | [] => Ret c
  | x :: xs => do c <- read fuel c x;; read_all fuel c xs
  end.
End codec.
End HttpCodec.

(** What appending does, for a chunk that [arrives] at a buffer. *)
Class chunked_spec (B C : Type) `{input_spec B} `{chunked B C} := {
  chunk_bytes : C -> list Z;
  arrives : B -> C -> Prop;
  push_back_ok b x : in_wf b -> arrives b x -> in_wf (in_push_back b x) /\ in_bytes (in_push_back b x) = in_bytes b ++ chunk_bytes x
}.

(** ** Bytes *)
#[export] Instance list_chunked : chunked (list Z) (list Z) := {| in_push_back b x := b ++ x |}.

#[export] Program Instance list_chunked_spec : chunked_spec (list Z) (list Z) := {|
  chunk_bytes x := x;
  arrives b x := zlen b + zlen x < 2 ^ 63
|}.
Next Obligation. intros b x _ Ha. cbn beta in *. cbn [in_push_back list_chunked in_wf in_bytes list_input_spec]. rewrite zlen_app. by split. Qed.

(** ** Buffers: a chunk is a buffer with the memory and the guards there are when
    it arrives *)
Record buffer_chunk := mk_chunk { bc_mem : mem; bc_heap : gheap; bc_buffer : buffer }.

#[export] Instance buffer_chunked : chunked buffer_input buffer_chunk := {|
  in_push_back b x := mk_buffer_input (bc_mem x) (bc_heap x) (Buffer.push_back_buffer (bi_buffer b) (Some (bc_buffer x)))
|}.

#[export] Program Instance buffer_chunked_spec : chunked_spec buffer_input buffer_chunk := {|
  chunk_bytes x := Buffer.bytes (bc_mem x) (bc_buffer x);
  arrives b x :=
    Buffer.wf (bc_buffer x) /\ bf_size (bi_buffer b) + bf_size (bc_buffer x) < 2 ^ 63 /\
    Buffer.bytes (bc_mem x) (bi_buffer b) = Buffer.bytes (bi_mem b) (bi_buffer b) /\
    guards_ok (bc_heap x) (Buffer.guards (bi_buffer b) ++ Buffer.guards (bc_buffer x))
|}.
Next Obligation.
  intros b x [Hwf _] (Hx & Hs & Hb & Hg). cbn beta in *. cbn [in_push_back buffer_chunked in_wf in_bytes buffer_input_spec].
  destruct (push_back_buffer_wf (bc_mem x) (bi_buffer b) (bc_buffer x) Hwf Hx Hs) as (H1 & H2 & H3 & _).
  cbn [bi_mem bi_heap bi_buffer]. split; [|by rewrite H2, Hb].
  split; cbn [bi_heap bi_buffer]; [done|]. by rewrite H3, app_nil_r.
Qed.

(** ** Finding a verb in pieces *)

(** What the decoder keeps of what it has seen. *)
Definition last_five (bs : list Z) : list Z := zdrop (Z.max 0 (zlen bs - 5)) bs.

Lemma verb_found_app (xs ys : list Z) : verb_found (xs ++ ys) = verb_found xs || verb_found (last_five xs ++ ys).
Proof.
  induction xs as [|c xs IH]; [done|]. unfold last_five. rewrite zlen_cons. pose proof (zlen_nonneg xs).
  destruct (Z.leb_spec 6 (1 + zlen xs)).
  - replace (zdrop (Z.max 0 (1 + zlen xs - 5)) (c :: xs)) with (last_five xs).
    + cbn [app verb_found]. rewrite !zlen_cons, zlen_app. pose proof (zlen_nonneg ys).
      rewrite !(proj2 (Z.leb_le _ _)) by lia. cbn [andb]. by rewrite IH, orb_assoc.
    + unfold last_five. rewrite !Z.max_r by lia. replace (1 + zlen xs - 5) with (zlen xs - 5 + 1) by lia.
      by rewrite <- zdrop_zdrop by lia.
  - rewrite Z.max_l, zdrop_0 by lia. replace (verb_found (c :: xs)) with false; [done|].
    cbn [verb_found]. by rewrite zlen_cons, (proj2 (Z.leb_gt _ _)) by lia.
Qed.

Lemma last_five_length (bs : list Z) : (length (last_five bs) <= 5)%nat.
Proof. unfold last_five, zdrop, zlen. rewrite length_drop. lia. Qed.

Lemma last_five_app (xs ys : list Z) : last_five (last_five xs ++ ys) = last_five (xs ++ ys).
Proof.
  unfold last_five. pose proof (zlen_nonneg xs). pose proof (zlen_nonneg ys).
  destruct (Z.leb_spec (zlen xs) 5); [by rewrite (Z.max_l 0 (zlen xs - 5)), zdrop_0 by lia|].
  rewrite (Z.max_r 0 (zlen xs - 5)), !zlen_app, zlen_drop by lia. rewrite <- zdrop_app_le by lia.
  rewrite zdrop_zdrop by lia. f_equal. lia.
Qed.

Section chunks.
Context {B C : Type} `{chunked_spec B C}.
Implicit Types (xs : list C).

Definition seen xs : list Z := concat (chunk_bytes <$> xs).

(** Every chunk arrives at the buffer there is then. *)
Fixpoint all_arrive (fuel : nat) (c : codec B) xs : Prop :=
  match xs with
  | [] => True
  | x :: xs => arrives (c_read_buf c) x /\ forall c', HttpCodec.read fuel c x = Ret c' -> all_arrive fuel c' xs
  end.

(** From a codec that has seen [bs] without a verb. *)
Lemma read_all_ok (fuel : nat) (b : B) (bs : list Z) xs :
  in_wf b -> in_bytes b = last_five bs -> verb_found bs = false -> (5 + length (seen xs) < fuel)%nat ->
  all_arrive fuel (mk_codec decoder_init b) xs ->
  if verb_found (bs ++ seen xs) then HttpCodec.read_all fuel (mk_codec decoder_init b) xs = Diverge
  else exists b', HttpCodec.read_all fuel (mk_codec decoder_init b) xs = Ret (mk_codec decoder_init b') /\
         in_bytes b' = last_five (bs ++ seen xs).
Proof.
  revert b bs. induction xs as [|x xs IH]; intros b bs Hb Ebs Hv Hf Ha; cbn [seen fmap list_fmap concat].
  - rewrite app_nil_r, Hv. by exists b.
  - destruct Ha as [Ha1 Ha2]. destruct (push_back_ok b x Hb Ha1) as [Hb1 Eb1].
    destruct (http_decode_stuck (in_push_back b x) fuel Hb1) as [Hstuck Hgoes].
    rewrite Eb1, Ebs in *. cbn [HttpCodec.read_all].
    pose proof (verb_found_app bs (chunk_bytes x)) as Hx. rewrite Hv in Hx. cbn [orb] in Hx. fold (seen xs).
    rewrite app_assoc. destruct (verb_found (last_five bs ++ chunk_bytes x)) eqn:Hfound.
    + rewrite verb_found_app, Hx. cbn [orb]. unfold HttpCodec.read. cbn [c_decoder c_read_buf]. by rewrite Hstuck.
    + destruct (Hgoes eq_refl) as (b' & E' & Hb' & Eb').
      { pose proof (last_five_length bs). cbn [seen fmap list_fmap concat] in Hf. rewrite !length_app in *. lia. }
      assert (HttpCodec.read fuel (mk_codec decoder_init b) x = Ret (mk_codec decoder_init b')) as Er.
      { unfold HttpCodec.read. cbn [c_decoder c_read_buf]. by rewrite E'. }
      rewrite Er. cbn [bindO]. apply IH; [done| |done| |by apply Ha2].
      * rewrite Eb'. exact (last_five_app bs (chunk_bytes x)).
      * cbn [seen fmap list_fmap concat] in Hf. rewrite length_app in Hf. unfold seen. lia.
Qed.
End chunks.

(** ** Properties *)

(** What decoding makes of a request does not depend on how it arrives in
    pieces: it diverges on a sequence of buffers exactly if it would on their
    bytes in one piece, as soon as a verb comes with five bytes behind it, and
    otherwise it returns after each and keeps the last five bytes of all it was
    given. *)
Theorem http_codec_chunks {B C : Type} `{chunked_spec B C} (fuel : nat) (b : B) (xs : list C) :
  in_wf b -> in_bytes b = [] -> (5 + length (seen xs) < fuel)%nat -> all_arrive fuel (mk_codec decoder_init b) xs ->
  if verb_found (seen xs) then HttpCodec.read_all fuel (mk_codec decoder_init b) xs = Diverge
  else exists b', HttpCodec.read_all fuel (mk_codec decoder_init b) xs = Ret (mk_codec decoder_init b') /\ in_bytes b' = last_five (seen xs).
Proof. intros Hb Eb Hf Ha. exact (read_all_ok fuel b [] xs Hb Eb eq_refl Hf Ha). Qed.

(** A request that is no request, in three pieces: its last five bytes are kept. *)
Lemma http_codec_chunks_witness :
  exists b', HttpCodec.read_all 100 (mk_codec decoder_init []) [[1; 2; 3]; []; [4; 5; 6; 7; 8]] = Ret (mk_codec decoder_init b') /\
    b' = [4; 5; 6; 7; 8].
Proof.
  refine (http_codec_chunks 100 ([] : list Z) [[1; 2; 3]; []; [4; 5; 6; 7; 8]] _ eq_refl _ _).
  - reflexivity.
  - vm_compute. lia.
  - do 3 (split; [reflexivity|]; intros c' E; vm_compute in E; injection E as <-). exact I.
Defined.

(** A verb whose letter and fifth byte arrive apart. *)
Example http_codec_ex : HttpCodec.read_all 100 (mk_codec decoder_init []) [[71; 69; 84]; [32; 47; 32]] = Diverge.
Proof. vm_compute. reflexivity. Qed.
