(* ===== verification/Libevent.v ===== *)
(** * Libevent: the reactor over libevent (src/core/libevent/, xi/core/libevent/)

    The other implementation of events and of the event loop (Reactor has the one
    over epoll).  libevent is a parameter: [libevent_api] has its calls,
    [libevent_spec] what its documentation says of them.  Handlers are named by
    their addresses; what one does when it is called is a list of [action]s, as in
    Reactor. *)
From S2P Require Import Prelude Reactor.

(** event2/event.h *)
Definition EV_TIMEOUT : Z := 0x01.
Definition EV_READ : Z := 0x02.
Definition EV_WRITE : Z := 0x04.
Definition EV_ET : Z := 0x20.
Definition EVLOOP_ONCE : Z := 0x01.
Definition EVLOOP_NONBLOCK : Z := 0x02.

(** detail/event_state_to_short.h *)
Definition event_state_to_short (state : Z) : Z :=
  let result := if bit state kRead then EV_READ else 0 in
  let result := if bit state kWrite then Z.lor result EV_WRITE else result in
  let result := if bit state kTimeout then Z.lor result EV_TIMEOUT else result in
  Z.lor result EV_ET.

Definition short_to_event_state (state : Z) : Z :=
  let result := if bit state EV_READ then Z.lor kNone kRead else kNone in
  let result := if bit state EV_WRITE then Z.lor result kWrite else result in
  if bit state EV_TIMEOUT then Z.lor result kTimeout else result.

(** [event_base_next] is the part of [event_base_loop(base, flags)] up to the next
    callback: its descriptor, what happened and its argument. *)
Class libevent_api (L : Type) := {
  event_new : L -> Z -> Z -> Z -> L * option Z;
  event_assign : L -> Z -> Z -> Z -> Z -> L;
  event_add : L -> Z -> option (Z * Z) -> L;
  event_del : L -> Z -> L;
  event_base_next : L -> Z -> L * option (Z * Z * Z)
}.

(** What the event asks of its handler. *)
Record ev_handler := mk_ev_handler { eh_descriptor : Z; eh_expected_state : Z; eh_expected_timeout : option Z }.

(** [libevent::event]; [None] is a null pointer. *)
Record event := mk_event { ev_handle : option Z; ev_state : Z }.

Module Libevent.
Section libevent.
Context {L : Type} `{libevent_api L}.

(** The library and the handlers with their events. *)
Record loop := mk_loop { lp_lib : L; lp_handlers : gmap Z (ev_handler * event) }.

Definition with_lib (l : L) (w : loop) : loop := mk_loop l (lp_handlers w).
Definition put (h : Z) (x : ev_handler * event) (w : loop) : loop := mk_loop (lp_lib w) (<[h := x]> (lp_handlers w)).

(** [event_loop::prepare_event]. *)
Definition prepare_event (l : L) (e : option Z) (state h : Z) (x : ev_handler) : L * option Z :=
  let s := event_state_to_short state in
  match e with
  | None => event_new l (eh_descriptor x) s h
  | Some e => (event_assign l e (eh_descriptor x) s h, Some e)
  end.

(** [event::event], made by [reactor::create_event]. *)
Definition create_event (l : L) (h : Z) (x : ev_handler) : outcome (L * event) :=
  let state := eh_expected_state x in
  match prepare_event l None state h x with
  | (l, Some e) => Ret (l, mk_event (Some e) state)
  | (_, None) => Throw runtime_error
  end.

(** Calls of libevent with a null pointer are undefined. *)
Definition cancel (l : L) (v : event) : outcome (L * event) :=
  do e <- derefO (ev_handle v);; Ret (event_del l e, mk_event None (ev_state v)).

Definition is_active (v : event) : bool := match ev_handle v with Some _ => true | None => false end.

(** A [timeval] of seconds and microseconds. *)
Definition to_timeval (ms : Z) : Z * Z := (Z.quot ms 1000, Z.rem ms 1000).

Definition arm (l : L) (x : ev_handler) (v : event) : outcome L :=
  do e <- derefO (ev_handle v);;
  Ret (event_add l e (match eh_expected_timeout x with None => None | Some ms => Some (to_timeval ms) end)).

Definition change_state (l : L) (h : Z) (x : ev_handler) (v : event) (state : Z) : outcome (L * event) :=
  do '(l, v) <- cancel l v;;
  let '(l, e) := prepare_event l (ev_handle v) state h x in
  let v := mk_event e state in
  do l <- arm l x v;; Ret (l, v).

Definition add_state (l : L) (h : Z) (x : ev_handler) (v : event) (new_state : Z) : outcome (L * event) :=
  change_state l h x v (Z.lor (ev_state v) new_state).
Definition remove_state (l : L) (h : Z) (x : ev_handler) (v : event) (new_state : Z) : outcome (L * event) :=
  change_state l h x v (Z.ldiff (ev_state v) new_state).

(** [event_handler::attach_reactor]. *)
Definition attach (w : loop) (h : Z) (x : ev_handler) : outcome loop :=
  do '(l, v) <- create_event (lp_lib w) h x;;
  do l <- arm l x v;;
  Ret (put h (x, v) (with_lib l w)).

(** What a handler does to its event and to those of others. *)
Inductive action := Cancel (h : Z) | ChangeState (h state : Z) | AddState (h state : Z) | RemoveState (h state : Z).

Definition on_event (w : loop) (h : Z) (f : L -> ev_handler -> event -> outcome (L * event)) : outcome loop :=
  do '(x, v) <- derefO (lp_handlers w !! h);;
  do '(l, v) <- f (lp_lib w) x v;;
  Ret (put h (x, v) (with_lib l w)).

Definition do_action (w : loop) (a : action) : outcome loop :=
  match a with
  | Cancel h => on_event w h (fun l _ v => cancel l v)
  | ChangeState h s => on_event w h (fun l x v => change_state l h x v s)
  | AddState h s => on_event w h (fun l x v => add_state l h x v s)
  | RemoveState h s => on_event w h (fun l x v => remove_state l h x v s)
  end.

Fixpoint do_actions (w : loop) (l : list action) : outcome loop :=
  match l with [] => Ret w | a :: l => do w <- do_action w a;; do_actions w l end.

(** [event_loop::event_callback]: the handler is called with the state. *)
Definition event_callback (on : loop -> Z -> Z -> list action) (w : loop) (what arg : Z) : outcome loop :=
  if arg =? 0 then Ret w
  else
    do _ <- derefO (lp_handlers w !! arg);;
    do_actions w (on w arg (short_to_event_state what)).

(** [event_loop::dispatch_events]. *)
Fixpoint dispatch_events (fuel : nat) (on : loop -> Z -> Z -> list action) (w : loop) (blocking : bool) : outcome loop :=
  match fuel with
  | O => Diverge
  | S fuel =>
      match event_base_next (lp_lib w) (Z.lor EVLOOP_ONCE (if blocking then 0 else EVLOOP_NONBLOCK)) with
      | (l, None) => Ret (with_lib l w)
      | (l, Some (_, what, arg)) => do w <- event_callback on (with_lib l w) what arg;; dispatch_events fuel on w blocking
      end
  end.

(** [reactor::poll]. *)
Definition poll (fuel : nat) (on : loop -> Z -> Z -> list action) (w : loop) : outcome loop := dispatch_events fuel on w false.
End libevent.
Arguments loop : clear implicits.
End Libevent.

(** ** What the documentation says of libevent

    [events] are the structures it allocated, [pending] those that were added,
    with their timeouts.  An event without [EV_PERSIST] is not pending any more
    when its callback runs. *)
Class libevent_spec (L : Type) `{libevent_api L} := {
  events : L -> gmap Z (Z * Z * Z);
  pending : L -> gmap Z (option (Z * Z));
  new_ok l fd what arg l' e : event_new l fd what arg = (l', Some e) ->
    events l !! e = None /\ events l' = <[e := (fd, what, arg)]> (events l) /\ pending l' = pending l;
  assign_ok l e fd what arg : is_Some (events l !! e) -> pending l !! e = None ->
    events (event_assign l e fd what arg) = <[e := (fd, what, arg)]> (events l) /\ pending (event_assign l e fd what arg) = pending l;
  add_ok l e tv : is_Some (events l !! e) ->
    events (event_add l e tv) = events l /\ pending (event_add l e tv) = <[e := tv]> (pending l);
  del_ok l e : is_Some (events l !! e) ->
    events (event_del l e) = events l /\ pending (event_del l e) = delete e (pending l);
  next_ok l flags l' cb : event_base_next l flags = (l', cb) ->
    events l' = events l /\
    match cb with
    | None => pending l' = pending l
    | Some (fd, what, arg) => exists e asked, is_Some (pending l !! e) /\ events l !! e = Some (fd, asked, arg) /\
        pending l' = delete e (pending l)
    end
}.

(** ** The handlers libevent knows *)
Section facts.
Context {L : Type} `{libevent_spec L}.
Import Libevent.
Implicit Types (w : loop L) (x : ev_handler) (v : event) (h e : Z).

Definition inactive w h : Prop := forall x v, lp_handlers w !! h = Some (x, v) -> ev_handle v = None.

(** An active event is one of libevent's, for its handler's descriptor and its
    state; only active events are pending. *)
Record loop_ok w : Prop := {
  lo_active : forall h x v e, lp_handlers w !! h = Some (x, v) -> ev_handle v = Some e ->
    events (lp_lib w) !! e = Some (eh_descriptor x, event_state_to_short (ev_state v), h);
  lo_pending : forall e, is_Some (pending (lp_lib w) !! e) ->
    exists h x v, lp_handlers w !! h = Some (x, v) /\ ev_handle v = Some e
}.

Lemma lev_cancel_ok w h x v e : loop_ok w -> lp_handlers w !! h = Some (x, v) -> ev_handle v = Some e ->
  loop_ok (put h (x, mk_event None (ev_state v)) (with_lib (event_del (lp_lib w) e) w)).
Proof.
  intros Hok Hh He. pose proof (lo_active w Hok h x v e Hh He) as Hev.
  destruct (del_ok (lp_lib w) e) as [Hes Hps]; [by eexists|]. split; cbn; rewrite ?Hes, ?Hps.
  - intros h' x' v' e' [[<- [= <- <-]]|[Hne Hh']]%lookup_insert_Some He'; [done|]. by apply (lo_active w Hok).
  - intros e' [p [Hne Hp]%lookup_delete_Some].
    destruct (lo_pending w Hok e' ltac:(by eexists)) as (h' & x' & v' & Hh' & He').
    exists h', x', v'. split; [|done]. rewrite lookup_insert_ne; [done|]. intros ->. rewrite Hh in Hh'. congruence.
Qed.

Lemma lev_install_ok w h x e state tv l' : loop_ok w -> inactive w h ->
  event_new (lp_lib w) (eh_descriptor x) (event_state_to_short state) h = (l', Some e) ->
  loop_ok (put h (x, mk_event (Some e) state) (with_lib (event_add l' e tv) w)).
Proof.
  intros Hok Hin Hnew. destruct (new_ok _ _ _ _ _ _ Hnew) as (Hfresh & Hes1 & Hps1).
  destruct (add_ok l' e tv) as [Hes Hps]; [rewrite Hes1, lookup_insert_eq; by eexists|].
  split; cbn; rewrite ?Hes, ?Hps, ?Hes1, ?Hps1.
  - intros h' x' v' e' [[<- [= <- <-]]|[Hne Hh']]%lookup_insert_Some He'; cbn in *.
    + injection He' as <-. by rewrite lookup_insert_eq.
    + pose proof (lo_active w Hok h' x' v' e' Hh' He') as Hev. rewrite lookup_insert_ne; [done|]. intros ->. congruence.
  - intros e' [p [[<- _]|[Hne Hp]]%lookup_insert_Some].
    + exists h, x, (mk_event (Some e) state). by rewrite lookup_insert_eq.
    + destruct (lo_pending w Hok e' ltac:(by eexists)) as (h' & x' & v' & Hh' & He').
      exists h', x', v'. split; [|done]. rewrite lookup_insert_ne; [done|]. intros <-. rewrite (Hin _ _ Hh') in He'. done.
Qed.

(** libevent has memory for every event. *)
Context (new_total : forall l fd what arg, (event_new l fd what arg).2 <> None).

Lemma lev_new_some l fd what arg : exists l' e, event_new l fd what arg = (l', Some e).
Proof.
  pose proof (new_total l fd what arg) as Hn. destruct (event_new l fd what arg) as [l' [e|]]; [by eexists _, _|done].
Qed.

Lemma lev_attach_ok w h x : loop_ok w -> inactive w h -> exists w', attach w h x = Ret w' /\ loop_ok w'.
Proof.
  intros Hok Hin. unfold attach, create_event, prepare_event.
  destruct (lev_new_some (lp_lib w) (eh_descriptor x) (event_state_to_short (eh_expected_state x)) h) as (l' & e & Hnew).
  rewrite Hnew. eexists. split; [reflexivity|]. by apply lev_install_ok.
Qed.

Lemma lev_change_state_ok w h x v e state : loop_ok w -> lp_handlers w !! h = Some (x, v) -> ev_handle v = Some e ->
  exists l' v', change_state (lp_lib w) h x v state = Ret (l', v') /\ loop_ok (put h (x, v') (with_lib l' w)) /\
    ev_state v' = state /\ is_active v' = true /\ size (events l') = S (size (events (lp_lib w))).
Proof.
  intros Hok Hh He. unfold change_state, cancel. rewrite He. cbn [derefO bindO prepare_event ev_handle].
  pose proof (lev_cancel_ok w h x v e Hok Hh He) as Hok1. set (w1 := put h _ _) in Hok1.
  destruct (lev_new_some (event_del (lp_lib w) e) (eh_descriptor x) (event_state_to_short state) h) as (l' & e' & Hnew).
  rewrite Hnew. unfold arm. cbn [ev_handle derefO bindO]. eexists _, _. split; [reflexivity|].
  destruct (new_ok _ _ _ _ _ _ Hnew) as (Hfresh & Hes1 & _). split; [|split; [done|split; [done|]]].
  - replace (put h _ (with_lib _ w)) with (put h (x, mk_event (Some e') state)
      (with_lib (event_add l' e' match eh_expected_timeout x with None => None | Some ms => Some (to_timeval ms) end) w1)).
    + apply lev_install_ok; [done| |done]. intros x' v'. cbn. rewrite lookup_insert_eq. by intros [= <- <-].
    + unfold put, with_lib, w1. cbn. by rewrite insert_insert_eq.
  - destruct (add_ok l' e' match eh_expected_timeout x with None => None | Some ms => Some (to_timeval ms) end) as [-> _];
      [rewrite Hes1, lookup_insert_eq; by eexists|].
    rewrite Hes1, map_size_insert_None by done. by rewrite (proj1 (del_ok (lp_lib w) e ltac:(eexists; by apply (lo_active w Hok h x v)))).
Qed.

(** *** What handlers do *)
Definition target (a : action) : Z := match a with Cancel h | ChangeState h _ | AddState h _ | RemoveState h _ => h end.
Definition active w h : Prop := exists x v e, lp_handlers w !! h = Some (x, v) /\ ev_handle v = Some e.

(** Actions are for events that are active then. *)
Fixpoint legal_actions w (l : list action) : Prop :=
  match l with [] => True | a :: l => active w (target a) /\ forall w', do_action w a = Ret w' -> legal_actions w' l end.

Lemma lev_do_action_ok w a : loop_ok w -> active w (target a) ->
  exists w', do_action w a = Ret w' /\ loop_ok w' /\ dom (lp_handlers w') = dom (lp_handlers w).
Proof.
  intros Hok (x & v & e & Hh & He).
  assert (forall h y, h = target a -> dom (<[h := y]> (lp_handlers w)) = dom (lp_handlers w)) as Hdom.
  { intros h y ->. rewrite dom_insert_lookup_L; [done|by eexists]. }
  destruct a as [h|h s|h s|h s]; cbn [do_action target] in *; unfold on_event, add_state, remove_state; rewrite Hh; cbn [derefO bindO].
  - unfold cancel. rewrite He. cbn [derefO bindO]. eexists. split; [reflexivity|]. split; [by apply lev_cancel_ok|]. by apply Hdom.
  - destruct (lev_change_state_ok w h x v e s Hok Hh He) as (l' & v' & -> & Hok' & _). eexists. split; [reflexivity|]. split; [done|by apply Hdom].
  - destruct (lev_change_state_ok w h x v e (Z.lor (ev_state v) s) Hok Hh He) as (l' & v' & -> & Hok' & _). eexists. split; [reflexivity|]. split; [done|by apply Hdom].
  - destruct (lev_change_state_ok w h x v e (Z.ldiff (ev_state v) s) Hok Hh He) as (l' & v' & -> & Hok' & _). eexists. split; [reflexivity|]. split; [done|by apply Hdom].
Qed.

Lemma lev_do_actions_ok (l : list action) w : loop_ok w -> legal_actions w l ->
  exists w', do_actions w l = Ret w' /\ loop_ok w' /\ dom (lp_handlers w') = dom (lp_handlers w).
Proof.
  revert w. induction l as [|a l IH]; intros w Hok Hl; [by exists w|].
  destruct Hl as [Ha Hl]. destruct (lev_do_action_ok w a Hok Ha) as (w1 & E1 & Hok1 & Hd1). cbn [do_actions]. rewrite E1. cbn [bindO].
  destruct (IH w1 Hok1 (Hl w1 E1)) as (w2 & E2 & Hok2 & Hd2). exists w2. rewrite Hd2. done.
Qed.

(** The next callback is for a live handler whose event is active, and pending no
    more. *)
Lemma lev_next_callback w flags l' fd what h : loop_ok w -> event_base_next (lp_lib w) flags = (l', Some (fd, what, h)) ->
  loop_ok (with_lib l' w) /\ exists x v e, lp_handlers w !! h = Some (x, v) /\ ev_handle v = Some e /\
    fd = eh_descriptor x /\ pending l' !! e = None.
Proof.
  intros Hok Hn. destruct (next_ok _ _ _ _ Hn) as [Hes (e & asked & Hp & Hev & Hps)].
  destruct (lo_pending w Hok e Hp) as (h' & x & v & Hh & He). pose proof (lo_active w Hok h' x v e Hh He) as Hev'.
  rewrite Hev in Hev'. injection Hev' as Hfd _ ->. split.
  - split; cbn; rewrite ?Hes, ?Hps; [apply (lo_active w Hok)|].
    intros e' [p [_ Hp']%lookup_delete_Some]. apply (lo_pending w Hok). by eexists.
  - exists x, v, e. rewrite Hps, lookup_delete_eq. done.
Qed.

Lemma lev_next_none w flags l' : loop_ok w -> event_base_next (lp_lib w) flags = (l', None) -> loop_ok (with_lib l' w).
Proof.
  intros Hok Hn. destruct (next_ok _ _ _ _ Hn) as [Hes Hps].
  split; cbn; rewrite ?Hes, ?Hps; [apply (lo_active w Hok)|apply (lo_pending w Hok)].
Qed.

Lemma lev_dispatch_ok (fuel : nat) (on : loop L -> Z -> Z -> list action) w (blocking : bool) : loop_ok w ->
  (forall w h state, loop_ok w -> active w h -> legal_actions w (on w h state)) ->
  match dispatch_events fuel on w blocking with Ret w' => loop_ok w' | Diverge => True | _ => False end.
Proof.
  intros Hok Hon. revert w Hok. induction fuel as [|fuel IH]; intros w Hok; [done|]. cbn [dispatch_events].
  destruct (event_base_next (lp_lib w) _) as [l' [[[fd what] h]|]] eqn:Hn; [|by eapply lev_next_none].
  destruct (lev_next_callback w _ l' fd what h Hok Hn) as [Hok1 (x & v & e & Hh & He & _)]. unfold event_callback.
  destruct (h =? 0); [by apply IH|]. cbn [lp_handlers with_lib]. rewrite Hh. cbn [derefO bindO].
  destruct (lev_do_actions_ok (on (with_lib l' w) h (short_to_event_state what)) (with_lib l' w) Hok1) as (w2 & E2 & Hok2 & _).
  { apply Hon; [done|]. by exists x, v, e. }
  rewrite E2. cbn [bindO]. by apply IH.
Qed.
End facts.

(** ** Properties *)

Inductive loop_step {L : Type} `{libevent_api L} (on : Libevent.loop L -> Z -> Z -> list Libevent.action)
    : Libevent.loop L -> Libevent.loop L -> Prop :=
  | step_attach w h x w' : inactive w h -> Libevent.attach w h x = Ret w' -> loop_step on w w'
  | step_action w a w' : active w (target a) -> Libevent.do_action w a = Ret w' -> loop_step on w w'
  | step_dispatch w fuel blocking w' : Libevent.dispatch_events fuel on w blocking = Ret w' -> loop_step on w w'.

(** Whatever is attached, changed, cancelled and dispatched: libevent holds
    pending the events of live, active handlers only, each for its handler's
    descriptor and state, and dispatching calls no other handler and no library
    function with a null pointer. *)
Theorem libevent_calls_live_handlers {L : Type} `{libevent_spec L} (on : Libevent.loop L -> Z -> Z -> list Libevent.action)
    (l0 : L) (w : Libevent.loop L) (fuel : nat) (blocking : bool) :
  (forall l fd what arg, (event_new l fd what arg).2 <> None) ->
  (forall w h state, loop_ok w -> active w h -> legal_actions w (on w h state)) ->
  pending l0 = ∅ -> rtc (loop_step on) (Libevent.mk_loop l0 ∅) w ->
  (forall e, is_Some (pending (Libevent.lp_lib w) !! e) -> exists h x v,
     Libevent.lp_handlers w !! h = Some (x, v) /\ ev_handle v = Some e /\
     events (Libevent.lp_lib w) !! e = Some (eh_descriptor x, event_state_to_short (ev_state v), h)) /\
  match Libevent.dispatch_events fuel on w blocking with Ret _ | Diverge => True | _ => False end.
Proof.
  intros Hnew Hon Hl0 Hr. assert (loop_ok w) as Hok.
  { revert Hr. apply (rtc_invariant (loop_step on) loop_ok).
    - intros w1 w2 [w0 h x w' Hin Ha|w0 a w' Hact Ha|w0 f b w' Hd] Hok.
      + destruct (lev_attach_ok Hnew w0 h x Hok Hin) as (w3 & E3 & Hok3). congruence.
      + destruct (lev_do_action_ok Hnew w0 a Hok Hact) as (w3 & E3 & Hok3 & _). congruence.
      + pose proof (lev_dispatch_ok Hnew f on w0 b Hok Hon) as Hs. by rewrite Hd in Hs.
    - split; cbn; [intros h x v e; by rewrite lookup_empty|]. intros e. rewrite Hl0, lookup_empty. by intros []. }
  split.
  - intros e He. destruct (lo_pending w Hok e He) as (h & x & v & Hh & Hv). exists h, x, v. split_and!; [done..|].
    by apply (lo_active w Hok).
  - pose proof (lev_dispatch_ok Hnew fuel on w blocking Hok Hon) as Hs. by destruct (Libevent.dispatch_events fuel on w blocking).
Qed.

(** The events are not persistent: after its first callback an event is not
    pending, and still says it is active. *)
Lemma libevent_fires_once {L : Type} `{libevent_spec L} (w : Libevent.loop L) (flags : Z) (l' : L) (fd what h : Z) :
  loop_ok w -> event_base_next (Libevent.lp_lib w) flags = (l', Some (fd, what, h)) ->
  exists x v e, Libevent.lp_handlers w !! h = Some (x, v) /\ ev_handle v = Some e /\ Libevent.is_active v = true /\ pending l' !! e = None.
Proof.
  intros Hok Hn. destruct (lev_next_callback w flags l' fd what h Hok Hn) as [_ (x & v & e & Hh & He & _ & Hp)].
  exists x, v, e. unfold Libevent.is_active. by rewrite He.
Qed.

(** A change of state takes a new structure from libevent and gives none back. *)
Lemma libevent_change_leaks {L : Type} `{libevent_spec L} (w : Libevent.loop L) (h : Z) (x : ev_handler) (v : event) (e state : Z) :
  (forall l fd what arg, (event_new l fd what arg).2 <> None) ->
  loop_ok w -> Libevent.lp_handlers w !! h = Some (x, v) -> ev_handle v = Some e ->
  exists l' v', Libevent.change_state (Libevent.lp_lib w) h x v state = Ret (l', v') /\
    size (events l') = S (size (events (Libevent.lp_lib w))).
Proof.
  intros Hnew Hok Hh He. destruct (lev_change_state_ok Hnew w h x v e state Hok Hh He) as (l' & v' & E & _ & _ & _ & Hs). by exists l', v'.
Qed.

(** The microseconds of a timeout, for what it was in milliseconds. *)
Definition timeval_us (tv : Z * Z) : Z := tv.1 * 1000000 + tv.2.

(** A timeout is its whole seconds and as many microseconds as it has milliseconds
    left: it is too short unless it is a number of seconds. *)
Lemma libevent_timeout_short (ms : Z) : 0 <= ms ->
  timeval_us (Libevent.to_timeval ms) = 1000 * ms - 999 * (ms mod 1000) /\
  (timeval_us (Libevent.to_timeval ms) = 1000 * ms <-> ms mod 1000 = 0).
Proof.
  intros Hms. unfold timeval_us, Libevent.to_timeval. cbn [fst snd]. rewrite Z.quot_div_nonneg, Z.rem_mod_nonneg by lia.
  pose proof (Z.div_mod ms 1000 ltac:(done)). lia.
Qed.

(** Reading, writing and timeouts come back as they were asked for. *)
Lemma libevent_state_roundtrip (state : Z) : state ∈ [0; 1; 2; 3; 4; 5; 6; 7] -> short_to_event_state (event_state_to_short state) = state.
Proof. rewrite !elem_of_cons, elem_of_nil. intros Hs. by repeat destruct Hs as [-> | Hs]. Qed.

(** ** A libevent that reports what a script says *)
Record script := mk_script { sc_events : gmap Z (Z * Z * Z); sc_pending : gmap Z (option (Z * Z)); sc_next : list (Z * Z) }.

#[export] Instance script_libevent : libevent_api script := {|
  event_new s fd what arg :=
    let e := base.fresh (dom (sc_events s)) in (mk_script (<[e := (fd, what, arg)]> (sc_events s)) (sc_pending s) (sc_next s), Some e);
  event_assign s e fd what arg := mk_script (<[e := (fd, what, arg)]> (sc_events s)) (sc_pending s) (sc_next s);
  event_add s e tv := mk_script (sc_events s) (<[e := tv]> (sc_pending s)) (sc_next s);
  event_del s e := mk_script (sc_events s) (delete e (sc_pending s)) (sc_next s);
  event_base_next s flags :=
    match sc_next s with
    | (e, what) :: rest =>
        match sc_pending s !! e, sc_events s !! e with
        | Some _, Some (fd, _, arg) => (mk_script (sc_events s) (delete e (sc_pending s)) rest, Some (fd, what, arg))
        | _, _ => (s, None)
        end
    | [] => (s, None)
    end
|}.

#[export] Program Instance script_libevent_spec : libevent_spec script := {| events := sc_events; pending := sc_pending |}.
Next Obligation. intros s fd what arg l' e [= <- <-]. split_and!; [|done|done]. apply not_elem_of_dom, is_fresh. Qed.
Next Obligation. done. Qed.
Next Obligation. done. Qed.
Next Obligation. done. Qed.
Next Obligation.
  intros [evs ps nx] flags l' cb E. cbn in E. destruct nx as [|[e what] rest]; [by injection E as <- <-|].
  destruct (ps !! e) eqn:Ep; [|by injection E as <- <-]. destruct (evs !! e) as [[[fd asked] arg]|] eqn:Ee; [|by injection E as <- <-].
  injection E as <- <-. split; [done|]. exists e, asked. cbn. by rewrite Ep.
Qed.

(** A handler that wants to write once it could read, and then is done. *)
Definition ex_on (w : Libevent.loop script) (h state : Z) : list Libevent.action :=
  if state =? kRead then [Libevent.AddState h kWrite] else [Libevent.Cancel h].

Lemma lev_ex_on_ok w h state : active w h -> legal_actions w (ex_on w h state).
Proof. intros Ha. unfold ex_on. by case_if; split. Qed.

Definition ex_start : Libevent.loop script := Libevent.mk_loop (mk_script ∅ ∅ []) ∅.

Lemma libevent_calls_live_handlers_witness :
  match Libevent.attach ex_start 64 (mk_ev_handler 5 kRead (Some 1500)) with
  | Ret w => match Libevent.dispatch_events 10 ex_on w false with Ret _ | Diverge => True | _ => False end
  | _ => False
  end.
Proof.
  destruct (Libevent.attach ex_start 64 (mk_ev_handler 5 kRead (Some 1500))) as [w| | | |] eqn:Ea; try discriminate.
  apply (libevent_calls_live_handlers ex_on (mk_script ∅ ∅ []) w 10 false).
  - done.
  - intros w' h state _ Ha. by apply lev_ex_on_ok.
  - reflexivity.
  - apply rtc_once, (step_attach ex_on ex_start 64 (mk_ev_handler 5 kRead (Some 1500))); [|exact Ea].
    intros x v. cbn. by rewrite lookup_empty.
Defined.
