(* ===== verification/Casts.v ===== *)
(** * Casts: casts within a group of classes (xi/ext/fast_cast.h, xi/ext/pointer.h)

    A group lists its classes; a class that is declared as a member overrides the
    [cast] to each class of the group.  A class is its line of bases; the template
    recursion over the types of the group is the question which override is the
    last one.  Objects are named by their addresses, a heap has their classes. *)
From S2P Require Import Prelude.

(** [fast_castable_group< ... >]; [struct D : fast_cast_group_member< D, base >];
    [struct D : base]. *)
Inductive cls := group | member (D : Z) (base : cls) | plain (D : Z) (base : cls).

Module Cast.
(** A class with its bases. *)
Fixpoint names (c : cls) : list Z :=
  match c with group => [] | member D base | plain D base => D :: names base end.

(** [is_fast_cast_allowed< T, D >] for the class [c] named [D]. *)
Definition is_fast_cast_allowed (T : Z) (c : cls) : bool := bool_decide (T ∈ names c).

(** [fast_castable_node< T >::cast] and its overrides: the class the object is
    taken for, or null. *)
Fixpoint cast (T : Z) (c : cls) : option Z :=
  match c with
  | group => None
  | member D base => if is_fast_cast_allowed T (member D base) then Some D else None
  | plain D base => cast T base
  end.

Definition dynamic_cast (T : Z) (c : cls) : bool := bool_decide (T ∈ names c).

(** [static_assert]s of the declarations, for a group of the [types]; classes that
    are no members have names of their own. *)
Fixpoint declared (types : list Z) (c : cls) : Prop :=
  match c with
  | group => True
  | member D base => (D ∈ types) /\ (D ∉ names base) /\ declared types base
  | plain D base => (D ∉ types) /\ (D ∉ names base) /\ declared types base
  end.

(** *** Pointers *)

(** [fast_cast] of a pointer to an object that exists. *)
Definition fast_cast (T : Z) (m : gmap Z cls) (src : option Z) : outcome (option Z) :=
  do p <- derefO src;; do c <- derefO (m !! p);; Ret (match cast T c with Some _ => Some p | None => None end).

(** [consuming_fast_cast(unique_ptr)]: [src] still owns the object at its end. *)
Definition consuming_fast_cast_unique (T : Z) (m : gmap Z cls) (src : option Z) : outcome (gmap Z cls * option Z) :=
  do r <- fast_cast T m src;;
  Ret (match src with Some p => delete p m | None => m end, r).

(** [consuming_dynamic_cast(unique_ptr)]: a null pointer casts to null. *)
Definition consuming_dynamic_cast_unique (T : Z) (m : gmap Z cls) (src : option Z) : outcome (gmap Z cls * option Z) :=
  match src with
  | None => Ret (m, None)
  | Some p => do c <- derefO (m !! p);; Ret (if dynamic_cast T c then (m, Some p) else (delete p m, None))
  end.

(** [dynamic_pointer_cast(unique_ptr&&)]: what is left in [ptr], and the result. *)
Definition dynamic_pointer_cast (T : Z) (m : gmap Z cls) (ptr : option Z) : outcome (option Z * option Z) :=
  match ptr with
  | None => Ret (None, None)
  | Some p => do c <- derefO (m !! p);; Ret (if dynamic_cast T c then (None, Some p) else (Some p, None))
  end.

(** Shared pointers: an object with its number of owners; [drop] is the end of one. *)
Definition drop (m : gmap Z (cls * nat)) (p : Z) : gmap Z (cls * nat) :=
  match m !! p with
  | Some (c, n) => if decide (n <= 1)%nat then delete p m else <[p := (c, (n - 1)%nat)]> m
  | None => m
  end.
Definition share (m : gmap Z (cls * nat)) (p : Z) : gmap Z (cls * nat) := alter (fun x => (x.1, S x.2)) p m.

(** [fast_cast(shared_ptr)]: the result shares the owners of [src], which is the
    function's own and ends with it. *)
Definition fast_cast_shared (T : Z) (m : gmap Z (cls * nat)) (src : option Z) : outcome (gmap Z (cls * nat) * option Z) :=
  do p <- derefO src;; do x <- derefO (m !! p);;
  Ret (match cast T x.1 with Some _ => (drop (share m p) p, Some p) | None => (drop m p, None) end).

Definition consuming_fast_cast_shared (T : Z) (m : gmap Z (cls * nat)) (src : option Z) : outcome (gmap Z (cls * nat) * option Z) :=
  fast_cast_shared T m src.

Definition consuming_dynamic_cast_shared (T : Z) (m : gmap Z (cls * nat)) (src : option Z) : outcome (gmap Z (cls * nat) * option Z) :=
  match src with
  | None => Ret (m, None)
  | Some p => do x <- derefO (m !! p);; Ret (if dynamic_cast T x.1 then (drop (share m p) p, Some p) else (drop m p, None))
  end.
End Cast.

(** ** Properties *)
Section casts.
Import Cast.
Implicit Types (T p : Z) (c : cls).

(** A cast within the group succeeds exactly when [dynamic_cast] would: the last
    member in the line of bases decides, and what it is not the others are not. *)
Theorem fast_cast_is_dynamic_cast (types : list Z) T c : declared types c -> T ∈ types ->
  (is_Some (cast T c) <-> dynamic_cast T c = true) /\
  forall D, cast T c = Some D -> D ∈ names c /\ D ∈ types.
Proof.
  intros Hd HT. unfold dynamic_cast. rewrite bool_decide_eq_true.
  induction c as [|D base IH|D base IH]; cbn [cast declared names] in *.
  - split; [|done]. split; [by intros []|]. intros Hin. by apply not_elem_of_nil in Hin.
  - unfold is_fast_cast_allowed. cbn [names]. case_bool_decide as Hin.
    2: { split; [|discriminate]. split; [intros [? [=]]|done]. }
    split; [split; [done|by exists D]|]. intros D' [= <-]. split; [apply elem_of_cons; by left|apply Hd].
  - destruct Hd as (Hn & _ & Hd). destruct (IH Hd) as [IH1 IH2]. split.
    + rewrite IH1, elem_of_cons. split; [tauto|]. intros [->|?]; [tauto|done].
    + intros D' HD. destruct (IH2 D' HD). split; [apply elem_of_cons; by right|done].
Qed.

(** Casting a [unique_ptr] dynamically moves the object or ends it; in neither
    case is it left without an owner or with two. *)
Lemma consuming_dynamic_cast_owns T m p c : m !! p = Some c ->
  consuming_dynamic_cast_unique T m (Some p) = if dynamic_cast T c then Ret (m, Some p) else Ret (delete p m, None).
Proof. intros Hp. unfold consuming_dynamic_cast_unique. rewrite Hp. cbn. by destruct (dynamic_cast T c). Qed.

(** The fast cast of a [unique_ptr] does not release its argument: what it returns
    is an object that exists no more. *)
Lemma consuming_fast_cast_dangles T m p m' r :
  consuming_fast_cast_unique T m (Some p) = Ret (m', r) -> m' !! p = None /\ (r = None \/ r = Some p).
Proof.
  unfold consuming_fast_cast_unique, fast_cast. cbn. destruct (m !! p) as [c|]; [|done]. cbn.
  intros [= <- <-]. split; [apply lookup_delete_eq|]. destruct (cast T c); [by right|by left].
Qed.

Lemma share_drop (m : gmap Z (cls * nat)) p c n : m !! p = Some (c, S n) -> drop (share m p) p = m.
Proof.
  intros Hp. unfold drop, share. rewrite lookup_alter_eq, Hp. cbn [fmap option_fmap option_map fst snd].
  rewrite decide_False by lia. rewrite (alter_alt_Some _ m p (c, S n)) by done.
  rewrite insert_insert_eq. apply insert_id. exact Hp.
Qed.

(** Shared pointers keep their owners: the result takes the place of the argument,
    which is dropped if there is none. *)
Lemma consuming_cast_counts T m p c n : m !! p = Some (c, S n) ->
  consuming_dynamic_cast_shared T m (Some p) = (if dynamic_cast T c then Ret (m, Some p) else Ret (drop m p, None)) /\
  consuming_fast_cast_shared T m (Some p) = match cast T c with Some _ => Ret (m, Some p) | None => Ret (drop m p, None) end.
Proof.
  intros Hp. unfold consuming_dynamic_cast_shared, consuming_fast_cast_shared, fast_cast_shared. cbn [derefO bindO]. rewrite Hp. cbn [derefO bindO fst].
  rewrite (share_drop m p c n Hp). split; [by destruct (dynamic_cast T c)|by destruct (cast T c)].
Qed.
End casts.

(** A group of 1, 2 and 3; an object of a class of its own behind 2 behind 1. *)
Definition ex_class : cls := plain 9 (member 2 (member 1 group)).

Lemma fast_cast_is_dynamic_cast_witness :
  is_Some (Cast.cast 1 ex_class) /\ ~ is_Some (Cast.cast 3 ex_class).
Proof.
  assert (Cast.declared [1; 2; 3] ex_class) as Hd by (repeat split; by apply (bool_decide_unpack _)).
  split.
  - apply (proj1 (fast_cast_is_dynamic_cast [1; 2; 3] 1 ex_class Hd ltac:(apply elem_of_cons; by left))). reflexivity.
  - rewrite (proj1 (fast_cast_is_dynamic_cast [1; 2; 3] 3 ex_class Hd ltac:(rewrite !elem_of_cons; tauto))). discriminate.
Defined.
