(* ===== verification/Polling.v ===== *)
(** * Polling: a worker on its poller (src/core/worker.cpp, src/core/netpoller.cpp)

    Worker takes the answers of epoll as inputs and assumes that they are about
    resumables epoll was given; Netpoll has the poller over an epoll that keeps its
    documentation.  Here a worker runs on such a poller: every step takes its
    inputs from the poller there is then, so that the assumption is a theorem. *)
From S2P Require Import Prelude Queues Worker Reactor Netpoll.

Section polling.
Context {S E : Type} `{timed_set S} `{epoll_api E} `{epoll_wait_api E}.
Context (cfg : config) (body : Z -> list result).
Import Worker.
Implicit Types (w : worker S) (i : Netpoll.impl (E := E)).

(** The readings of the clocks in a step. *)
Record clocks := mk_clocks { c_tsc : Z; c_tsc2 : Z; c_now : Z }.

(** The resumable a step runs, and what it then waits for. *)
Definition running w : option Z :=
  match w_label w with
  | at_ports => head (w_port w)
  | at_ready => head (w_ready w)
  | _ => None
  end.

Definition awaited w : option (Z * Z * port_type) :=
  r ← running w; g ← w_tasks w !! r;
  match (Generic.resume g).2 with blocked_port fd t => Some (r, fd, t) | _ => None end.

(** The call of [poll_into] in a step: how many events, and whether it blocks. *)
Definition polled (c : clocks) w : option (Z * bool) :=
  match w_label w with
  | at_central =>
      match SharedQueue.dequeue_into id (w_input w) (w_ready w) (scheduler_dequeue_max cfg) with
      | Ret (_, _, cnt) =>
          let nothing := (cnt =? 0) && SleepQueue.is_empty (w_sleep w) in
          if nothing && (u64 (w_spins w + 1) >? nr_spins_before_idle cfg) then Some (1, true) else None
      | _ => None
      end
  | at_poll => if (Budget.adjust_spent (w_isol w) (c_tsc c)).2 then Some (netpoll_max cfg, false) else None
  | _ => None
  end.

Definition event_of (t : port_type) : Z := match t with READ => EPOLLIN | WRITE => EPOLLOUT end.

(** What the two calls of [epoll_ctl] for [r] return. *)
Definition ctl_of i (r fd : Z) (t : port_type) : Netpoller.ctl :=
  let ev := Z.lor (Z.lor (event_of t) EPOLLET) EPOLLONESHOT in
  let '(e, err1) := sys_epoll_ctl (Netpoll.np_epoll i) EPOLL_CTL_MOD fd ev r in
  Netpoller.mk_ctl err1 (sys_epoll_ctl e EPOLL_CTL_ADD fd ev r).2.

Definition env_of (c : clocks) w i : env :=
  mk_env (c_tsc c) (c_tsc2 c) (c_now c) (fun n block => (sys_epoll_wait (Netpoll.np_epoll i) n block).2)
    (match awaited w with Some (r, fd, t) => ctl_of i r fd t | None => Netpoller.mk_ctl None None end).

(** What the step does to the poller. *)
Definition poller_step (c : clocks) w i : outcome Netpoll.impl :=
  match awaited w with
  | Some (r, fd, t) => do '(i, _) <- Netpoll.await (event_of t) i r fd;; Ret i
  | None =>
      match polled c w with
      | Some (n, block) => do '(i, _, _) <- Netpoll.impl_poll_into i (w_port w) n block;; Ret i
      | None => Ret i
      end
  end.

(** A worker with its poller, and the addresses of resumables so far. *)
Record system := mk_system { sy_used : gset Z; sy_worker : worker S; sy_poller : Netpoll.impl (E := E) }.

(** The worker runs; other threads enqueue builders, and wake the poller. *)
Inductive system_step : system -> system -> Prop :=
  | system_run c used w i w' i' :
      c_now c <= 2 ^ 62 ->
      run_step cfg (Netpoll.np_wakeup_fd i) body w (env_of c w i) = Ret w' -> poller_step c w i = Ret i' ->
      system_step (mk_system used w i) (mk_system used w' i')
  | system_arrive b input used w i :
      b ∉ used -> Netpoller.data_fd b <> Netpoll.np_wakeup_fd i -> SharedQueue.enqueue (w_input w) (Some b) = Ret input ->
      system_step (mk_system used w i) (mk_system (used ∪ {[b]}) (set_input w input (w_ready w) (w_tasks w)) i)
  | system_unblock used w i : system_step (mk_system used w i) (mk_system used w (Netpoll.impl_unblock_one i)).

Definition system_start (tsc : Z) i : system := mk_system ∅ (make cfg tsc) i.
End polling.

(** ** What a step does to the resumables epoll has *)
Section armed.
Context {S E : Type} `{timed_set S} `{epoll_api E} `{epoll_wait_api E}.
Context (cfg : config) (wakeup_fd : Z) (body : Z -> list result).
Import Worker.
Implicit Types (w : worker S) (e : env).

Definition reported e (n : Z) (block : bool) : list Z :=
  match e_wait e (Z.min n Netpoller.MAX_EVENTS) block with Netpoller.w_events ev => ev | _ => [] end.

Lemma poll_netpoller_armed w e n block w' : poll_netpoller wakeup_fd w e n block = Ret w' ->
  w_armed w' = filter (fun r => r ∉ reported e n block) (w_armed w) /\
  exists x, Netpoller.poll_into wakeup_fd (e_wait e) (w_port w) n block = Ret x.
Proof.
  unfold poll_netpoller. destruct (Netpoller.poll_into wakeup_fd (e_wait e) (w_port w) n block) as [[[port woken] cnt]| | | |]; try done.
  intros [= <-]. split; [done|by eexists].
Qed.

Lemma block_armed w r d now w' : block_resumable_on_sleep cfg w (Some r) d now = Ret w' -> w_armed w' = w_armed w.
Proof.
  unfold block_resumable_on_sleep. case_if; [by intros [= <-]|]. case_if; [done|].
  destruct (SleepQueue.enqueue _ _ _ _) as [[times sleep]| | | |]; try done. by intros [= <-].
Qed.

Lemma run_task_armed w r e w' : run_task cfg w (Some r) e = Ret w' -> exists g, w_tasks w !! r = Some g /\
  (forall fd t, (Generic.resume g).2 = blocked_port fd t -> exists armed, Netpoller.await_events (e_ctl e) = Ret armed) /\
  w_armed w' =
    match (Generic.resume g).2 with
    | blocked_port _ _ => match Netpoller.await_events (e_ctl e) with Ret true => w_armed w ++ [r] | _ => w_armed w end
    | _ => w_armed w
    end.
Proof.
  unfold run_task. destruct (w_tasks w !! r) as [g|]; [|done]. cbn [derefO bindO].
  destruct (Generic.resume g) as [g' res] eqn:Eg. intros E1. exists g. split; [done|]. rewrite Eg. cbn [snd].
  split.
  { intros fd t ->. unfold apply_result, Netpoller.await_readable, Netpoller.await_writable in E1.
    destruct (Netpoller.await_events (e_ctl e)) as [b| | | |], t; try done; by exists b. }
  destruct res as [fd t|d| |]; cbn [apply_result] in E1.
  - unfold Netpoller.await_readable, Netpoller.await_writable in E1.
    destruct (Netpoller.await_events (e_ctl e)) as [[]| | | |], t; cbn in E1; try done; by injection E1 as <-.
  - by apply block_armed in E1.
  - by injection E1 as <-.
  - by injection E1 as <-.
Qed.

Lemma spend_armed w e : w_armed (spend w e) = w_armed w.
Proof. unfold spend. destruct (Budget.adjust_spent _ _). by case_if. Qed.

(** A step that runs [r], at the head of the port or of the ready queue. *)
Lemma run_step_ran (c : clocks) w w0 (i : Netpoll.impl (E := E)) (r : Z) w' :
  running w = Some r -> w_tasks w0 = w_tasks w -> w_armed w0 = w_armed w ->
  run_task cfg w0 (Some r) (env_of c w i) = Ret w' ->
  w_armed w' =
    match awaited w with
    | Some (r, fd, t) => match Netpoller.await_events (ctl_of i r fd t) with Ret true => w_armed w ++ [r] | _ => w_armed w end
    | None => w_armed w
    end /\
  forall r fd t, awaited w = Some (r, fd, t) -> exists armed, Netpoller.await_events (ctl_of i r fd t) = Ret armed.
Proof.
  intros Hr Ht Ha E1. destruct (run_task_armed _ _ _ _ E1) as (g & Hg & Hok & ->). rewrite Ht in Hg.
  assert (awaited w = match (Generic.resume g).2 with blocked_port fd t => Some (r, fd, t) | _ => None end) as Haw.
  { unfold awaited. rewrite Hr. cbn [mbind option_bind]. by rewrite Hg. }
  unfold env_of in *. cbn [e_ctl] in *. rewrite Haw, Ha in *. destruct (Generic.resume g).2 as [fd t|d| |]; split; try done.
  intros r' fd' t' [= <- <- <-]. by apply (Hok fd t).
Qed.

(** The call of [poll_into], and what it leaves epoll with. *)
Lemma run_step_armed (c : clocks) w (i : Netpoll.impl (E := E)) w' :
  run_step cfg wakeup_fd body w (env_of c w i) = Ret w' ->
  w_armed w' =
    match awaited w with
    | Some (r, fd, t) => match Netpoller.await_events (ctl_of i r fd t) with Ret true => w_armed w ++ [r] | _ => w_armed w end
    | None =>
        match polled cfg c w with
        | Some (n, block) => filter (fun r => r ∉ reported (env_of c w i) n block) (w_armed w)
        | None => w_armed w
        end
    end /\
  (forall r fd t, awaited w = Some (r, fd, t) -> exists armed, Netpoller.await_events (ctl_of i r fd t) = Ret armed) /\
  (forall n block, polled cfg c w = Some (n, block) ->
     exists x, Netpoller.poll_into wakeup_fd (e_wait (env_of c w i)) (w_port w) n block = Ret x).
Proof.
  assert (forall l, w_label w = l -> l <> at_ports -> l <> at_ready -> awaited w = None) as Hno.
  { intros l Hl Hl1 Hl2. unfold awaited, running. rewrite Hl. by destruct l. }
  unfold run_step, polled. destruct (w_label w) eqn:Hl.
  - rewrite (Hno at_central) by done. unfold central.
    destruct (SharedQueue.dequeue_into _ _ _ _) as [[[input rdy] cnt]| | | |]; cbn [bindO w_spins w_sleep set_input]; try done.
    destruct ((cnt =? 0) && _) eqn:Hn; cbn [andb]; [|by intros [= <-]]. case_if; [|by intros [= <-]].
    intros E1. destruct (poll_netpoller_armed _ _ _ _ _ E1) as [-> Hx]. split_and!; [done..|]. by intros n block [= <- <-].
  - rewrite (Hno at_poll) by done. unfold poll. cbn [e_tsc env_of].
    destruct (Budget.adjust_spent (w_isol w) (c_tsc c)) as [isol []]; cbn [negb snd]; [|by intros [= <-]].
    destruct (poll_netpoller _ _ _ _ _) as [w1| | | |] eqn:Ep; cbn [bindO]; try done.
    destruct (SleepQueue.dequeue_into _ _ _ _) as [[[times sleep] rdy]| | | |]; cbn [bindO]; try done. intros [= <-].
    cbn [w_armed set_label]. destruct (poll_netpoller_armed _ _ _ _ _ Ep) as [Ha Hx].
    split_and!; [by case_if|done|]. by intros n block [= <- <-].
  - unfold ports. destruct (w_port w) as [|r port] eqn:Hp; cbn [WorkerQueue.is_empty].
    + intros [= <-]. unfold awaited, running. rewrite Hl, Hp. done.
    + cbn [w_port w_ready set_spins]. rewrite Hp. cbn [WorkerQueue.dequeue].
      destruct (run_task cfg _ _ _) as [w1| | | |] eqn:Er; cbn [bindO]; try done. intros [= <-]. rewrite spend_armed.
      apply (run_step_ran c w _ i r) in Er; [|unfold running; by rewrite Hl, Hp|done|done]. destruct Er as [-> Her]. split_and!; [by destruct (awaited w) as [[[]]|]|done..].
  - unfold ready. destruct (w_ready w) as [|r rdy] eqn:Hp; cbn [WorkerQueue.is_empty WorkerQueue.dequeue].
    + intros [= <-]. unfold awaited, running. rewrite Hl, Hp. done.
    + destruct (run_task cfg _ _ _) as [w1| | | |] eqn:Er; cbn [bindO]; try done. intros [= <-]. rewrite spend_armed.
      apply (run_step_ran c w _ i r) in Er; [|unfold running; by rewrite Hl, Hp|done|done]. destruct Er as [-> Her]. split_and!; [by destruct (awaited w) as [[[]]|]|done..].
  - rewrite (Hno at_carry) by done. intros [= <-]. unfold carry. by case_if.
Qed.
End armed.

(** ** Registrations and the resumables they name *)
Section registrations.
Context (wfd : Z).
Implicit Types (m : gmap Z (Z * Z)).

Lemma elem_of_parked m (d : Z) : d ∈ parked wfd m <-> exists fd fl, m !! fd = Some (fl, d) /\ held wfd (fl, d) = true.
Proof.
  unfold parked. rewrite list_elem_of_fmap. split.
  - intros ([fd [fl d']] & -> & Hin). apply elem_of_map_to_list, map_lookup_filter_Some in Hin as [Hm Hh]. by exists fd, fl.
  - intros (fd & fl & Hm & Hh). exists (fd, (fl, d)). split; [done|]. by apply elem_of_map_to_list, map_lookup_filter_Some.
Qed.

Lemma parked_delete_submseteq m (fd : Z) : parked wfd (delete fd m) ⊆+ parked wfd m.
Proof. apply fmap_submseteq, map_to_list_submseteq. rewrite map_filter_delete. apply delete_subseteq. Qed.

Lemma submseteq_NoDup (l k : list Z) : l ⊆+ k -> NoDup k -> NoDup l.
Proof. intros [l' ->]%submseteq_Permutation Hk. by apply list.NoDup_app in Hk as [Hl _]. Qed.

(** A resumable that is registered once has one descriptor. *)
Lemma parked_inj m (fd1 fd2 fl1 fl2 d : Z) : NoDup (parked wfd m) ->
  m !! fd1 = Some (fl1, d) -> m !! fd2 = Some (fl2, d) -> held wfd (fl1, d) = true -> held wfd (fl2, d) = true -> fd1 = fd2.
Proof.
  intros Hnd H1 H2 Hh1 Hh2. destruct (decide (fd1 = fd2)) as [|Hne]; [done|].
  rewrite (parked_delete wfd m fd1 (fl1, d) H1 Hh1) in Hnd. apply list.NoDup_cons in Hnd as [Hnd _].
  destruct Hnd. cbn [snd]. apply elem_of_parked. exists fd2, fl2. by rewrite lookup_delete_ne.
Qed.

Lemma parked_replace m (fd : Z) (x : Z * Z) : held wfd x = true ->
  parked wfd (<[fd := x]> m) ≡ₚ x.2 :: parked wfd (delete fd m).
Proof. intros Hx. rewrite <- insert_delete_eq. apply parked_insert; [intros y; by rewrite lookup_delete_eq|done]. Qed.

Lemma disarm_all_inv (fds : list Z) m (fd : Z) (x : Z * Z) : disarm_all fds m !! fd = Some x -> exists fl, m !! fd = Some (fl, x.2).
Proof.
  revert x. induction fds as [|fd' fds IH]; intros x Hx; [destruct x as [fl d]; by exists fl|].
  cbn in Hx. apply lookup_alter_Some in Hx as [(_ & y & Hy & ->)|[_ Hx]]; [|by apply IH]. by apply (IH y).
Qed.

(** What epoll reports, for registrations that name each resumable once and the
    wakeup descriptor only as itself. *)
Lemma report_distinct m (fds ds : list Z) : NoDup (parked wfd m) -> NoDup fds ->
  (forall fd x, m !! fd = Some x -> Netpoller.data_fd x.2 = wfd -> fd = wfd) ->
  Forall2 (fun fd d => exists fl, m !! fd = Some (fl, d) /\ armed fl = true) fds ds ->
  NoDup ds /\ forall d, d ∈ ds -> Netpoller.data_fd d = wfd \/ d ∈ parked wfd m.
Proof.
  intros Hnd Hfds Hw Hf. assert (forall fd fl d, m !! fd = Some (fl, d) -> armed fl = true ->
    Netpoller.data_fd d = wfd \/ held wfd (fl, d) = true) as Hh.
  { intros fd fl d Hm Ha. unfold held. cbn. rewrite Ha. destruct (Z.eqb_spec (Netpoller.data_fd d) wfd); [by left|by right]. }
  split.
  - apply NoDup_alt. intros j k d Hj Hk.
    destruct (Forall2_lookup_r _ _ _ _ _ Hf Hj) as (fd1 & H1 & fl1 & Hm1 & Ha1).
    destruct (Forall2_lookup_r _ _ _ _ _ Hf Hk) as (fd2 & H2 & fl2 & Hm2 & Ha2).
    assert (fd1 = fd2) as <-; [|by apply (NoDup_lookup fds j k fd1)].
    destruct (Hh fd1 fl1 d Hm1 Ha1) as [Hd|Hh1]; [by rewrite (Hw fd1 _ Hm1 Hd), (Hw fd2 _ Hm2 Hd)|].
    destruct (Hh fd2 fl2 d Hm2 Ha2) as [Hd|Hh2]; [by rewrite (Hw fd1 _ Hm1 Hd), (Hw fd2 _ Hm2 Hd)|].
    by apply (parked_inj m fd1 fd2 fl1 fl2 d).
  - intros d [k Hk]%list_elem_of_lookup. destruct (Forall2_lookup_r _ _ _ _ _ Hf Hk) as (fd & _ & fl & Hm & Ha).
    destruct (Hh fd fl d Hm Ha) as [?|?]; [by left|right]. apply elem_of_parked. by exists fd, fl.
Qed.
End registrations.

(** ** The invariant *)
Section invariant.
Context {S E : Type} `{timed_set_spec S} `{epoll_wait_spec E}.
Context (cfg : config) (body : Z -> list result).
Context (dequeue_max : 0 <= scheduler_dequeue_max cfg) (body_short : forall b, Forall short (body b)).
Import Worker.
Implicit Types (w : worker S) (i : Netpoll.impl (E := E)) (s : system (S := S) (E := E)).

Record system_ok (s : system) : Prop := {
  so_worker : worker_ok (Netpoll.np_wakeup_fd (sy_poller s)) (sy_used s) [] (sy_worker s);
  so_nodup : NoDup (parked_by (sy_poller s));
  so_armed r : (r ∈ parked_by (sy_poller s)) -> r ∈ w_armed (sy_worker s);
  so_shot : one_shot (Netpoll.np_wakeup_fd (sy_poller s)) (interest (Netpoll.np_epoll (sy_poller s)));
  so_wakeup fd x : interest (Netpoll.np_epoll (sy_poller s)) !! fd = Some x ->
    Netpoller.data_fd x.2 = Netpoll.np_wakeup_fd (sy_poller s) -> fd = Netpoll.np_wakeup_fd (sy_poller s)
}.

(** What Worker assumes of epoll. *)
Lemma env_of_ok s (c : clocks) : system_ok s -> c_now c <= 2 ^ 62 ->
  env_ok (Netpoll.np_wakeup_fd (sy_poller s)) (sy_worker s) (env_of c (sy_worker s) (sy_poller s)).
Proof.
  intros [_ Hnd Ha _ Hw] Hc. split; [|done]. intros n block ev. cbn [e_wait env_of].
  destruct (sys_epoll_wait (Netpoll.np_epoll (sy_poller s)) n block) as [e res] eqn:Hwait. cbn [snd]. intros ->.
  destruct (wait_events _ _ _ _ _ Hwait) as (fds & Hfds & _ & Hf).
  destruct (report_distinct _ _ fds ev Hnd Hfds Hw Hf) as [Hev Hin]. split; [done|].
  intros d Hd. destruct (Hin d Hd) as [?|?]; [by left|right]. by apply Ha.
Qed.

(** The resumable that runs is not armed. *)
Lemma awaited_fresh s r fd t : system_ok s -> awaited (sy_worker s) = Some (r, fd, t) ->
  (r ∉ parked_by (sy_poller s)) /\ Netpoller.data_fd r <> Netpoll.np_wakeup_fd (sy_poller s).
Proof.
  intros [Hok _ Ha _ _] Haw. destruct s as [used w i]. cbn [sy_used sy_worker sy_poller] in *. unfold awaited in Haw.
  destruct (running w) as [r'|] eqn:Hr; [|done]. cbn [mbind option_bind] in Haw.
  destruct (w_tasks w !! r') as [g|] eqn:Hg; [|done]. cbn [mbind option_bind] in Haw.
  destruct (Generic.resume g).2; try done. injection Haw as -> _ _. destruct Hok as [Ho _ _]. split.
  - intros Hin%Ha. pose proof (own_nodup _ _ _ _ _ Ho) as Hnd. apply list.NoDup_app in Hnd as [Hnd _]. unfold owned in Hnd. cbn [app] in Hnd.
    unfold running in Hr. destruct (w_label w); try done.
    + destruct (w_port w) as [|x l]; [done|]. injection Hr as ->. cbn in Hnd. apply list.NoDup_cons in Hnd as [Hnd _].
      apply Hnd. rewrite !list.elem_of_app. by do 3 right.
    + apply list.NoDup_app in Hnd as (_ & _ & Hnd). destruct (w_ready w) as [|x l]; [done|]. injection Hr as ->.
      cbn in Hnd. apply list.NoDup_cons in Hnd as [Hnd _]. apply Hnd. rewrite !list.elem_of_app. by do 2 right.
  - apply (own_fd _ _ _ _ _ Ho), (own_used _ _ _ _ _ Ho). right. by exists g.
Qed.
End invariant.

Section steps.
Context {S E : Type} `{timed_set_spec S} `{epoll_wait_spec E}.
Context (cfg : config) (body : Z -> list result).
Context (dequeue_max : 0 <= scheduler_dequeue_max cfg) (body_short : forall b, Forall short (body b)).
Import Worker.
Implicit Types (w : worker S) (i : Netpoll.impl (E := E)) (s : system (S := S) (E := E)).

(** What a step leaves the poller with. *)
Record poller_after (c : clocks) w i w' i' : Prop := {
  pa_fd : Netpoll.np_wakeup_fd i' = Netpoll.np_wakeup_fd i;
  pa_nodup : NoDup (parked_by i');
  pa_armed r : (r ∈ parked_by i') -> r ∈ w_armed w';
  pa_shot : one_shot (Netpoll.np_wakeup_fd i) (interest (Netpoll.np_epoll i'));
  pa_wakeup fd x : interest (Netpoll.np_epoll i') !! fd = Some x ->
    Netpoller.data_fd x.2 = Netpoll.np_wakeup_fd i -> fd = Netpoll.np_wakeup_fd i
}.

Lemma await_agrees i r fd t armed : Netpoller.await_events (ctl_of i r fd t) = Ret armed ->
  exists i', Netpoll.await (event_of t) i r fd = Ret (i', armed).
Proof.
  intros Hc. pose proof (await_as_worker (event_of t) i r fd) as Hw. unfold ctl_of in Hc.
  destruct (sys_epoll_ctl (Netpoll.np_epoll i) EPOLL_CTL_MOD fd _ r) as [e1 err1].
  destruct (sys_epoll_ctl e1 EPOLL_CTL_ADD fd _ r) as [e2 err2]. cbn [snd] in Hc. rewrite Hc in Hw.
  destruct (Netpoll.await (event_of t) i r fd) as [[i' b]| | | |]; try done. cbn in Hw. injection Hw as ->. by exists i'.
Qed.

Lemma after_await s (c : clocks) w' r fd t : system_ok s -> awaited (sy_worker s) = Some (r, fd, t) ->
  run_step cfg (Netpoll.np_wakeup_fd (sy_poller s)) body (sy_worker s) (env_of c (sy_worker s) (sy_poller s)) = Ret w' ->
  exists i', poller_step cfg c (sy_worker s) (sy_poller s) = Ret i' /\ poller_after c (sy_worker s) (sy_poller s) w' i'.
Proof.
  intros Hok Haw Hrun. destruct (awaited_fresh s r fd t Hok Haw) as [Hfresh Hfd].
  destruct Hok as [_ Hnd Ha Hshot Hwake]. destruct s as [used w i]. cbn [sy_used sy_worker sy_poller] in *.
  destruct (run_step_armed _ _ _ _ _ _ _ Hrun) as (Hw' & Hctl & _). destruct (Hctl _ _ _ Haw) as [armed Harmed].
  rewrite Haw, Harmed in Hw'. destruct (await_agrees i r fd t armed Harmed) as [i' Hi']. exists i'.
  split; [unfold poller_step; by rewrite Haw, Hi'|]. destruct (await_cases _ _ _ _ _ _ Hi') as [Hp Hint].
  assert (event_of t = EPOLLIN \/ event_of t = EPOLLOUT) as Hev by (destruct t; [by left|by right]).
  destruct (oneshot_events (event_of t) r _ Hev Hfd) as [Hh Hb].
  destruct armed; [|split; unfold parked_by; rewrite ?Hp, ?Hint; try done; intros r'; rewrite Hw'; apply Ha].
  pose proof (parked_replace (Netpoll.np_wakeup_fd i) (interest (Netpoll.np_epoll i)) fd _ Hh) as Hpr.
  pose proof (parked_delete_submseteq (Netpoll.np_wakeup_fd i) (interest (Netpoll.np_epoll i)) fd) as Hsub.
  split; unfold parked_by; rewrite ?Hp, ?Hint; [done|..].
  - rewrite Hpr. cbn [snd]. apply list.NoDup_cons. split; [|by eapply submseteq_NoDup].
    intros Hin. apply Hfresh. by eapply elem_of_submseteq.
  - intros r'. rewrite Hpr. cbn [snd]. intros [->|Hin]%elem_of_cons; rewrite Hw'; apply list.elem_of_app; [right; by apply list_elem_of_singleton|left].
    apply Ha. by eapply elem_of_submseteq.
  - apply map_Forall_insert_2; [by right|done].
  - intros fd' x [[<- <-]|[_ Hx]]%lookup_insert_Some; [done|by apply Hwake].
Qed.

Lemma after_poll s (c : clocks) w' n block : system_ok s -> awaited (sy_worker s) = None -> polled cfg c (sy_worker s) = Some (n, block) ->
  run_step cfg (Netpoll.np_wakeup_fd (sy_poller s)) body (sy_worker s) (env_of c (sy_worker s) (sy_poller s)) = Ret w' ->
  exists i', poller_step cfg c (sy_worker s) (sy_poller s) = Ret i' /\ poller_after c (sy_worker s) (sy_poller s) w' i'.
Proof.
  intros [_ Hnd Ha Hshot Hwake] Haw Hpoll Hrun. destruct s as [used w i]. cbn [sy_used sy_worker sy_poller] in *.
  destruct (run_step_armed _ _ _ _ _ _ _ Hrun) as (Hw' & _ & Hres). destruct (Hres n block Hpoll) as [res Ex]. rewrite Haw, Hpoll in Hw'. unfold poller_step. rewrite Haw, Hpoll.
  unfold reported, Netpoller.poll_into in *. cbn [e_wait env_of] in *. unfold Netpoll.impl_poll_into.
  destruct (sys_epoll_wait (Netpoll.np_epoll i) (Z.min n Netpoller.MAX_EVENTS) block) as [e [ds|err]] eqn:Hwait; cbn [snd] in *.
  - destruct (wait_events _ _ _ _ _ Hwait) as (fds & Hfds & Hint & Hf).
    destruct (collect_ok (Netpoll.np_wakeup_fd i) ds (w_port w) false) as [woken ->]. eexists. split; [reflexivity|].
    pose proof (parked_report _ _ fds ds Hfds Hshot Hf) as Hp.
    unfold parked_by in *. rewrite Hp in Hnd. apply list.NoDup_app in Hnd as (_ & Hdisj & Hnd).
    split; unfold parked_by; cbn [Netpoll.np_wakeup_fd Netpoll.np_epoll]; rewrite ?Hint; [done|done|..].
    + intros r Hr. rewrite Hw'. apply list_elem_of_filter. split.
      * intros Hds. apply (Hdisj r); [|done]. apply list_elem_of_filter. split; [|done].
        apply elem_of_parked in Hr as (fd & fl & _ & Hh). unfold held in Hh. cbn in Hh. lia.
      * apply Ha. rewrite Hp. apply list.elem_of_app. by right.
    + by apply one_shot_disarm_all.
    + intros fd x Hfx Hd. destruct (disarm_all_inv fds _ fd x Hfx) as [fl Hm]. by apply (Hwake fd (fl, x.2)).
  - destruct (err =? Netpoller.EINTR); [|done]. eexists. split; [reflexivity|]. pose proof (wait_errno _ _ _ _ _ Hwait) as Hint.
    split; unfold parked_by in *; cbn [Netpoll.np_wakeup_fd Netpoll.np_epoll Netpoll.with_epoll]; rewrite ?Hint; try done.
    intros r Hr. rewrite Hw'. apply list_elem_of_filter. split; [apply not_elem_of_nil|by apply Ha].
Qed.

Lemma after_none s (c : clocks) w' : system_ok s -> awaited (sy_worker s) = None -> polled cfg c (sy_worker s) = None ->
  run_step cfg (Netpoll.np_wakeup_fd (sy_poller s)) body (sy_worker s) (env_of c (sy_worker s) (sy_poller s)) = Ret w' ->
  exists i', poller_step cfg c (sy_worker s) (sy_poller s) = Ret i' /\ poller_after c (sy_worker s) (sy_poller s) w' i'.
Proof.
  intros [_ Hnd Ha Hshot Hwake] Haw Hpoll Hrun. destruct (run_step_armed _ _ _ _ _ _ _ Hrun) as [Hw' _].
  unfold poller_step. rewrite Haw, Hpoll in *. eexists. split; [reflexivity|]. split; try done. intros r. rewrite Hw'. apply Ha.
Qed.

Lemma system_run_ok s (c : clocks) w' : system_ok s -> c_now c <= 2 ^ 62 ->
  run_step cfg (Netpoll.np_wakeup_fd (sy_poller s)) body (sy_worker s) (env_of c (sy_worker s) (sy_poller s)) = Ret w' ->
  exists i', poller_step cfg c (sy_worker s) (sy_poller s) = Ret i' /\ system_ok (mk_system (sy_used s) w' i').
Proof.
  intros Hok Hc Hrun.
  assert (exists i', poller_step cfg c (sy_worker s) (sy_poller s) = Ret i' /\ poller_after c (sy_worker s) (sy_poller s) w' i')
    as (i' & Hi & [Hp Hnd Ha Hshot Hwake]).
  { destruct (awaited (sy_worker s)) as [[[r fd] t]|] eqn:Haw; [by eapply after_await|].
    destruct (polled cfg c (sy_worker s)) as [[n block]|] eqn:Hpoll; [by eapply after_poll|by eapply after_none]. }
  exists i'. split; [done|]. split; cbn [sy_used sy_worker sy_poller]; rewrite ?Hp; try done.
  pose proof (run_step_ok cfg _ body body_short (sy_used s) (sy_worker s) _ dequeue_max (so_worker s Hok) (env_of_ok s c Hok Hc)) as Hsafe.
  by rewrite Hrun in Hsafe.
Qed.

Lemma system_step_ok s s' : system_step cfg body s s' -> system_ok s -> system_ok s'.
Proof.
  intros [c used w i w' i' Hc Hrun Hi|b input used w i Hb Hfd Hin|used w i] Hok.
  - destruct (system_run_ok _ c w' Hok Hc Hrun) as (i2 & Hi2 & Hok2). cbn [sy_worker sy_poller sy_used] in *. congruence.
  - destruct Hok as [Hw Hnd Ha Hshot Hwake]. split; try done. cbn [sy_used sy_worker sy_poller] in *.
    by apply (arrive_ok _ body body_short).
  - destruct Hok as [Hw Hnd Ha Hshot Hwake]. by split.
Qed.

Lemma system_start_ok (tsc wakeup_fd junk : Z) (e0 : E) i : interest e0 = ∅ -> - 2 ^ 31 <= wakeup_fd < 2 ^ 31 ->
  Netpoll.impl_new e0 wakeup_fd junk = Ret i -> system_ok (system_start cfg tsc i).
Proof.
  intros He Hfd Hn. assert (np_ok (mk_state i [] [] [])) as [Hshot Hp].
  { apply (impl_new_ok e0 wakeup_fd junk); [|done..]. rewrite He. apply map_Forall_empty. }
  unfold parked_by in Hp. cbn [st_impl st_queue st_dropped st_handed] in *. rewrite !app_nil_r in Hp. symmetry in Hp. apply Permutation_nil in Hp.
  unfold system_start. split; unfold parked_by; cbn [sy_used sy_worker sy_poller]; [apply (make_ok cfg _ body body_short)|by rewrite Hp; apply NoDup_nil_2|by rewrite Hp|done|].
  unfold Netpoll.impl_new in Hn. destruct (sys_epoll_ctl e0 EPOLL_CTL_ADD wakeup_fd _ _) as [e1 [|]] eqn:E1; [done|]. injection Hn as <-.
  destruct (ctl_add_ok _ _ _ _ _ E1) as [_ Hi]. cbn. rewrite Hi, He. intros fd x [[<- _]|[_ Hx]]%lookup_insert_Some _; [done|].
  by rewrite lookup_empty in Hx.
Qed.
End steps.

(** ** Properties *)

(** C5: a worker that runs on its own poller, over any epoll that keeps its
    documentation: whatever its resumables yield, whenever descriptors become
    ready and other threads spawn, it never has a resumable in two places, all it
    has and all that epoll may still report are alive and not running, so that
    none is resumed that was destroyed; and each step of [run()] completes, on the
    worker and on the poller alike, or the program ends at a system call that
    failed.  What is assumed of the inputs of a step in Worker holds here. *)
Theorem worker_on_its_poller {S E : Type} `{timed_set_spec S} `{epoll_wait_spec E} (cfg : config) (body : Z -> list result)
    (tsc wakeup_fd junk : Z) (e0 : E) (i0 : Netpoll.impl) (s : system (S := S)) (c : clocks) :
  0 <= scheduler_dequeue_max cfg -> (forall b, Forall short (body b)) ->
  interest e0 = ∅ -> - 2 ^ 31 <= wakeup_fd < 2 ^ 31 -> Netpoll.impl_new e0 wakeup_fd junk = Ret i0 ->
  rtc (system_step cfg body) (system_start cfg tsc i0) s -> c_now c <= 2 ^ 62 ->
  let w := sy_worker s in let i := sy_poller s in
  let run := Worker.run_step cfg (Netpoll.np_wakeup_fd i) body w (env_of c w i) in
  NoDup (owned w) /\
  (forall r, r ∈ owned w \/ r ∈ parked_by i -> exists g, w_tasks w !! r = Some g /\ Generic.gr_is_running g = false) /\
  (run = Abort \/ exists w' i', run = Ret w' /\ poller_step cfg c w i = Ret i').
Proof.
  intros Hmax Hs He Hfd Hnew Hr Hc w i run.
  assert (system_ok s) as Hok.
  { revert Hr. apply (rtc_invariant (system_step cfg body) system_ok); [intros s1 s2; by apply (system_step_ok cfg body Hmax Hs)|].
    by apply (system_start_ok cfg body Hs tsc wakeup_fd junk e0). }
  destruct (so_worker s Hok) as [Ho _ _]. split_and!.
  - pose proof (own_nodup _ _ _ _ _ Ho) as Hn. by apply list.NoDup_app in Hn as [Hn _].
  - intros r Hin. apply (own_live _ _ _ _ _ Ho). destruct Hin as [Hin|Hin]; [done|]. apply (so_armed s Hok) in Hin.
    cbn [app]. unfold owned. rewrite !list.elem_of_app. by do 3 right.
  - subst run w i. pose proof (run_step_ok cfg _ body Hs (sy_used s) (sy_worker s) _ Hmax (so_worker s Hok) (env_of_ok s c Hok Hc)) as Hsafe.
    destruct (Worker.run_step cfg _ body _ _) as [w'| | | |] eqn:Hrun; try done; [right|by left].
    destruct (system_run_ok cfg body Hmax Hs s c w' Hok Hc Hrun) as (i' & Hi & _). by exists w', i'.
Qed.

(** ** A worker on an epoll whose reports are scripted *)

(** A resumable that reads descriptor 7 and then is done. *)
Definition ex_read_body (b : Z) : list result := [blocked_port 7 READ].
Definition ex_clocks : clocks := mk_clocks 0 0 0.
Definition ex_poller_epoll : gmap Z (Z * Z) * list (list Z) := (∅, [[]; [7]]).

Fixpoint run_system (n : nat) (w : worker (list Z)) (i : Netpoll.impl (E := gmap Z (Z * Z) * list (list Z)))
    : option (worker (list Z) * Netpoll.impl) :=
  match n with
  | O => Some (w, i)
  | Datatypes.S n =>
      match Worker.run_step DEFAULT_CONFIG (Netpoll.np_wakeup_fd i) ex_read_body w (env_of ex_clocks w i), poller_step DEFAULT_CONFIG ex_clocks w i with
      | Ret w, Ret i => run_system n w i
      | _, _ => None
      end
  end.

Lemma run_system_steps (n : nat) (used : gset Z) w i w' i' : run_system n w i = Some (w', i') ->
  rtc (system_step DEFAULT_CONFIG ex_read_body) (mk_system used w i) (mk_system used w' i').
Proof.
  revert w i. induction n as [|n IH]; intros w i; cbn [run_system]; [intros [= <- <-]; apply rtc_refl|].
  destruct (Worker.run_step _ _ _ _ _) as [w1| | | |] eqn:Hw; try done.
  destruct (poller_step _ _ _ _) as [i1| | | |] eqn:Hi; try done. intros Hn.
  eapply rtc_l; [|by apply IH]. by apply (system_run _ _ ex_clocks).
Qed.

(** The builder 4096 arrives, is built and run until it waits for its descriptor. *)
Definition ex_system : option (worker (list Z) * Netpoll.impl) :=
  match Netpoll.impl_new ex_poller_epoll 5 0 with
  | Ret i =>
      let w := Worker.make DEFAULT_CONFIG 0 in
      run_system 7 (Worker.set_input w [4096] (w_ready w) (w_tasks w)) i
  | _ => None
  end.

Example polling_ex : (x ← ex_system; Some (w_armed x.1, parked_by x.2, w_label x.1)) = Some ([4096], [4096], at_poll).
Proof. vm_compute. reflexivity. Qed.

(** Its descriptor became ready: the next step puts it into the port queue. *)
Lemma worker_on_its_poller_witness :
  match ex_system with
  | Some (w, i) => NoDup (owned w) /\ (forall r, (r ∈ owned w) \/ r ∈ parked_by i -> is_Some (w_tasks w !! r))
  | None => False
  end.
Proof.
  destruct ex_system as [[w i]|] eqn:Hs; [|vm_compute in Hs; discriminate].
  unfold ex_system in Hs. destruct (Netpoll.impl_new ex_poller_epoll 5 0) as [i0| | | |] eqn:Hn; try discriminate Hs.
  destruct (worker_on_its_poller DEFAULT_CONFIG ex_read_body 0 5 0 ex_poller_epoll i0 (mk_system {[4096]} w i) ex_clocks) as (H1 & H2 & _).
  - reflexivity || (cbn; lia).
  - intros b. by repeat constructor.
  - reflexivity.
  - lia.
  - exact Hn.
  - eapply rtc_l; [|exact (run_system_steps 7 {[4096]} _ _ w i Hs)].
    replace ({[4096]} : gset Z) with (∅ ∪ {[4096]} : gset Z) by (by rewrite (left_id_L ∅ (∪))).
    apply system_arrive; [apply not_elem_of_empty| |reflexivity].
    unfold Netpoll.impl_new in Hn. cbn in Hn. injection Hn as <-. cbn [Netpoll.np_wakeup_fd]. discriminate.
  - cbn. lia.
  - split; [exact H1|]. intros r Hr. destruct (H2 r Hr) as (g & Hg & _). by exists g.
Defined.
